(** * tibia-web: the query-manager gateway (common.go, query.go)

    A shallow embedding of the byte codec, the Latin-1 transcoder, the
    connection / query executor and the cache layer of the web server,
    together with the properties its specification states about them.

    Conventions of the embedding.
    - A Go [byte], [uint16], [uint32], [int] or [rune] is a [Z]; the
      conversions [uint8], [uint16], [uint32] write the wrap-around out.
    - A Go [[]byte] and a Go [string] are lists of byte values.
    - A method with a pointer receiver takes the pointed-to record and
      returns the updated one.
    - Logging ([g_Log], [g_LogErr]) has no effect on any value and is
      left out.  The mutex [g_QueryManagerMutex] serialises the callers;
      the embedding is the sequential behaviour of one caller holding it. *)

From Stdlib Require Import ZArith Lia List Bool.
From stdpp Require Import base tactics option list numbers sorting.
From Equations Require Import Equations.
Import ListNotations.

Local Open Scope Z_scope.

(** ** Integer conversions *)

Definition uint8 (x : Z) : Z := x mod 256.
Definition uint16 (x : Z) : Z := x mod 65536.
Definition uint32 (x : Z) : Z := x mod 4294967296.

(** [b[i]] for an index known to be in range; the codec guards every
    access with [CanRead] / [CanWrite]. *)
Definition at_index (b : list Z) (i : nat) : Z := default 0 (b !! i).

(** ** encoding/binary *)

Definition LittleEndian_Uint16 (b : list Z) : Z :=
  Z.lor (at_index b 0) (Z.shiftl (at_index b 1) 8).

Definition LittleEndian_Uint32 (b : list Z) : Z :=
  Z.lor (Z.lor (Z.lor (at_index b 0) (Z.shiftl (at_index b 1) 8))
               (Z.shiftl (at_index b 2) 16))
        (Z.shiftl (at_index b 3) 24).

Definition BigEndian_Uint16 (b : list Z) : Z :=
  Z.lor (at_index b 1) (Z.shiftl (at_index b 0) 8).

Definition BigEndian_Uint32 (b : list Z) : Z :=
  Z.lor (Z.lor (Z.lor (at_index b 3) (Z.shiftl (at_index b 2) 8))
               (Z.shiftl (at_index b 1) 16))
        (Z.shiftl (at_index b 0) 24).

(** The bytes that [PutUintNN] stores, in storing order. *)
Definition LittleEndian_bytes16 (v : Z) : list Z :=
  [uint8 v; uint8 (Z.shiftr v 8)].

Definition LittleEndian_bytes32 (v : Z) : list Z :=
  [uint8 v; uint8 (Z.shiftr v 8); uint8 (Z.shiftr v 16); uint8 (Z.shiftr v 24)].

Definition BigEndian_bytes16 (v : Z) : list Z :=
  [uint8 (Z.shiftr v 8); uint8 v].

Definition BigEndian_bytes32 (v : Z) : list Z :=
  [uint8 (Z.shiftr v 24); uint8 (Z.shiftr v 16); uint8 (Z.shiftr v 8); uint8 v].

(** Go's builtin [copy(dst, src)] with [dst = buf[off:]]: it copies
    [min (len dst) (len src)] elements and leaves the rest of [buf]. *)
Definition copy_at (buf : list Z) (off : nat) (src : list Z) : list Z :=
  take off buf ++ take (length buf - off) src ++ drop (off + length src) buf.

(** ** unicode/utf8 (Go standard library) *)

Module utf8.

Definition RuneError : Z := 0xFFFD.
Definition MaxRune : Z := 0x10FFFF.

Definition RuneStart (b : Z) : bool := negb (Z.land b 0xC0 =? 0x80).

(** The table [first]: information about the first byte of an encoding. *)
Definition first (b : Z) : Z :=
  if b <? 0x80 then 0xF0
  else if b <? 0xC2 then 0xF1
  else if b <? 0xE0 then 0x02
  else if b =? 0xE0 then 0x13
  else if b <? 0xED then 0x03
  else if b =? 0xED then 0x23
  else if b <? 0xF0 then 0x03
  else if b =? 0xF0 then 0x34
  else if b <? 0xF4 then 0x04
  else if b =? 0xF4 then 0x44
  else 0xF1.

(** The table [acceptRanges]: bounds of the second byte. *)
Definition acceptRanges (i : Z) : Z * Z :=
  if i =? 0 then (0x80, 0xBF)
  else if i =? 1 then (0xA0, 0xBF)
  else if i =? 2 then (0x80, 0x9F)
  else if i =? 3 then (0x90, 0xBF)
  else if i =? 4 then (0x80, 0x8F)
  else (0, 0).

Definition DecodeRune (p : list Z) : Z * nat :=
  match p with
  | [] => (RuneError, 0%nat)
  | p0 :: _ =>
    let x := first p0 in
    if 0xF0 <=? x then
      (if x =? 0xF0 then p0 else RuneError, 1%nat)
    else
      let sz := Z.to_nat (Z.land x 7) in
      let accept := acceptRanges (Z.shiftr x 4) in
      if (length p <? sz)%nat then (RuneError, 1%nat)
      else
        let b1 := at_index p 1 in
        if (b1 <? fst accept) || (snd accept <? b1) then (RuneError, 1%nat)
        else if (sz <=? 2)%nat then
          (Z.lor (Z.shiftl (Z.land p0 0x1F) 6) (Z.land b1 0x3F), 2%nat)
        else
          let b2 := at_index p 2 in
          if (b2 <? 0x80) || (0xBF <? b2) then (RuneError, 1%nat)
          else if (sz <=? 3)%nat then
            (Z.lor (Z.lor (Z.shiftl (Z.land p0 0x0F) 12)
                          (Z.shiftl (Z.land b1 0x3F) 6))
                   (Z.land b2 0x3F), 3%nat)
          else
            let b3 := at_index p 3 in
            if (b3 <? 0x80) || (0xBF <? b3) then (RuneError, 1%nat)
            else
              (Z.lor (Z.lor (Z.lor (Z.shiftl (Z.land p0 0x07) 18)
                                   (Z.shiftl (Z.land b1 0x3F) 12))
                            (Z.shiftl (Z.land b2 0x3F) 6))
                     (Z.land b3 0x3F), 4%nat)
  end.

(** [AppendRune p r], for a rune held in a signed 32-bit [r]. *)
Definition AppendRune (p : list Z) (r : Z) : list Z :=
  let i := uint32 r in
  if i <=? 0x7F then p ++ [uint8 r]
  else if i <=? 0x7FF then
    p ++ [Z.lor 0xC0 (uint8 (Z.shiftr r 6));
          Z.lor 0x80 (Z.land (uint8 r) 0x3F)]
  else
    let bad := (MaxRune <? i) || ((0xD800 <=? i) && (i <=? 0xDFFF)) in
    let r := if bad then RuneError else r in
    if bad || (i <=? 0xFFFF) then
      p ++ [Z.lor 0xE0 (uint8 (Z.shiftr r 12));
            Z.lor 0x80 (Z.land (uint8 (Z.shiftr r 6)) 0x3F);
            Z.lor 0x80 (Z.land (uint8 r) 0x3F)]
    else
      p ++ [Z.lor 0xF0 (uint8 (Z.shiftr r 18));
            Z.lor 0x80 (Z.land (uint8 (Z.shiftr r 12)) 0x3F);
            Z.lor 0x80 (Z.land (uint8 (Z.shiftr r 6)) 0x3F);
            Z.lor 0x80 (Z.land (uint8 r) 0x3F)].

End utf8.

(** ** Text transcoder (common.go) *)

(** The loop of [UTF8FindNextLeadingByte]; [rest] is [Buffer[Offset:]]. *)
Fixpoint UTF8FindNextLeadingByte_loop (rest : list Z) (Offset : nat) : nat :=
  match rest with
  | [] => Offset
  | b :: rest' =>
    if (0 <? Offset)%nat && utf8.RuneStart b then Offset
    else UTF8FindNextLeadingByte_loop rest' (S Offset)
  end.

Definition UTF8FindNextLeadingByte (Buffer : list Z) : nat :=
  UTF8FindNextLeadingByte_loop Buffer 0.

(** One iteration of the loop of [UTF8ToLatin1] on [Buffer[ReadPos:]]:
    the increment of [ReadPos] and the byte appended to [Result]. *)
Definition UTF8ToLatin1_step (rest : list Z) : nat * Z :=
  let '(Codepoint, Size) := utf8.DecodeRune rest in
  (if negb (Codepoint =? utf8.RuneError) then Size
   else UTF8FindNextLeadingByte rest,
   if (0 <=? Codepoint) && (Codepoint <=? 0xFF) then uint8 Codepoint
   else 63).

Lemma DecodeRune_size_pos (p : list Z) :
  p <> [] -> (1 <= snd (utf8.DecodeRune p))%nat.
Proof.
  destruct p as [|p0 p]; [congruence|]. intros _.
  unfold utf8.DecodeRune.
  repeat match goal with
         | |- context [if ?c then _ else _] => destruct c
         end; simpl; lia.
Qed.

Lemma UTF8FindNextLeadingByte_loop_ge (rest : list Z) (Offset : nat) :
  (Offset <= UTF8FindNextLeadingByte_loop rest Offset)%nat.
Proof.
  revert Offset. induction rest as [|b rest IH]; intros Offset; simpl; [lia|].
  destruct ((0 <? Offset)%nat && utf8.RuneStart b); [lia|].
  specialize (IH (S Offset)). lia.
Qed.

Lemma UTF8FindNextLeadingByte_pos (Buffer : list Z) :
  Buffer <> [] -> (1 <= UTF8FindNextLeadingByte Buffer)%nat.
Proof.
  destruct Buffer as [|b rest]; [congruence|]. intros _.
  unfold UTF8FindNextLeadingByte. simpl.
  apply (UTF8FindNextLeadingByte_loop_ge rest 1).
Qed.

Lemma UTF8ToLatin1_step_pos (rest : list Z) :
  rest <> [] -> (1 <= fst (UTF8ToLatin1_step rest))%nat.
Proof.
  intros Hne. unfold UTF8ToLatin1_step.
  pose proof (DecodeRune_size_pos rest Hne) as Hsz.
  pose proof (UTF8FindNextLeadingByte_pos rest Hne) as Hnx.
  destruct (utf8.DecodeRune rest) as [Codepoint Size]. simpl in *.
  destruct (negb (Codepoint =? utf8.RuneError)); assumption.
Qed.

Lemma drop_nonempty (Buffer : list Z) (ReadPos : nat) :
  (ReadPos < length Buffer)%nat -> drop ReadPos Buffer <> [].
Proof.
  intros Hlt Heq. apply (f_equal length) in Heq.
  rewrite length_drop in Heq. simpl in Heq. lia.
Qed.

(** The loop of [UTF8ToLatin1]: it runs while [ReadPos < len(Buffer)],
    and every iteration moves [ReadPos] forward. *)
Equations? UTF8ToLatin1_loop (Buffer : list Z) (ReadPos : nat) (Result : list Z)
  : list Z by wf (length Buffer - ReadPos)%nat lt :=
  UTF8ToLatin1_loop Buffer ReadPos Result with decide (ReadPos < length Buffer)%nat => {
    | right _ := Result
    | left Hlt :=
        UTF8ToLatin1_loop Buffer
          (ReadPos + fst (UTF8ToLatin1_step (drop ReadPos Buffer)))%nat
          (Result ++ [snd (UTF8ToLatin1_step (drop ReadPos Buffer))]) }.
Proof.
  pose proof (UTF8ToLatin1_step_pos _ (drop_nonempty Buffer ReadPos Hlt)). lia.
Qed.

Definition UTF8ToLatin1 (Buffer : list Z) : list Z :=
  UTF8ToLatin1_loop Buffer 0 [].

Definition Latin1ToUTF8 (Buffer : list Z) : list Z :=
  fold_left utf8.AppendRune Buffer [].

(** ** Outcomes

    A Go function either returns or panics.  [OutOfFuel] is the bound of
    the embedding's own loop counter; the totality lemmas below show that
    it is never the outcome of the code. *)

Inductive outcome (A : Type) : Type :=
| Done (a : A)
| Panic
| OutOfFuel.
Arguments Done {A} a.
Arguments Panic {A}.
Arguments OutOfFuel {A}.

#[global] Instance outcome_ret : MRet outcome := fun A a => Done a.

#[global] Instance outcome_bind : MBind outcome := fun A B k m =>
  match m with
  | Done a => k a
  | Panic => Panic
  | OutOfFuel => OutOfFuel
  end.

(** ** TReadBuffer (common.go) *)

Module TReadBuffer.

Record t : Type := Build { Buffer : list Z; Position : Z }.

(** The zero value [TReadBuffer{}]. *)
Definition zero : t := {| Buffer := []; Position := 0 |}.

Definition CanRead (rb : t) (Bytes : Z) : bool :=
  Position rb + Bytes <=? Z.of_nat (length (Buffer rb)).

Definition Overflowed (rb : t) : bool :=
  Z.of_nat (length (Buffer rb)) <? Position rb.

Definition advance (rb : t) (n : Z) : t :=
  {| Buffer := Buffer rb; Position := Position rb + n |}.

(** [ReadBuffer.Buffer[ReadBuffer.Position:]] *)
Definition tail (rb : t) : list Z := drop (Z.to_nat (Position rb)) (Buffer rb).

Definition Read8 (rb : t) : Z * t :=
  (if CanRead rb 1 then at_index (Buffer rb) (Z.to_nat (Position rb)) else 0,
   advance rb 1).

Definition ReadFlag (rb : t) : bool * t :=
  let '(v, rb) := Read8 rb in (negb (v =? 0), rb).

Definition Read16 (rb : t) : Z * t :=
  (if CanRead rb 2 then LittleEndian_Uint16 (tail rb) else 0, advance rb 2).

Definition Read16BE (rb : t) : Z * t :=
  (if CanRead rb 2 then BigEndian_Uint16 (tail rb) else 0, advance rb 2).

Definition Read32 (rb : t) : Z * t :=
  (if CanRead rb 4 then LittleEndian_Uint32 (tail rb) else 0, advance rb 4).

Definition Read32BE (rb : t) : Z * t :=
  (if CanRead rb 4 then BigEndian_Uint32 (tail rb) else 0, advance rb 4).

Definition ReadString (rb : t) : list Z * t :=
  let '(Length, rb) := Read16 rb in
  let '(Length, rb) :=
    if Length =? 0xFFFF then Read32 rb else (Length, rb) in
  (if CanRead rb Length
   then Latin1ToUTF8 (take (Z.to_nat Length) (tail rb))
   else [],
   advance rb Length).

Definition ReadBytes (rb : t) (Count : Z) : list Z * t :=
  (if CanRead rb Count then take (Z.to_nat Count) (tail rb) else [],
   advance rb Count).

End TReadBuffer.

(** ** TWriteBuffer (common.go) *)

Module TWriteBuffer.

Record t : Type := Build { Buffer : list Z; Position : Z }.

Definition CanWrite (wb : t) (Bytes : Z) : bool :=
  Position wb + Bytes <=? Z.of_nat (length (Buffer wb)).

Definition Overflowed (wb : t) : bool :=
  Z.of_nat (length (Buffer wb)) <? Position wb.

(** Store [bytes] at [Buffer[Position:]] when [guard] holds, then move
    the cursor by [n] whether or not anything was stored. *)
Definition put (wb : t) (guard : bool) (bytes : list Z) (n : Z) : t :=
  {| Buffer := if guard
               then copy_at (Buffer wb) (Z.to_nat (Position wb)) bytes
               else Buffer wb;
     Position := Position wb + n |}.

Definition Write8 (wb : t) (Value : Z) : t :=
  {| Buffer := if CanWrite wb 1
               then <[Z.to_nat (Position wb) := Value]> (Buffer wb)
               else Buffer wb;
     Position := Position wb + 1 |}.

Definition WriteFlag (wb : t) (Value : bool) : t :=
  Write8 wb (if Value then 1 else 0).

Definition Write16 (wb : t) (Value : Z) : t :=
  put wb (CanWrite wb 2) (LittleEndian_bytes16 Value) 2.

Definition Write16BE (wb : t) (Value : Z) : t :=
  put wb (CanWrite wb 2) (BigEndian_bytes16 Value) 2.

Definition Write32 (wb : t) (Value : Z) : t :=
  put wb (CanWrite wb 4) (LittleEndian_bytes32 Value) 4.

Definition Write32BE (wb : t) (Value : Z) : t :=
  put wb (CanWrite wb 4) (BigEndian_bytes32 Value) 4.

Definition WriteString (wb : t) (String : list Z) : t :=
  let Output := UTF8ToLatin1 String in
  let Length := Z.of_nat (length Output) in
  let wb :=
    if Length <? 0xFFFF then Write16 wb (uint16 Length)
    else Write32 (Write16 wb 0xFFFF) (uint32 Length) in
  put wb (CanWrite wb Length) Output Length.

Definition WriteBytes (wb : t) (Bytes : list Z) : t :=
  let Count := Z.of_nat (length Bytes) in
  put wb (CanWrite wb Count) Bytes Count.

(** [Buffer[Position:]] with a negative [Position] is a run-time panic
    (slice bounds out of range). *)
Definition Rewrite16 (wb : t) (Position : Z) (Value : Z) : outcome t :=
  if (Position + 2 <=? TWriteBuffer.Position wb) && negb (Overflowed wb) then
    if Position <? 0 then Panic
    else Done {| Buffer := copy_at (Buffer wb) (Z.to_nat Position)
                                   (LittleEndian_bytes16 Value);
                 Position := TWriteBuffer.Position wb |}
  else Done wb.

Definition Insert32 (wb : t) (Position : Z) (Value : Z) : outcome t :=
  if Position <=? TWriteBuffer.Position wb then
    if CanWrite wb 4 then
      if Position <? 0 then Panic
      else
        let shifted :=
          copy_at (Buffer wb) (Z.to_nat Position + 4)
                  (drop (Z.to_nat Position) (Buffer wb)) in
        Done {| Buffer := copy_at shifted (Z.to_nat Position)
                                  (LittleEndian_bytes32 Value);
                Position := TWriteBuffer.Position wb + 4 |}
    else Done {| Buffer := Buffer wb;
                 Position := TWriteBuffer.Position wb + 4 |}
  else Done wb.

End TWriteBuffer.

(** ** The query-manager connection (query.go) *)

Definition APPLICATION_TYPE_WEB : Z := 3.

Definition QUERY_STATUS_OK : Z := 0.
Definition QUERY_STATUS_ERROR : Z := 1.
Definition QUERY_STATUS_FAILED : Z := 3.

Definition QUERY_LOGIN : Z := 0.
Definition QUERY_CHECK_ACCOUNT_PASSWORD : Z := 10.
Definition QUERY_CREATE_ACCOUNT : Z := 100.
Definition QUERY_CREATE_CHARACTER : Z := 101.
Definition QUERY_GET_ACCOUNT_SUMMARY : Z := 102.
Definition QUERY_GET_CHARACTER_PROFILE : Z := 103.
Definition QUERY_GET_WORLDS : Z := 150.
Definition QUERY_GET_ONLINE_CHARACTERS : Z := 151.
Definition QUERY_GET_KILL_STATISTICS : Z := 152.

(** The configuration globals read by query.go.  Their declarations are
    in the part of the program that loads the configuration; the
    embedding takes their values as a parameter. *)
Record Config : Type := {
  g_QueryManagerPassword : list Z;
  g_MaxCachedAccounts : Z;
  g_MaxCachedCharacters : Z;
  g_CharacterRefreshInterval : Z;
  g_WorldRefreshInterval : Z
}.

(** What the network answers to the next socket operation: an error, or
    success with the bytes a [Read] delivers ([Dial] and [Write] ignore
    them).  When the script is used up every operation fails. *)
Inductive io_event : Type :=
| IoErr
| IoOk (data : list Z).

(** What the connection did on the socket. *)
Inductive io_op : Type :=
| OpDial
| OpWrite (data : list Z)
| OpRead (n : nat)
| OpClose.

(** [Handle] is [true] when [Connection.Handle != nil].  [Net] is the
    script of the network's future answers, [Trace] the socket operations
    performed so far, oldest first. *)
Record TQueryManagerConnection : Type := {
  Handle : bool;
  Net : list io_event;
  Trace : list io_op
}.

Definition io (op : io_op) (c : TQueryManagerConnection)
  : io_event * TQueryManagerConnection :=
  (match Net c with [] => IoErr | ev :: _ => ev end,
   {| Handle := Handle c; Net := drop 1 (Net c); Trace := Trace c ++ [op] |}).

(** [Connection.Handle, Err = net.Dial(...)] *)
Definition net_Dial (c : TQueryManagerConnection) : TQueryManagerConnection :=
  let '(ev, c) := io OpDial c in
  {| Handle := match ev with IoOk _ => true | IoErr => false end;
     Net := Net c; Trace := Trace c |}.

(** [Connection.Handle.Write(data)]: [true] when [Err == nil].  Calling
    it on a nil handle is a nil dereference. *)
Definition Handle_Write (data : list Z) (c : TQueryManagerConnection)
  : outcome (bool * TQueryManagerConnection) :=
  if Handle c then
    let '(ev, c) := io (OpWrite data) c in
    Done (match ev with IoOk _ => true | IoErr => false end, c)
  else Panic.

(** [Connection.Handle.Read(p)] with [len(p) = n]: the bytes stored at the
    front of [p], at most [n] of them, or [None] when [Err != nil]. *)
Definition Handle_Read (n : nat) (c : TQueryManagerConnection)
  : outcome (option (list Z) * TQueryManagerConnection) :=
  if Handle c then
    let '(ev, c) := io (OpRead n) c in
    Done (match ev with IoOk data => Some (take n data) | IoErr => None end, c)
  else Panic.

Definition Disconnect (c : TQueryManagerConnection) : TQueryManagerConnection :=
  if Handle c then
    {| Handle := false; Net := Net c; Trace := Trace c ++ [OpClose] |}
  else c.

(** [var Buffer [n]byte] *)
Definition byte_array (n : Z) : list Z := replicate (Z.to_nat n) 0.

Definition PrepareQuery (QueryType : Z) (Buffer : list Z) : TWriteBuffer.t :=
  let WriteBuffer := {| TWriteBuffer.Buffer := Buffer; TWriteBuffer.Position := 0 |} in
  let WriteBuffer := TWriteBuffer.Write16 WriteBuffer 0 in
  TWriteBuffer.Write8 WriteBuffer (uint8 QueryType).

(** The result of [ExecuteQuery]: [Status], [ReadBuffer] and the
    connection afterwards. *)
Definition query_result : Type := Z * TReadBuffer.t * TQueryManagerConnection.

Definition MaxAttempts : Z := 2.

(** The early [return] of [ExecuteQuery]: [Status] is still
    [QUERY_STATUS_FAILED] and [ReadBuffer] its zero value. *)
Definition failed (c : TQueryManagerConnection) : outcome query_result :=
  Done (QUERY_STATUS_FAILED, TReadBuffer.zero, c).

(** The header patch at the head of [ExecuteQuery]. *)
Definition ExecuteQuery_frame (WriteBuffer : TWriteBuffer.t) : outcome TWriteBuffer.t :=
  let RequestSize := TWriteBuffer.Position WriteBuffer - 2 in
  if RequestSize <? 0xFFFF then
    TWriteBuffer.Rewrite16 WriteBuffer 0 (uint16 RequestSize)
  else
    WriteBuffer ← TWriteBuffer.Rewrite16 WriteBuffer 0 0xFFFF;
    TWriteBuffer.Insert32 WriteBuffer 2 (uint32 RequestSize).

Section Executor.

(** [Connection.Connect], which [ExecuteQuery] calls to reconnect. *)
Variable Connect :
  TQueryManagerConnection -> outcome (bool * TQueryManagerConnection).
Variable AutoReconnect : bool.
Variable Buffer : list Z.
Variable WriteSize : Z.

(** The retry loop [for Attempt := 1; true; Attempt += 1]. *)
Fixpoint ExecuteQuery_loop (fuel : nat) (Attempt : Z)
         (c : TQueryManagerConnection) : outcome query_result :=
  match fuel with
  | O => OutOfFuel
  | S fuel =>
    '(up, c) ←
      (if Handle c then Done (true, c)
       else if negb AutoReconnect then Done (false, c)
       else Connect c);
    if negb up then failed c else
    '(ok, c) ← Handle_Write (take (Z.to_nat WriteSize) Buffer) c;
    if negb ok then
      let c := Disconnect c in
      if MaxAttempts <=? Attempt then failed c
      else ExecuteQuery_loop fuel (Attempt + 1) c
    else
    '(r, c) ← Handle_Read 2 c;
    match r with
    | None =>
      let c := Disconnect c in
      if MaxAttempts <=? Attempt then failed c
      else ExecuteQuery_loop fuel (Attempt + 1) c
    | Some data =>
      let Help := copy_at [0; 0; 0; 0] 0 data in
      let ResponseSize := LittleEndian_Uint16 (take 2 Help) in
      '(r, c) ←
        (if ResponseSize =? 0xFFFF then
           '(r, c) ← Handle_Read 4 c;
           match r with
           | None => Done (None, Disconnect c)
           | Some data =>
             Done (Some (LittleEndian_Uint32 (copy_at Help 0 data)), c)
           end
         else Done (Some ResponseSize, c));
      match r with
      | None => failed c
      | Some ResponseSize =>
        if (ResponseSize <=? 0) || (Z.of_nat (length Buffer) <? ResponseSize)
        then failed (Disconnect c)
        else
          '(r, c) ← Handle_Read (Z.to_nat ResponseSize) c;
          match r with
          | None => failed (Disconnect c)
          | Some data =>
            let ReadBuffer :=
              {| TReadBuffer.Buffer := copy_at Buffer 0 data;
                 TReadBuffer.Position := 0 |} in
            let '(Status, ReadBuffer) := TReadBuffer.Read8 ReadBuffer in
            Done (Status, ReadBuffer, c)
          end
      end
    end
  end.

End Executor.

(** [ExecuteQuery], with the [Connect] it reconnects through.  A nil
    [WriteBuffer] is [None].  The loop leaves by [return] within
    [MaxAttempts] rounds (see [ExecuteQuery_loop_total]). *)
Definition ExecuteQuery_with
           (Connect : TQueryManagerConnection -> outcome (bool * TQueryManagerConnection))
           (AutoReconnect : bool) (WriteBuffer : option TWriteBuffer.t)
           (c : TQueryManagerConnection) : outcome query_result :=
  match WriteBuffer with
  | None => Panic
  | Some WriteBuffer =>
    if TWriteBuffer.Position WriteBuffer <=? 2 then Panic
    else
      WriteBuffer ← ExecuteQuery_frame WriteBuffer;
      if TWriteBuffer.Overflowed WriteBuffer then failed c
      else
        ExecuteQuery_loop Connect AutoReconnect
          (TWriteBuffer.Buffer WriteBuffer) (TWriteBuffer.Position WriteBuffer)
          (Z.to_nat MaxAttempts) 1 c
  end.

(** [Connect] runs its login query with [AutoReconnect = false]; the
    condition [!AutoReconnect || !Connection.Connect()] then never
    evaluates [Connect], so the login query is given a [Connect] that
    is never called (see [ExecuteQuery_loop_no_reconnect]). *)
Definition Connect_unreachable (c : TQueryManagerConnection)
  : outcome (bool * TQueryManagerConnection) := Panic.

Definition Connect (cfg : Config) (c : TQueryManagerConnection)
  : outcome (bool * TQueryManagerConnection) :=
  if Handle c then Done (false, c)
  else
    let c := net_Dial c in
    if negb (Handle c) then Done (false, c)
    else
      let WriteBuffer := PrepareQuery QUERY_LOGIN (byte_array 1024) in
      let WriteBuffer := TWriteBuffer.Write8 WriteBuffer APPLICATION_TYPE_WEB in
      let WriteBuffer := TWriteBuffer.WriteString WriteBuffer (g_QueryManagerPassword cfg) in
      '(Status, _, c) ← ExecuteQuery_with Connect_unreachable false (Some WriteBuffer) c;
      if negb (Status =? QUERY_STATUS_OK) then Done (false, Disconnect c)
      else Done (true, c).

Definition ExecuteQuery (cfg : Config) :=
  ExecuteQuery_with (Connect cfg).

(** ** Typed query operations (query.go) *)

Module TWorld.
Record t : Type := Build {
  Name : list Z;
  Type_ : list Z;
  NumPlayers : Z;
  MaxPlayers : Z;
  OnlinePeak : Z;
  OnlinePeakTimestamp : Z;
  LastStartup : Z;
  LastShutdown : Z
}.
End TWorld.

Module TCharacterSummary.
Record t : Type := Build {
  Name : list Z;
  World : list Z;
  Level : Z;
  Profession : list Z;
  Online : bool;
  Deleted : bool
}.
End TCharacterSummary.

Module TAccountSummary.
Record t : Type := Build {
  AccountID : Z;
  Email : list Z;
  PremiumDays : Z;
  PendingPremiumDays : Z;
  Deleted : bool;
  Characters : list TCharacterSummary.t
}.
(** The zero value [TAccountSummary{}]. *)
Definition zero : t := Build 0 [] 0 0 false [].
End TAccountSummary.

Module TCharacterProfile.
Record t : Type := Build {
  Name : list Z;
  World : list Z;
  Sex : Z;
  Guild : list Z;
  Rank : list Z;
  Title : list Z;
  Level : Z;
  Profession : list Z;
  Residence : list Z;
  LastLogin : Z;
  PremiumDays : Z;
  Online : bool;
  Deleted : bool
}.
(** The zero value [TCharacterProfile{}]. *)
Definition zero : t := Build [] [] 0 [] [] [] 0 [] [] 0 0 false false.
End TCharacterProfile.

Module TKillStatistics.
Record t : Type := Build {
  RaceName : list Z;
  TimesKilled : Z;
  PlayersKilled : Z
}.
End TKillStatistics.

Module TOnlineCharacter.
Record t : Type := Build {
  Name : list Z;
  Level : Z;
  Profession : list Z
}.
End TOnlineCharacter.

(** [WorldTypeString] (common.go); the strings are "Normal", "Non-PvP",
    "PvP-Enforced" and "Unknown". *)
Definition WorldTypeString (Type_ : Z) : list Z :=
  if Type_ =? 0 then [78; 111; 114; 109; 97; 108]
  else if Type_ =? 1 then [78; 111; 110; 45; 80; 118; 80]
  else if Type_ =? 2 then [80; 118; 80; 45; 69; 110; 102; 111; 114; 99; 101; 100]
  else [85; 110; 107; 110; 111; 119; 110].

(** The loop filling [Account.Characters]. *)
Fixpoint read_character_summaries (n : nat) (ReadBuffer : TReadBuffer.t)
  : list TCharacterSummary.t * TReadBuffer.t :=
  match n with
  | O => ([], ReadBuffer)
  | S n =>
    let '(Name, ReadBuffer) := TReadBuffer.ReadString ReadBuffer in
    let '(World, ReadBuffer) := TReadBuffer.ReadString ReadBuffer in
    let '(Level, ReadBuffer) := TReadBuffer.Read16 ReadBuffer in
    let '(Profession, ReadBuffer) := TReadBuffer.ReadString ReadBuffer in
    let '(Online, ReadBuffer) := TReadBuffer.ReadFlag ReadBuffer in
    let '(Deleted, ReadBuffer) := TReadBuffer.ReadFlag ReadBuffer in
    let '(rest, ReadBuffer) := read_character_summaries n ReadBuffer in
    (TCharacterSummary.Build Name World Level Profession Online Deleted :: rest,
     ReadBuffer)
  end.

(** The loop filling [Worlds]. *)
Fixpoint read_worlds (n : nat) (ReadBuffer : TReadBuffer.t)
  : list TWorld.t * TReadBuffer.t :=
  match n with
  | O => ([], ReadBuffer)
  | S n =>
    let '(Name, ReadBuffer) := TReadBuffer.ReadString ReadBuffer in
    let '(Type_, ReadBuffer) := TReadBuffer.Read8 ReadBuffer in
    let '(NumPlayers, ReadBuffer) := TReadBuffer.Read16 ReadBuffer in
    let '(MaxPlayers, ReadBuffer) := TReadBuffer.Read16 ReadBuffer in
    let '(OnlinePeak, ReadBuffer) := TReadBuffer.Read16 ReadBuffer in
    let '(OnlinePeakTimestamp, ReadBuffer) := TReadBuffer.Read32 ReadBuffer in
    let '(LastStartup, ReadBuffer) := TReadBuffer.Read32 ReadBuffer in
    let '(LastShutdown, ReadBuffer) := TReadBuffer.Read32 ReadBuffer in
    let '(rest, ReadBuffer) := read_worlds n ReadBuffer in
    (TWorld.Build Name (WorldTypeString Type_) NumPlayers MaxPlayers OnlinePeak
                  OnlinePeakTimestamp LastStartup LastShutdown :: rest,
     ReadBuffer)
  end.

(** The loop filling [Characters] in [GetOnlineCharacters]. *)
Fixpoint read_online_characters (n : nat) (ReadBuffer : TReadBuffer.t)
  : list TOnlineCharacter.t * TReadBuffer.t :=
  match n with
  | O => ([], ReadBuffer)
  | S n =>
    let '(Name, ReadBuffer) := TReadBuffer.ReadString ReadBuffer in
    let '(Level, ReadBuffer) := TReadBuffer.Read16 ReadBuffer in
    let '(Profession, ReadBuffer) := TReadBuffer.ReadString ReadBuffer in
    let '(rest, ReadBuffer) := read_online_characters n ReadBuffer in
    (TOnlineCharacter.Build Name Level Profession :: rest, ReadBuffer)
  end.

(** The loop filling [Stats] in [GetKillStatistics]; the response carries
    [PlayersKilled] before [TimesKilled]. *)
Fixpoint read_kill_statistics (n : nat) (ReadBuffer : TReadBuffer.t)
  : list TKillStatistics.t * TReadBuffer.t :=
  match n with
  | O => ([], ReadBuffer)
  | S n =>
    let '(RaceName, ReadBuffer) := TReadBuffer.ReadString ReadBuffer in
    let '(PlayersKilled, ReadBuffer) := TReadBuffer.Read32 ReadBuffer in
    let '(TimesKilled, ReadBuffer) := TReadBuffer.Read32 ReadBuffer in
    let '(rest, ReadBuffer) := read_kill_statistics n ReadBuffer in
    (TKillStatistics.Build RaceName TimesKilled PlayersKilled :: rest, ReadBuffer)
  end.

(** The methods of [TQueryManagerConnection] that the caches call.  Each
    returns [Result], the decoded payload and the connection afterwards. *)
Module Connection.
Section Queries.

Variable cfg : Config.

Definition CheckAccountPassword (AccountID : Z) (Password IPAddress : list Z)
           (c : TQueryManagerConnection) : outcome (Z * TQueryManagerConnection) :=
let WriteBuffer := PrepareQuery QUERY_CHECK_ACCOUNT_PASSWORD (byte_array 1024) in
let WriteBuffer := TWriteBuffer.Write32 WriteBuffer (uint32 AccountID) in
let WriteBuffer := TWriteBuffer.WriteString WriteBuffer Password in
let WriteBuffer := TWriteBuffer.WriteString WriteBuffer IPAddress in
'(Status, ReadBuffer, c) ← ExecuteQuery cfg true (Some WriteBuffer) c;
if Status =? QUERY_STATUS_OK then Done (0, c)
else if Status =? QUERY_STATUS_ERROR then
  let '(ErrorCode, ReadBuffer) := TReadBuffer.Read8 ReadBuffer in
  if (1 <=? ErrorCode) && (ErrorCode <=? 4)
  then Done (ErrorCode, c)
  else Done (-1, c)
else Done (-1, c).

Definition CreateAccount (AccountID : Z) (Email Password : list Z)
           (c : TQueryManagerConnection) : outcome (Z * TQueryManagerConnection) :=
let WriteBuffer := PrepareQuery QUERY_CREATE_ACCOUNT (byte_array 1024) in
let WriteBuffer := TWriteBuffer.Write32 WriteBuffer (uint32 AccountID) in
let WriteBuffer := TWriteBuffer.WriteString WriteBuffer Email in
let WriteBuffer := TWriteBuffer.WriteString WriteBuffer Password in
'(Status, ReadBuffer, c) ← ExecuteQuery cfg true (Some WriteBuffer) c;
if Status =? QUERY_STATUS_OK then Done (0, c)
else if Status =? QUERY_STATUS_ERROR then
  let '(ErrorCode, ReadBuffer) := TReadBuffer.Read8 ReadBuffer in
  if (1 <=? ErrorCode) && (ErrorCode <=? 2)
  then Done (ErrorCode, c)
  else Done (-1, c)
else Done (-1, c).

Definition CreateCharacter (World : list Z) (AccountID : Z) (Name : list Z) (Sex : Z)
           (c : TQueryManagerConnection) : outcome (Z * TQueryManagerConnection) :=
let WriteBuffer := PrepareQuery QUERY_CREATE_CHARACTER (byte_array 1024) in
let WriteBuffer := TWriteBuffer.WriteString WriteBuffer World in
let WriteBuffer := TWriteBuffer.Write32 WriteBuffer (uint32 AccountID) in
let WriteBuffer := TWriteBuffer.WriteString WriteBuffer Name in
let WriteBuffer := TWriteBuffer.Write8 WriteBuffer (uint8 Sex) in
'(Status, ReadBuffer, c) ← ExecuteQuery cfg true (Some WriteBuffer) c;
if Status =? QUERY_STATUS_OK then Done (0, c)
else if Status =? QUERY_STATUS_ERROR then
  let '(ErrorCode, ReadBuffer) := TReadBuffer.Read8 ReadBuffer in
  if (1 <=? ErrorCode) && (ErrorCode <=? 3)
  then Done (ErrorCode, c)
  else Done (-1, c)
else Done (-1, c).

Definition GetAccountSummary (AccountID : Z) (c : TQueryManagerConnection)
: outcome (Z * TAccountSummary.t * TQueryManagerConnection) :=
let WriteBuffer := PrepareQuery QUERY_GET_ACCOUNT_SUMMARY (byte_array 16384) in
let WriteBuffer := TWriteBuffer.Write32 WriteBuffer (uint32 AccountID) in
'(Status, ReadBuffer, c) ← ExecuteQuery cfg true (Some WriteBuffer) c;
if Status =? QUERY_STATUS_OK then
  let '(Email, ReadBuffer) := TReadBuffer.ReadString ReadBuffer in
  let '(PremiumDays, ReadBuffer) := TReadBuffer.Read16 ReadBuffer in
  let '(PendingPremiumDays, ReadBuffer) := TReadBuffer.Read16 ReadBuffer in
  let '(Deleted, ReadBuffer) := TReadBuffer.ReadFlag ReadBuffer in
  let '(NumCharacters, ReadBuffer) := TReadBuffer.Read8 ReadBuffer in
  let '(Characters, ReadBuffer) :=
    if 0 <? NumCharacters
    then read_character_summaries (Z.to_nat NumCharacters) ReadBuffer
    else ([], ReadBuffer) in
  Done (0, TAccountSummary.Build AccountID Email PremiumDays
             PendingPremiumDays Deleted Characters, c)
else if Status =? QUERY_STATUS_ERROR then
  let '(ErrorCode, ReadBuffer) := TReadBuffer.Read8 ReadBuffer in
  if (1 <=? ErrorCode) && (ErrorCode <=? 4)
  then Done (ErrorCode, TAccountSummary.zero, c)
  else Done (-1, TAccountSummary.zero, c)
else Done (-1, TAccountSummary.zero, c).

Definition GetCharacterProfile (CharacterName : list Z) (c : TQueryManagerConnection)
: outcome (Z * TCharacterProfile.t * TQueryManagerConnection) :=
let WriteBuffer := PrepareQuery QUERY_GET_CHARACTER_PROFILE (byte_array 16384) in
let WriteBuffer := TWriteBuffer.WriteString WriteBuffer CharacterName in
'(Status, ReadBuffer, c) ← ExecuteQuery cfg true (Some WriteBuffer) c;
if Status =? QUERY_STATUS_OK then
  let '(Name, ReadBuffer) := TReadBuffer.ReadString ReadBuffer in
  let '(World, ReadBuffer) := TReadBuffer.ReadString ReadBuffer in
  let '(Sex, ReadBuffer) := TReadBuffer.Read8 ReadBuffer in
  let '(Guild, ReadBuffer) := TReadBuffer.ReadString ReadBuffer in
  let '(Rank, ReadBuffer) := TReadBuffer.ReadString ReadBuffer in
  let '(Title, ReadBuffer) := TReadBuffer.ReadString ReadBuffer in
  let '(Level, ReadBuffer) := TReadBuffer.Read16 ReadBuffer in
  let '(Profession, ReadBuffer) := TReadBuffer.ReadString ReadBuffer in
  let '(Residence, ReadBuffer) := TReadBuffer.ReadString ReadBuffer in
  let '(LastLogin, ReadBuffer) := TReadBuffer.Read32 ReadBuffer in
  let '(PremiumDays, ReadBuffer) := TReadBuffer.Read16 ReadBuffer in
  let '(Online, ReadBuffer) := TReadBuffer.ReadFlag ReadBuffer in
  let '(Deleted, ReadBuffer) := TReadBuffer.ReadFlag ReadBuffer in
  Done (0, TCharacterProfile.Build Name World Sex Guild Rank Title Level
             Profession Residence LastLogin PremiumDays Online Deleted, c)
else if Status =? QUERY_STATUS_ERROR then
  let '(ErrorCode, ReadBuffer) := TReadBuffer.Read8 ReadBuffer in
  if ErrorCode =? 1
  then Done (ErrorCode, TCharacterProfile.zero, c)
  else Done (-1, TCharacterProfile.zero, c)
else Done (-1, TCharacterProfile.zero, c).

Definition GetWorlds (c : TQueryManagerConnection)
: outcome (Z * list TWorld.t * TQueryManagerConnection) :=
let WriteBuffer := PrepareQuery QUERY_GET_WORLDS (byte_array 16384) in
'(Status, ReadBuffer, c) ← ExecuteQuery cfg true (Some WriteBuffer) c;
if Status =? QUERY_STATUS_OK then
  let '(NumWorlds, ReadBuffer) := TReadBuffer.Read8 ReadBuffer in
  let '(Worlds, ReadBuffer) :=
    if 0 <? NumWorlds
    then read_worlds (Z.to_nat NumWorlds) ReadBuffer
    else ([], ReadBuffer) in
  Done (0, Worlds, c)
else Done (-1, [], c).

Definition GetOnlineCharacters (World : list Z) (c : TQueryManagerConnection)
: outcome (Z * list TOnlineCharacter.t * TQueryManagerConnection) :=
let WriteBuffer := PrepareQuery QUERY_GET_ONLINE_CHARACTERS (byte_array 65536) in
let WriteBuffer := TWriteBuffer.WriteString WriteBuffer World in
'(Status, ReadBuffer, c) ← ExecuteQuery cfg true (Some WriteBuffer) c;
if Status =? QUERY_STATUS_OK then
  let '(NumCharacters, ReadBuffer) := TReadBuffer.Read16 ReadBuffer in
  let '(Characters, ReadBuffer) :=
    if 0 <? NumCharacters
    then read_online_characters (Z.to_nat NumCharacters) ReadBuffer
    else ([], ReadBuffer) in
  Done (0, Characters, c)
else Done (-1, [], c).

Definition GetKillStatistics (World : list Z) (c : TQueryManagerConnection)
: outcome (Z * list TKillStatistics.t * TQueryManagerConnection) :=
let WriteBuffer := PrepareQuery QUERY_GET_KILL_STATISTICS (byte_array 65536) in
let WriteBuffer := TWriteBuffer.WriteString WriteBuffer World in
'(Status, ReadBuffer, c) ← ExecuteQuery cfg true (Some WriteBuffer) c;
if Status =? QUERY_STATUS_OK then
  let '(NumStats, ReadBuffer) := TReadBuffer.Read16 ReadBuffer in
  let '(Stats, ReadBuffer) :=
    if 0 <? NumStats
    then read_kill_statistics (Z.to_nat NumStats) ReadBuffer
    else ([], ReadBuffer) in
  Done (0, Stats, c)
else Done (-1, [], c).

End Queries.
End Connection.

(** ** package time (Go standard library)

    A [time.Time] is the number of nanoseconds since the zero [Time]; a
    [Duration] is a signed 64-bit count of nanoseconds, and [Sub]
    saturates at its bounds. *)

Module time.

Definition zero : Z := 0.
Definition minDuration : Z := - 2 ^ 63.
Definition maxDuration : Z := 2 ^ 63 - 1.

Definition Sub (t u : Z) : Z := Z.max minDuration (Z.min maxDuration (t - u)).
Definition Before (t u : Z) : bool := t <? u.
Definition Add (t d : Z) : Z := t + d.
(** [time.Since(t)] and [time.Until(t)] when [time.Now()] reads [now]. *)
Definition Since (now t : Z) : Z := Sub now t.
Definition Until (now t : Z) : Z := Sub t now.

End time.

(** ** Query subsystem: the caches (query.go) *)

Module TAccountCacheEntry.
Record t : Type := Build {
  AccountID : Z;
  Result : Z;
  Data : TAccountSummary.t;
  LastAccess : Z
}.
(** The zero value [TAccountCacheEntry{}]: an empty slot. *)
Definition zero : t := Build 0 0 TAccountSummary.zero time.zero.
End TAccountCacheEntry.

Module TCharacterCacheEntry.
Record t : Type := Build {
  CharacterName : list Z;
  Result : Z;
  Data : TCharacterProfile.t;
  LastAccess : Z
}.
(** The zero value [TCharacterCacheEntry{}]: an empty slot. *)
Definition zero : t := Build [] 0 TCharacterProfile.zero time.zero.
End TCharacterCacheEntry.

(** The package-level variables of the query subsystem.  A nil slice is
    [None] for the two slot arrays (the code tests them against nil) and
    the empty list for [g_WorldCache].  [Ticks] counts the readings of the
    clock taken so far. *)
Record Globals : Type := {
  g_QueryManagerConnection : TQueryManagerConnection;
  g_AccountCache : option (list TAccountCacheEntry.t);
  g_CharacterCache : option (list TCharacterCacheEntry.t);
  g_WorldCache : list TWorld.t;
  g_WorldCacheRefreshTime : Z;
  Ticks : nat
}.

(** [make([]T, n)]: a negative length is a run-time panic. *)
Definition make {T : Type} (zero : T) (n : Z) : outcome (list T) :=
  if n <? 0 then Panic else Done (replicate (Z.to_nat n) zero).

(** The state of a scan over the slots: the slots as the scan leaves
    them, the index of the matching slot ([Entry], nil when [None]), the
    eviction candidate and the number of clock readings taken. *)
Record scan (T : Type) : Type := Scan {
  Slots : list T;
  Entry : option nat;
  LeastRecentlyUsedIndex : nat;
  LeastRecentlyUsedTime : Z;
  ScanTicks : nat
}.
Arguments Scan {T}.
Arguments Slots {T}.
Arguments Entry {T}.
Arguments LeastRecentlyUsedIndex {T}.
Arguments LeastRecentlyUsedTime {T}.
Arguments ScanTicks {T}.

Section Caches.

Variable cfg : Config.
(** [clock k] is the [k]-th reading of the clock ([time.Now],
    [time.Since] and [time.Until] each take one). *)
Variable clock : nat -> Z.
(** [strings.EqualFold] (Go standard library). *)
Variable EqualFold : list Z -> list Z -> bool.

(** The loop of [GetAccountSummary] from [Index] on; [slots] is
    [g_AccountCache[Index:]]. *)
Fixpoint AccountScan (AccountID : Z) (slots : list TAccountCacheEntry.t)
         (Index : nat) (LRUIndex : nat) (LRUTime : Z) (ticks : nat)
  : scan TAccountCacheEntry.t :=
  match slots with
  | [] => Scan [] None LRUIndex LRUTime ticks
  | Current :: rest =>
    let Current :=
      if g_CharacterRefreshInterval cfg <=?
         time.Since (clock ticks) (TAccountCacheEntry.LastAccess Current)
      then TAccountCacheEntry.zero else Current in
    let '(LRUIndex, LRUTime) :=
      if time.Before (TAccountCacheEntry.LastAccess Current) LRUTime
      then (Index, TAccountCacheEntry.LastAccess Current)
      else (LRUIndex, LRUTime) in
    if TAccountCacheEntry.AccountID Current =? AccountID then
      Scan (Current :: rest) (Some Index) LRUIndex LRUTime (S ticks)
    else
      let s := AccountScan AccountID rest (S Index) LRUIndex LRUTime (S ticks) in
      Scan (Current :: Slots s) (Entry s) (LeastRecentlyUsedIndex s)
           (LeastRecentlyUsedTime s) (ScanTicks s)
  end.

Definition GetAccountSummary (AccountID : Z) (g : Globals)
  : outcome (Z * TAccountSummary.t * Globals) :=
  cache ← match g_AccountCache g with
          | None => make TAccountCacheEntry.zero (g_MaxCachedAccounts cfg)
          | Some cache => Done cache
          end;
  match cache with
  | [] => Panic  (* g_AccountCache[0]: index out of range *)
  | first :: _ =>
    let s := AccountScan AccountID cache 0 0
               (TAccountCacheEntry.LastAccess first) (Ticks g) in
    match Entry s with
    | None =>
      '(Result, Account, c) ←
        Connection.GetAccountSummary cfg AccountID (g_QueryManagerConnection g);
      if Result =? 0 then
        let store (e : TAccountCacheEntry.t) :=
          TAccountCacheEntry.Build AccountID (TAccountCacheEntry.Result e)
            Account (clock (ScanTicks s)) in
        Done (Result, Account,
              {| g_QueryManagerConnection := c;
                 g_AccountCache :=
                   Some (alter store (LeastRecentlyUsedIndex s) (Slots s));
                 g_CharacterCache := g_CharacterCache g;
                 g_WorldCache := g_WorldCache g;
                 g_WorldCacheRefreshTime := g_WorldCacheRefreshTime g;
                 Ticks := S (ScanTicks s) |})
      else
        Done (Result, Account,
              {| g_QueryManagerConnection := c;
                 g_AccountCache := Some (Slots s);
                 g_CharacterCache := g_CharacterCache g;
                 g_WorldCache := g_WorldCache g;
                 g_WorldCacheRefreshTime := g_WorldCacheRefreshTime g;
                 Ticks := ScanTicks s |})
    | Some Index =>
      let touch (e : TAccountCacheEntry.t) :=
        TAccountCacheEntry.Build (TAccountCacheEntry.AccountID e)
          (TAccountCacheEntry.Result e) (TAccountCacheEntry.Data e)
          (clock (ScanTicks s)) in
      Done (0,
            default TAccountSummary.zero
                    (TAccountCacheEntry.Data <$> Slots s !! Index),
            {| g_QueryManagerConnection := g_QueryManagerConnection g;
               g_AccountCache := Some (alter touch Index (Slots s));
               g_CharacterCache := g_CharacterCache g;
               g_WorldCache := g_WorldCache g;
               g_WorldCacheRefreshTime := g_WorldCacheRefreshTime g;
               Ticks := S (ScanTicks s) |})
    end
  end.

(** The loop of [InvalidateAccountCachedData]. *)
Fixpoint InvalidateAccount_loop (AccountID : Z) (slots : list TAccountCacheEntry.t)
  : list TAccountCacheEntry.t :=
  match slots with
  | [] => []
  | Current :: rest =>
    if TAccountCacheEntry.AccountID Current =? AccountID
    then TAccountCacheEntry.zero :: rest
    else Current :: InvalidateAccount_loop AccountID rest
  end.

Definition InvalidateAccountCachedData (AccountID : Z) (g : Globals) : Globals :=
  {| g_QueryManagerConnection := g_QueryManagerConnection g;
     g_AccountCache := InvalidateAccount_loop AccountID <$> g_AccountCache g;
     g_CharacterCache := g_CharacterCache g;
     g_WorldCache := g_WorldCache g;
     g_WorldCacheRefreshTime := g_WorldCacheRefreshTime g;
     Ticks := Ticks g |}.

(** The loop of [GetCharacterProfile] from [Index] on; [slots] is
    [g_CharacterCache[Index:]]. *)
Fixpoint CharacterScan (CharacterName : list Z) (slots : list TCharacterCacheEntry.t)
         (Index : nat) (LRUIndex : nat) (LRUTime : Z) (ticks : nat)
  : scan TCharacterCacheEntry.t :=
  match slots with
  | [] => Scan [] None LRUIndex LRUTime ticks
  | Current :: rest =>
    let Current :=
      if g_CharacterRefreshInterval cfg <=?
         time.Since (clock ticks) (TCharacterCacheEntry.LastAccess Current)
      then TCharacterCacheEntry.zero else Current in
    let '(LRUIndex, LRUTime) :=
      if time.Before (TCharacterCacheEntry.LastAccess Current) LRUTime
      then (Index, TCharacterCacheEntry.LastAccess Current)
      else (LRUIndex, LRUTime) in
    if EqualFold (TCharacterCacheEntry.CharacterName Current) CharacterName then
      Scan (Current :: rest) (Some Index) LRUIndex LRUTime (S ticks)
    else
      let s := CharacterScan CharacterName rest (S Index) LRUIndex LRUTime (S ticks) in
      Scan (Current :: Slots s) (Entry s) (LeastRecentlyUsedIndex s)
           (LeastRecentlyUsedTime s) (ScanTicks s)
  end.

Definition GetCharacterProfile (CharacterName : list Z) (g : Globals)
  : outcome (Z * TCharacterProfile.t * Globals) :=
  cache ← match g_CharacterCache g with
          | None => make TCharacterCacheEntry.zero (g_MaxCachedCharacters cfg)
          | Some cache => Done cache
          end;
  match cache with
  | [] => Panic  (* g_CharacterCache[0]: index out of range *)
  | first :: _ =>
    let s := CharacterScan CharacterName cache 0 0
               (TCharacterCacheEntry.LastAccess first) (Ticks g) in
    match Entry s with
    | None =>
      '(Result, Character, c) ←
        Connection.GetCharacterProfile cfg CharacterName (g_QueryManagerConnection g);
      let store (e : TCharacterCacheEntry.t) :=
        TCharacterCacheEntry.Build CharacterName Result Character
          (clock (ScanTicks s)) in
      Done (Result, Character,
            {| g_QueryManagerConnection := c;
               g_AccountCache := g_AccountCache g;
               g_CharacterCache :=
                 Some (alter store (LeastRecentlyUsedIndex s) (Slots s));
               g_WorldCache := g_WorldCache g;
               g_WorldCacheRefreshTime := g_WorldCacheRefreshTime g;
               Ticks := S (ScanTicks s) |})
    | Some Index =>
      let touch (e : TCharacterCacheEntry.t) :=
        TCharacterCacheEntry.Build (TCharacterCacheEntry.CharacterName e)
          (TCharacterCacheEntry.Result e) (TCharacterCacheEntry.Data e)
          (clock (ScanTicks s)) in
      Done (default 0 (TCharacterCacheEntry.Result <$> Slots s !! Index),
            default TCharacterProfile.zero
                    (TCharacterCacheEntry.Data <$> Slots s !! Index),
            {| g_QueryManagerConnection := g_QueryManagerConnection g;
               g_AccountCache := g_AccountCache g;
               g_CharacterCache := Some (alter touch Index (Slots s));
               g_WorldCache := g_WorldCache g;
               g_WorldCacheRefreshTime := g_WorldCacheRefreshTime g;
               Ticks := S (ScanTicks s) |})
    end
  end.

Definition GetWorlds (g : Globals) : outcome (list TWorld.t * Globals) :=
  if time.Until (clock (Ticks g)) (g_WorldCacheRefreshTime g) <=? 0 then
    '(Result, Worlds, c) ← Connection.GetWorlds cfg (g_QueryManagerConnection g);
    if Result =? 0 then
      Done (Worlds,
            {| g_QueryManagerConnection := c;
               g_AccountCache := g_AccountCache g;
               g_CharacterCache := g_CharacterCache g;
               g_WorldCache := Worlds;
               g_WorldCacheRefreshTime :=
                 time.Add (clock (S (Ticks g))) (g_WorldRefreshInterval cfg);
               Ticks := S (S (Ticks g)) |})
    else
      Done (g_WorldCache g,
            {| g_QueryManagerConnection := c;
               g_AccountCache := g_AccountCache g;
               g_CharacterCache := g_CharacterCache g;
               g_WorldCache := g_WorldCache g;
               g_WorldCacheRefreshTime := g_WorldCacheRefreshTime g;
               Ticks := S (Ticks g) |})
  else
    Done (g_WorldCache g,
          {| g_QueryManagerConnection := g_QueryManagerConnection g;
             g_AccountCache := g_AccountCache g;
             g_CharacterCache := g_CharacterCache g;
             g_WorldCache := g_WorldCache g;
             g_WorldCacheRefreshTime := g_WorldCacheRefreshTime g;
             Ticks := S (Ticks g) |}).

End Caches.

(** * Properties *)

(** ** The embedding on concrete inputs *)

Example UTF8ToLatin1_ex1 : UTF8ToLatin1 [72; 195; 169; 255; 65] = [72; 233; 63; 65].
Proof. reflexivity. Qed.

Example Latin1ToUTF8_ex1 : Latin1ToUTF8 [72; 233; 255] = [72; 195; 169; 195; 191].
Proof. reflexivity. Qed.

(** A configuration for the examples: the password is "pw", two account
    slots, three character slots, intervals of 1000 clock units. *)
Definition example_cfg : Config :=
  {| g_QueryManagerPassword := [112; 119];
     g_MaxCachedAccounts := 2;
     g_MaxCachedCharacters := 3;
     g_CharacterRefreshInterval := 1000;
     g_WorldRefreshInterval := 1000 |}.

Definition connected (net : list io_event) : TQueryManagerConnection :=
  {| Handle := true; Net := net; Trace := [] |}.

Definition disconnected (net : list io_event) : TQueryManagerConnection :=
  {| Handle := false; Net := net; Trace := [] |}.

(** The request "get worlds" in a buffer of 16 bytes, before framing. *)
Definition example_request : TWriteBuffer.t :=
  PrepareQuery QUERY_GET_WORLDS (byte_array 16).

Example PrepareQuery_ex :
  example_request =
  {| TWriteBuffer.Buffer := [0; 0; 150; 0; 0; 0; 0; 0; 0; 0; 0; 0; 0; 0; 0; 0];
     TWriteBuffer.Position := 3 |}.
Proof. reflexivity. Qed.

(** One exchange on a connected executor: the request is framed with its
    payload length 1, the response of 2 bytes is read into the buffer and
    its first byte is the status. *)
Example ExecuteQuery_ex_ok :
  ExecuteQuery example_cfg true (Some example_request)
    (connected [IoOk []; IoOk [2; 0]; IoOk [0; 7]]) =
  Done (0,
        {| TReadBuffer.Buffer := [0; 7; 150; 0; 0; 0; 0; 0; 0; 0; 0; 0; 0; 0; 0; 0];
           TReadBuffer.Position := 1 |},
        {| Handle := true; Net := [];
           Trace := [OpWrite [1; 0; 150]; OpRead 2; OpRead 2] |}).
Proof. reflexivity. Qed.

(** Reconnect semantics: the write fails on a connected executor; with
    [AutoReconnect] the executor dials, logs in and succeeds on the second
    attempt; without it the call fails without dialling. *)
Example ExecuteQuery_ex_reconnect :
  ExecuteQuery example_cfg true (Some example_request)
    (connected [IoErr; IoOk []; IoOk []; IoOk [1; 0]; IoOk [0];
                IoOk []; IoOk [2; 0]; IoOk [0; 7]]) =
  Done (0,
        {| TReadBuffer.Buffer := [0; 7; 150; 0; 0; 0; 0; 0; 0; 0; 0; 0; 0; 0; 0; 0];
           TReadBuffer.Position := 1 |},
        {| Handle := true; Net := [];
           Trace := [OpWrite [1; 0; 150]; OpClose; OpDial;
                     OpWrite [6; 0; 0; 3; 2; 0; 112; 119]; OpRead 2; OpRead 1;
                     OpWrite [1; 0; 150]; OpRead 2; OpRead 2] |}).
Proof. reflexivity. Qed.

Example ExecuteQuery_ex_no_reconnect :
  ExecuteQuery example_cfg false (Some example_request)
    (connected [IoErr; IoOk []; IoOk []; IoOk [1; 0]; IoOk [0];
                IoOk []; IoOk [2; 0]; IoOk [0; 7]]) =
  Done (QUERY_STATUS_FAILED, TReadBuffer.zero,
        {| Handle := false;
           Net := [IoOk []; IoOk []; IoOk [1; 0]; IoOk [0];
                   IoOk []; IoOk [2; 0]; IoOk [0; 7]];
           Trace := [OpWrite [1; 0; 150]; OpClose] |}).
Proof. reflexivity. Qed.

(** [strings.EqualFold] on ASCII strings, for the examples: equality up
    to the case of the letters A-Z. *)
Definition ascii_lower (b : Z) : Z :=
  if (65 <=? b) && (b <=? 90) then b + 32 else b.

Definition ASCII_EqualFold (s t : list Z) : bool :=
  bool_decide (ascii_lower <$> s = ascii_lower <$> t).

(** A clock for the examples: reading number [k] is [5000 + k]. *)
Definition example_clock (k : nat) : Z := 5000 + Z.of_nat k.

(** The globals at process start, on a given connection. *)
Definition start (c : TQueryManagerConnection) : Globals :=
  {| g_QueryManagerConnection := c;
     g_AccountCache := None;
     g_CharacterCache := None;
     g_WorldCache := [];
     g_WorldCacheRefreshTime := 0;
     Ticks := 0 |}.

(** The exchange of one successful "get account summary": the write, the
    response length 10 and the response (status OK, an e-mail address of
    one letter, no premium days, not deleted, no characters). *)
Definition summary_exchange (letter : Z) : list io_event :=
  [IoOk []; IoOk [10; 0]; IoOk [0; 1; 0; letter; 0; 0; 0; 0; 0; 0]].

(** The exchange of a "get character profile" answered "not found":
    status ERROR with error code 1. *)
Definition not_found_exchange : list io_event :=
  [IoOk []; IoOk [2; 0]; IoOk [1; 1]].

Example GetAccountSummary_ex_miss_then_hit :
  ('(_, _, g) ← GetAccountSummary example_cfg example_clock 7
                  (start (connected (summary_exchange 97)));
   '(Result, Account, g) ← GetAccountSummary example_cfg example_clock 7 g;
   Done (Result, TAccountSummary.Email Account, Trace (g_QueryManagerConnection g))) =
  Done (0, [97], [OpWrite [5; 0; 102; 7; 0; 0; 0]; OpRead 2; OpRead 10]).
Proof. vm_compute. reflexivity. Qed.

Example GetCharacterProfile_ex_not_found_cached :
  ('(_, _, g) ← GetCharacterProfile example_cfg example_clock ASCII_EqualFold [66; 111; 98]
                  (start (connected not_found_exchange));
   '(Result, _, g) ← GetCharacterProfile example_cfg example_clock ASCII_EqualFold
                       [98; 79; 66] g;
   Done (Result, Trace (g_QueryManagerConnection g))) =
  Done (1, [OpWrite [6; 0; 103; 3; 0; 66; 111; 98]; OpRead 2; OpRead 2]).
Proof. vm_compute. reflexivity. Qed.
(** ** Properties of the transcoder *)

Lemma UTF8ToLatin1_loop_eq (Buffer : list Z) (ReadPos : nat) (Result : list Z) :
  UTF8ToLatin1_loop Buffer ReadPos Result =
  if decide (ReadPos < length Buffer)%nat then
    UTF8ToLatin1_loop Buffer
      (ReadPos + fst (UTF8ToLatin1_step (drop ReadPos Buffer)))%nat
      (Result ++ [snd (UTF8ToLatin1_step (drop ReadPos Buffer))])
  else Result.
Proof.
  rewrite UTF8ToLatin1_loop_equation_1.
  destruct (decide (ReadPos < length Buffer)%nat); reflexivity.
Qed.

(** The loop only looks at [Buffer[ReadPos:]] and only appends. *)
Lemma UTF8ToLatin1_loop_suffix (n : nat) :
  forall (Buffer : list Z) (ReadPos : nat) (Result : list Z),
    (length Buffer - ReadPos <= n)%nat ->
    UTF8ToLatin1_loop Buffer ReadPos Result =
    Result ++ UTF8ToLatin1 (drop ReadPos Buffer).
Proof.
  induction n as [|n IH]; intros Buffer ReadPos Result Hn.
  - unfold UTF8ToLatin1.
    rewrite (UTF8ToLatin1_loop_eq Buffer), (UTF8ToLatin1_loop_eq (drop _ _)).
    rewrite length_drop.
    destruct (decide (ReadPos < length Buffer)%nat); [lia|].
    destruct (decide (0 < length Buffer - ReadPos)%nat); [lia|].
    now rewrite app_nil_r.
  - unfold UTF8ToLatin1.
    rewrite (UTF8ToLatin1_loop_eq Buffer), (UTF8ToLatin1_loop_eq (drop _ _)).
    rewrite length_drop.
    destruct (decide (ReadPos < length Buffer)%nat) as [Hlt|Hge];
      destruct (decide (0 < length Buffer - ReadPos)%nat); try lia.
    + pose proof (UTF8ToLatin1_step_pos _ (drop_nonempty Buffer ReadPos Hlt)) as Hpos.
      rewrite drop_0. simpl.
      set (st := UTF8ToLatin1_step (drop ReadPos Buffer)) in *.
      rewrite (IH Buffer) by lia.
      rewrite (IH (drop ReadPos Buffer)) by (rewrite length_drop; lia).
      rewrite drop_drop, <- app_assoc. reflexivity.
    + now rewrite app_nil_r.
Qed.

Lemma UTF8ToLatin1_nil : UTF8ToLatin1 [] = [].
Proof. reflexivity. Qed.

(** One iteration, seen from outside: the first code point (or invalid
    span) of a non-empty buffer contributes exactly one byte. *)
Lemma UTF8ToLatin1_cons (Buffer : list Z) :
  Buffer <> [] ->
  UTF8ToLatin1 Buffer =
  snd (UTF8ToLatin1_step Buffer) ::
  UTF8ToLatin1 (drop (fst (UTF8ToLatin1_step Buffer)) Buffer).
Proof.
  intros Hne. unfold UTF8ToLatin1 at 1.
  rewrite UTF8ToLatin1_loop_eq.
  destruct (decide (0 < length Buffer)%nat) as [Hlt|Hge].
  - rewrite drop_0. simpl.
    now rewrite (UTF8ToLatin1_loop_suffix (length Buffer)) by lia.
  - destruct Buffer; [congruence|simpl in Hge; lia].
Qed.

(** *** Latin-1 to UTF-8 and back *)

Lemma AppendRune_app (p : list Z) (r : Z) :
  utf8.AppendRune p r = p ++ utf8.AppendRune [] r.
Proof.
  unfold utf8.AppendRune.
  repeat match goal with
         | |- context [if ?c then _ else _] => destruct c
         end; reflexivity.
Qed.

Lemma fold_AppendRune (Buffer acc : list Z) :
  fold_left utf8.AppendRune Buffer acc = acc ++ Latin1ToUTF8 Buffer.
Proof.
  unfold Latin1ToUTF8. revert acc.
  induction Buffer as [|b Buffer IH]; intros acc; simpl.
  - now rewrite app_nil_r.
  - rewrite IH, (IH (utf8.AppendRune [] b)), (AppendRune_app acc).
    now rewrite app_assoc.
Qed.

Lemma Latin1ToUTF8_cons (b : Z) (Buffer : list Z) :
  Latin1ToUTF8 (b :: Buffer) = utf8.AppendRune [] b ++ Latin1ToUTF8 Buffer.
Proof. unfold Latin1ToUTF8 at 1. simpl. apply fold_AppendRune. Qed.

(** [DecodeRune] reads no further than the encoding it decodes. *)
Lemma DecodeRune_ascii (p0 : Z) (rest : list Z) :
  utf8.first p0 = 0xF0 -> utf8.DecodeRune (p0 :: rest) = (p0, 1%nat).
Proof. intros H. unfold utf8.DecodeRune. rewrite H. reflexivity. Qed.

Lemma DecodeRune_two (p0 p1 : Z) (rest : list Z) :
  utf8.first p0 = 0x02 ->
  utf8.DecodeRune (p0 :: p1 :: rest) = utf8.DecodeRune [p0; p1].
Proof. intros H. unfold utf8.DecodeRune. rewrite H. reflexivity. Qed.

(** What the encoding of one Latin-1 byte has to satisfy; checked on each
    of the 256 byte values by evaluation. *)
Definition latin1_byte_ok (b : Z) : bool :=
  match utf8.AppendRune [] b with
  | [p0] => (utf8.first p0 =? 0xF0) && (p0 =? b)
  | [p0; p1] =>
    (utf8.first p0 =? 0x02) &&
    (fst (utf8.DecodeRune [p0; p1]) =? b) &&
    (snd (utf8.DecodeRune [p0; p1]) =? 2)%nat
  | _ => false
  end.

Lemma latin1_bytes_ok :
  forallb latin1_byte_ok (map Z.of_nat (seq 0 256)) = true.
Proof. vm_compute. reflexivity. Qed.

Lemma latin1_byte_ok_all (b : Z) : 0 <= b < 256 -> latin1_byte_ok b = true.
Proof.
  intros Hb. pose proof latin1_bytes_ok as Hall.
  rewrite forallb_forall in Hall. apply Hall.
  rewrite <- (Z2Nat.id b) by lia. apply in_map, in_seq. lia.
Qed.

Lemma DecodeRune_latin1 (b : Z) (rest : list Z) :
  0 <= b < 256 ->
  utf8.DecodeRune (utf8.AppendRune [] b ++ rest) =
  (b, length (utf8.AppendRune [] b)).
Proof.
  intros Hb. pose proof (latin1_byte_ok_all b Hb) as Hok.
  unfold latin1_byte_ok in Hok.
  destruct (utf8.AppendRune [] b) as [|p0 [|p1 [|p2 enc]]]; try discriminate.
  - apply andb_prop in Hok as [Hf Hp].
    apply Z.eqb_eq in Hf, Hp. subst p0. now apply DecodeRune_ascii.
  - apply andb_prop in Hok as [Hok Hs]. apply andb_prop in Hok as [Hf Hc].
    apply Z.eqb_eq in Hf, Hc. apply Nat.eqb_eq in Hs.
    simpl app. rewrite DecodeRune_two by assumption.
    destruct (utf8.DecodeRune [p0; p1]) as [cp sz]. simpl in *. congruence.
Qed.

Lemma UTF8ToLatin1_step_latin1 (b : Z) (rest : list Z) :
  0 <= b < 256 ->
  UTF8ToLatin1_step (utf8.AppendRune [] b ++ rest) =
  (length (utf8.AppendRune [] b), b).
Proof.
  intros Hb. unfold UTF8ToLatin1_step. rewrite DecodeRune_latin1 by assumption.
  assert ((b =? utf8.RuneError) = false) as ->
      by (apply Z.eqb_neq; unfold utf8.RuneError; lia).
  assert ((0 <=? b) = true) as -> by (apply Z.leb_le; lia).
  assert ((b <=? 255) = true) as -> by (apply Z.leb_le; lia).
  simpl. unfold uint8. now rewrite Z.mod_small by lia.
Qed.

Lemma AppendRune_nonempty (b : Z) : utf8.AppendRune [] b <> [].
Proof.
  unfold utf8.AppendRune.
  repeat match goal with
         | |- context [if ?c then _ else _] => destruct c
         end; discriminate.
Qed.

(** C8.  For every slice of byte values 0..255, converting it to UTF-8
    with [Latin1ToUTF8] and back with [UTF8ToLatin1] gives exactly the
    original slice. *)
Theorem Latin1_UTF8_roundtrip (Buffer : list Z) :
  Forall (fun b => 0 <= b < 256) Buffer ->
  UTF8ToLatin1 (Latin1ToUTF8 Buffer) = Buffer.
Proof.
  induction 1 as [|b Buffer Hb _ IH]; [reflexivity|].
  rewrite Latin1ToUTF8_cons, UTF8ToLatin1_cons.
  - rewrite UTF8ToLatin1_step_latin1 by assumption. simpl.
    now rewrite drop_app_length, IH.
  - intros Heq. apply app_eq_nil in Heq as [Heq _].
    now apply AppendRune_nonempty in Heq.
Qed.

Lemma Latin1_UTF8_roundtrip_witness :
  UTF8ToLatin1 (Latin1ToUTF8 [0; 65; 127; 128; 233; 255]) = [0; 65; 127; 128; 233; 255].
Proof.
  apply Latin1_UTF8_roundtrip.
  repeat constructor; lia.
Defined.

(** *** Invalid sequences *)

Lemma UTF8FindNextLeadingByte_loop_spec (rest : list Z) :
  forall Offset : nat,
    (1 <= Offset)%nat ->
    let k := UTF8FindNextLeadingByte_loop rest Offset in
    (Offset <= k <= Offset + length rest)%nat /\
    (forall i : nat, (i < k - Offset)%nat ->
       exists b, rest !! i = Some b /\ utf8.RuneStart b = false) /\
    (forall b, rest !! (k - Offset)%nat = Some b -> utf8.RuneStart b = true).
Proof.
  induction rest as [|b rest IH]; intros Offset HO; simpl.
  - split; [lia|]. split.
    + intros i Hi. exfalso; lia.
    + intros b Hb. now rewrite lookup_nil in Hb.
  - assert ((0 <? Offset)%nat = true) as -> by (apply Nat.ltb_lt; lia).
    simpl. destruct (utf8.RuneStart b) eqn:Hst.
    + split; [lia|]. split.
      * intros i Hi. exfalso; lia.
      * intros b' Hb'. rewrite Nat.sub_diag in Hb'. simpl in Hb'. congruence.
    + destruct (IH (S Offset) ltac:(lia)) as [Hk [Hcont Hnext]].
      set (k := UTF8FindNextLeadingByte_loop rest (S Offset)) in *.
      split; [lia|]. split.
      * intros [|i] Hi; [exists b; split; [reflexivity|assumption]|].
        simpl. apply Hcont. lia.
      * intros b' Hb'. replace (k - Offset)%nat with (S (k - S Offset)) in Hb' by lia.
        simpl in Hb'. now apply Hnext.
Qed.

(** [UTF8FindNextLeadingByte] returns the offset of the first byte after
    the first one that starts a code point, or the length of the buffer
    when there is none. *)
Lemma UTF8FindNextLeadingByte_spec (Buffer : list Z) :
  Buffer <> [] ->
  let k := UTF8FindNextLeadingByte Buffer in
  (1 <= k <= length Buffer)%nat /\
  (forall i : nat, (1 <= i < k)%nat ->
     exists b, Buffer !! i = Some b /\ utf8.RuneStart b = false) /\
  (forall b, Buffer !! k = Some b -> utf8.RuneStart b = true).
Proof.
  destruct Buffer as [|b0 rest]; [congruence|]. intros _.
  unfold UTF8FindNextLeadingByte. simpl.
  destruct (UTF8FindNextLeadingByte_loop_spec rest 1 ltac:(lia)) as [Hk [Hcont Hnext]].
  set (k := UTF8FindNextLeadingByte_loop rest 1) in *.
  split; [lia|]. split.
  - intros [|i] Hi; [exfalso; lia|]. simpl. apply Hcont. lia.
  - intros b Hb. destruct k as [|k]; [exfalso; lia|]. simpl in Hb.
    apply Hnext. now replace (S k - 1)%nat with k by lia.
Qed.


(** ** The query executor *)

Lemma bind_Done {A B : Type} (a : A) (k : A -> outcome B) :
  (Done a ≫= k) = k a.
Proof. reflexivity. Qed.

(** [r] is a return of [ExecuteQuery] whose socket operations start with
    [pre]: either the failure status with the zero [ReadBuffer], or a
    status read from a response on a connection that is still up. *)
Definition returned_after (pre : list io_op) (r : outcome query_result) : Prop :=
  exists Status ReadBuffer c,
    r = Done (Status, ReadBuffer, c) /\
    (Handle c = true \/ (Status = QUERY_STATUS_FAILED /\ ReadBuffer = TReadBuffer.zero)) /\
    exists ops, Trace c = pre ++ ops.

(** A [Connect] that returns, leaves a handle when it reports success,
    and only adds to the trace. *)
Definition connect_ok
           (K : TQueryManagerConnection -> outcome (bool * TQueryManagerConnection))
  : Prop :=
  forall c, exists up c',
      K c = Done (up, c') /\ (up = true -> Handle c' = true) /\
      exists ops, Trace c' = Trace c ++ ops.

Lemma returned_after_failed (pre ops : list io_op) (c : TQueryManagerConnection) :
  Trace c = pre ++ ops -> returned_after pre (failed c).
Proof. intros H. unfold returned_after, failed. eauto 10. Qed.

Lemma returned_after_weaken (pre ops : list io_op) (r : outcome query_result) :
  returned_after (pre ++ ops) r -> returned_after pre r.
Proof.
  intros (St & rb & c & -> & Hc & ops' & Ht).
  exists St, rb, c. repeat split; [assumption|].
  exists (ops ++ ops'). now rewrite Ht, app_assoc.
Qed.

Lemma returned_after_weaken_eq (pre pre' ops : list io_op) (r : outcome query_result) :
  pre' = pre ++ ops -> returned_after pre' r -> returned_after pre r.
Proof. intros ->. apply returned_after_weaken. Qed.


(** Case analysis on the innermost scrutinee of the goal. *)
Ltac exec_case :=
  match goal with
  | |- context [match ?x with _ => _ end] =>
    lazymatch x with
    | context [match _ with _ => _ end] => fail
    | _ => destruct x eqn:?
    end
  | |- context [if ?x then _ else _] =>
    lazymatch x with
    | context [match _ with _ => _ end] => fail
    | _ => destruct x eqn:?
    end
  end.

Ltac exec_cases := repeat (exec_case; simpl in *).

(** The trace of a leaf of the case analysis starts with the given one. *)
Ltac trace_tail := simpl; eexists; rewrite <- ?app_assoc; simpl; reflexivity.

Ltac leaf_failed :=
  eapply returned_after_failed; simpl; rewrite <- ?app_assoc; simpl; reflexivity.

Ltac leaf_done :=
  unfold returned_after; do 3 eexists;
  split; [reflexivity|split; [left; reflexivity|trace_tail]].

Section ExecutorProperties.

Variable K : TQueryManagerConnection -> outcome (bool * TQueryManagerConnection).
Variable AutoReconnect : bool.
Variable Buffer : list Z.
Variable WriteSize : Z.

Local Abbreviation loop := (ExecuteQuery_loop K AutoReconnect Buffer WriteSize).
Local Abbreviation request := (take (Z.to_nat WriteSize) Buffer).

(** A round that starts disconnected and reconnects goes on as a round
    on the new connection. *)
Lemma ExecuteQuery_loop_reconnected
      (fuel : nat) (Attempt : Z) (c c' : TQueryManagerConnection) :
  Handle c = false -> AutoReconnect = true ->
  K c = Done (true, c') -> Handle c' = true ->
  loop (S fuel) Attempt c = loop (S fuel) Attempt c'.
Proof.
  intros Hc Har HK Hc'. simpl. rewrite Hc, Har, HK, Hc'. reflexivity.
Qed.

(** A round that starts disconnected and gets no connection returns
    the failure status. *)
Lemma ExecuteQuery_loop_down
      (fuel : nat) (Attempt : Z) (c : TQueryManagerConnection) :
  Handle c = false -> AutoReconnect = false ->
  loop (S fuel) Attempt c = failed c.
Proof. intros Hc Har. simpl. rewrite Hc, Har. reflexivity. Qed.

Lemma ExecuteQuery_loop_connect_failed
      (fuel : nat) (Attempt : Z) (c c' : TQueryManagerConnection) :
  Handle c = false -> AutoReconnect = true -> K c = Done (false, c') ->
  loop (S fuel) Attempt c = failed c'.
Proof. intros Hc Har HK. simpl. rewrite Hc, Har, HK. reflexivity. Qed.

(** How a round starts: either on a connection that is up (the one
    there was, or the one [Connect] made), or by returning the failure
    status at once. *)
Lemma ExecuteQuery_loop_start (Attempt : Z) (c : TQueryManagerConnection) :
  connect_ok K \/ AutoReconnect = false ->
  exists c' ops,
    Trace c' = Trace c ++ ops /\
    ((Handle c' = true /\
      forall fuel, loop (S fuel) Attempt c = loop (S fuel) Attempt c') \/
     (forall fuel, loop (S fuel) Attempt c = failed c')).
Proof.
  intros HK. destruct (Handle c) eqn:Hc.
  - exists c, []. rewrite app_nil_r. auto.
  - destruct (Bool.bool_dec AutoReconnect true) as [Har|Har];
      [|apply Bool.not_true_is_false in Har].
    + destruct HK as [HK|HK]; [|congruence].
      destruct (HK c) as (up & c' & HKc & Hh & ops & Hops).
      exists c', ops. split; [assumption|]. destruct up.
      * left. split; [auto|]. intros fuel.
        now apply ExecuteQuery_loop_reconnected; auto.
      * right. intros fuel. now apply ExecuteQuery_loop_connect_failed.
    + exists c, []. rewrite app_nil_r. split; [reflexivity|].
      right. intros fuel. now apply ExecuteQuery_loop_down.
Qed.

(** The last round on a connection that is up: with
    [Attempt >= MaxAttempts] the loop returns. *)
Lemma ExecuteQuery_loop_last_up (fuel : nat) (Attempt : Z) (c : TQueryManagerConnection) :
  MaxAttempts <= Attempt ->
  Handle c = true ->
  returned_after (Trace c ++ [OpWrite request]) (loop (S fuel) Attempt c) /\
  loop (S fuel) Attempt c = loop 1 Attempt c.
Proof.
  intros HA Hc. apply Z.leb_le in HA.
  simpl. rewrite HA, Hc. rewrite !bind_Done. simpl negb. cbv iota.
  unfold Handle_Write, Handle_Read, io. rewrite Hc. simpl.
  split; [|reflexivity].
  exec_cases; first [leaf_failed | leaf_done].
Qed.

Lemma ExecuteQuery_loop_last (fuel : nat) (Attempt : Z) (c : TQueryManagerConnection) :
  connect_ok K \/ AutoReconnect = false ->
  MaxAttempts <= Attempt ->
  returned_after (Trace c) (loop (S fuel) Attempt c) /\
  loop (S fuel) Attempt c = loop 1 Attempt c.
Proof.
  intros HK HA.
  destruct (ExecuteQuery_loop_start Attempt c HK) as (c' & ops & Ht & [[Hc' E]|E]).
  - rewrite !E. destruct (ExecuteQuery_loop_last_up fuel Attempt c' HA Hc') as [Hr Hf].
    split; [|assumption].
    rewrite Ht, <- app_assoc in Hr. now apply returned_after_weaken in Hr.
  - rewrite !E. split; [|reflexivity]. now apply (returned_after_failed _ ops).
Qed.

(** The first round on a connection that is up. *)
Lemma ExecuteQuery_loop_first_up (fuel : nat) (c : TQueryManagerConnection) :
  connect_ok K \/ AutoReconnect = false ->
  Handle c = true ->
  returned_after (Trace c ++ [OpWrite request]) (loop (S (S fuel)) 1 c) /\
  loop (S (S fuel)) 1 c = loop 2 1 c.
Proof.
  intros HK Hc.
  assert (Hlast : forall c', returned_after (Trace c') (loop (S fuel) 2 c') /\
                             loop (S fuel) 2 c' = loop 1 2 c')
    by (intros c'; apply ExecuteQuery_loop_last; [assumption|unfold MaxAttempts; lia]).
  change 2%nat with (S 1).
  remember (S fuel) as f eqn:Hf. remember 1%nat as one eqn:Hone.
  simpl. rewrite Hc. rewrite !bind_Done. simpl negb. cbv iota.
  unfold Handle_Write, Handle_Read, io. rewrite Hc. simpl.
  exec_cases;
    try (split; [first [leaf_failed | leaf_done]|reflexivity]);
    match goal with
    | |- returned_after _ (ExecuteQuery_loop _ _ _ _ _ _ ?c') /\ _ =>
      destruct (Hlast c') as [Hr He]; split; [|exact He];
      simpl in Hr; eapply returned_after_weaken_eq; [|exact Hr];
      rewrite <- ?app_assoc; simpl; reflexivity
    end.
Qed.

(** The loop returns within [MaxAttempts] rounds: more fuel than that
    changes nothing, and the outcome is neither a panic nor the bound
    of the embedding. *)
Lemma ExecuteQuery_loop_total (fuel : nat) (c : TQueryManagerConnection) :
  connect_ok K \/ AutoReconnect = false ->
  returned_after (Trace c) (loop (S (S fuel)) 1 c) /\
  loop (S (S fuel)) 1 c = loop 2 1 c.
Proof.
  intros HK.
  destruct (ExecuteQuery_loop_start 1 c HK) as (c' & ops & Ht & [[Hc' E]|E]).
  - rewrite !E. destruct (ExecuteQuery_loop_first_up fuel c' HK Hc') as [Hr Hf].
    split; [|assumption].
    rewrite Ht, <- app_assoc in Hr. now apply returned_after_weaken in Hr.
  - rewrite !E. split; [|reflexivity]. now apply (returned_after_failed _ ops).
Qed.

End ExecutorProperties.

(** *** Framing *)

Lemma length_copy_at (buf src : list Z) (off : nat) :
  (off <= length buf)%nat -> length (copy_at buf off src) = length buf.
Proof.
  intros H. unfold copy_at.
  rewrite !length_app, !length_take, length_drop. lia.
Qed.

Lemma copy_at_0 (buf src : list Z) :
  (length src <= length buf)%nat ->
  copy_at buf 0 src = src ++ drop (length src) buf.
Proof.
  intros H. unfold copy_at. rewrite take_0. simpl.
  rewrite Nat.sub_0_r. now rewrite take_ge by lia.
Qed.

Lemma Rewrite16_header (wb : TWriteBuffer.t) (Value : Z) :
  2 <= TWriteBuffer.Position wb <= Z.of_nat (length (TWriteBuffer.Buffer wb)) ->
  TWriteBuffer.Rewrite16 wb 0 Value =
  Done {| TWriteBuffer.Buffer :=
            LittleEndian_bytes16 Value ++ drop 2 (TWriteBuffer.Buffer wb);
          TWriteBuffer.Position := TWriteBuffer.Position wb |}.
Proof.
  intros H. unfold TWriteBuffer.Rewrite16, TWriteBuffer.Overflowed.
  assert ((0 + 2 <=? TWriteBuffer.Position wb) = true) as -> by (apply Z.leb_le; lia).
  assert ((Z.of_nat (length (TWriteBuffer.Buffer wb)) <? TWriteBuffer.Position wb) = false)
    as -> by (apply Z.ltb_ge; lia).
  simpl. rewrite copy_at_0 by (simpl; lia). reflexivity.
Qed.

Lemma Rewrite16_overflowed (wb : TWriteBuffer.t) (Position Value : Z) :
  TWriteBuffer.Overflowed wb = true ->
  TWriteBuffer.Rewrite16 wb Position Value = Done wb.
Proof.
  intros H. unfold TWriteBuffer.Rewrite16. rewrite H.
  now rewrite andb_false_r.
Qed.

(** The header patch returns: its positions 0 and 2 are never negative. *)
Lemma ExecuteQuery_frame_done (wb : TWriteBuffer.t) :
  exists wb', ExecuteQuery_frame wb = Done wb'.
Proof.
  unfold ExecuteQuery_frame, TWriteBuffer.Rewrite16, TWriteBuffer.Insert32.
  simpl. exec_cases; eauto.
Qed.

(** *** [ExecuteQuery] returns *)

Lemma ExecuteQuery_with_returned
      (K : TQueryManagerConnection -> outcome (bool * TQueryManagerConnection))
      (AutoReconnect : bool) (wb : TWriteBuffer.t) (c : TQueryManagerConnection) :
  connect_ok K \/ AutoReconnect = false ->
  2 < TWriteBuffer.Position wb ->
  returned_after (Trace c) (ExecuteQuery_with K AutoReconnect (Some wb) c).
Proof.
  intros HK Hpos. unfold ExecuteQuery_with.
  assert ((TWriteBuffer.Position wb <=? 2) = false) as -> by (apply Z.leb_gt; lia).
  destruct (ExecuteQuery_frame_done wb) as [wb' ->]. rewrite bind_Done.
  destruct (TWriteBuffer.Overflowed wb').
  - apply (returned_after_failed _ []). now rewrite app_nil_r.
  - change (Z.to_nat MaxAttempts) with 2%nat.
    now apply ExecuteQuery_loop_total.
Qed.

Lemma put_Position (wb : TWriteBuffer.t) (guard : bool) (bytes : list Z) (n : Z) :
  TWriteBuffer.Position (TWriteBuffer.put wb guard bytes n) =
  TWriteBuffer.Position wb + n.
Proof. reflexivity. Qed.

Lemma WriteString_Position (wb : TWriteBuffer.t) (s : list Z) :
  TWriteBuffer.Position wb + 2 <= TWriteBuffer.Position (TWriteBuffer.WriteString wb s).
Proof.
  unfold TWriteBuffer.WriteString. rewrite put_Position.
  destruct (Z.of_nat (length (UTF8ToLatin1 s)) <? 65535);
    unfold TWriteBuffer.Write32, TWriteBuffer.Write16; rewrite ?put_Position; lia.
Qed.

(** [Connect] returns, and reports success only with a handle. *)
Lemma Connect_ok (cfg : Config) : connect_ok (Connect cfg).
Proof.
  intros c. unfold Connect. destruct (Handle c) eqn:Hc.
  - exists false, c. split; [reflexivity|]. split; [discriminate|].
    exists []. now rewrite app_nil_r.
  - assert (Hd : Trace (net_Dial c) = Trace c ++ [OpDial])
      by (unfold net_Dial, io; reflexivity).
    cbv zeta. destruct (Handle (net_Dial c)) eqn:Hh; cbn [negb].
    + set (wb := TWriteBuffer.WriteString _ _).
      assert (Hpos : 2 < TWriteBuffer.Position wb).
      { subst wb. pose proof (WriteString_Position
          (TWriteBuffer.Write8 (PrepareQuery QUERY_LOGIN (byte_array 1024))
                               APPLICATION_TYPE_WEB)
          (g_QueryManagerPassword cfg)) as H.
        assert (E : TWriteBuffer.Position
                      (TWriteBuffer.Write8 (PrepareQuery QUERY_LOGIN (byte_array 1024))
                                           APPLICATION_TYPE_WEB) = 4) by reflexivity.
        rewrite E in H. lia. }
      destruct (ExecuteQuery_with_returned Connect_unreachable false wb (net_Dial c)
                  (or_intror eq_refl) Hpos)
        as (St & rb & c' & -> & Hc' & ops & Hops).
      rewrite bind_Done. rewrite Hd, <- app_assoc in Hops.
      destruct (St =? QUERY_STATUS_OK) eqn:HSt; simpl.
      * exists true, c'. split; [reflexivity|]. split; [|eauto].
        intros _. destruct Hc' as [Hc'|[Hf _]]; [assumption|].
        apply Z.eqb_eq in HSt. subst St. discriminate.
      * exists false, (Disconnect c'). split; [reflexivity|]. split; [discriminate|].
        unfold Disconnect. destruct (Handle c'); simpl; [|eauto].
        eexists. rewrite Hops, <- app_assoc. reflexivity.
    + exists false, (net_Dial c). split; [reflexivity|]. split; [discriminate|eauto].
Qed.

(** [ExecuteQuery] on a request of more than two bytes returns: it does
    not panic and its loop does not run on. *)
Lemma ExecuteQuery_returned
      (cfg : Config) (AutoReconnect : bool) (wb : TWriteBuffer.t)
      (c : TQueryManagerConnection) :
  2 < TWriteBuffer.Position wb ->
  returned_after (Trace c) (ExecuteQuery cfg AutoReconnect (Some wb) c).
Proof.
  intros Hpos. apply ExecuteQuery_with_returned; [|assumption].
  left. apply Connect_ok.
Qed.

(** The login query of [Connect] never reaches the [Connect] it is given. *)
Lemma ExecuteQuery_loop_no_reconnect
      (K K' : TQueryManagerConnection -> outcome (bool * TQueryManagerConnection))
      (Buffer : list Z) (WriteSize : Z) (fuel : nat) :
  forall (Attempt : Z) (c : TQueryManagerConnection),
    ExecuteQuery_loop K false Buffer WriteSize fuel Attempt c =
    ExecuteQuery_loop K' false Buffer WriteSize fuel Attempt c.
Proof.
  induction fuel as [|fuel IH]; intros Attempt c; [reflexivity|].
  simpl. destruct (Handle c) eqn:Hc; simpl; [|reflexivity].
  unfold Handle_Write, Handle_Read, io. rewrite Hc. simpl.
  rewrite !IH. reflexivity.
Qed.

(** *** The caller defect (C7) *)

Lemma ExecuteQuery_frame_small (wb : TWriteBuffer.t) :
  2 < TWriteBuffer.Position wb ->
  TWriteBuffer.Position wb - 2 < 0xFFFF ->
  TWriteBuffer.Position wb <= Z.of_nat (length (TWriteBuffer.Buffer wb)) ->
  ExecuteQuery_frame wb =
  Done {| TWriteBuffer.Buffer :=
            LittleEndian_bytes16 (TWriteBuffer.Position wb - 2)
              ++ drop 2 (TWriteBuffer.Buffer wb);
          TWriteBuffer.Position := TWriteBuffer.Position wb |}.
Proof.
  intros H2 Hs Hlen. unfold ExecuteQuery_frame.
  assert ((TWriteBuffer.Position wb - 2 <? 65535) = true) as -> by (apply Z.ltb_lt; lia).
  rewrite Rewrite16_header by lia.
  unfold uint16. rewrite Z.mod_small by lia. reflexivity.
Qed.

(** [ExecuteQuery] on a request that fits its buffer, with a payload
    below 0xFFFF, is the retry loop on the framed request. *)
Lemma ExecuteQuery_small_is_loop
      (cfg : Config) (AutoReconnect : bool) (wb : TWriteBuffer.t)
      (c : TQueryManagerConnection) :
  2 < TWriteBuffer.Position wb ->
  TWriteBuffer.Position wb - 2 < 0xFFFF ->
  TWriteBuffer.Position wb <= Z.of_nat (length (TWriteBuffer.Buffer wb)) ->
  ExecuteQuery cfg AutoReconnect (Some wb) c =
  ExecuteQuery_loop (Connect cfg) AutoReconnect
    (LittleEndian_bytes16 (TWriteBuffer.Position wb - 2)
       ++ drop 2 (TWriteBuffer.Buffer wb))
    (TWriteBuffer.Position wb) 2 1 c.
Proof.
  intros Hpos Hs Hlen.
  pose proof (ExecuteQuery_frame_small wb Hpos Hs Hlen) as Hf.
  set (framed := LittleEndian_bytes16 _ ++ _) in *.
  unfold ExecuteQuery, ExecuteQuery_with.
  assert ((TWriteBuffer.Position wb <=? 2) = false) as -> by (apply Z.leb_gt; lia).
  rewrite Hf, bind_Done. unfold TWriteBuffer.Overflowed.
  cbn [TWriteBuffer.Buffer TWriteBuffer.Position].
  assert (length framed = length (TWriteBuffer.Buffer wb)) as ->.
  { unfold framed. rewrite length_app, length_drop. simpl. lia. }
  assert ((Z.of_nat (length (TWriteBuffer.Buffer wb)) <? TWriteBuffer.Position wb) = false)
    as -> by (apply Z.ltb_ge; lia).
  reflexivity.
Qed.

(** *** The retry contract (C1) *)

Section RetryContract.

Variable cfg : Config.
Variable AutoReconnect : bool.
Variable Buffer : list Z.
Variable WriteSize : Z.

Local Abbreviation loop := (ExecuteQuery_loop (Connect cfg) AutoReconnect Buffer WriteSize).
Local Abbreviation request := (take (Z.to_nat WriteSize) Buffer).

(** The connection after a failure: closed, with [ops] added to the
    trace and [net] left of the script. *)
Definition closed_after (c : TQueryManagerConnection) (net : list io_event)
           (ops : list io_op) : TQueryManagerConnection :=
  {| Handle := false; Net := net; Trace := Trace c ++ ops |}.

(** The response size announced by the first two bytes read. *)
Definition announced_size (sz : list Z) : Z :=
  LittleEndian_Uint16 (take 2 (copy_at [0; 0; 0; 0] 0 (take 2 sz))).

(** (b): a failed write leads to the next round, unless this was the
    last attempt. *)
Lemma ExecuteQuery_loop_write_error
      (fuel : nat) (Attempt : Z) (c : TQueryManagerConnection) (net : list io_event) :
  Handle c = true -> Net c = IoErr :: net ->
  loop (S fuel) Attempt c =
  if MaxAttempts <=? Attempt
  then failed (closed_after c net [OpWrite request; OpClose])
  else loop fuel (Attempt + 1) (closed_after c net [OpWrite request; OpClose]).
Proof.
  intros Hc Hn. simpl. rewrite Hc, !bind_Done. simpl negb. cbv iota.
  unfold Handle_Write, io. rewrite Hc, Hn. simpl.
  unfold closed_after, Disconnect. simpl. rewrite <- ?app_assoc. reflexivity.
Qed.

(** (c): so does a failed read of the 2-byte response length. *)
Lemma ExecuteQuery_loop_size_error
      (fuel : nat) (Attempt : Z) (c : TQueryManagerConnection)
      (w : list Z) (net : list io_event) :
  Handle c = true -> Net c = IoOk w :: IoErr :: net ->
  loop (S fuel) Attempt c =
  if MaxAttempts <=? Attempt
  then failed (closed_after c net [OpWrite request; OpRead 2; OpClose])
  else loop fuel (Attempt + 1)
            (closed_after c net [OpWrite request; OpRead 2; OpClose]).
Proof.
  intros Hc Hn. simpl. rewrite Hc, !bind_Done. simpl negb. cbv iota.
  unfold Handle_Write, Handle_Read, io. rewrite Hc, Hn. simpl.
  unfold closed_after, Disconnect. simpl. rewrite <- ?app_assoc. reflexivity.
Qed.

(** (e): a failed read of the response body returns the failure
    status, whatever the attempt. *)
Lemma ExecuteQuery_loop_body_error
      (fuel : nat) (Attempt : Z) (c : TQueryManagerConnection)
      (w sz : list Z) (net : list io_event) :
  Handle c = true -> Net c = IoOk w :: IoOk sz :: IoErr :: net ->
  announced_size sz <> 0xFFFF ->
  0 < announced_size sz <= Z.of_nat (length Buffer) ->
  loop (S fuel) Attempt c =
  failed (closed_after c net
            [OpWrite request; OpRead 2;
             OpRead (Z.to_nat (announced_size sz)); OpClose]).
Proof.
  intros Hc Hn Hx Hr. simpl. rewrite Hc, !bind_Done. simpl negb. cbv iota.
  unfold Handle_Write, Handle_Read, io. rewrite Hc, Hn. simpl. fold (announced_size sz).
  apply Z.eqb_neq in Hx. rewrite Hx. simpl.
  assert ((announced_size sz <=? 0) = false) as -> by (apply Z.leb_gt; lia).
  assert ((Z.of_nat (length Buffer) <? announced_size sz) = false) as ->
      by (apply Z.ltb_ge; lia).
  simpl. unfold closed_after, Disconnect. simpl. rewrite <- ?app_assoc. reflexivity.
Qed.

(** So does a failed read of the extended 32-bit length. *)
Lemma ExecuteQuery_loop_extended_size_error
      (fuel : nat) (Attempt : Z) (c : TQueryManagerConnection)
      (w sz : list Z) (net : list io_event) :
  Handle c = true -> Net c = IoOk w :: IoOk sz :: IoErr :: net ->
  announced_size sz = 0xFFFF ->
  loop (S fuel) Attempt c =
  failed (closed_after c net [OpWrite request; OpRead 2; OpRead 4; OpClose]).
Proof.
  intros Hc Hn Hx. simpl. rewrite Hc, !bind_Done. simpl negb. cbv iota.
  unfold Handle_Write, Handle_Read, io. rewrite Hc, Hn. simpl. fold (announced_size sz).
  rewrite Hx. simpl. unfold closed_after, Disconnect. simpl. rewrite <- ?app_assoc. reflexivity.
Qed.

End RetryContract.

(** [ExecuteQuery] on a well-formed request is its retry loop. *)
Lemma ExecuteQuery_is_loop
      (cfg : Config) (AutoReconnect : bool) (wb framed : TWriteBuffer.t)
      (c : TQueryManagerConnection) :
  2 < TWriteBuffer.Position wb ->
  ExecuteQuery_frame wb = Done framed ->
  TWriteBuffer.Overflowed framed = false ->
  ExecuteQuery cfg AutoReconnect (Some wb) c =
  ExecuteQuery_loop (Connect cfg) AutoReconnect (TWriteBuffer.Buffer framed)
                    (TWriteBuffer.Position framed) 2 1 c.
Proof.
  intros Hpos Hf Ho. unfold ExecuteQuery, ExecuteQuery_with.
  assert ((TWriteBuffer.Position wb <=? 2) = false) as -> by (apply Z.leb_gt; lia).
  rewrite Hf, bind_Done, Ho. reflexivity.
Qed.

(** *** Byte order of the extended lengths (C2) *)

Lemma land_shiftl_low (a b n : Z) :
  0 <= n -> 0 <= a < 2 ^ n -> Z.land a (Z.shiftl b n) = 0.
Proof.
  intros Hn Ha. apply Z.bits_inj'. intros m Hm.
  rewrite Z.land_spec, Z.bits_0.
  destruct (Z.lt_ge_cases m n) as [Hlt|Hge].
  - rewrite Z.shiftl_spec_low by lia. apply andb_false_r.
  - rewrite <- (Z.mod_small a (2 ^ n)) by lia.
    rewrite Z.mod_pow2_bits_high by lia. reflexivity.
Qed.

Lemma lor_shiftl_add (a b n : Z) :
  0 <= n -> 0 <= a < 2 ^ n -> Z.lor a (Z.shiftl b n) = a + b * 2 ^ n.
Proof.
  intros Hn Ha.
  rewrite <- Z.lxor_lor, <- Z.add_nocarry_lxor by now apply land_shiftl_low.
  now rewrite Z.shiftl_mul_pow2.
Qed.

(** The value read little-endian: the first byte is the least significant. *)
Lemma LittleEndian_Uint32_value (b0 b1 b2 b3 : Z) :
  0 <= b0 < 256 -> 0 <= b1 < 256 -> 0 <= b2 < 256 -> 0 <= b3 < 256 ->
  LittleEndian_Uint32 [b0; b1; b2; b3] =
  b0 + 256 * b1 + 65536 * b2 + 16777216 * b3.
Proof.
  intros H0 H1 H2 H3. unfold LittleEndian_Uint32, at_index. simpl.
  rewrite (lor_shiftl_add b0 b1 8) by lia.
  rewrite (lor_shiftl_add _ b2 16) by lia.
  rewrite (lor_shiftl_add _ b3 24) by lia.
  lia.
Qed.

(** The value read big-endian: the first byte is the most significant. *)
Lemma BigEndian_Uint32_value (b0 b1 b2 b3 : Z) :
  0 <= b0 < 256 -> 0 <= b1 < 256 -> 0 <= b2 < 256 -> 0 <= b3 < 256 ->
  BigEndian_Uint32 [b0; b1; b2; b3] =
  16777216 * b0 + 65536 * b1 + 256 * b2 + b3.
Proof.
  intros H0 H1 H2 H3. unfold BigEndian_Uint32, at_index. simpl.
  rewrite (lor_shiftl_add b3 b2 8) by lia.
  rewrite (lor_shiftl_add _ b1 16) by lia.
  rewrite (lor_shiftl_add _ b0 24) by lia.
  lia.
Qed.

Lemma LittleEndian_bytes32_value (v : Z) :
  0 <= v < 4294967296 ->
  LittleEndian_Uint32 (LittleEndian_bytes32 v) = v.
Proof.
  intros Hv. unfold LittleEndian_bytes32, uint8.
  rewrite !Z.shiftr_div_pow2 by lia.
  rewrite LittleEndian_Uint32_value by (apply Z.mod_pos_bound; lia).
  change (2 ^ 8) with 256. change (2 ^ 16) with (256 * 256).
  change (2 ^ 24) with (256 * 256 * 256).
  rewrite <- !Z.div_div by lia.
  pose proof (Z.div_mod v 256 ltac:(lia)).
  pose proof (Z.div_mod (v / 256) 256 ltac:(lia)).
  pose proof (Z.div_mod (v / 256 / 256) 256 ltac:(lia)).
  assert (0 <= v / 256 / 256 / 256 < 256).
  { split; [repeat apply Z.div_pos; lia|].
    repeat (apply Z.div_lt_upper_bound; [lia|]). lia. }
  rewrite (Z.mod_small (v / 256 / 256 / 256)) by lia.
  lia.
Qed.

(** [Insert32] splices the four bytes of [Value], least significant
    first, at [Position] and moves what was there 4 bytes up. *)
Lemma Insert32_layout (wb : TWriteBuffer.t) (Position Value : Z) :
  0 <= Position <= TWriteBuffer.Position wb ->
  TWriteBuffer.CanWrite wb 4 = true ->
  TWriteBuffer.Insert32 wb Position Value =
  Done {| TWriteBuffer.Buffer :=
            take (Z.to_nat Position) (TWriteBuffer.Buffer wb)
              ++ LittleEndian_bytes32 Value
              ++ take (length (TWriteBuffer.Buffer wb) - Z.to_nat Position - 4)
                      (drop (Z.to_nat Position) (TWriteBuffer.Buffer wb));
          TWriteBuffer.Position := TWriteBuffer.Position wb + 4 |}.
Proof.
  intros Hpos Hcan. unfold TWriteBuffer.Insert32. rewrite Hcan.
  assert ((Position <=? TWriteBuffer.Position wb) = true) as -> by (apply Z.leb_le; lia).
  assert ((Position <? 0) = false) as -> by (apply Z.ltb_ge; lia).
  unfold TWriteBuffer.CanWrite in Hcan. apply Z.leb_le in Hcan.
  set (B := TWriteBuffer.Buffer wb) in *. set (p := Z.to_nat Position).
  assert (Hp : (p + 4 <= length B)%nat) by lia.
  do 2 f_equal. unfold copy_at at 2.
  rewrite length_drop.
  rewrite (drop_ge B (p + 4 + (length B - p))) by lia. rewrite app_nil_r.
  unfold copy_at. rewrite length_app, !length_take, length_drop.
  rewrite take_app_le by (rewrite length_take; lia).
  rewrite take_take. replace (p `min` (p + 4))%nat with p by lia.
  f_equal. rewrite (take_ge (LittleEndian_bytes32 Value)) by (simpl; lia).
  f_equal. simpl length.
  rewrite drop_app_length' by (rewrite length_take; lia).
  f_equal. lia.
Qed.

Lemma ExecuteQuery_frame_large (wb : TWriteBuffer.t) :
  0xFFFF <= TWriteBuffer.Position wb - 2 ->
  TWriteBuffer.Position wb + 4 <= Z.of_nat (length (TWriteBuffer.Buffer wb)) ->
  ExecuteQuery_frame wb =
  Done {| TWriteBuffer.Buffer :=
            [0xFF; 0xFF]
              ++ LittleEndian_bytes32 (uint32 (TWriteBuffer.Position wb - 2))
              ++ take (length (TWriteBuffer.Buffer wb) - 6)
                      (drop 2 (TWriteBuffer.Buffer wb));
          TWriteBuffer.Position := TWriteBuffer.Position wb + 4 |}.
Proof.
  intros Hbig Hlen. unfold ExecuteQuery_frame.
  assert ((TWriteBuffer.Position wb - 2 <? 65535) = false) as -> by (apply Z.ltb_ge; lia).
  rewrite Rewrite16_header by lia. rewrite bind_Done.
  rewrite Insert32_layout.
  - cbn [TWriteBuffer.Buffer TWriteBuffer.Position].
    change (LittleEndian_bytes16 65535) with [255; 255].
    change (Z.to_nat 2) with 2%nat.
    do 2 f_equal. simpl take at 1. simpl drop. simpl length.
    rewrite length_drop. do 3 f_equal. lia.
  - cbn [TWriteBuffer.Position]. lia.
  - unfold TWriteBuffer.CanWrite. cbn [TWriteBuffer.Buffer TWriteBuffer.Position].
    apply Z.leb_le. rewrite length_app, length_drop. simpl length. lia.
Qed.

Lemma LittleEndian_bytes16_value (v : Z) :
  0 <= v < 65536 ->
  LittleEndian_Uint16 (LittleEndian_bytes16 v) = v.
Proof.
  intros Hv. unfold LittleEndian_bytes16, LittleEndian_Uint16, at_index, uint8. simpl.
  rewrite Z.shiftr_div_pow2 by lia. change (2 ^ 8) with 256.
  rewrite lor_shiftl_add by (try apply Z.mod_pos_bound; lia).
  change (2 ^ 8) with 256.
  pose proof (Z.div_mod v 256 ltac:(lia)).
  assert (0 <= v / 256 < 256).
  { split; [apply Z.div_pos; lia|apply Z.div_lt_upper_bound; lia]. }
  rewrite (Z.mod_small (v / 256)) by lia. lia.
Qed.

(** The readers look at the first bytes of the slice only. *)
Lemma LittleEndian_Uint16_take (b : list Z) :
  LittleEndian_Uint16 b = LittleEndian_Uint16 (take 2 b).
Proof. do 3 (destruct b as [|? b]; try reflexivity). Qed.

Lemma LittleEndian_Uint32_take (b : list Z) :
  LittleEndian_Uint32 b = LittleEndian_Uint32 (take 4 b).
Proof. do 5 (destruct b as [|? b]; try reflexivity). Qed.

(** What [copy] stored is what the slice holds there afterwards. *)
Lemma copy_at_read (buf src : list Z) (off : nat) :
  (off + length src <= length buf)%nat ->
  take (length src) (drop off (copy_at buf off src)) = src.
Proof.
  intros H. unfold copy_at.
  rewrite drop_app_length' by (rewrite length_take; lia).
  rewrite (take_ge src) by lia.
  now rewrite take_app_length.
Qed.

(** An integer written by [Write16] or [Write32] is stored least
    significant byte first, and [Read16] or [Read32] at the same position
    reads it back. *)
Lemma Write32_Read32 (wb : TWriteBuffer.t) (Value : Z) :
  0 <= TWriteBuffer.Position wb ->
  TWriteBuffer.CanWrite wb 4 = true ->
  0 <= Value < 4294967296 ->
  let written := TWriteBuffer.Buffer (TWriteBuffer.Write32 wb Value) in
  take 4 (drop (Z.to_nat (TWriteBuffer.Position wb)) written) =
    LittleEndian_bytes32 Value /\
  fst (TReadBuffer.Read32 {| TReadBuffer.Buffer := written;
                             TReadBuffer.Position := TWriteBuffer.Position wb |}) = Value.
Proof.
  intros Hpos Hcan Hv written.
  assert (Hlen : (Z.to_nat (TWriteBuffer.Position wb) + 4 <=
                  length (TWriteBuffer.Buffer wb))%nat).
  { unfold TWriteBuffer.CanWrite in Hcan. apply Z.leb_le in Hcan. lia. }
  assert (Hw : take 4 (drop (Z.to_nat (TWriteBuffer.Position wb)) written) =
               LittleEndian_bytes32 Value).
  { unfold written, TWriteBuffer.Write32, TWriteBuffer.put. rewrite Hcan.
    cbn [TWriteBuffer.Buffer].
    apply (copy_at_read _ (LittleEndian_bytes32 Value)). simpl. lia. }
  split; [exact Hw|].
  unfold TReadBuffer.Read32, TReadBuffer.CanRead, TReadBuffer.tail.
  cbn [fst TReadBuffer.Buffer TReadBuffer.Position].
  assert (length written = length (TWriteBuffer.Buffer wb)) as ->.
  { unfold written, TWriteBuffer.Write32, TWriteBuffer.put. rewrite Hcan.
    cbn [TWriteBuffer.Buffer]. apply length_copy_at. lia. }
  assert ((TWriteBuffer.Position wb + 4 <=?
           Z.of_nat (length (TWriteBuffer.Buffer wb))) = true) as ->
      by (apply Z.leb_le; lia).
  rewrite LittleEndian_Uint32_take, Hw. now apply LittleEndian_bytes32_value.
Qed.

Lemma Write16_Read16 (wb : TWriteBuffer.t) (Value : Z) :
  0 <= TWriteBuffer.Position wb ->
  TWriteBuffer.CanWrite wb 2 = true ->
  0 <= Value < 65536 ->
  let written := TWriteBuffer.Buffer (TWriteBuffer.Write16 wb Value) in
  take 2 (drop (Z.to_nat (TWriteBuffer.Position wb)) written) =
    LittleEndian_bytes16 Value /\
  fst (TReadBuffer.Read16 {| TReadBuffer.Buffer := written;
                             TReadBuffer.Position := TWriteBuffer.Position wb |}) = Value.
Proof.
  intros Hpos Hcan Hv written.
  assert (Hlen : (Z.to_nat (TWriteBuffer.Position wb) + 2 <=
                  length (TWriteBuffer.Buffer wb))%nat).
  { unfold TWriteBuffer.CanWrite in Hcan. apply Z.leb_le in Hcan. lia. }
  assert (Hw : take 2 (drop (Z.to_nat (TWriteBuffer.Position wb)) written) =
               LittleEndian_bytes16 Value).
  { unfold written, TWriteBuffer.Write16, TWriteBuffer.put. rewrite Hcan.
    cbn [TWriteBuffer.Buffer].
    apply (copy_at_read _ (LittleEndian_bytes16 Value)). simpl. lia. }
  split; [exact Hw|].
  unfold TReadBuffer.Read16, TReadBuffer.CanRead, TReadBuffer.tail.
  cbn [fst TReadBuffer.Buffer TReadBuffer.Position].
  assert (length written = length (TWriteBuffer.Buffer wb)) as ->.
  { unfold written, TWriteBuffer.Write16, TWriteBuffer.put. rewrite Hcan.
    cbn [TWriteBuffer.Buffer]. apply length_copy_at. lia. }
  assert ((TWriteBuffer.Position wb + 2 <=?
           Z.of_nat (length (TWriteBuffer.Buffer wb))) = true) as ->
      by (apply Z.leb_le; lia).
  rewrite LittleEndian_Uint16_take, Hw. now apply LittleEndian_bytes16_value.
Qed.

(** The response whose 2-byte length is the 0xFFFF sentinel: the next
    four bytes are its length, least significant byte first, and that
    many bytes are then read as the body. *)
Lemma ExecuteQuery_loop_extended_size
      (K : TQueryManagerConnection -> outcome (bool * TQueryManagerConnection))
      (AutoReconnect : bool) (Buffer : list Z) (WriteSize : Z)
      (fuel : nat) (Attempt : Z) (c : TQueryManagerConnection)
      (w body : list Z) (b0 b1 b2 b3 : Z) (net : list io_event) :
  Handle c = true ->
  Net c = IoOk w :: IoOk [0xFF; 0xFF] :: IoOk [b0; b1; b2; b3] :: IoOk body :: net ->
  let ResponseSize := LittleEndian_Uint32 [b0; b1; b2; b3] in
  0 < ResponseSize <= Z.of_nat (length Buffer) ->
  exists Status ReadBuffer,
    ExecuteQuery_loop K AutoReconnect Buffer WriteSize (S fuel) Attempt c =
    Done (Status, ReadBuffer,
          {| Handle := true; Net := net;
             Trace := Trace c ++ [OpWrite (take (Z.to_nat WriteSize) Buffer);
                                  OpRead 2; OpRead 4;
                                  OpRead (Z.to_nat ResponseSize)] |}).
Proof.
  intros Hc Hn ResponseSize Hr.
  simpl. rewrite Hc, !bind_Done. simpl negb. cbv iota.
  unfold Handle_Write, Handle_Read, io. rewrite Hc, Hn. simpl.
  change (copy_at (copy_at [0; 0; 0; 0] 0 [255; 255]) 0 [b0; b1; b2; b3])
    with [b0; b1; b2; b3].
  fold ResponseSize.
  assert ((ResponseSize <=? 0) = false) as -> by (apply Z.leb_gt; lia).
  assert ((Z.of_nat (length Buffer) <? ResponseSize) = false) as ->
      by (apply Z.ltb_ge; lia).
  simpl. rewrite <- !app_assoc. simpl. eauto.
Qed.

(** *** Reaching the socket *)

(** [Connect] on a closed connection dials first. *)
Lemma Connect_dials (cfg : Config) (c c' : TQueryManagerConnection) (up : bool) :
  Handle c = false ->
  Connect cfg c = Done (up, c') ->
  exists ops, Trace c' = Trace c ++ OpDial :: ops.
Proof.
  intros Hc. unfold Connect. rewrite Hc.
  assert (Hd : Trace (net_Dial c) = Trace c ++ [OpDial])
    by (unfold net_Dial, io; reflexivity).
  cbv zeta. destruct (Handle (net_Dial c)) eqn:Hh; cbn [negb].
  - set (wb := TWriteBuffer.WriteString _ _).
    assert (Hpos : 2 < TWriteBuffer.Position wb).
    { subst wb. pose proof (WriteString_Position
        (TWriteBuffer.Write8 (PrepareQuery QUERY_LOGIN (byte_array 1024))
                             APPLICATION_TYPE_WEB)
        (g_QueryManagerPassword cfg)) as H.
      assert (E : TWriteBuffer.Position
                    (TWriteBuffer.Write8 (PrepareQuery QUERY_LOGIN (byte_array 1024))
                                         APPLICATION_TYPE_WEB) = 4) by reflexivity.
      rewrite E in H. lia. }
    destruct (ExecuteQuery_with_returned Connect_unreachable false wb (net_Dial c)
                (or_intror eq_refl) Hpos)
      as (St & rb & c'' & -> & _ & ops & Hops).
    rewrite bind_Done. rewrite Hd, <- app_assoc in Hops. simpl in Hops.
    destruct (St =? QUERY_STATUS_OK); simpl; intros H; injection H as <- <-.
    + eauto.
    + unfold Disconnect. destruct (Handle c''); simpl; [|eauto].
      eexists. rewrite Hops, <- app_assoc. reflexivity.
  - intros H. injection H as <- <-. exists []. exact Hd.
Qed.

(** A query run with [AutoReconnect] on a request that fits its buffer
    reaches the socket: it returns with at least one more operation in
    the trace (a write, or the dial of a reconnect). *)
Lemma ExecuteQuery_contacts
      (cfg : Config) (wb : TWriteBuffer.t) (c : TQueryManagerConnection) :
  2 < TWriteBuffer.Position wb ->
  TWriteBuffer.Position wb - 2 < 0xFFFF ->
  TWriteBuffer.Position wb <= Z.of_nat (length (TWriteBuffer.Buffer wb)) ->
  exists Status ReadBuffer c' op ops,
    ExecuteQuery cfg true (Some wb) c = Done (Status, ReadBuffer, c') /\
    Trace c' = Trace c ++ op :: ops.
Proof.
  intros Hpos Hs Hlen.
  rewrite (ExecuteQuery_small_is_loop cfg true wb c Hpos Hs Hlen).
  set (B := LittleEndian_bytes16 _ ++ _).
  destruct (Handle c) eqn:Hc.
  - destruct (ExecuteQuery_loop_first_up (Connect cfg) true B (TWriteBuffer.Position wb)
                0 c (or_introl (Connect_ok cfg)) Hc)
      as [(St & rb & c' & -> & _ & ops & Ht) _].
    exists St, rb, c'. rewrite <- app_assoc in Ht. simpl in Ht. eauto.
  - destruct (Connect_ok cfg c) as (up & c1 & HK & Hup & _).
    destruct (Connect_dials cfg c c1 up Hc HK) as (ops1 & Ht1).
    destruct up.
    + rewrite (ExecuteQuery_loop_reconnected (Connect cfg) true B _ 1 1 c c1)
        by auto.
      destruct (ExecuteQuery_loop_first_up (Connect cfg) true B (TWriteBuffer.Position wb)
                  0 c1 (or_introl (Connect_ok cfg)) (Hup eq_refl))
        as [(St & rb & c' & -> & _ & ops & Ht) _].
      exists St, rb, c'. rewrite Ht1, <- !app_assoc in Ht. simpl in Ht. eauto.
    + rewrite (ExecuteQuery_loop_connect_failed (Connect cfg) true B _ 1 1 c c1)
        by auto.
      unfold failed. eauto 10.
Qed.


(** *** Requests that are not sent *)

Lemma ExecuteQuery_overflowed
      (cfg : Config) (AutoReconnect : bool) (wb : TWriteBuffer.t)
      (c : TQueryManagerConnection) :
  2 < TWriteBuffer.Position wb ->
  TWriteBuffer.Overflowed wb = true ->
  ExecuteQuery cfg AutoReconnect (Some wb) c = failed c.
Proof.
  intros Hpos Ho. unfold ExecuteQuery, ExecuteQuery_with.
  assert ((TWriteBuffer.Position wb <=? 2) = false) as -> by (apply Z.leb_gt; lia).
  assert (Hf : exists wb', ExecuteQuery_frame wb = Done wb' /\
                           TWriteBuffer.Overflowed wb' = true).
  { unfold ExecuteQuery_frame. rewrite !Rewrite16_overflowed by assumption.
    destruct (_ <? 0xFFFF); [eauto|]. rewrite bind_Done.
    unfold TWriteBuffer.Insert32.
    assert ((2 <=? TWriteBuffer.Position wb) = true) as -> by (apply Z.leb_le; lia).
    unfold TWriteBuffer.Overflowed in Ho. apply Z.ltb_lt in Ho.
    assert (TWriteBuffer.CanWrite wb 4 = false) as ->
        by (unfold TWriteBuffer.CanWrite; apply Z.leb_gt; lia).
    eexists. split; [reflexivity|].
    unfold TWriteBuffer.Overflowed. simpl. apply Z.ltb_lt. lia. }
  destruct Hf as (wb' & -> & Ho'). rewrite bind_Done, Ho'. reflexivity.
Qed.

Lemma ExecuteQuery_down
      (cfg : Config) (wb : TWriteBuffer.t) (c : TQueryManagerConnection) :
  2 < TWriteBuffer.Position wb ->
  Handle c = false ->
  ExecuteQuery cfg false (Some wb) c = failed c.
Proof.
  intros Hpos Hc. unfold ExecuteQuery, ExecuteQuery_with.
  assert ((TWriteBuffer.Position wb <=? 2) = false) as -> by (apply Z.leb_gt; lia).
  destruct (ExecuteQuery_frame_done wb) as [wb' ->]. rewrite bind_Done.
  destruct (TWriteBuffer.Overflowed wb'); [reflexivity|].
  change (Z.to_nat MaxAttempts) with 2%nat. now apply ExecuteQuery_loop_down.
Qed.


(** *** The caller defect (C7) *)

(** The header patch of a request that has overflowed its buffer stores
    nothing. *)
Lemma ExecuteQuery_frame_overflowed (wb : TWriteBuffer.t) :
  2 < TWriteBuffer.Position wb ->
  TWriteBuffer.Overflowed wb = true ->
  ExecuteQuery_frame wb =
  Done (if TWriteBuffer.Position wb - 2 <? 0xFFFF then wb
        else {| TWriteBuffer.Buffer := TWriteBuffer.Buffer wb;
                TWriteBuffer.Position := TWriteBuffer.Position wb + 4 |}).
Proof.
  intros Hpos Ho. unfold ExecuteQuery_frame.
  rewrite !Rewrite16_overflowed by assumption.
  destruct (_ <? 0xFFFF); [reflexivity|]. rewrite bind_Done.
  unfold TWriteBuffer.Insert32.
  assert ((2 <=? TWriteBuffer.Position wb) = true) as -> by (apply Z.leb_le; lia).
  unfold TWriteBuffer.Overflowed in Ho. apply Z.ltb_lt in Ho.
  assert (TWriteBuffer.CanWrite wb 4 = false) as ->
      by (unfold TWriteBuffer.CanWrite; apply Z.leb_gt; lia).
  reflexivity.
Qed.

(** The header patch of a long request with no room for the spliced
    length: the sentinel is stored, the length is not, and the request
    has then overflowed. *)
Lemma ExecuteQuery_frame_no_room (wb : TWriteBuffer.t) :
  0xFFFF <= TWriteBuffer.Position wb - 2 ->
  TWriteBuffer.Position wb <= Z.of_nat (length (TWriteBuffer.Buffer wb)) ->
  Z.of_nat (length (TWriteBuffer.Buffer wb)) < TWriteBuffer.Position wb + 4 ->
  ExecuteQuery_frame wb =
  Done {| TWriteBuffer.Buffer := [0xFF; 0xFF] ++ drop 2 (TWriteBuffer.Buffer wb);
          TWriteBuffer.Position := TWriteBuffer.Position wb + 4 |}.
Proof.
  intros Hbig Hfit Hroom. unfold ExecuteQuery_frame.
  assert ((TWriteBuffer.Position wb - 2 <? 65535) = false) as -> by (apply Z.ltb_ge; lia).
  rewrite Rewrite16_header by lia. rewrite bind_Done.
  unfold TWriteBuffer.Insert32. cbn [TWriteBuffer.Buffer TWriteBuffer.Position].
  assert ((2 <=? TWriteBuffer.Position wb) = true) as -> by (apply Z.leb_le; lia).
  assert (TWriteBuffer.CanWrite
            {| TWriteBuffer.Buffer :=
                 LittleEndian_bytes16 65535 ++ drop 2 (TWriteBuffer.Buffer wb);
               TWriteBuffer.Position := TWriteBuffer.Position wb |} 4 = false) as ->.
  { unfold TWriteBuffer.CanWrite. cbn [TWriteBuffer.Buffer TWriteBuffer.Position].
    apply Z.leb_gt. rewrite length_app, length_drop. simpl length. lia. }
  reflexivity.
Qed.

(** C7, as the code has it.  [ExecuteQuery] panics exactly when the
    write buffer is nil or at most 2 bytes were written to it, so a
    request made of the 2-byte placeholder header alone is a caller
    defect too.  For every request of at least 3 bytes it does not panic:
    it returns, having computed the payload length as the bytes written
    minus 2.  What becomes of the header depends on the buffer:
    - a request that has overflowed its buffer is not patched and not
      sent, the failure status is returned on the connection as it was;
    - a request that fits, with a payload length below 0xFFFF, has that
      length patched into its header, and the framed request is what the
      exchange writes;
    - a request that fits, with a longer payload and room for four more
      bytes, gets the sentinel 0xFFFF and the spliced 32-bit length, and
      that frame is what the exchange writes;
    - a request that fits, with a longer payload and no room for the
      splice, gets the sentinel only, has then overflowed and is not
      sent: the failure status is returned. *)
Theorem ExecuteQuery_caller_defect
        (cfg : Config) (AutoReconnect : bool) (c : TQueryManagerConnection) :
  ExecuteQuery cfg AutoReconnect None c = Panic /\
  (forall wb : TWriteBuffer.t,
      ExecuteQuery cfg AutoReconnect (Some wb) c = Panic <->
      TWriteBuffer.Position wb <= 2) /\
  (forall wb : TWriteBuffer.t,
      2 < TWriteBuffer.Position wb ->
      let RequestSize := TWriteBuffer.Position wb - 2 in
      let Size := Z.of_nat (length (TWriteBuffer.Buffer wb)) in
      returned_after (Trace c) (ExecuteQuery cfg AutoReconnect (Some wb) c) /\
      (Size < TWriteBuffer.Position wb ->
       ExecuteQuery_frame wb =
         Done (if RequestSize <? 0xFFFF then wb
               else {| TWriteBuffer.Buffer := TWriteBuffer.Buffer wb;
                       TWriteBuffer.Position := TWriteBuffer.Position wb + 4 |}) /\
       ExecuteQuery cfg AutoReconnect (Some wb) c =
         Done (QUERY_STATUS_FAILED, TReadBuffer.zero, c)) /\
      (TWriteBuffer.Position wb <= Size -> RequestSize < 0xFFFF ->
       let framed :=
         LittleEndian_bytes16 RequestSize ++ drop 2 (TWriteBuffer.Buffer wb) in
       ExecuteQuery_frame wb =
         Done {| TWriteBuffer.Buffer := framed;
                 TWriteBuffer.Position := TWriteBuffer.Position wb |} /\
       ExecuteQuery cfg AutoReconnect (Some wb) c =
         ExecuteQuery_loop (Connect cfg) AutoReconnect framed
                           (TWriteBuffer.Position wb) 2 1 c /\
       (Handle c = true ->
        returned_after
          (Trace c ++ [OpWrite (take (Z.to_nat (TWriteBuffer.Position wb)) framed)])
          (ExecuteQuery cfg AutoReconnect (Some wb) c))) /\
      (TWriteBuffer.Position wb + 4 <= Size -> 0xFFFF <= RequestSize ->
       let framed :=
         [0xFF; 0xFF] ++ LittleEndian_bytes32 (uint32 RequestSize)
           ++ take (length (TWriteBuffer.Buffer wb) - 6)
                   (drop 2 (TWriteBuffer.Buffer wb)) in
       ExecuteQuery_frame wb =
         Done {| TWriteBuffer.Buffer := framed;
                 TWriteBuffer.Position := TWriteBuffer.Position wb + 4 |} /\
       ExecuteQuery cfg AutoReconnect (Some wb) c =
         ExecuteQuery_loop (Connect cfg) AutoReconnect framed
                           (TWriteBuffer.Position wb + 4) 2 1 c /\
       (Handle c = true ->
        returned_after
          (Trace c ++ [OpWrite (take (Z.to_nat (TWriteBuffer.Position wb + 4)) framed)])
          (ExecuteQuery cfg AutoReconnect (Some wb) c))) /\
      (TWriteBuffer.Position wb <= Size -> Size < TWriteBuffer.Position wb + 4 ->
       0xFFFF <= RequestSize ->
       ExecuteQuery_frame wb =
         Done {| TWriteBuffer.Buffer := [0xFF; 0xFF] ++ drop 2 (TWriteBuffer.Buffer wb);
                 TWriteBuffer.Position := TWriteBuffer.Position wb + 4 |} /\
       ExecuteQuery cfg AutoReconnect (Some wb) c =
         Done (QUERY_STATUS_FAILED, TReadBuffer.zero, c))).
Proof.
  split; [reflexivity|]. split.
  - intros wb. split.
    + intros HP. destruct (Z.le_gt_cases (TWriteBuffer.Position wb) 2) as [|Hgt];
        [assumption|].
      destruct (ExecuteQuery_returned cfg AutoReconnect wb c ltac:(lia))
        as (St & rb & c' & E & _).
      rewrite E in HP. discriminate.
    + intros Hle. unfold ExecuteQuery, ExecuteQuery_with.
      apply Z.leb_le in Hle. now rewrite Hle.
  - intros wb Hpos RequestSize Size.
    assert (Hnp : (TWriteBuffer.Position wb <=? 2) = false) by (apply Z.leb_gt; lia).
    split; [now apply ExecuteQuery_returned|]. split; [|split; [|split]].
    + intros Hover.
      assert (Ho : TWriteBuffer.Overflowed wb = true)
        by (unfold TWriteBuffer.Overflowed; apply Z.ltb_lt; exact Hover).
      split; [now apply ExecuteQuery_frame_overflowed|].
      now apply ExecuteQuery_overflowed.
    + intros Hfit Hs framed.
      pose proof (ExecuteQuery_frame_small wb Hpos Hs Hfit) as Hf. fold framed in Hf.
      pose proof (ExecuteQuery_small_is_loop cfg AutoReconnect wb c Hpos Hs Hfit) as HE.
      fold framed in HE.
      split; [assumption|]. split; [assumption|].
      intros Hc. rewrite HE.
      apply ExecuteQuery_loop_first_up; [left; apply Connect_ok|assumption].
    + intros Hroom Hbig framed.
      pose proof (ExecuteQuery_frame_large wb Hbig Hroom) as Hf. fold framed in Hf.
      assert (HE : ExecuteQuery cfg AutoReconnect (Some wb) c =
                   ExecuteQuery_loop (Connect cfg) AutoReconnect framed
                                     (TWriteBuffer.Position wb + 4) 2 1 c).
      { apply (ExecuteQuery_is_loop cfg AutoReconnect wb _ c Hpos Hf).
        unfold TWriteBuffer.Overflowed. cbn [TWriteBuffer.Buffer TWriteBuffer.Position].
        apply Z.ltb_ge. unfold framed. rewrite !length_app, length_take, length_drop.
        simpl length. lia. }
      split; [assumption|]. split; [assumption|].
      intros Hc. rewrite HE.
      apply ExecuteQuery_loop_first_up; [left; apply Connect_ok|assumption].
    + intros Hfit Hroom Hbig.
      pose proof (ExecuteQuery_frame_no_room wb Hbig Hfit Hroom) as Hf.
      split; [assumption|].
      unfold ExecuteQuery, ExecuteQuery_with. rewrite Hnp, Hf, bind_Done.
      match goal with
      | |- (if ?o then _ else _) = _ => assert (o = true) as ->; [|reflexivity]
      end.
      unfold TWriteBuffer.Overflowed. cbn [TWriteBuffer.Buffer TWriteBuffer.Position].
      apply Z.ltb_lt. rewrite length_app, length_drop. simpl length. lia.
Qed.

Lemma ExecuteQuery_caller_defect_witness :
  ExecuteQuery_frame example_request =
  Done {| TWriteBuffer.Buffer := [1; 0; 150; 0; 0; 0; 0; 0; 0; 0; 0; 0; 0; 0; 0; 0];
          TWriteBuffer.Position := 3 |}.
Proof.
  destruct (ExecuteQuery_caller_defect example_cfg true (connected [])) as (_ & _ & H).
  destruct (H example_request ltac:(reflexivity)) as (_ & _ & H' & _).
  exact (proj1 (H' ltac:(vm_compute; discriminate) ltac:(reflexivity))).
Defined.

(** C7, as stated, fails: with exactly 2 bytes written (the placeholder
    header that [PrepareQuery] writes first, and nothing else) the
    executor panics. *)
Lemma ExecuteQuery_header_only_panics :
  let wb := TWriteBuffer.Write16
              {| TWriteBuffer.Buffer := byte_array 16; TWriteBuffer.Position := 0 |} 0 in
  2 <= TWriteBuffer.Position wb /\
  ExecuteQuery example_cfg true (Some wb) (connected [IoOk []; IoOk [1; 0]; IoOk [0]]) = Panic.
Proof. split; [vm_compute; discriminate|reflexivity]. Qed.

(** A request that has overflowed its 2-byte buffer: its header is left
    as it was and the failure status is returned, nothing being sent. *)
Example ExecuteQuery_ex_overflowed :
  let wb := PrepareQuery QUERY_GET_WORLDS [7; 7] in
  TWriteBuffer.Position wb = 3 /\
  ExecuteQuery_frame wb = Done wb /\
  TWriteBuffer.Buffer wb = [0; 0] /\
  ExecuteQuery example_cfg true (Some wb) (connected [IoOk []; IoOk [1; 0]; IoOk [0]]) =
  Done (QUERY_STATUS_FAILED, TReadBuffer.zero,
        connected [IoOk []; IoOk [1; 0]; IoOk [0]]).
Proof. repeat split. Qed.

(** *** The retry contract (C1) *)

(** What the network answers to the [k]-th socket operation from now on:
    the script's entry, a failure once the script is used up. *)
Definition answer (c : TQueryManagerConnection) (k : nat) : io_event :=
  default IoErr (Net c !! k).

(** The connection after a failure that followed [n] answers of the
    network: closed, with [ops] added to the trace. *)
Definition failed_after (c : TQueryManagerConnection) (n : nat) (ops : list io_op)
  : TQueryManagerConnection :=
  closed_after c (drop n (Net c)) ops.

(** The response size announced by the extended length [ext] that
    follows the sentinel [sz]. *)
Definition extended_size (sz ext : list Z) : Z :=
  LittleEndian_Uint32 (copy_at (copy_at [0; 0; 0; 0] 0 (take 2 sz)) 0 (take 4 ext)).

Section Rounds.

Variable K : TQueryManagerConnection -> outcome (bool * TQueryManagerConnection).
Variable AutoReconnect : bool.
Variable Buffer : list Z.
Variable WriteSize : Z.

Local Abbreviation loop := (ExecuteQuery_loop K AutoReconnect Buffer WriteSize).
Local Abbreviation request := (take (Z.to_nat WriteSize) Buffer).

Ltac round_start Hc :=
  cbn [ExecuteQuery_loop]; rewrite Hc, !bind_Done; cbn [negb];
  unfold Handle_Write, Handle_Read, io; rewrite Hc;
  unfold answer, failed_after, closed_after in *.

Ltac round_end :=
  unfold Disconnect; simpl; rewrite <- ?app_assoc; reflexivity.

(** (b): a failed write. *)
Lemma round_write_error (fuel : nat) (Attempt : Z) (c : TQueryManagerConnection) :
  Handle c = true -> answer c 0 = IoErr ->
  loop (S fuel) Attempt c =
  if MaxAttempts <=? Attempt
  then failed (failed_after c 1 [OpWrite request; OpClose])
  else loop fuel (Attempt + 1) (failed_after c 1 [OpWrite request; OpClose]).
Proof.
  intros Hc H0. round_start Hc.
  destruct (Net c) as [|e0 net]; simpl in *; subst; round_end.
Qed.

(** (c): a failed read of the 2-byte response length. *)
Lemma round_size_error (fuel : nat) (Attempt : Z) (c : TQueryManagerConnection)
      (w : list Z) :
  Handle c = true -> answer c 0 = IoOk w -> answer c 1 = IoErr ->
  loop (S fuel) Attempt c =
  if MaxAttempts <=? Attempt
  then failed (failed_after c 2 [OpWrite request; OpRead 2; OpClose])
  else loop fuel (Attempt + 1) (failed_after c 2 [OpWrite request; OpRead 2; OpClose]).
Proof.
  intros Hc H0 H1. round_start Hc.
  destruct (Net c) as [|e0 [|e1 net]]; simpl in *; subst; try discriminate; round_end.
Qed.

(** A failed read of the extended 32-bit length. *)
Lemma round_extended_size_error (fuel : nat) (Attempt : Z) (c : TQueryManagerConnection)
      (w sz : list Z) :
  Handle c = true -> answer c 0 = IoOk w -> answer c 1 = IoOk sz ->
  announced_size sz = 0xFFFF -> answer c 2 = IoErr ->
  loop (S fuel) Attempt c =
  failed (failed_after c 3 [OpWrite request; OpRead 2; OpRead 4; OpClose]).
Proof.
  intros Hc H0 H1 Hx H2. round_start Hc.
  destruct (Net c) as [|e0 [|e1 [|e2 net]]]; simpl in *; subst; try discriminate;
    fold (announced_size sz); rewrite Hx; simpl; round_end.
Qed.

(** (e): a failed read of the response body. *)
Lemma round_body_error (fuel : nat) (Attempt : Z) (c : TQueryManagerConnection)
      (w sz : list Z) :
  Handle c = true -> answer c 0 = IoOk w -> answer c 1 = IoOk sz ->
  announced_size sz <> 0xFFFF ->
  0 < announced_size sz <= Z.of_nat (length Buffer) ->
  answer c 2 = IoErr ->
  loop (S fuel) Attempt c =
  failed (failed_after c 3
            [OpWrite request; OpRead 2; OpRead (Z.to_nat (announced_size sz)); OpClose]).
Proof.
  intros Hc H0 H1 Hx Hr H2. round_start Hc. apply Z.eqb_neq in Hx.
  assert (Hlo : (announced_size sz <=? 0) = false) by (apply Z.leb_gt; lia).
  assert (Hhi : (Z.of_nat (length Buffer) <? announced_size sz) = false)
    by (apply Z.ltb_ge; lia).
  destruct (Net c) as [|e0 [|e1 [|e2 net]]]; simpl in *; subst; try discriminate;
    fold (announced_size sz); rewrite Hx; simpl; rewrite Hlo, Hhi; simpl; round_end.
Qed.

(** (e) again: a failed read of the body of a response with an extended
    length. *)
Lemma round_extended_body_error (fuel : nat) (Attempt : Z) (c : TQueryManagerConnection)
      (w sz ext : list Z) :
  Handle c = true -> answer c 0 = IoOk w -> answer c 1 = IoOk sz ->
  announced_size sz = 0xFFFF -> answer c 2 = IoOk ext ->
  0 < extended_size sz ext <= Z.of_nat (length Buffer) ->
  answer c 3 = IoErr ->
  loop (S fuel) Attempt c =
  failed (failed_after c 4
            [OpWrite request; OpRead 2; OpRead 4;
             OpRead (Z.to_nat (extended_size sz ext)); OpClose]).
Proof.
  intros Hc H0 H1 Hx H2 Hr H3. round_start Hc.
  assert (Hlo : (extended_size sz ext <=? 0) = false) by (apply Z.leb_gt; lia).
  assert (Hhi : (Z.of_nat (length Buffer) <? extended_size sz ext) = false)
    by (apply Z.ltb_ge; lia).
  destruct (Net c) as [|e0 [|e1 [|e2 [|e3 net]]]]; simpl in *; subst; try discriminate;
    fold (announced_size sz); rewrite Hx; simpl;
    fold (extended_size sz ext); rewrite Hlo, Hhi; simpl; round_end.
Qed.

End Rounds.

(** C1, as the code has it.  Every query of at least 3 bytes is either
    not sent at all (its request has overflowed) or is the first of at
    most [MaxAttempts] = 2 rounds.  Whichever round it is, on whatever
    connection:
    - a round that starts on a closed connection returns the failure
      status when [AutoReconnect] is off or [Connect] fails, and goes on
      as the same round on the new connection when [Connect] succeeds;
    - a failure of the write (b) or of the read of the 2-byte response
      length (c) makes the executor disconnect; on the first attempt the
      second round follows, on the second the failure status is
      returned;
    - a failure while reading the response body (e), after a length of
      either form, or while reading the extended 32-bit length, is not
      retried: on the first attempt as on the second the executor
      disconnects and returns the failure status at once;
    - the round returns. *)
Theorem ExecuteQuery_retry_contract
        (cfg : Config) (AutoReconnect : bool) (wb : TWriteBuffer.t)
        (c : TQueryManagerConnection) :
  2 < TWriteBuffer.Position wb ->
  exists framed : TWriteBuffer.t,
    ExecuteQuery_frame wb = Done framed /\
    let Buffer := TWriteBuffer.Buffer framed in
    let WriteSize := TWriteBuffer.Position framed in
    let request := take (Z.to_nat WriteSize) Buffer in
    let round (Attempt : Z) :=
      ExecuteQuery_loop (Connect cfg) AutoReconnect Buffer WriteSize
                        (Z.to_nat (MaxAttempts + 1 - Attempt)) Attempt in
    let next (Attempt : Z) (c' : TQueryManagerConnection) :=
      if Attempt <? MaxAttempts then round (Attempt + 1) c' else failed c' in
    ExecuteQuery cfg AutoReconnect (Some wb) c =
      (if TWriteBuffer.Overflowed framed then failed c else round 1 c) /\
    forall (Attempt : Z) (c1 : TQueryManagerConnection),
      1 <= Attempt <= MaxAttempts ->
      returned_after (Trace c1) (round Attempt c1) /\
      (Handle c1 = false ->
       (AutoReconnect = false -> round Attempt c1 = failed c1) /\
       (AutoReconnect = true ->
        exists up c2,
          Connect cfg c1 = Done (up, c2) /\
          (up = false -> round Attempt c1 = failed c2) /\
          (up = true -> Handle c2 = true /\ round Attempt c1 = round Attempt c2))) /\
      (Handle c1 = true ->
       (answer c1 0 = IoErr ->
        round Attempt c1 =
        next Attempt (failed_after c1 1 [OpWrite request; OpClose])) /\
       (forall w,
           answer c1 0 = IoOk w -> answer c1 1 = IoErr ->
           round Attempt c1 =
           next Attempt (failed_after c1 2 [OpWrite request; OpRead 2; OpClose])) /\
       (forall w sz,
           answer c1 0 = IoOk w -> answer c1 1 = IoOk sz ->
           announced_size sz = 0xFFFF -> answer c1 2 = IoErr ->
           round Attempt c1 =
           failed (failed_after c1 3 [OpWrite request; OpRead 2; OpRead 4; OpClose])) /\
       (forall w sz,
           answer c1 0 = IoOk w -> answer c1 1 = IoOk sz ->
           announced_size sz <> 0xFFFF ->
           0 < announced_size sz <= Z.of_nat (length Buffer) ->
           answer c1 2 = IoErr ->
           round Attempt c1 =
           failed (failed_after c1 3
                     [OpWrite request; OpRead 2;
                      OpRead (Z.to_nat (announced_size sz)); OpClose])) /\
       (forall w sz ext,
           answer c1 0 = IoOk w -> answer c1 1 = IoOk sz ->
           announced_size sz = 0xFFFF -> answer c1 2 = IoOk ext ->
           0 < extended_size sz ext <= Z.of_nat (length Buffer) ->
           answer c1 3 = IoErr ->
           round Attempt c1 =
           failed (failed_after c1 4
                     [OpWrite request; OpRead 2; OpRead 4;
                      OpRead (Z.to_nat (extended_size sz ext)); OpClose]))).
Proof.
  intros Hpos. destruct (ExecuteQuery_frame_done wb) as [framed Hf].
  exists framed. split; [exact Hf|].
  intros Buffer WriteSize request round next. split.
  { unfold ExecuteQuery, ExecuteQuery_with.
    assert ((TWriteBuffer.Position wb <=? 2) = false) as -> by (apply Z.leb_gt; lia).
    rewrite Hf, bind_Done. reflexivity. }
  intros Attempt c1 HA.
  assert (Hcases : Attempt = 1 \/ Attempt = 2) by (unfold MaxAttempts in HA; lia).
  assert (Hfuel : exists fuel, Z.to_nat (MaxAttempts + 1 - Attempt) = S fuel /\
                    forall c', (if MaxAttempts <=? Attempt then failed c'
                                else ExecuteQuery_loop (Connect cfg) AutoReconnect Buffer
                                       WriteSize fuel (Attempt + 1) c') =
                               next Attempt c').
  { destruct Hcases as [-> | ->]; [exists 1%nat|exists 0%nat];
      (split; [reflexivity|]); intros c'; reflexivity. }
  destruct Hfuel as (fuel & Hfuel & Hnext).
  assert (Hround : round Attempt = ExecuteQuery_loop (Connect cfg) AutoReconnect Buffer
                                     WriteSize (S fuel) Attempt)
    by (unfold round; now rewrite Hfuel).
  rewrite Hround. split; [|split].
  - destruct Hcases as [-> | ->].
    + injection Hfuel as <-.
      apply (ExecuteQuery_loop_total (Connect cfg) AutoReconnect Buffer WriteSize 0 c1).
      left. apply Connect_ok.
    + apply ExecuteQuery_loop_last; [left; apply Connect_ok|unfold MaxAttempts; lia].
  - intros Hc1. split.
    + intros Har. now apply ExecuteQuery_loop_down.
    + intros Har. destruct (Connect_ok cfg c1) as (up & c2 & HK & Hup & _).
      exists up, c2. split; [exact HK|]. split.
      * intros ->. now apply ExecuteQuery_loop_connect_failed.
      * intros ->. split; [auto|].
        now apply ExecuteQuery_loop_reconnected; auto.
  - intros Hc1. repeat apply conj.
    + intros H0. rewrite <- Hnext. now apply round_write_error.
    + intros w H0 H1. rewrite <- Hnext. now apply (round_size_error _ _ _ _ _ _ _ w).
    + intros w sz H0 H1 Hx H2.
      now apply (round_extended_size_error _ _ _ _ _ _ _ w sz).
    + intros w sz H0 H1 Hx Hr H2. now apply (round_body_error _ _ _ _ _ _ _ w sz).
    + intros w sz ext H0 H1 Hx H2 Hr H3.
      now apply (round_extended_body_error _ _ _ _ _ _ _ w sz ext).
Qed.

Lemma ExecuteQuery_retry_contract_witness :
  ExecuteQuery example_cfg true (Some example_request)
    (connected [IoOk []; IoOk [2; 0]; IoErr; IoOk []]) =
  Done (QUERY_STATUS_FAILED, TReadBuffer.zero,
        {| Handle := false; Net := [IoOk []];
           Trace := [OpWrite [1; 0; 150]; OpRead 2; OpRead 2; OpClose] |}).
Proof.
  destruct (ExecuteQuery_retry_contract example_cfg true example_request
              (connected [IoOk []; IoOk [2; 0]; IoErr; IoOk []])
              ltac:(reflexivity))
    as (framed & Hf & HE & Hround).
  vm_compute in Hf. injection Hf as <-.
  rewrite HE. cbn [TWriteBuffer.Overflowed TWriteBuffer.Buffer TWriteBuffer.Position].
  destruct (Hround 1 (connected [IoOk []; IoOk [2; 0]; IoErr; IoOk []])
                   ltac:(unfold MaxAttempts; lia))
    as (_ & _ & Hup).
  destruct (Hup eq_refl) as (_ & _ & _ & Hbody & _).
  exact (Hbody [] [2; 0] eq_refl eq_refl
               ltac:(vm_compute; discriminate)
               ltac:(split; vm_compute; [reflexivity|discriminate])
               eq_refl).
Defined.

(** C1, as stated, fails: the body read fails on the first attempt, the
    rest of the script would serve a reconnect, a login and the whole
    exchange, and still the executor returns the failure status after a
    single write of the request, leaving that script unused. *)
Lemma ExecuteQuery_body_error_not_retried :
  let retry_script :=
    [IoOk []; IoOk []; IoOk [1; 0]; IoOk [0]; IoOk []; IoOk [2; 0]; IoOk [0; 7]] in
  ExecuteQuery example_cfg true (Some example_request)
    (connected ([IoOk []; IoOk [2; 0]; IoErr] ++ retry_script)) =
  Done (QUERY_STATUS_FAILED, TReadBuffer.zero,
        {| Handle := false; Net := retry_script;
           Trace := [OpWrite [1; 0; 150]; OpRead 2; OpRead 2; OpClose] |}) /\
  (exists ReadBuffer c,
      ExecuteQuery example_cfg true (Some example_request) (disconnected retry_script) =
      Done (QUERY_STATUS_OK, ReadBuffer, c)).
Proof. split; [reflexivity|]. do 2 eexists. reflexivity. Qed.

(** The same failure on the second attempt: the first write fails, the
    executor reconnects and logs in, writes the request again and reads
    the response length; the body read then fails, and the failure
    status is returned with the connection closed. *)
Example ExecuteQuery_ex_second_attempt_body_error :
  ExecuteQuery example_cfg true (Some example_request)
    (connected [IoErr; IoOk []; IoOk []; IoOk [1; 0]; IoOk [0];
                IoOk []; IoOk [2; 0]; IoErr; IoOk [0; 7]]) =
  Done (QUERY_STATUS_FAILED, TReadBuffer.zero,
        {| Handle := false; Net := [IoOk [0; 7]];
           Trace := [OpWrite [1; 0; 150]; OpClose; OpDial;
                     OpWrite [6; 0; 0; 3; 2; 0; 112; 119]; OpRead 2; OpRead 1;
                     OpWrite [1; 0; 150]; OpRead 2; OpRead 2; OpClose] |}).
Proof. reflexivity. Qed.

(** A query that starts on a closed connection, with [AutoReconnect]
    set: it dials, logs in and runs its first round on the new
    connection, where a failed body read ends it. *)
Example ExecuteQuery_ex_disconnected_body_error :
  ExecuteQuery example_cfg true (Some example_request)
    (disconnected [IoOk []; IoOk []; IoOk [1; 0]; IoOk [0]; IoOk []; IoOk [2; 0]; IoErr]) =
  Done (QUERY_STATUS_FAILED, TReadBuffer.zero,
        {| Handle := false; Net := [];
           Trace := [OpDial; OpWrite [6; 0; 0; 3; 2; 0; 112; 119]; OpRead 2; OpRead 1;
                     OpWrite [1; 0; 150]; OpRead 2; OpRead 2; OpClose] |}).
Proof. reflexivity. Qed.

(** *** Invalid sequences (C3) *)

Lemma land_low_bits (a : Z) (n : Z) (m : Z) :
  0 <= n -> m = Z.ones n -> Z.land a m = a mod 2 ^ n.
Proof. intros Hn ->. now apply Z.land_ones. Qed.

Lemma lor_shiftl_high (a b n : Z) :
  0 <= n -> 0 <= b < 2 ^ n -> Z.lor (Z.shiftl a n) b = a * 2 ^ n + b.
Proof. intros Hn Hb. rewrite Z.lor_comm, lor_shiftl_add by assumption. lia. Qed.

Ltac eval_closed :=
  repeat match goal with
         | H : context [Z.land (Zpos ?a) (Zpos ?b)] |- _ =>
           let v := eval vm_compute in (Z.land (Zpos a) (Zpos b)) in
           change (Z.land (Zpos a) (Zpos b)) with v in H
         | H : context [Z.shiftr (Zpos ?a) (Zpos ?b)] |- _ =>
           let v := eval vm_compute in (Z.shiftr (Zpos a) (Zpos b)) in
           change (Z.shiftr (Zpos a) (Zpos b)) with v in H
         end.

Lemma lor3 (a b c : Z) :
  0 <= b < 64 -> 0 <= c < 64 ->
  Z.lor (Z.lor (Z.shiftl a 12) (Z.shiftl b 6)) c = a * 4096 + b * 64 + c.
Proof.
  intros Hb Hc. rewrite <- Z.lor_assoc.
  rewrite (lor_shiftl_high b c 6) by lia.
  rewrite (lor_shiftl_high a _ 12) by lia. lia.
Qed.

Lemma lor4 (a b c d : Z) :
  0 <= b < 64 -> 0 <= c < 64 -> 0 <= d < 64 ->
  Z.lor (Z.lor (Z.lor (Z.shiftl a 18) (Z.shiftl b 12)) (Z.shiftl c 6)) d =
  a * 262144 + b * 4096 + c * 64 + d.
Proof.
  intros Hb Hc Hd. rewrite <- !Z.lor_assoc.
  rewrite (lor_shiftl_high c d 6) by lia.
  rewrite (lor_shiftl_high b _ 12) by lia.
  rewrite (lor_shiftl_high a _ 18) by lia. lia.
Qed.

(** [DecodeRune] reports [RuneError] with size 1, its error result, or
    for the bytes EF BF BD, the encoding of U+FFFD itself. *)
Lemma DecodeRune_RuneError (p : list Z) (Size : nat) :
  p <> [] ->
  utf8.DecodeRune p = (utf8.RuneError, Size) ->
  Size = 1%nat \/ (Size = 3%nat /\ take 3 p = [0xEF; 0xBF; 0xBD]).
Proof.
  destruct p as [|p0 rest]; [congruence|]. intros _.
  unfold utf8.DecodeRune, utf8.first, utf8.RuneError.
  repeat match goal with
         | |- context [if ?c then _ else _] =>
           lazymatch c with
           | context [if _ then _ else _] => fail
           | _ => destruct c eqn:?
           end
         end;
    intros H; inversion H; subst; clear H; try (left; reflexivity).
  all: cbn in *; try discriminate.
  all: eval_closed; unfold utf8.acceptRanges in *; cbn in *.
  all: destruct rest as [|b1 [|b2 [|b3 rest]]]; cbn in *; try discriminate.
  all: repeat match goal with
              | H : (_ || _) = false |- _ => apply orb_false_iff in H as [? ?]
              | H : (_ <? _) = false |- _ => apply Z.ltb_ge in H
              | H : (_ <? _) = true |- _ => apply Z.ltb_lt in H
              | H : (_ =? _) = false |- _ => apply Z.eqb_neq in H
              | H : (_ =? _) = true |- _ => apply Z.eqb_eq in H
              end.
  all: repeat rewrite (land_low_bits _ 6 63) in H1 by first [lia | reflexivity].
  all: try rewrite (land_low_bits _ 5 31) in H1 by first [lia | reflexivity].
  all: try rewrite (land_low_bits _ 4 15) in H1 by first [lia | reflexivity].
  all: try rewrite (land_low_bits _ 3 7) in H1 by first [lia | reflexivity].
  all: first [ rewrite lor4 in H1 by (apply Z.mod_pos_bound; lia)
             | rewrite lor3 in H1 by (apply Z.mod_pos_bound; lia)
             | rewrite lor_shiftl_high in H1 by (try apply Z.mod_pos_bound; lia) ].
  all: first [ exfalso; Z.div_mod_to_equations; lia
             | right; split; [reflexivity|];
               assert (p0 = 239 /\ b1 = 191 /\ b2 = 189) as (-> & -> & ->)
                 by (Z.div_mod_to_equations; lia);
               reflexivity
             | idtac ].
Qed.

(** C3, as the code has it.  When [DecodeRune] reports [RuneError] at
    the read position, which it does for an invalid byte sequence (with
    size 1) and also for the bytes EF BF BD, the valid encoding of
    U+FFFD itself (with size 3), [UTF8ToLatin1] skips to the next byte
    that starts a code point (only continuation bytes are skipped after
    the first byte; the end of the buffer if there is no such byte) and
    appends exactly one placeholder ['?'] for the skipped span.  For any
    other decoded code point it advances by the size of the encoding and
    appends one byte: the code point when it lies in 0..255 and ['?']
    otherwise. *)
Theorem UTF8ToLatin1_invalid_span (Buffer : list Z) (Codepoint : Z) (Size : nat) :
  Buffer <> [] ->
  utf8.DecodeRune Buffer = (Codepoint, Size) ->
  (Codepoint = utf8.RuneError ->
   (Size = 1%nat \/ (Size = 3%nat /\ take 3 Buffer = [0xEF; 0xBF; 0xBD])) /\
   let k := UTF8FindNextLeadingByte Buffer in
   UTF8ToLatin1 Buffer = 63 :: UTF8ToLatin1 (drop k Buffer) /\
   (1 <= k <= length Buffer)%nat /\
   (forall i : nat, (1 <= i < k)%nat ->
      exists b, Buffer !! i = Some b /\ utf8.RuneStart b = false) /\
   (forall b, Buffer !! k = Some b -> utf8.RuneStart b = true)) /\
  (Codepoint <> utf8.RuneError ->
   (1 <= Size)%nat /\
   UTF8ToLatin1 Buffer =
   (if (0 <=? Codepoint) && (Codepoint <=? 255) then Codepoint else 63)
     :: UTF8ToLatin1 (drop Size Buffer)) /\
  (forall rest : list Z,
      utf8.DecodeRune (0xEF :: 0xBF :: 0xBD :: rest) = (utf8.RuneError, 3%nat)).
Proof.
  intros Hne Hdec. split; [|split].
  - intros ->. split; [now apply DecodeRune_RuneError|].
    split; [|now apply UTF8FindNextLeadingByte_spec].
    rewrite (UTF8ToLatin1_cons Buffer Hne).
    unfold UTF8ToLatin1_step. rewrite Hdec. reflexivity.
  - intros Hcp. split.
    { pose proof (DecodeRune_size_pos Buffer Hne) as H. now rewrite Hdec in H. }
    rewrite (UTF8ToLatin1_cons Buffer Hne).
    unfold UTF8ToLatin1_step. rewrite Hdec.
    assert ((Codepoint =? utf8.RuneError) = false) as -> by now apply Z.eqb_neq.
    simpl. destruct ((0 <=? Codepoint) && (Codepoint <=? 255)) eqn:Hr; [|reflexivity].
    apply andb_prop in Hr as [H0 H255].
    apply Z.leb_le in H0, H255. unfold uint8. now rewrite Z.mod_small by lia.
  - intros rest. reflexivity.
Qed.

Lemma UTF8ToLatin1_invalid_span_witness :
  UTF8ToLatin1 [255; 128; 65] = 63 :: UTF8ToLatin1 [65].
Proof.
  exact (proj1 (proj2 (proj1 (UTF8ToLatin1_invalid_span [255; 128; 65] utf8.RuneError 1
                                ltac:(discriminate) eq_refl) eq_refl))).
Defined.

(** C3, as stated, fails: the invalid byte 0xFF in front of ['A'] is an
    invalid span, and the transcoder appends ['?'] for it. *)
Lemma UTF8ToLatin1_invalid_span_emits :
  fst (utf8.DecodeRune [255; 65]) = utf8.RuneError /\
  UTF8ToLatin1 [65] = [65] /\
  UTF8ToLatin1 [255; 65] = [63; 65] /\
  UTF8ToLatin1 [255; 65] <> UTF8ToLatin1 [65].
Proof. repeat split; try reflexivity. discriminate. Qed.

(** The encoded U+FFFD is treated like an invalid sequence: a stray
    continuation byte behind it belongs to the same skipped span, and
    both together leave a single ['?']; behind the encoded U+20AC, which
    decodes to a code point above 255, the stray byte is a span of its
    own. *)
Example UTF8ToLatin1_ex_replacement_character :
  utf8.DecodeRune [239; 191; 189; 128; 65] = (utf8.RuneError, 3%nat) /\
  UTF8FindNextLeadingByte [239; 191; 189; 128; 65] = 4%nat /\
  UTF8ToLatin1 [239; 191; 189; 128; 65] = [63; 65] /\
  UTF8ToLatin1 [226; 130; 172; 128; 65] = [63; 63; 65].
Proof. repeat split. Qed.

(** ** The bounded recency caches *)

(** The two scans of query.go are the same loop over different slot
    types.  Its properties are proved once, for a loop over any slot
    type with a last-access stamp, an empty slot and a key test. *)
Section SlotScan.

Variable T : Type.
Variable last : T -> Z.
Variable zero : T.
Variable hit : T -> bool.
Variable interval : Z.
Variable clock : nat -> Z.

(** The passive expiry of one slot, at the clock reading number [k]. *)
Definition sweep (k : nat) (e : T) : T :=
  if interval <=? time.Since (clock k) (last e) then zero else e.

(** The slots after a scan that visited them all from reading [t] on. *)
Definition swept (t : nat) (slots : list T) : list T :=
  imap (fun j => sweep (t + j)) slots.

Fixpoint slot_scan (slots : list T) (Index LRUIndex : nat) (LRUTime : Z)
         (ticks : nat) : scan T :=
  match slots with
  | [] => Scan [] None LRUIndex LRUTime ticks
  | Current :: rest =>
    let Current := sweep ticks Current in
    let '(LRUIndex, LRUTime) :=
      if time.Before (last Current) LRUTime
      then (Index, last Current)
      else (LRUIndex, LRUTime) in
    if hit Current then
      Scan (Current :: rest) (Some Index) LRUIndex LRUTime (S ticks)
    else
      let s := slot_scan rest (S Index) LRUIndex LRUTime (S ticks) in
      Scan (Current :: Slots s) (Entry s) (LeastRecentlyUsedIndex s)
           (LeastRecentlyUsedTime s) (ScanTicks s)
  end.

Lemma swept_cons (t : nat) (e : T) (slots : list T) :
  swept t (e :: slots) = sweep t e :: swept (S t) slots.
Proof.
  unfold swept. rewrite imap_cons. rewrite Nat.add_0_r. f_equal.
  apply imap_ext. intros j x _. simpl. f_equal. lia.
Qed.

Lemma length_swept (t : nat) (slots : list T) : length (swept t slots) = length slots.
Proof. apply length_imap. Qed.

Lemma lookup_swept (t j : nat) (slots : list T) :
  swept t slots !! j = sweep (t + j) <$> slots !! j.
Proof. unfold swept. now rewrite list_lookup_imap. Qed.

(** A scan that finds no slot visited them all. *)
Lemma slot_scan_miss (slots : list T) :
  forall (Index LRUIndex : nat) (LRUTime : Z) (ticks : nat),
    Entry (slot_scan slots Index LRUIndex LRUTime ticks) = None ->
    Slots (slot_scan slots Index LRUIndex LRUTime ticks) = swept ticks slots /\
    ScanTicks (slot_scan slots Index LRUIndex LRUTime ticks) = (ticks + length slots)%nat /\
    Forall (fun e => hit e = false) (swept ticks slots).
Proof.
  induction slots as [|e slots IH]; intros Index LRUIndex LRUTime ticks; simpl.
  - intros _. repeat split; [lia|constructor].
  - rewrite swept_cons.
    destruct (time.Before (last (sweep ticks e)) LRUTime);
      (destruct (hit (sweep ticks e)) eqn:Hh; simpl; [discriminate|]);
      intros Hm; destruct (IH _ _ _ _ Hm) as (-> & -> & Hall);
      (repeat split; [lia|constructor; assumption]).
Qed.

Lemma slot_scan_miss_intro (slots : list T) :
  forall (Index LRUIndex : nat) (LRUTime : Z) (ticks : nat),
    Forall (fun e => hit e = false) (swept ticks slots) ->
    Entry (slot_scan slots Index LRUIndex LRUTime ticks) = None.
Proof.
  induction slots as [|e slots IH]; intros Index LRUIndex LRUTime ticks; simpl.
  - reflexivity.
  - rewrite swept_cons. intros Hall. inversion Hall as [|? ? Hh Hrest]; subst.
    destruct (time.Before (last (sweep ticks e)) LRUTime); rewrite Hh; simpl;
      now apply IH.
Qed.

(** A scan that finds a slot stops there: the slots before it were swept
    and did not match, the slot itself was swept and matches, the slots
    after it were not visited. *)
Lemma slot_scan_hit (slots : list T) :
  forall (Index LRUIndex : nat) (LRUTime : Z) (ticks : nat) (k : nat),
    Entry (slot_scan slots Index LRUIndex LRUTime ticks) = Some k ->
    exists (j : nat) (e : T),
      k = (Index + j)%nat /\ slots !! j = Some e /\
      hit (sweep (ticks + j) e) = true /\
      Forall (fun e => hit e = false) (swept ticks (take j slots)) /\
      Slots (slot_scan slots Index LRUIndex LRUTime ticks) =
        swept ticks (take j slots) ++ sweep (ticks + j) e :: drop (S j) slots /\
      ScanTicks (slot_scan slots Index LRUIndex LRUTime ticks) = (ticks + S j)%nat.
Proof.
  induction slots as [|e slots IH]; intros Index LRUIndex LRUTime ticks k; simpl.
  - discriminate.
  - destruct (time.Before (last (sweep ticks e)) LRUTime);
      destruct (hit (sweep ticks e)) eqn:Hh; simpl; intros Hk.
    1,3: injection Hk as <-; exists 0%nat, e; rewrite !Nat.add_0_r;
      repeat split; try assumption; try constructor; simpl; lia.
    all: destruct (IH _ _ _ _ _ Hk) as (j & e' & -> & Hj & Hhit & Hpre & -> & ->);
      exists (S j), e'; simpl take; rewrite swept_cons;
      replace (ticks + S j)%nat with (S ticks + j)%nat by lia;
      repeat split; try assumption; try (constructor; assumption); simpl; lia.
Qed.

(** The eviction candidate after a scan that visited all slots: either
    the candidate it started with, no slot being older, or the first of
    the oldest slots. *)
Lemma slot_scan_lru (slots : list T) :
  forall (Index LRUIndex : nat) (LRUTime : Z) (ticks : nat),
    let s := slot_scan slots Index LRUIndex LRUTime ticks in
    Entry s = None ->
    (LeastRecentlyUsedIndex s = LRUIndex /\ LeastRecentlyUsedTime s = LRUTime /\
     Forall (fun e => LRUTime <= last e) (swept ticks slots)) \/
    (exists (j : nat) (e : T),
        LeastRecentlyUsedIndex s = (Index + j)%nat /\
        swept ticks slots !! j = Some e /\
        LeastRecentlyUsedTime s = last e /\ last e < LRUTime /\
        Forall (fun e' => last e <= last e') (swept ticks slots) /\
        Forall (fun e' => last e < last e') (take j (swept ticks slots))).
Proof.
  induction slots as [|e slots IH]; intros Index LRUIndex LRUTime ticks; simpl.
  - intros _. left. repeat split. constructor.
  - rewrite swept_cons. set (e' := sweep ticks e).
    unfold time.Before.
    destruct (last e' <? LRUTime) eqn:Hb;
      (destruct (hit e') eqn:Hh; simpl; [discriminate|]); intros Hm.
    + apply Z.ltb_lt in Hb. right.
      destruct (IH (S Index) Index (last e') (S ticks) Hm)
        as [(-> & -> & Hall)|(j & x & -> & Hj & -> & Hlt & Hall & Hpre)].
      * exists 0%nat, e'. rewrite Nat.add_0_r. repeat split; try assumption.
        -- constructor; [lia|assumption].
        -- constructor.
      * exists (S j), x. repeat split; try assumption; try lia.
        -- constructor; [lia|assumption].
        -- simpl. constructor; assumption.
    + apply Z.ltb_ge in Hb.
      destruct (IH (S Index) LRUIndex LRUTime (S ticks) Hm)
        as [(-> & -> & Hall)|(j & x & -> & Hj & -> & Hlt & Hall & Hpre)].
      * left. repeat split. constructor; assumption.
      * right. exists (S j), x. repeat split; try assumption; try lia.
        -- constructor; [lia|assumption].
        -- simpl. constructor; [lia|assumption].
Qed.

(** [idx] is the first of the slots with the oldest stamp. *)
Definition oldest_first (slots : list T) (idx : nat) : Prop :=
  exists e, slots !! idx = Some e /\
            Forall (fun e' => last e <= last e') slots /\
            Forall (fun e' => last e < last e') (take idx slots).

Lemma sweep_cases (k : nat) (e : T) : sweep k e = zero \/ sweep k e = e.
Proof. unfold sweep. destruct (interval <=? _); auto. Qed.

Lemma swept_Forall (P : T -> Prop) (t : nat) (slots : list T) :
  P zero -> Forall P slots -> Forall P (swept t slots).
Proof.
  intros Hz Hall. revert t.
  induction Hall as [|e slots He _ IH]; intros t.
  - constructor.
  - rewrite swept_cons. constructor; [|apply IH].
    destruct (sweep_cases t e) as [->| ->]; assumption.
Qed.

(** A slot whose stamp is within the refresh interval is not swept. *)
Lemma sweep_fresh (k : nat) (e : T) :
  0 <= clock k - last e < interval -> sweep k e = e.
Proof.
  intros H. unfold sweep.
  assert ((interval <=? time.Since (clock k) (last e)) = false) as ->; [|reflexivity].
  apply Z.leb_gt.
  unfold time.Since, time.Sub, time.minDuration, time.maxDuration. lia.
Qed.

(** The first of the oldest slots is at or before every empty slot. *)
Lemma oldest_first_zero (slots : list T) (idx j : nat) :
  last zero = 0 ->
  Forall (fun e => 0 <= last e) slots ->
  oldest_first slots idx ->
  slots !! j = Some zero ->
  (idx <= j)%nat.
Proof.
  intros Hz Hpos (x & Hx & Hall & Hpre) Hj.
  destruct (le_lt_dec idx j) as [|Hlt]; [assumption|exfalso].
  rewrite Forall_forall in Hpos, Hpre.
  specialize (Hpos x (list_elem_of_lookup_2 _ _ _ Hx)).
  assert (Hin : zero ∈ take idx slots).
  { apply list_elem_of_lookup. exists j. now rewrite lookup_take_lt. }
  specialize (Hpre zero Hin). lia.
Qed.

(** The sweep changes nothing when every slot is empty or has a stamp
    within the refresh interval at the reading that tests it. *)
Lemma swept_id (slots : list T) :
  forall t : nat,
    (forall (j : nat) (e : T), slots !! j = Some e ->
       e = zero \/ 0 <= clock (t + j) - last e < interval) ->
    swept t slots = slots.
Proof.
  induction slots as [|e slots IH]; intros t H; [reflexivity|].
  rewrite swept_cons. f_equal.
  - destruct (H 0%nat e eq_refl) as [->|Hf].
    + destruct (sweep_cases t zero); auto.
    + rewrite Nat.add_0_r in Hf. now apply sweep_fresh.
  - apply IH. intros j x Hj. specialize (H (S j) x Hj).
    now replace (S t + j)%nat with (t + S j)%nat by lia.
Qed.

(** The scan from the head of the slots, as [GetAccountSummary] and
    [GetCharacterProfile] start it. *)
Definition scan_all (first : T) (rest : list T) (ticks : nat) : scan T :=
  slot_scan (first :: rest) 0 0 (last first) ticks.

(** On a miss the eviction candidate is the first of the oldest slots,
    as the sweep left them. *)
Lemma scan_all_lru (first : T) (rest : list T) (ticks : nat) :
  last zero = 0 ->
  Forall (fun e => 0 <= last e) (first :: rest) ->
  Entry (scan_all first rest ticks) = None ->
  oldest_first (swept ticks (first :: rest))
               (LeastRecentlyUsedIndex (scan_all first rest ticks)).
Proof.
  intros Hz Hpos Hm. unfold scan_all in *.
  destruct (slot_scan_lru (first :: rest) 0 0 (last first) ticks Hm)
    as [(-> & _ & Hall)|(j & x & -> & Hj & _ & _ & Hall & Hpre)].
  - exists (sweep ticks first). rewrite swept_cons in *. split; [reflexivity|].
    split; [|constructor].
    destruct (sweep_cases ticks first) as [E|E]; rewrite E in *; [|assumption].
    inversion Hall as [|? ? H0 Hrest]; subst.
    inversion Hpos as [|? ? Hf _]; subst.
    rewrite Hz in *. assert (last first = 0) as E0 by lia.
    rewrite E0 in Hrest. constructor; [lia|assumption].
  - exists x. auto.
Qed.

(** An empty slot matches a key that the empty slot's key matches: the
    scan stops at it, or at an earlier slot that matches. *)
Lemma scan_all_zero_hit (pre post : list T) (Index LRUIndex : nat) (LRUTime : Z)
      (ticks : nat) :
  hit zero = true ->
  let s := slot_scan (pre ++ zero :: post) Index LRUIndex LRUTime ticks in
  exists (j : nat) (e : T),
    Entry s = Some (Index + j)%nat /\
    Slots s !! j = Some e /\
    (e = zero \/ (e ∈ pre /\ hit e = true)).
Proof.
  intros Hz. revert Index LRUIndex LRUTime ticks.
  induction pre as [|p pre IH]; intros Index LRUIndex LRUTime ticks; simpl.
  - assert (E : sweep ticks zero = zero) by (destruct (sweep_cases ticks zero); auto).
    rewrite E, Hz.
    destruct (time.Before (last zero) LRUTime); simpl;
      exists 0%nat, zero; rewrite Nat.add_0_r; auto.
  - destruct (time.Before (last (sweep ticks p)) LRUTime);
      destruct (hit (sweep ticks p)) eqn:Hh; simpl.
    1,3: exists 0%nat, (sweep ticks p); rewrite Nat.add_0_r;
      split; [reflexivity|]; split; [reflexivity|];
      destruct (sweep_cases ticks p) as [E|E]; rewrite E in *; [now left|];
      right; split; [apply list_elem_of_here|assumption].
    all: edestruct IH as (j & e & -> & Hj & He);
      exists (S j), e; split; [f_equal; lia|]; split; [exact Hj|];
      destruct He as [He|[He Hh']]; [now left|];
      right; split; [now apply list_elem_of_further|assumption].
Qed.

End SlotScan.

(** More on the scan: where it stops, and what it leaves. *)
Section SlotScanMore.

Variable T : Type.
Variable last : T -> Z.
Variable zero : T.
Variable hit : T -> bool.
Variable interval : Z.
Variable clock : nat -> Z.

Local Abbreviation sweep_ := (sweep T last zero interval clock).
Local Abbreviation swept_ := (swept T last zero interval clock).
Local Abbreviation scan_ := (slot_scan T last zero hit interval clock).

(** A scan stops at the first slot that matches once swept. *)
Lemma slot_scan_finds (pre : list T) (e : T) (post : list T) :
  forall (Index LRUIndex : nat) (LRUTime : Z) (ticks : nat),
    Forall (fun x => hit x = false) (swept_ ticks pre) ->
    hit (sweep_ (ticks + length pre) e) = true ->
    Entry (scan_ (pre ++ e :: post) Index LRUIndex LRUTime ticks) =
      Some (Index + length pre)%nat /\
    Slots (scan_ (pre ++ e :: post) Index LRUIndex LRUTime ticks) =
      swept_ ticks pre ++ sweep_ (ticks + length pre) e :: post /\
    ScanTicks (scan_ (pre ++ e :: post) Index LRUIndex LRUTime ticks) =
      (ticks + S (length pre))%nat.
Proof.
  induction pre as [|x pre IH]; intros Index LRUIndex LRUTime ticks Hpre He.
  - cbn [app length slot_scan] in *. rewrite Nat.add_0_r in *. rewrite He.
    destruct (time.Before _ _); cbn [Entry Slots ScanTicks];
      repeat split; rewrite ?Nat.add_0_r; first [reflexivity | lia | f_equal; lia].
  - rewrite swept_cons in *. inversion Hpre as [|? ? Hx Hrest]; subst.
    cbn [app length slot_scan] in *. rewrite Hx.
    replace (ticks + S (length pre))%nat with (S ticks + length pre)%nat in * by lia.
    destruct (time.Before _ _);
      match goal with
      | |- context [slot_scan _ _ _ _ _ _ _ ?a ?b ?c ?d] =>
        destruct (IH a b c d Hrest He) as (E1 & E2 & E3)
      end;
      cbn [Entry Slots ScanTicks]; rewrite E1, E2, E3; repeat split;
      first [reflexivity | lia | f_equal; lia].
Qed.

(** A scan leaves every slot as it was or empties it, and keeps their number. *)
Lemma slot_scan_slots (slots : list T) :
  forall (Index LRUIndex : nat) (LRUTime : Z) (ticks : nat),
    length (Slots (scan_ slots Index LRUIndex LRUTime ticks)) = length slots /\
    forall (i : nat) (x : T),
      Slots (scan_ slots Index LRUIndex LRUTime ticks) !! i = Some x ->
      exists e, slots !! i = Some e /\ (x = zero \/ x = e).
Proof.
  induction slots as [|e slots IH]; intros Index LRUIndex LRUTime ticks;
    cbn [slot_scan].
  - split; [reflexivity|]. intros i x H. cbn [Slots] in H. now destruct i.
  - assert (Hhead : forall (rest : list T) (i : nat) (x : T),
               (sweep_ ticks e :: rest) !! i = Some x ->
               (forall i x, rest !! i = Some x ->
                            exists e, slots !! i = Some e /\ (x = zero \/ x = e)) ->
               exists e', (e :: slots) !! i = Some e' /\ (x = zero \/ x = e')).
    { intros rest [|i] x Hx Hrest; simpl in *.
      - injection Hx as <-. exists e. split; [reflexivity|]. apply sweep_cases.
      - now apply Hrest. }
    destruct (time.Before _ _); destruct (hit _); cbn [Slots].
    1,3: split; [reflexivity|]; intros i x Hx; apply (Hhead _ i x Hx); eauto.
    all: match goal with
         | |- context [slot_scan _ _ _ _ _ _ _ ?a ?b ?c ?d] =>
           destruct (IH a b c d) as [Hl Hp]
         end; split; [cbn [length]; now rewrite Hl|];
         intros i x Hx; apply (Hhead _ i x Hx); exact Hp.
Qed.

End SlotScanMore.

(** *** Filling the slots

    The slots of a fresh cache fill up from the first one; once they are
    full the first of the oldest is the one to go.  [key] is the key of a
    slot and [matches] the test of the scan. *)
Section SlotFill.

Variable T K : Type.
Variable last : T -> Z.
Variable zero : T.
Variable key : T -> K.
Variable matches : K -> K -> bool.
Variable interval : Z.
Variable clock : nat -> Z.
Variable N : nat.

Local Abbreviation swept := (swept T last zero interval clock).
Local Abbreviation oldest_first := (oldest_first T last).

Hypothesis last_zero : last zero = 0.

(** The clock readings number [T0] to [Tmax - 1]: after the zero [Time],
    strictly increasing, and all within the refresh interval. *)
Definition window (T0 Tmax : nat) : Prop :=
  0 < clock T0 /\
  (forall i j : nat, (T0 <= i < j)%nat -> (j < Tmax)%nat -> clock i < clock j) /\
  (forall i : nat, (T0 <= i < Tmax)%nat -> clock i - clock T0 < interval).

(** The slots hold entries for the keys [ks], in this order and with
    increasing stamps read from the clock between [T0] and [t], followed
    by empty slots. *)
Definition filled_with (T0 t : nat) (ks : list K) (slots : list T) : Prop :=
  exists filled,
    slots = filled ++ replicate (N - length ks) zero /\
    key <$> filled = ks /\
    (length ks <= N)%nat /\
    StronglySorted (fun a b => last a < last b) filled /\
    Forall (fun e => exists k : nat, (T0 <= k < t)%nat /\ last e = clock k) filled.

Lemma window_le (T0 Tmax i j : nat) :
  window T0 Tmax -> (T0 <= i <= j)%nat -> (j < Tmax)%nat -> clock i <= clock j.
Proof.
  intros (_ & Hmono & _) Hij Hj.
  destruct (decide (i = j)) as [->|Hne]; [lia|].
  specialize (Hmono i j ltac:(lia) Hj). lia.
Qed.

Lemma filled_with_length (T0 t : nat) (ks : list K) (slots : list T) :
  filled_with T0 t ks slots -> length slots = N.
Proof.
  intros (filled & -> & Hk & Hle & _). apply (f_equal length) in Hk.
  rewrite length_fmap in Hk. rewrite length_app, length_replicate. lia.
Qed.

(** Within the window the sweep changes nothing and every stamp is at or
    after the zero [Time]. *)
Lemma filled_with_fresh (T0 t Tmax : nat) (ks : list K) (slots : list T) :
  window T0 Tmax -> (t + N <= Tmax)%nat ->
  filled_with T0 t ks slots ->
  swept t slots = slots /\ Forall (fun e => 0 <= last e) slots.
Proof.
  intros Hw Ht (filled & -> & Hk & Hle & Hs & Hst).
  assert (HN : length filled = length ks)
    by (rewrite <- Hk; now rewrite length_fmap).
  split.
  - apply swept_id. intros j e Hj.
    destruct (decide (j < length filled)%nat) as [Hlt|Hge].
    + right. rewrite lookup_app_l in Hj by assumption.
      rewrite Forall_forall in Hst.
      destruct (Hst e (list_elem_of_lookup_2 _ _ _ Hj)) as (k & Hk' & ->).
      assert (Hjt : (t + j < Tmax)%nat) by lia.
      pose proof (window_le T0 Tmax k (t + j) Hw ltac:(lia) Hjt).
      pose proof (window_le T0 Tmax T0 k Hw ltac:(lia) ltac:(lia)).
      destruct Hw as (_ & _ & Hint). specialize (Hint (t + j)%nat ltac:(lia)). lia.
    + left. rewrite lookup_app_r in Hj by lia.
      apply lookup_replicate in Hj. tauto.
  - apply Forall_app. split.
    + eapply Forall_impl; [exact Hst|]. intros e (k & Hk' & ->).
      pose proof (window_le T0 Tmax T0 k Hw ltac:(lia) ltac:(lia)).
      destruct Hw as (H0 & _). lia.
    + apply Forall_replicate. lia.
Qed.

(** A key that matches none of the keys held, nor the key of an empty
    slot, misses. *)
Lemma filled_with_miss (T0 t : nat) (ks : list K) (slots : list T) (k : K) :
  filled_with T0 t ks slots ->
  Forall (fun k' => matches k' k = false) ks ->
  matches (key zero) k = false ->
  Forall (fun e => matches (key e) k = false) slots.
Proof.
  intros (filled & -> & Hk & _) Hks Hz.
  apply Forall_app. split; [|now apply Forall_replicate].
  rewrite <- Hk in Hks. now rewrite Forall_fmap in Hks.
Qed.

(** While an empty slot is left, the eviction candidate is the first
    empty slot, and the new entry is appended to the entries held. *)
Lemma filled_with_insert (T0 t Tmax : nat) (ks : list K) (slots : list T)
      (idx : nat) (e : T) :
  window T0 Tmax -> (T0 <= t)%nat -> (t + N < Tmax)%nat ->
  filled_with T0 t ks slots ->
  (length ks < N)%nat ->
  oldest_first slots idx ->
  last e = clock (t + N) ->
  idx = length ks /\
  filled_with T0 (S (t + N)) (ks ++ [key e]) (<[idx := e]> slots).
Proof.
  intros Hw HT0 Ht (filled & -> & Hk & Hle & Hs & Hst) Hlt (x & Hx & Hall & Hpre) He.
  assert (HN : length filled = length ks)
    by (rewrite <- Hk; now rewrite length_fmap).
  assert (Hpos : Forall (fun e' => 0 < last e') filled).
  { eapply Forall_impl; [exact Hst|]. intros e' (k & Hk' & ->).
    pose proof (window_le T0 Tmax T0 k Hw ltac:(lia) ltac:(lia)).
    destruct Hw as (H0 & _). lia. }
  replace (N - length ks)%nat with (S (N - length ks - 1)) in * by lia.
  rewrite replicate_S in *.
  assert (Hx0 : last x <= 0).
  { rewrite Forall_app in Hall. destruct Hall as [_ Hz].
    inversion Hz; subst. lia. }
  assert (Hidx : idx = length filled).
  { destruct (Nat.lt_trichotomy idx (length filled)) as [Hl|[Heq|Hg]]; [|assumption|].
    - rewrite lookup_app_l in Hx by assumption.
      rewrite Forall_forall in Hpos.
      specialize (Hpos x (list_elem_of_lookup_2 _ _ _ Hx)). lia.
    - exfalso. rewrite take_app_ge in Hpre by lia.
      apply Forall_app in Hpre as [_ Hpre].
      destruct (idx - length filled)%nat as [|d] eqn:Hd; [lia|].
      simpl in Hpre. inversion Hpre; subst.
      rewrite lookup_app_r in Hx by lia. rewrite Hd in Hx. simpl in Hx.
      apply lookup_replicate in Hx as [-> _]. lia. }
  split; [lia|]. subst idx.
  exists (filled ++ [e]). rewrite length_app. simpl length.
  split; [|split; [|split; [lia|split]]].
  - replace (length filled) with (length filled + 0)%nat at 1 by lia.
    rewrite insert_app_r. simpl. rewrite <- app_assoc. simpl.
    do 3 f_equal. lia.
  - rewrite fmap_app, Hk. reflexivity.
  - apply StronglySorted_app_2; [|assumption|repeat constructor].
    intros a b Ha Hb. apply list_elem_of_singleton in Hb. subst b.
    rewrite Forall_forall in Hst. destruct (Hst a Ha) as (k & Hk' & ->).
    rewrite He. destruct Hw as (_ & Hmono & _). apply Hmono; lia.
  - apply Forall_app. split.
    + eapply Forall_impl; [exact Hst|]. intros e' (k & Hk' & E).
      exists k. split; [lia|assumption].
    + constructor; [|constructor]. exists (t + N)%nat. split; [lia|assumption].
Qed.

(** When no empty slot is left, the eviction candidate is the first
    slot: it holds the key looked up first, with the oldest stamp. *)
Lemma filled_with_full (T0 t : nat) (ks : list K) (slots : list T) (idx : nat) :
  filled_with T0 t ks slots ->
  length ks = N -> (0 < N)%nat ->
  oldest_first slots idx ->
  idx = 0%nat /\ key <$> slots = ks.
Proof.
  intros (filled & -> & Hk & Hle & Hs & Hst) Hfull HN (x & Hx & Hall & Hpre).
  rewrite Hfull, Nat.sub_diag in *. simpl in *. rewrite app_nil_r in *.
  split; [|assumption].
  destruct idx as [|idx]; [reflexivity|exfalso].
  destruct filled as [|e0 filled]; [discriminate|].
  simpl in Hx, Hpre. inversion Hpre as [|? ? H0 _]; subst.
  inversion Hs as [|? ? _ Hlt]; subst.
  rewrite Forall_forall in Hlt.
  specialize (Hlt x (list_elem_of_lookup_2 _ _ _ Hx)). lia.
Qed.

End SlotFill.

(** The scans of the two caches are instances of it. *)
Lemma AccountScan_slot_scan (cfg : Config) (clock : nat -> Z) (AccountID : Z)
      (slots : list TAccountCacheEntry.t) :
  forall (Index LRUIndex : nat) (LRUTime : Z) (ticks : nat),
    AccountScan cfg clock AccountID slots Index LRUIndex LRUTime ticks =
    slot_scan TAccountCacheEntry.t TAccountCacheEntry.LastAccess TAccountCacheEntry.zero
              (fun e => TAccountCacheEntry.AccountID e =? AccountID)
              (g_CharacterRefreshInterval cfg) clock
              slots Index LRUIndex LRUTime ticks.
Proof.
  induction slots as [|e slots IH]; intros; simpl; [reflexivity|].
  unfold sweep.
  destruct (g_CharacterRefreshInterval cfg <=? _);
    destruct (time.Before _ _); rewrite ?IH; reflexivity.
Qed.

Lemma CharacterScan_slot_scan (cfg : Config) (clock : nat -> Z)
      (EqualFold : list Z -> list Z -> bool) (CharacterName : list Z)
      (slots : list TCharacterCacheEntry.t) :
  forall (Index LRUIndex : nat) (LRUTime : Z) (ticks : nat),
    CharacterScan cfg clock EqualFold CharacterName slots Index LRUIndex LRUTime ticks =
    slot_scan TCharacterCacheEntry.t TCharacterCacheEntry.LastAccess
              TCharacterCacheEntry.zero
              (fun e => EqualFold (TCharacterCacheEntry.CharacterName e) CharacterName)
              (g_CharacterRefreshInterval cfg) clock
              slots Index LRUIndex LRUTime ticks.
Proof.
  induction slots as [|e slots IH]; intros; simpl; [reflexivity|].
  unfold sweep.
  destruct (g_CharacterRefreshInterval cfg <=? _);
    destruct (time.Before _ _); rewrite ?IH; reflexivity.
Qed.

(** *** The typed queries return *)

Lemma Write32_Position (wb : TWriteBuffer.t) (v : Z) :
  TWriteBuffer.Position (TWriteBuffer.Write32 wb v) = TWriteBuffer.Position wb + 4.
Proof. reflexivity. Qed.

Lemma Connection_GetAccountSummary_returns
      (cfg : Config) (AccountID : Z) (c : TQueryManagerConnection) :
  exists Result Account c',
    Connection.GetAccountSummary cfg AccountID c = Done (Result, Account, c').
Proof.
  unfold Connection.GetAccountSummary.
  destruct (ExecuteQuery_returned cfg true
              (TWriteBuffer.Write32 (PrepareQuery QUERY_GET_ACCOUNT_SUMMARY (byte_array 16384))
                                    (uint32 AccountID)) c)
    as (St & rb & c' & -> & _); [rewrite Write32_Position; simpl; lia|].
  rewrite bind_Done. repeat exec_case; eauto.
Qed.

Lemma Connection_GetCharacterProfile_returns
      (cfg : Config) (CharacterName : list Z) (c : TQueryManagerConnection) :
  exists Result Character c',
    Connection.GetCharacterProfile cfg CharacterName c = Done (Result, Character, c').
Proof.
  unfold Connection.GetCharacterProfile.
  destruct (ExecuteQuery_returned cfg true
              (TWriteBuffer.WriteString
                 (PrepareQuery QUERY_GET_CHARACTER_PROFILE (byte_array 16384))
                 CharacterName) c)
    as (St & rb & c' & -> & _).
  { pose proof (WriteString_Position
                  (PrepareQuery QUERY_GET_CHARACTER_PROFILE (byte_array 16384))
                  CharacterName) as H.
    assert (E : TWriteBuffer.Position
                  (PrepareQuery QUERY_GET_CHARACTER_PROFILE (byte_array 16384)) = 3)
      by reflexivity.
    rewrite E in H. lia. }
  rewrite bind_Done. repeat exec_case; eauto.
Qed.

Lemma Connection_GetWorlds_returns (cfg : Config) (c : TQueryManagerConnection) :
  exists Result Worlds c',
    Connection.GetWorlds cfg c = Done (Result, Worlds, c').
Proof.
  unfold Connection.GetWorlds.
  destruct (ExecuteQuery_returned cfg true
              (PrepareQuery QUERY_GET_WORLDS (byte_array 16384)) c)
    as (St & rb & c' & -> & _); [simpl; lia|].
  rewrite bind_Done. repeat exec_case; eauto.
Qed.

(** Case analysis on the innermost scrutinee of a hypothesis. *)
Ltac exec_case_in H :=
  match type of H with
  | context [match ?x with _ => _ end] =>
    lazymatch x with
    | context [match _ with _ => _ end] => fail
    | _ => destruct x eqn:?
    end
  | context [if ?x then _ else _] =>
    lazymatch x with
    | context [match _ with _ => _ end] => fail
    | _ => destruct x eqn:?
    end
  end.

(** The two queries with a request of fixed size reach the socket: the
    connection they return has a longer trace. *)
Lemma Connection_GetWorlds_contacts
      (cfg : Config) (c c' : TQueryManagerConnection) (Result : Z)
      (Worlds : list TWorld.t) :
  Connection.GetWorlds cfg c = Done (Result, Worlds, c') ->
  exists op ops, Trace c' = Trace c ++ op :: ops.
Proof.
  intros H. unfold Connection.GetWorlds in H.
  destruct (ExecuteQuery_contacts cfg (PrepareQuery QUERY_GET_WORLDS (byte_array 16384)) c)
    as (St & rb & c1 & op & ops & HE & Ht);
    [vm_compute; reflexivity|vm_compute; reflexivity|vm_compute; discriminate|].
  rewrite HE, bind_Done in H.
  assert (c' = c1) as ->; [|eauto].
  repeat exec_case_in H; now injection H.
Qed.

Lemma Connection_GetAccountSummary_contacts
      (cfg : Config) (AccountID : Z) (c c' : TQueryManagerConnection) (Result : Z)
      (Account : TAccountSummary.t) :
  Connection.GetAccountSummary cfg AccountID c = Done (Result, Account, c') ->
  exists op ops, Trace c' = Trace c ++ op :: ops.
Proof.
  intros H. unfold Connection.GetAccountSummary in H.
  destruct (ExecuteQuery_contacts cfg
              (TWriteBuffer.Write32
                 (PrepareQuery QUERY_GET_ACCOUNT_SUMMARY (byte_array 16384))
                 (uint32 AccountID)) c)
    as (St & rb & c1 & op & ops & HE & Ht);
    [vm_compute; reflexivity|vm_compute; reflexivity|vm_compute; discriminate|].
  rewrite HE, bind_Done in H.
  assert (c' = c1) as ->; [|eauto].
  repeat exec_case_in H; now injection H.
Qed.

(** *** The worlds cache (C6, C10) *)

Lemma Until_nonpos (now t : Z) : time.Until now t <= 0 <-> t <= now.
Proof. unfold time.Until, time.Sub, time.minDuration, time.maxDuration. lia. Qed.

(** The globals after a call that changed nothing but the connection and
    the number of clock readings. *)
Definition with_connection (g : Globals) (c : TQueryManagerConnection)
           (ticks : nat) : Globals :=
  {| g_QueryManagerConnection := c;
     g_AccountCache := g_AccountCache g;
     g_CharacterCache := g_CharacterCache g;
     g_WorldCache := g_WorldCache g;
     g_WorldCacheRefreshTime := g_WorldCacheRefreshTime g;
     Ticks := ticks |}.

(** The globals after a refresh of the worlds cache. *)
Definition with_worlds (g : Globals) (c : TQueryManagerConnection)
           (Worlds : list TWorld.t) (RefreshTime : Z) (ticks : nat) : Globals :=
  {| g_QueryManagerConnection := c;
     g_AccountCache := g_AccountCache g;
     g_CharacterCache := g_CharacterCache g;
     g_WorldCache := Worlds;
     g_WorldCacheRefreshTime := RefreshTime;
     Ticks := ticks |}.

Section WorldsCache.

Variable cfg : Config.
Variable clock : nat -> Z.

Lemma GetWorlds_unexpired (g : Globals) :
  clock (Ticks g) < g_WorldCacheRefreshTime g ->
  GetWorlds cfg clock g =
  Done (g_WorldCache g, with_connection g (g_QueryManagerConnection g) (S (Ticks g))).
Proof.
  intros H. unfold GetWorlds.
  assert ((time.Until (clock (Ticks g)) (g_WorldCacheRefreshTime g) <=? 0) = false) as ->.
  { apply Z.leb_gt. pose proof (Until_nonpos (clock (Ticks g)) (g_WorldCacheRefreshTime g)).
    lia. }
  reflexivity.
Qed.

Lemma GetWorlds_expired (g : Globals) (Result : Z) (Worlds : list TWorld.t)
      (c : TQueryManagerConnection) :
  g_WorldCacheRefreshTime g <= clock (Ticks g) ->
  Connection.GetWorlds cfg (g_QueryManagerConnection g) = Done (Result, Worlds, c) ->
  GetWorlds cfg clock g =
  if Result =? 0 then
    Done (Worlds,
          with_worlds g c Worlds
            (clock (S (Ticks g)) + g_WorldRefreshInterval cfg) (S (S (Ticks g))))
  else
    Done (g_WorldCache g, with_connection g c (S (Ticks g))).
Proof.
  intros H HQ. unfold GetWorlds.
  assert ((time.Until (clock (Ticks g)) (g_WorldCacheRefreshTime g) <=? 0) = true) as ->.
  { apply Z.leb_le. now apply Until_nonpos. }
  rewrite HQ, bind_Done. destruct (Result =? 0); reflexivity.
Qed.

(** C10.  When the worlds cache has expired and the backend fetch fails,
    [GetWorlds] returns the previous snapshot and leaves snapshot and
    expiry as they were; the call that follows (the clock not running
    backwards) runs the backend fetch again. *)
Theorem GetWorlds_failed_refresh
        (g : Globals) (Result : Z) (Worlds : list TWorld.t)
        (c : TQueryManagerConnection) :
  g_WorldCacheRefreshTime g <= clock (Ticks g) ->
  Connection.GetWorlds cfg (g_QueryManagerConnection g) = Done (Result, Worlds, c) ->
  Result <> 0 ->
  clock (Ticks g) <= clock (S (Ticks g)) ->
  exists g',
    GetWorlds cfg clock g = Done (g_WorldCache g, g') /\
    g_WorldCache g' = g_WorldCache g /\
    g_WorldCacheRefreshTime g' = g_WorldCacheRefreshTime g /\
    g_QueryManagerConnection g' = c /\
    exists Result2 Worlds2 c2 g'',
      Connection.GetWorlds cfg c = Done (Result2, Worlds2, c2) /\
      (exists op ops, Trace c2 = Trace c ++ op :: ops) /\
      GetWorlds cfg clock g' =
        Done (if Result2 =? 0 then Worlds2 else g_WorldCache g, g'') /\
      g_QueryManagerConnection g'' = c2.
Proof.
  intros Hexp HQ HR Hclock.
  exists (with_connection g c (S (Ticks g))).
  rewrite (GetWorlds_expired g Result Worlds c Hexp HQ).
  apply Z.eqb_neq in HR. rewrite HR.
  do 4 (split; [reflexivity|]).
  destruct (Connection_GetWorlds_returns cfg c) as (R2 & W2 & c2 & HQ2).
  exists R2, W2, c2.
  rewrite (GetWorlds_expired (with_connection g c (S (Ticks g))) R2 W2 c2);
    [|simpl; lia|exact HQ2].
  pose proof (Connection_GetWorlds_contacts cfg c c2 R2 W2 HQ2) as Hcontact.
  destruct (R2 =? 0); eexists;
    (split; [exact HQ2|split; [exact Hcontact|split; reflexivity]]).
Qed.

(** C6, as the code has it.  Two calls of [GetWorlds] that both find the
    cache unexpired return the same snapshot and leave the connection
    untouched: no backend call.  A call that finds it expired runs
    exactly one backend fetch (the connection it leaves is the one that
    fetch leaves, with a longer trace); when the fetch succeeds, snapshot and
    expiry are replaced together, and when it fails both stay as they
    were. *)
Theorem GetWorlds_snapshot (g : Globals) :
  (clock (Ticks g) < g_WorldCacheRefreshTime g ->
   clock (S (Ticks g)) < g_WorldCacheRefreshTime g ->
   exists g1 g2,
     GetWorlds cfg clock g = Done (g_WorldCache g, g1) /\
     GetWorlds cfg clock g1 = Done (g_WorldCache g, g2) /\
     g_QueryManagerConnection g1 = g_QueryManagerConnection g /\
     g_QueryManagerConnection g2 = g_QueryManagerConnection g /\
     g_WorldCache g2 = g_WorldCache g /\
     g_WorldCacheRefreshTime g2 = g_WorldCacheRefreshTime g) /\
  (g_WorldCacheRefreshTime g <= clock (Ticks g) ->
   exists Result Worlds c g',
     Connection.GetWorlds cfg (g_QueryManagerConnection g) = Done (Result, Worlds, c) /\
     (exists op ops, Trace c = Trace (g_QueryManagerConnection g) ++ op :: ops) /\
     GetWorlds cfg clock g = Done (g_WorldCache g', g') /\
     g_QueryManagerConnection g' = c /\
     (Result = 0 ->
      g_WorldCache g' = Worlds /\
      g_WorldCacheRefreshTime g' =
        time.Add (clock (S (Ticks g))) (g_WorldRefreshInterval cfg)) /\
     (Result <> 0 ->
      g_WorldCache g' = g_WorldCache g /\
      g_WorldCacheRefreshTime g' = g_WorldCacheRefreshTime g)).
Proof.
  split.
  - intros H1 H2.
    exists (with_connection g (g_QueryManagerConnection g) (S (Ticks g))).
    exists (with_connection g (g_QueryManagerConnection g) (S (S (Ticks g)))).
    rewrite (GetWorlds_unexpired g H1).
    rewrite (GetWorlds_unexpired (with_connection g _ _)) by (simpl; assumption).
    do 5 (split; [reflexivity|]). reflexivity.
  - intros Hexp.
    destruct (Connection_GetWorlds_returns cfg (g_QueryManagerConnection g))
      as (R & W & c & HQ).
    pose proof (Connection_GetWorlds_contacts cfg _ c R W HQ) as Hcontact.
    exists R, W, c. rewrite (GetWorlds_expired g R W c Hexp HQ).
    destruct (R =? 0) eqn:HR.
    + apply Z.eqb_eq in HR.
      exists (with_worlds g c W (clock (S (Ticks g)) + g_WorldRefreshInterval cfg)
                          (S (S (Ticks g)))).
      split; [exact HQ|]. split; [exact Hcontact|].
      split; [reflexivity|]. split; [reflexivity|].
      split; [intros _; split; reflexivity|intros Hne; contradiction].
    + apply Z.eqb_neq in HR. exists (with_connection g c (S (Ticks g))).
      split; [exact HQ|]. split; [exact Hcontact|].
      split; [reflexivity|]. split; [reflexivity|].
      split; [intros He; contradiction|intros _; split; reflexivity].
Qed.

End WorldsCache.

Lemma GetWorlds_failed_refresh_witness :
  let clock := fun k : nat => 5000 + Z.of_nat k in
  let g := {| g_QueryManagerConnection := disconnected [];
              g_AccountCache := None; g_CharacterCache := None;
              g_WorldCache := [TWorld.Build [65] [78] 1 2 3 4 5 6];
              g_WorldCacheRefreshTime := 4000; Ticks := 0 |} in
  exists g',
    GetWorlds example_cfg clock g = Done (g_WorldCache g, g') /\
    g_WorldCache g' = g_WorldCache g /\
    g_WorldCacheRefreshTime g' = g_WorldCacheRefreshTime g /\
    g_QueryManagerConnection g' =
      {| Handle := false; Net := []; Trace := [OpDial] |} /\
    exists Result2 Worlds2 c2 g'',
      Connection.GetWorlds example_cfg
        {| Handle := false; Net := []; Trace := [OpDial] |} =
        Done (Result2, Worlds2, c2) /\
      (exists op ops, Trace c2 = [OpDial] ++ op :: ops) /\
      GetWorlds example_cfg clock g' =
        Done (if Result2 =? 0 then Worlds2 else g_WorldCache g, g'') /\
      g_QueryManagerConnection g'' = c2.
Proof.
  intros clock g.
  apply (GetWorlds_failed_refresh example_cfg clock g (-1) []
           {| Handle := false; Net := []; Trace := [OpDial] |}).
  - vm_compute. discriminate.
  - vm_compute. reflexivity.
  - discriminate.
  - vm_compute. discriminate.
Defined.

Lemma GetWorlds_snapshot_witness :
  let clock := fun k : nat => 5000 + Z.of_nat k in
  let g := {| g_QueryManagerConnection := disconnected [];
              g_AccountCache := None; g_CharacterCache := None;
              g_WorldCache := [TWorld.Build [65] [78] 1 2 3 4 5 6];
              g_WorldCacheRefreshTime := 9000; Ticks := 0 |} in
  exists g1 g2,
    GetWorlds example_cfg clock g = Done (g_WorldCache g, g1) /\
    GetWorlds example_cfg clock g1 = Done (g_WorldCache g, g2) /\
    g_QueryManagerConnection g1 = g_QueryManagerConnection g /\
    g_QueryManagerConnection g2 = g_QueryManagerConnection g /\
    g_WorldCache g2 = g_WorldCache g /\
    g_WorldCacheRefreshTime g2 = g_WorldCacheRefreshTime g.
Proof.
  intros clock g.
  apply (proj1 (GetWorlds_snapshot example_cfg clock g)).
  - vm_compute. reflexivity.
  - vm_compute. reflexivity.
Defined.

(** C6, as stated, fails: the cache expired at 4000, the call is made
    at 5000 and the backend cannot be reached; the call returns the old
    snapshot and replaces neither the snapshot nor the expiry. *)
Lemma GetWorlds_expired_not_replaced :
  let clock := fun k : nat => 5000 + Z.of_nat k in
  let old := [TWorld.Build [65] [78] 1 2 3 4 5 6] in
  let g := {| g_QueryManagerConnection := disconnected [];
              g_AccountCache := None; g_CharacterCache := None;
              g_WorldCache := old;
              g_WorldCacheRefreshTime := 4000; Ticks := 0 |} in
  g_WorldCacheRefreshTime g < clock (Ticks g) /\
  GetWorlds example_cfg clock g =
  Done (old,
        {| g_QueryManagerConnection :=
             {| Handle := false; Net := []; Trace := [OpDial] |};
           g_AccountCache := None; g_CharacterCache := None;
           g_WorldCache := old;
           g_WorldCacheRefreshTime := 4000; Ticks := 1 |}).
Proof. split; vm_compute; reflexivity. Qed.

(** ** The bounded recency caches, as the two accessors use them *)

Section BoundedCaches.

Variable cfg : Config.
Variable clock : nat -> Z.
Variable EqualFold : list Z -> list Z -> bool.

Local Abbreviation interval := (g_CharacterRefreshInterval cfg).

(** The account slots a call works on: the array there is, or the one
    the call allocates. *)
Definition AccountCacheOf (g : Globals) : list TAccountCacheEntry.t :=
  match g_AccountCache g with
  | Some cache => cache
  | None => replicate (Z.to_nat (g_MaxCachedAccounts cfg)) TAccountCacheEntry.zero
  end.

Definition CharacterCacheOf (g : Globals) : list TCharacterCacheEntry.t :=
  match g_CharacterCache g with
  | Some cache => cache
  | None => replicate (Z.to_nat (g_MaxCachedCharacters cfg)) TCharacterCacheEntry.zero
  end.

Definition with_accounts (g : Globals) (c : TQueryManagerConnection)
           (cache : list TAccountCacheEntry.t) (ticks : nat) : Globals :=
  {| g_QueryManagerConnection := c;
     g_AccountCache := Some cache;
     g_CharacterCache := g_CharacterCache g;
     g_WorldCache := g_WorldCache g;
     g_WorldCacheRefreshTime := g_WorldCacheRefreshTime g;
     Ticks := ticks |}.

Definition with_characters (g : Globals) (c : TQueryManagerConnection)
           (cache : list TCharacterCacheEntry.t) (ticks : nat) : Globals :=
  {| g_QueryManagerConnection := c;
     g_AccountCache := g_AccountCache g;
     g_CharacterCache := Some cache;
     g_WorldCache := g_WorldCache g;
     g_WorldCacheRefreshTime := g_WorldCacheRefreshTime g;
     Ticks := ticks |}.

Definition account_hit (AccountID : Z) (e : TAccountCacheEntry.t) : bool :=
  TAccountCacheEntry.AccountID e =? AccountID.

Definition character_hit (CharacterName : list Z) (e : TCharacterCacheEntry.t) : bool :=
  EqualFold (TCharacterCacheEntry.CharacterName e) CharacterName.

(** The scan of a call of [GetAccountSummary]. *)
Definition account_scan (AccountID : Z) (first : TAccountCacheEntry.t)
           (rest : list TAccountCacheEntry.t) (ticks : nat) : scan TAccountCacheEntry.t :=
  scan_all _ TAccountCacheEntry.LastAccess TAccountCacheEntry.zero
           (account_hit AccountID) interval clock first rest ticks.

(** The scan of a call of [GetCharacterProfile]. *)
Definition character_scan (CharacterName : list Z) (first : TCharacterCacheEntry.t)
           (rest : list TCharacterCacheEntry.t) (ticks : nat) : scan TCharacterCacheEntry.t :=
  scan_all _ TCharacterCacheEntry.LastAccess TCharacterCacheEntry.zero
           (character_hit CharacterName) interval clock first rest ticks.

(** The account slots after a scan that visited them all. *)
Definition account_swept (ticks : nat) (slots : list TAccountCacheEntry.t) :=
  swept _ TAccountCacheEntry.LastAccess TAccountCacheEntry.zero interval clock ticks slots.

Definition character_swept (ticks : nat) (slots : list TCharacterCacheEntry.t) :=
  swept _ TCharacterCacheEntry.LastAccess TCharacterCacheEntry.zero interval clock ticks slots.

Lemma GetAccountSummary_scan (AccountID : Z) (g : Globals)
      (first : TAccountCacheEntry.t) (rest : list TAccountCacheEntry.t) :
  AccountCacheOf g = first :: rest ->
  let s := account_scan AccountID first rest (Ticks g) in
  GetAccountSummary cfg clock AccountID g =
  match Entry s with
  | None =>
    '(Result, Account, c) ←
      Connection.GetAccountSummary cfg AccountID (g_QueryManagerConnection g);
    if Result =? 0 then
      Done (Result, Account,
            with_accounts g c
              (alter (fun e => TAccountCacheEntry.Build AccountID
                                 (TAccountCacheEntry.Result e) Account
                                 (clock (ScanTicks s)))
                     (LeastRecentlyUsedIndex s) (Slots s))
              (S (ScanTicks s)))
    else Done (Result, Account, with_accounts g c (Slots s) (ScanTicks s))
  | Some Index =>
    Done (0,
          default TAccountSummary.zero (TAccountCacheEntry.Data <$> Slots s !! Index),
          with_accounts g (g_QueryManagerConnection g)
            (alter (fun e => TAccountCacheEntry.Build
                               (TAccountCacheEntry.AccountID e)
                               (TAccountCacheEntry.Result e)
                               (TAccountCacheEntry.Data e)
                               (clock (ScanTicks s)))
                   Index (Slots s))
            (S (ScanTicks s)))
  end.
Proof.
  intros Hc s. unfold GetAccountSummary.
  assert (E : match g_AccountCache g with
              | Some cache => Done cache
              | None => make TAccountCacheEntry.zero (g_MaxCachedAccounts cfg)
              end = Done (first :: rest)).
  { unfold AccountCacheOf in Hc. destruct (g_AccountCache g); [now rewrite Hc|].
    unfold make. destruct (g_MaxCachedAccounts cfg <? 0) eqn:Hn; [|now rewrite Hc].
    apply Z.ltb_lt in Hn. rewrite Z2Nat.nonpos in Hc by lia. discriminate. }
  rewrite E, bind_Done. rewrite AccountScan_slot_scan. reflexivity.
Qed.

Lemma GetCharacterProfile_scan (CharacterName : list Z) (g : Globals)
      (first : TCharacterCacheEntry.t) (rest : list TCharacterCacheEntry.t) :
  CharacterCacheOf g = first :: rest ->
  let s := character_scan CharacterName first rest (Ticks g) in
  GetCharacterProfile cfg clock EqualFold CharacterName g =
  match Entry s with
  | None =>
    '(Result, Character, c) ←
      Connection.GetCharacterProfile cfg CharacterName (g_QueryManagerConnection g);
    Done (Result, Character,
          with_characters g c
            (alter (fun _ => TCharacterCacheEntry.Build CharacterName Result Character
                               (clock (ScanTicks s)))
                   (LeastRecentlyUsedIndex s) (Slots s))
            (S (ScanTicks s)))
  | Some Index =>
    Done (default 0 (TCharacterCacheEntry.Result <$> Slots s !! Index),
          default TCharacterProfile.zero (TCharacterCacheEntry.Data <$> Slots s !! Index),
          with_characters g (g_QueryManagerConnection g)
            (alter (fun e => TCharacterCacheEntry.Build
                               (TCharacterCacheEntry.CharacterName e)
                               (TCharacterCacheEntry.Result e)
                               (TCharacterCacheEntry.Data e)
                               (clock (ScanTicks s)))
                   Index (Slots s))
            (S (ScanTicks s)))
  end.
Proof.
  intros Hc s. unfold GetCharacterProfile.
  assert (E : match g_CharacterCache g with
              | Some cache => Done cache
              | None => make TCharacterCacheEntry.zero (g_MaxCachedCharacters cfg)
              end = Done (first :: rest)).
  { unfold CharacterCacheOf in Hc. destruct (g_CharacterCache g); [now rewrite Hc|].
    unfold make. destruct (g_MaxCachedCharacters cfg <? 0) eqn:Hn; [|now rewrite Hc].
    apply Z.ltb_lt in Hn. rewrite Z2Nat.nonpos in Hc by lia. discriminate. }
  rewrite E, bind_Done. rewrite CharacterScan_slot_scan. reflexivity.
Qed.

End BoundedCaches.

Lemma alter_as_insert {A : Type} (f : A -> A) (l : list A) (i : nat) (x : A) :
  l !! i = Some x -> alter f i l = <[i := f x]> l.
Proof.
  revert i. induction l as [|y l IH]; intros [|i] H; simpl in *; try discriminate.
  - now injection H as ->.
  - f_equal. now apply IH.
Qed.

Section BoundedCacheSteps.

Variable cfg : Config.
Variable clock : nat -> Z.
Variable EqualFold : list Z -> list Z -> bool.

Local Abbreviation interval := (g_CharacterRefreshInterval cfg).
Local Abbreviation acc_swept := (account_swept cfg clock).
Local Abbreviation chr_swept := (character_swept cfg clock).
Local Abbreviation acc_scan := (account_scan cfg clock).
Local Abbreviation chr_scan := (character_scan cfg clock EqualFold).
Local Abbreviation chr_hit := (character_hit EqualFold).
Local Abbreviation acc_sweep :=
  (sweep _ TAccountCacheEntry.LastAccess TAccountCacheEntry.zero interval clock).
Local Abbreviation chr_sweep :=
  (sweep _ TCharacterCacheEntry.LastAccess TCharacterCacheEntry.zero interval clock).

(** A lookup that misses, in the account cache: the backend is asked,
    and a successful answer overwrites the eviction candidate [idx]. *)
Lemma GetAccountSummary_miss
      (AccountID : Z) (g : Globals) (first : TAccountCacheEntry.t)
      (rest : list TAccountCacheEntry.t) (Result : Z) (Account : TAccountSummary.t)
      (c : TQueryManagerConnection) :
  AccountCacheOf cfg g = first :: rest ->
  Forall (fun e => account_hit AccountID e = false)
         (acc_swept (Ticks g) (first :: rest)) ->
  Connection.GetAccountSummary cfg AccountID (g_QueryManagerConnection g) =
    Done (Result, Account, c) ->
  let slots := acc_swept (Ticks g) (first :: rest) in
  let after := (Ticks g + length (first :: rest))%nat in
  exists (idx : nat) (e : TAccountCacheEntry.t),
    slots !! idx = Some e /\
    (Forall (fun e => 0 <= TAccountCacheEntry.LastAccess e) (first :: rest) ->
     oldest_first _ TAccountCacheEntry.LastAccess slots idx) /\
    GetAccountSummary cfg clock AccountID g =
    Done (Result, Account,
          if Result =? 0 then
            with_accounts g c
              (<[idx := TAccountCacheEntry.Build AccountID
                          (TAccountCacheEntry.Result e) Account (clock after)]> slots)
              (S after)
          else with_accounts g c slots after).
Proof.
  intros Hc Hmiss HQ slots after.
  pose proof (slot_scan_miss_intro _ TAccountCacheEntry.LastAccess TAccountCacheEntry.zero
                (account_hit AccountID) interval clock (first :: rest) 0 0
                (TAccountCacheEntry.LastAccess first) (Ticks g) Hmiss) as Hm.
  destruct (slot_scan_miss _ _ _ _ _ _ _ _ _ _ _ Hm) as (HS & HT & _).
  set (s := acc_scan AccountID first rest (Ticks g)).
  change (Entry s = None) in Hm. change (Slots s = slots) in HS.
  change (ScanTicks s = after) in HT.
  assert (Hidx : exists e, slots !! LeastRecentlyUsedIndex s = Some e).
  { destruct (slot_scan_lru _ _ _ _ _ _ _ _ _ _ _ Hm)
      as [(E & _)|(j & x & E & Hj & _)];
      unfold s, account_scan, scan_all; rewrite E.
    - unfold slots, account_swept. rewrite swept_cons. simpl. eauto.
    - simpl. eauto. }
  destruct Hidx as [e He].
  exists (LeastRecentlyUsedIndex s), e. split; [assumption|]. split.
  - intros Hpos. now apply scan_all_lru.
  - rewrite (GetAccountSummary_scan cfg clock AccountID g first rest Hc). fold s.
    rewrite Hm, HQ, bind_Done, HS, HT.
    destruct (Result =? 0); [|reflexivity].
    now rewrite (alter_as_insert _ _ _ e He).
Qed.

(** A lookup that misses, in the character cache: the backend is asked,
    and its answer, whatever it is, overwrites the eviction candidate. *)
Lemma GetCharacterProfile_miss
      (CharacterName : list Z) (g : Globals) (first : TCharacterCacheEntry.t)
      (rest : list TCharacterCacheEntry.t) (Result : Z) (Character : TCharacterProfile.t)
      (c : TQueryManagerConnection) :
  CharacterCacheOf cfg g = first :: rest ->
  Forall (fun e => chr_hit CharacterName e = false)
         (chr_swept (Ticks g) (first :: rest)) ->
  Connection.GetCharacterProfile cfg CharacterName (g_QueryManagerConnection g) =
    Done (Result, Character, c) ->
  let slots := chr_swept (Ticks g) (first :: rest) in
  let after := (Ticks g + length (first :: rest))%nat in
  exists (idx : nat) (e : TCharacterCacheEntry.t),
    slots !! idx = Some e /\
    (Forall (fun e => 0 <= TCharacterCacheEntry.LastAccess e) (first :: rest) ->
     oldest_first _ TCharacterCacheEntry.LastAccess slots idx) /\
    GetCharacterProfile cfg clock EqualFold CharacterName g =
    Done (Result, Character,
          with_characters g c
            (<[idx := TCharacterCacheEntry.Build CharacterName Result Character
                        (clock after)]> slots)
            (S after)).
Proof.
  intros Hc Hmiss HQ slots after.
  pose proof (slot_scan_miss_intro _ TCharacterCacheEntry.LastAccess
                TCharacterCacheEntry.zero (chr_hit CharacterName) interval clock
                (first :: rest) 0 0 (TCharacterCacheEntry.LastAccess first) (Ticks g) Hmiss)
    as Hm.
  destruct (slot_scan_miss _ _ _ _ _ _ _ _ _ _ _ Hm) as (HS & HT & _).
  set (s := chr_scan CharacterName first rest (Ticks g)).
  change (Entry s = None) in Hm. change (Slots s = slots) in HS.
  change (ScanTicks s = after) in HT.
  assert (Hidx : exists e, slots !! LeastRecentlyUsedIndex s = Some e).
  { destruct (slot_scan_lru _ _ _ _ _ _ _ _ _ _ _ Hm)
      as [(E & _)|(j & x & E & Hj & _)];
      unfold s, character_scan, scan_all; rewrite E.
    - unfold slots, character_swept. rewrite swept_cons. simpl. eauto.
    - simpl. eauto. }
  destruct Hidx as [e He].
  exists (LeastRecentlyUsedIndex s), e. split; [assumption|]. split.
  - intros Hpos. now apply scan_all_lru.
  - rewrite (GetCharacterProfile_scan cfg clock EqualFold CharacterName g first rest Hc).
    fold s. rewrite Hm, HQ, bind_Done, HS, HT.
    now rewrite <- list_insert_alter.
Qed.

(** A lookup that finds its key in the slot after [pre]: the slot is
    answered from as the sweep left it, and the connection is not used. *)
Lemma GetAccountSummary_hit (AccountID : Z) (g : Globals)
      (pre : list TAccountCacheEntry.t) (e : TAccountCacheEntry.t)
      (post : list TAccountCacheEntry.t) :
  AccountCacheOf cfg g = pre ++ e :: post ->
  Forall (fun x => account_hit AccountID x = false) (acc_swept (Ticks g) pre) ->
  account_hit AccountID (acc_sweep (Ticks g + length pre) e) = true ->
  exists g',
    GetAccountSummary cfg clock AccountID g =
      Done (0, TAccountCacheEntry.Data (acc_sweep (Ticks g + length pre) e), g') /\
    g_QueryManagerConnection g' = g_QueryManagerConnection g.
Proof.
  intros Hc Hpre He.
  destruct (pre ++ e :: post) as [|first rest] eqn:Hsplit;
    [now destruct pre|].
  rewrite (GetAccountSummary_scan cfg clock AccountID g first rest Hc). cbv zeta.
  unfold account_scan, scan_all. rewrite <- Hsplit.
  destruct (slot_scan_finds _ TAccountCacheEntry.LastAccess TAccountCacheEntry.zero
              (account_hit AccountID) interval clock pre e post 0 0
              (TAccountCacheEntry.LastAccess first) (Ticks g) Hpre He)
    as (-> & -> & ->).
  rewrite list_lookup_middle by (simpl; now rewrite length_swept).
  eexists. split; reflexivity.
Qed.

Lemma GetCharacterProfile_hit (CharacterName : list Z) (g : Globals)
      (pre : list TCharacterCacheEntry.t) (e : TCharacterCacheEntry.t)
      (post : list TCharacterCacheEntry.t) :
  CharacterCacheOf cfg g = pre ++ e :: post ->
  Forall (fun x => chr_hit CharacterName x = false) (chr_swept (Ticks g) pre) ->
  chr_hit CharacterName (chr_sweep (Ticks g + length pre) e) = true ->
  exists g',
    GetCharacterProfile cfg clock EqualFold CharacterName g =
      Done (TCharacterCacheEntry.Result (chr_sweep (Ticks g + length pre) e),
            TCharacterCacheEntry.Data (chr_sweep (Ticks g + length pre) e), g') /\
    g_QueryManagerConnection g' = g_QueryManagerConnection g.
Proof.
  intros Hc Hpre He.
  destruct (pre ++ e :: post) as [|first rest] eqn:Hsplit;
    [now destruct pre|].
  rewrite (GetCharacterProfile_scan cfg clock EqualFold CharacterName g first rest Hc).
  cbv zeta. unfold character_scan, scan_all. rewrite <- Hsplit.
  destruct (slot_scan_finds _ TCharacterCacheEntry.LastAccess TCharacterCacheEntry.zero
              (chr_hit CharacterName) interval clock pre e post 0 0
              (TCharacterCacheEntry.LastAccess first) (Ticks g) Hpre He)
    as (-> & -> & ->).
  rewrite list_lookup_middle by (simpl; now rewrite length_swept).
  eexists. split; reflexivity.
Qed.

(** The slots in front of a slot that hold unexpired entries of other
    keys are left as they are by the scan, and do not match. *)
Lemma swept_live {T : Type} (last : T -> Z) (zero : T) (hit : T -> bool)
      (ticks : nat) (pre : list T) :
  (forall (j : nat) (x : T),
      pre !! j = Some x ->
      hit x = false /\ time.Since (clock (ticks + j)) (last x) < interval) ->
  Forall (fun x => hit x = false) (swept T last zero interval clock ticks pre).
Proof.
  intros H. apply Forall_lookup. intros j y Hy. rewrite lookup_swept in Hy.
  destruct (pre !! j) as [x|] eqn:Hx; [|discriminate]. injection Hy as <-.
  destruct (H j x Hx) as [Hh Hf]. unfold sweep.
  destruct (interval <=? _) eqn:E; [apply Z.leb_le in E; lia|assumption].
Qed.

(** *** The zero key (C9) *)

(** C9, as the code has it.  The zero-valued key matches an empty slot.
    Whenever an empty slot exists and every slot before it that carries
    the zero key is itself empty (in particular on the first access,
    which allocates only empty slots), [GetAccountSummary(0)] returns
    result 0 with the zero summary and [GetCharacterProfile("")] returns
    result 0 with the zero profile, the connection being left untouched:
    no backend query.  When the first slot that carries the zero key is
    an entry, the slots before it holding unexpired entries of other
    keys, the lookup is answered from that slot without a backend query
    either: with the stored result and data if the entry is unexpired at
    the clock reading of its visit, and with result 0 and the zero value
    if it has expired, the scan having emptied it first. *)
Theorem zero_key_answered_from_empty_slot :
  EqualFold [] [] = true ->
  (forall g pre post,
      AccountCacheOf cfg g = pre ++ TAccountCacheEntry.zero :: post ->
      (forall e, e ∈ pre -> TAccountCacheEntry.AccountID e = 0 ->
                 e = TAccountCacheEntry.zero) ->
      exists g',
        GetAccountSummary cfg clock 0 g = Done (0, TAccountSummary.zero, g') /\
        g_QueryManagerConnection g' = g_QueryManagerConnection g) /\
  (forall g pre post,
      CharacterCacheOf cfg g = pre ++ TCharacterCacheEntry.zero :: post ->
      (forall e, e ∈ pre -> EqualFold (TCharacterCacheEntry.CharacterName e) [] = true ->
                 e = TCharacterCacheEntry.zero) ->
      exists g',
        GetCharacterProfile cfg clock EqualFold [] g =
          Done (0, TCharacterProfile.zero, g') /\
        g_QueryManagerConnection g' = g_QueryManagerConnection g) /\
  (forall g,
      g_AccountCache g = None -> 0 < g_MaxCachedAccounts cfg ->
      exists g',
        GetAccountSummary cfg clock 0 g = Done (0, TAccountSummary.zero, g') /\
        g_QueryManagerConnection g' = g_QueryManagerConnection g) /\
  (forall g,
      g_CharacterCache g = None -> 0 < g_MaxCachedCharacters cfg ->
      exists g',
        GetCharacterProfile cfg clock EqualFold [] g =
          Done (0, TCharacterProfile.zero, g') /\
        g_QueryManagerConnection g' = g_QueryManagerConnection g) /\
  (forall g pre e post,
      AccountCacheOf cfg g = pre ++ e :: post ->
      TAccountCacheEntry.AccountID e = 0 ->
      (forall (j : nat) x,
          pre !! j = Some x ->
          TAccountCacheEntry.AccountID x <> 0 /\
          time.Since (clock (Ticks g + j)) (TAccountCacheEntry.LastAccess x) < interval) ->
      let expired :=
        interval <=? time.Since (clock (Ticks g + length pre))
                                (TAccountCacheEntry.LastAccess e) in
      exists g',
        GetAccountSummary cfg clock 0 g =
          Done (0,
                if expired then TAccountSummary.zero else TAccountCacheEntry.Data e,
                g') /\
        g_QueryManagerConnection g' = g_QueryManagerConnection g) /\
  (forall g pre e post,
      CharacterCacheOf cfg g = pre ++ e :: post ->
      EqualFold (TCharacterCacheEntry.CharacterName e) [] = true ->
      (forall (j : nat) x,
          pre !! j = Some x ->
          EqualFold (TCharacterCacheEntry.CharacterName x) [] = false /\
          time.Since (clock (Ticks g + j)) (TCharacterCacheEntry.LastAccess x) < interval) ->
      let expired :=
        interval <=? time.Since (clock (Ticks g + length pre))
                                (TCharacterCacheEntry.LastAccess e) in
      exists g',
        GetCharacterProfile cfg clock EqualFold [] g =
          Done (if expired then 0 else TCharacterCacheEntry.Result e,
                if expired then TCharacterProfile.zero else TCharacterCacheEntry.Data e,
                g') /\
        g_QueryManagerConnection g' = g_QueryManagerConnection g).
Proof.
  intros Hfold.
  assert (HA : forall g pre post,
      AccountCacheOf cfg g = pre ++ TAccountCacheEntry.zero :: post ->
      (forall e, e ∈ pre -> TAccountCacheEntry.AccountID e = 0 ->
                 e = TAccountCacheEntry.zero) ->
      exists g',
        GetAccountSummary cfg clock 0 g = Done (0, TAccountSummary.zero, g') /\
        g_QueryManagerConnection g' = g_QueryManagerConnection g).
  { intros g pre post Hc Hpre.
    destruct (pre ++ TAccountCacheEntry.zero :: post) as [|first rest] eqn:Hl;
      [destruct pre; discriminate|].
    rewrite (GetAccountSummary_scan cfg clock 0 g first rest Hc).
    destruct (scan_all_zero_hit _ TAccountCacheEntry.LastAccess TAccountCacheEntry.zero
                (account_hit 0) interval clock pre post 0 0
                (TAccountCacheEntry.LastAccess first) (Ticks g) eq_refl)
      as (j & e & HE & HS & He).
    rewrite Hl in HE, HS. change (0 + j)%nat with j in HE.
    cbv zeta. unfold account_scan, scan_all.
    rewrite HE, HS. simpl.
    assert (e = TAccountCacheEntry.zero) as ->.
    { destruct He as [He|[He Hh]]; [assumption|].
      apply Hpre; [assumption|]. now apply Z.eqb_eq in Hh. }
    eexists. split; reflexivity. }
  assert (HC : forall g pre post,
      CharacterCacheOf cfg g = pre ++ TCharacterCacheEntry.zero :: post ->
      (forall e, e ∈ pre -> EqualFold (TCharacterCacheEntry.CharacterName e) [] = true ->
                 e = TCharacterCacheEntry.zero) ->
      exists g',
        GetCharacterProfile cfg clock EqualFold [] g =
          Done (0, TCharacterProfile.zero, g') /\
        g_QueryManagerConnection g' = g_QueryManagerConnection g).
  { intros g pre post Hc Hpre.
    destruct (pre ++ TCharacterCacheEntry.zero :: post) as [|first rest] eqn:Hl;
      [destruct pre; discriminate|].
    rewrite (GetCharacterProfile_scan cfg clock EqualFold [] g first rest Hc).
    destruct (scan_all_zero_hit _ TCharacterCacheEntry.LastAccess TCharacterCacheEntry.zero
                (chr_hit []) interval clock pre post 0 0
                (TCharacterCacheEntry.LastAccess first) (Ticks g) Hfold)
      as (j & e & HE & HS & He).
    rewrite Hl in HE, HS. change (0 + j)%nat with j in HE.
    cbv zeta. unfold character_scan, scan_all.
    rewrite HE, HS. simpl.
    assert (e = TCharacterCacheEntry.zero) as ->.
    { destruct He as [He|[He Hh]]; [assumption|]. now apply Hpre. }
    eexists. split; reflexivity. }
  split; [exact HA|]. split; [exact HC|]. split.
  - intros g Hnil Hcap.
    apply (HA g [] (replicate (Z.to_nat (g_MaxCachedAccounts cfg) - 1)
                              TAccountCacheEntry.zero)).
    + unfold AccountCacheOf. rewrite Hnil. simpl.
      rewrite <- replicate_S. f_equal. lia.
    + intros e He. now apply elem_of_nil in He.
  - split; [|split].
    + intros g Hnil Hcap.
      apply (HC g [] (replicate (Z.to_nat (g_MaxCachedCharacters cfg) - 1)
                                TCharacterCacheEntry.zero)).
      * unfold CharacterCacheOf. rewrite Hnil. simpl.
        rewrite <- replicate_S. f_equal. lia.
      * intros e He. now apply elem_of_nil in He.
    + intros g pre e post Hc He Hpre expired.
      destruct (GetAccountSummary_hit 0 g pre e post Hc) as (g' & HG & Hconn).
      * unfold account_swept. apply swept_live. intros j x Hx.
        destruct (Hpre j x Hx) as [Hid Hf]. split; [|exact Hf].
        unfold account_hit. now apply Z.eqb_neq.
      * unfold sweep. fold expired. destruct expired; [reflexivity|].
        unfold account_hit. now apply Z.eqb_eq.
      * exists g'. split; [|exact Hconn]. rewrite HG. unfold sweep. fold expired.
        now destruct expired.
    + intros g pre e post Hc He Hpre expired.
      destruct (GetCharacterProfile_hit [] g pre e post Hc) as (g' & HG & Hconn).
      * unfold character_swept. apply swept_live. intros j x Hx.
        destruct (Hpre j x Hx) as [Hid Hf]. split; [exact Hid|exact Hf].
      * unfold sweep. fold expired. destruct expired; [exact Hfold|exact He].
      * exists g'. split; [|exact Hconn]. rewrite HG. unfold sweep. fold expired.
        now destruct expired.
Qed.

(** *** Negative lookups (C4) *)

(** After a lookup that missed and stored nothing, a lookup of the same
    key misses again: the sweep only empties slots, and an empty slot
    does not match a key other than the zero key. *)
Lemma account_miss_again (AccountID : Z) (t t' : nat)
      (slots : list TAccountCacheEntry.t) :
  AccountID <> 0 \/ acc_swept t' (acc_swept t slots) = acc_swept t slots ->
  Forall (fun e => account_hit AccountID e = false) (acc_swept t slots) ->
  Forall (fun e => account_hit AccountID e = false) (acc_swept t' (acc_swept t slots)).
Proof.
  intros [Hid|Hsame] Hmiss; [|now rewrite Hsame].
  apply swept_Forall; [|assumption].
  unfold account_hit. change (TAccountCacheEntry.AccountID TAccountCacheEntry.zero) with 0.
  apply Z.eqb_neq. lia.
Qed.

(** C4, as the code has it.  On a miss, [GetCharacterProfile] stores the
    backend outcome in the eviction slot whether it is a success or a
    failure, and [GetAccountSummary] stores an entry only when the
    backend result is 0.  A failed account lookup writes no entry: it
    leaves the account cache as the expiry sweep of its scan left it
    (unchanged when no slot had expired).  The next lookup of the same
    id then asks the backend again, if the id is not 0 or no slot
    expires in between. *)
Theorem negative_lookups_cached_for_characters_only :
  (forall CharacterName g first rest Result Character c,
      CharacterCacheOf cfg g = first :: rest ->
      Forall (fun e => chr_hit CharacterName e = false)
             (chr_swept (Ticks g) (first :: rest)) ->
      Connection.GetCharacterProfile cfg CharacterName (g_QueryManagerConnection g) =
        Done (Result, Character, c) ->
      let after := (Ticks g + length (first :: rest))%nat in
      exists idx,
        (idx < length (first :: rest))%nat /\
        GetCharacterProfile cfg clock EqualFold CharacterName g =
        Done (Result, Character,
              with_characters g c
                (<[idx := TCharacterCacheEntry.Build CharacterName Result Character
                            (clock after)]> (chr_swept (Ticks g) (first :: rest)))
                (S after))) /\
  (forall AccountID g first rest Result Account c,
      AccountCacheOf cfg g = first :: rest ->
      Forall (fun e => account_hit AccountID e = false)
             (acc_swept (Ticks g) (first :: rest)) ->
      Connection.GetAccountSummary cfg AccountID (g_QueryManagerConnection g) =
        Done (Result, Account, c) ->
      let slots := acc_swept (Ticks g) (first :: rest) in
      let after := (Ticks g + length (first :: rest))%nat in
      (Result = 0 ->
       exists idx e,
         slots !! idx = Some e /\
         GetAccountSummary cfg clock AccountID g =
         Done (Result, Account,
               with_accounts g c
                 (<[idx := TAccountCacheEntry.Build AccountID
                             (TAccountCacheEntry.Result e) Account (clock after)]> slots)
                 (S after))) /\
      (Result <> 0 ->
       GetAccountSummary cfg clock AccountID g =
         Done (Result, Account, with_accounts g c slots after) /\
       ((forall j e, (first :: rest) !! j = Some e ->
           e = TAccountCacheEntry.zero \/
           0 <= clock (Ticks g + j) - TAccountCacheEntry.LastAccess e < interval) ->
        slots = first :: rest) /\
       (AccountID <> 0 \/ acc_swept after slots = slots ->
        forall Result2 Account2 c2,
          Connection.GetAccountSummary cfg AccountID c = Done (Result2, Account2, c2) ->
          exists g'',
            GetAccountSummary cfg clock AccountID (with_accounts g c slots after) =
              Done (Result2, Account2, g'') /\
            g_QueryManagerConnection g'' = c2 /\
            exists op ops, Trace c2 = Trace c ++ op :: ops))).
Proof.
  split.
  - intros CharacterName g first rest Result Character c Hc Hmiss HQ after.
    destruct (GetCharacterProfile_miss CharacterName g first rest Result Character c
                Hc Hmiss HQ) as (idx & e & He & _ & HG).
    exists idx. split; [|exact HG].
    apply lookup_lt_Some in He. unfold character_swept in He.
    now rewrite length_swept in He.
  - intros AccountID g first rest Result Account c Hc Hmiss HQ slots after.
    destruct (GetAccountSummary_miss AccountID g first rest Result Account c
                Hc Hmiss HQ) as (idx & e & He & _ & HG).
    fold slots after in HG, He. split.
    + intros ->. exists idx, e. split; [exact He|exact HG].
    + intros HR. apply Z.eqb_neq in HR. rewrite HR in HG.
      split; [exact HG|]. split.
      * intros Hfresh. now apply swept_id.
      * intros Hagain Result2 Account2 c2 HQ2.
        assert (Hlen : length slots = length (first :: rest))
          by (unfold slots, account_swept; apply length_swept).
        destruct slots as [|first' rest'] eqn:Hs; [discriminate|].
        destruct (GetAccountSummary_miss AccountID
                    (with_accounts g c (first' :: rest') after) first' rest'
                    Result2 Account2 c2 eq_refl)
          as (idx' & e' & _ & _ & HG').
        -- simpl Ticks. rewrite <- Hs.
           apply account_miss_again; [|exact Hmiss].
           destruct Hagain as [Hid|Hsame]; [now left|right].
           now rewrite <- Hs in Hsame.
        -- exact HQ2.
        -- rewrite HG'. eexists. split; [reflexivity|]. split.
           ++ destruct (Result2 =? 0); reflexivity.
           ++ exact (Connection_GetAccountSummary_contacts cfg AccountID c c2
                       Result2 Account2 HQ2).
Qed.

(** *** The eviction candidate (C5) *)

(** The stamps of the slots are not before the zero [Time]. *)
Definition account_stamps_ok (slots : list TAccountCacheEntry.t) : Prop :=
  Forall (fun e => 0 <= TAccountCacheEntry.LastAccess e) slots.

Definition character_stamps_ok (slots : list TCharacterCacheEntry.t) : Prop :=
  Forall (fun e => 0 <= TCharacterCacheEntry.LastAccess e) slots.

(** A sequence of calls of [GetCharacterProfile]. *)
Fixpoint GetCharacterProfiles (names : list (list Z)) (g : Globals) : outcome Globals :=
  match names with
  | [] => Done g
  | CharacterName :: names =>
    '(_, _, g) ← GetCharacterProfile cfg clock EqualFold CharacterName g;
    GetCharacterProfiles names g
  end.

(** A sequence of calls of [GetAccountSummary], with their results. *)
Fixpoint GetAccountSummaries (ids : list Z) (g : Globals) : outcome (list Z * Globals) :=
  match ids with
  | [] => Done ([], g)
  | AccountID :: ids =>
    '(Result, _, g) ← GetAccountSummary cfg clock AccountID g;
    '(Results, g) ← GetAccountSummaries ids g;
    Done (Result :: Results, g)
  end.

(** The keys are pairwise distinct for the test of the scan, each one
    against the later ones, and none matches the key of an empty slot. *)
Definition distinct_names (names : list (list Z)) : Prop :=
  StronglySorted (fun a b => EqualFold a b = false) names /\
  Forall (fun n => EqualFold [] n = false) names.

Definition distinct_ids (ids : list Z) : Prop :=
  StronglySorted (fun a b => (a =? b) = false) ids /\
  Forall (fun n => (0 =? n) = false) ids.

Local Abbreviation chr_filled N :=
  (filled_with TCharacterCacheEntry.t (list Z) TCharacterCacheEntry.LastAccess
               TCharacterCacheEntry.zero TCharacterCacheEntry.CharacterName clock N).
Local Abbreviation acc_filled N :=
  (filled_with TAccountCacheEntry.t Z TAccountCacheEntry.LastAccess
               TAccountCacheEntry.zero TAccountCacheEntry.AccountID clock N).

(** One lookup of a new name in the window, on slots filled in order. *)
Lemma GetCharacterProfile_fill
      (N T0 Tmax : nat) (ks : list (list Z)) (n : list Z) (g : Globals) :
  window interval clock T0 Tmax ->
  (T0 <= Ticks g)%nat -> (Ticks g + N < Tmax)%nat ->
  chr_filled N T0 (Ticks g) ks (CharacterCacheOf cfg g) ->
  (0 < N)%nat ->
  Forall (fun k => EqualFold k n = false) ks ->
  EqualFold [] n = false ->
  exists idx Result Character c,
    oldest_first _ TCharacterCacheEntry.LastAccess (CharacterCacheOf cfg g) idx /\
    GetCharacterProfile cfg clock EqualFold n g =
    Done (Result, Character,
          with_characters g c
            (<[idx := TCharacterCacheEntry.Build n Result Character
                        (clock (Ticks g + N))]> (CharacterCacheOf cfg g))
            (S (Ticks g + N))).
Proof.
  intros Hw HT0 Ht Hinv HN Hks Hz.
  pose proof (filled_with_length _ _ _ _ _ _ _ _ _ _ _ Hinv) as Hlen.
  destruct (filled_with_fresh _ _ _ _ _ interval _ N eq_refl T0 (Ticks g) Tmax ks _ Hw
              ltac:(lia) Hinv) as [Hsw Hpos].
  pose proof (filled_with_miss _ _ _ _ _ EqualFold _ _ _ _ _ _ n Hinv Hks Hz) as Hmiss.
  destruct (CharacterCacheOf cfg g) as [|first rest] eqn:Hc; [simpl in Hlen; lia|].
  destruct (Connection_GetCharacterProfile_returns cfg n (g_QueryManagerConnection g))
    as (R & Ch & c & HQ).
  destruct (GetCharacterProfile_miss n g first rest R Ch c Hc) as (idx & e & _ & Hold & HG).
  - unfold character_swept. rewrite Hsw. exact Hmiss.
  - exact HQ.
  - unfold character_swept in *. rewrite Hsw, Hlen in *.
    exists idx, R, Ch, c. split; [now apply Hold|exact HG].
Qed.

(** The first lookups fill the slots in order. *)
Lemma GetCharacterProfiles_fill (N T0 Tmax : nat) (names : list (list Z)) :
  forall (ks : list (list Z)) (g : Globals),
    window interval clock T0 Tmax ->
    (T0 <= Ticks g)%nat -> (Ticks g + length names * S N <= Tmax)%nat ->
    chr_filled N T0 (Ticks g) ks (CharacterCacheOf cfg g) ->
    (length ks + length names <= N)%nat ->
    distinct_names (ks ++ names) ->
    exists g',
      GetCharacterProfiles names g = Done g' /\
      chr_filled N T0 (Ticks g') (ks ++ names) (CharacterCacheOf cfg g') /\
      Ticks g' = (Ticks g + length names * S N)%nat /\
      (names <> [] -> g_CharacterCache g' = Some (CharacterCacheOf cfg g')).
Proof.
  induction names as [|n names IH]; intros ks g Hw HT0 Ht Hinv Hlen [Hd Hz].
  - exists g. rewrite app_nil_r. simpl. repeat split; [assumption|lia|congruence].
  - simpl length in *.
    assert (Hks : Forall (fun k => EqualFold k n = false) ks).
    { apply StronglySorted_app in Hd as (Hd & _ & _).
      apply Forall_forall. intros k Hk. apply Hd; [assumption|apply list_elem_of_here]. }
    assert (Hzn : EqualFold [] n = false).
    { apply Forall_app in Hz as [_ Hz]. now inversion Hz. }
    destruct (GetCharacterProfile_fill N T0 Tmax ks n g Hw HT0 ltac:(lia) Hinv
                ltac:(lia) Hks Hzn) as (idx & R & Ch & c & Hold & HG).
    destruct (filled_with_insert _ _ _ _ _ interval _ N eq_refl T0 (Ticks g) Tmax ks _ idx
                (TCharacterCacheEntry.Build n R Ch (clock (Ticks g + N)))
                Hw HT0 ltac:(lia) Hinv ltac:(lia) Hold eq_refl) as [_ Hinv'].
    simpl TCharacterCacheEntry.CharacterName in Hinv'.
    set (g1 := with_characters g c _ _) in HG.
    destruct (IH (ks ++ [n]) g1 Hw) as (g' & Hrun & Hinv'' & Hticks & Hsome).
    + simpl. lia.
    + simpl. lia.
    + exact Hinv'.
    + rewrite length_app. simpl. lia.
    + rewrite <- app_assoc. simpl. split; assumption.
    + exists g'. simpl. rewrite HG, bind_Done.
      split; [exact Hrun|]. rewrite <- app_assoc in Hinv''. simpl in Hinv''.
      split; [exact Hinv''|]. split; [rewrite Hticks; simpl; lia|].
      intros _.
      destruct names as [|n' names'].
      * simpl in Hrun. injection Hrun as <-. reflexivity.
      * apply Hsome. discriminate.
Qed.

(** One lookup of a new id in the window, on slots filled in order. *)
Lemma GetAccountSummary_fill
      (N T0 Tmax : nat) (ks : list Z) (n : Z) (g : Globals) :
  window interval clock T0 Tmax ->
  (T0 <= Ticks g)%nat -> (Ticks g + N < Tmax)%nat ->
  acc_filled N T0 (Ticks g) ks (AccountCacheOf cfg g) ->
  (0 < N)%nat ->
  Forall (fun k => (k =? n) = false) ks ->
  (0 =? n) = false ->
  exists idx e Result Account c,
    oldest_first _ TAccountCacheEntry.LastAccess (AccountCacheOf cfg g) idx /\
    AccountCacheOf cfg g !! idx = Some e /\
    GetAccountSummary cfg clock n g =
    Done (Result, Account,
          if Result =? 0 then
            with_accounts g c
              (<[idx := TAccountCacheEntry.Build n (TAccountCacheEntry.Result e) Account
                          (clock (Ticks g + N))]> (AccountCacheOf cfg g))
              (S (Ticks g + N))
          else with_accounts g c (AccountCacheOf cfg g) (Ticks g + N)).
Proof.
  intros Hw HT0 Ht Hinv HN Hks Hz.
  pose proof (filled_with_length _ _ _ _ _ _ _ _ _ _ _ Hinv) as Hlen.
  destruct (filled_with_fresh _ _ _ _ _ interval _ N eq_refl T0 (Ticks g) Tmax ks _ Hw
              ltac:(lia) Hinv) as [Hsw Hpos].
  pose proof (filled_with_miss _ _ _ _ _ Z.eqb _ _ _ _ _ _ n Hinv Hks Hz) as Hmiss.
  destruct (AccountCacheOf cfg g) as [|first rest] eqn:Hc; [simpl in Hlen; lia|].
  destruct (Connection_GetAccountSummary_returns cfg n (g_QueryManagerConnection g))
    as (R & A & c & HQ).
  destruct (GetAccountSummary_miss n g first rest R A c Hc) as (idx & e & He & Hold & HG).
  - unfold account_swept. rewrite Hsw. exact Hmiss.
  - exact HQ.
  - unfold account_swept in *. rewrite Hsw, Hlen in *.
    exists idx, e, R, A, c. split; [now apply Hold|]. split; [exact He|exact HG].
Qed.

(** The first lookups, when the backend answers them all with result 0,
    fill the slots in order. *)
Lemma GetAccountSummaries_fill (N T0 Tmax : nat) (ids : list Z) :
  forall (ks : list Z) (g : Globals) (Results : list Z) (g' : Globals),
    window interval clock T0 Tmax ->
    (T0 <= Ticks g)%nat -> (Ticks g + length ids * S N <= Tmax)%nat ->
    acc_filled N T0 (Ticks g) ks (AccountCacheOf cfg g) ->
    (length ks + length ids <= N)%nat ->
    distinct_ids (ks ++ ids) ->
    GetAccountSummaries ids g = Done (Results, g') ->
    Forall (fun r => r = 0) Results ->
    acc_filled N T0 (Ticks g') (ks ++ ids) (AccountCacheOf cfg g') /\
    Ticks g' = (Ticks g + length ids * S N)%nat /\
    (ids <> [] -> g_AccountCache g' = Some (AccountCacheOf cfg g')).
Proof.
  induction ids as [|n ids IH]; intros ks g Results g' Hw HT0 Ht Hinv Hlen [Hd Hz] Hrun Hres.
  - simpl in Hrun. injection Hrun as <- <-. rewrite app_nil_r. simpl.
    repeat split; [assumption|lia|congruence].
  - simpl length in *.
    assert (Hks : Forall (fun k => (k =? n) = false) ks).
    { apply StronglySorted_app in Hd as (Hd & _ & _).
      apply Forall_forall. intros k Hk. apply Hd; [assumption|apply list_elem_of_here]. }
    assert (Hzn : (0 =? n) = false).
    { apply Forall_app in Hz as [_ Hz]. now inversion Hz. }
    destruct (GetAccountSummary_fill N T0 Tmax ks n g Hw HT0 ltac:(lia) Hinv
                ltac:(lia) Hks Hzn) as (idx & e & R & A & c & Hold & He & HG).
    simpl in Hrun. rewrite HG, bind_Done in Hrun.
    set (g1 := if R =? 0 then _ else _) in Hrun.
    destruct (GetAccountSummaries ids g1) as [[rs g2]| |] eqn:Hrest; try discriminate.
    rewrite bind_Done in Hrun. injection Hrun as <- <-.
    inversion Hres as [|? ? HR Hres']; subst.
    change (0 =? 0) with true in g1. cbv iota in g1.
    destruct (filled_with_insert _ _ _ _ _ interval _ N eq_refl T0 (Ticks g) Tmax ks _ idx
                (TAccountCacheEntry.Build n (TAccountCacheEntry.Result e) A
                                          (clock (Ticks g + N)))
                Hw HT0 ltac:(lia) Hinv ltac:(lia) Hold eq_refl) as [_ Hinv'].
    simpl TAccountCacheEntry.AccountID in Hinv'.
    destruct (IH (ks ++ [n]) g1 rs g2 Hw) as (Hinv'' & Hticks & Hsome).
    + simpl. lia.
    + simpl. lia.
    + exact Hinv'.
    + rewrite length_app. simpl. lia.
    + rewrite <- app_assoc. simpl. split; assumption.
    + exact Hrest.
    + exact Hres'.
    + rewrite <- app_assoc in Hinv''. simpl in Hinv''.
      split; [exact Hinv''|]. split; [rewrite Hticks; simpl; lia|].
      intros _. destruct ids as [|n' ids'].
      * simpl in Hrest. injection Hrest as _ <-. reflexivity.
      * apply Hsome. discriminate.
Qed.

(** C5.  Every insertion after a miss overwrites the first, in scan
    order, of the slots whose last-access stamp is oldest once the scan
    has swept them; an empty slot has the zero stamp, the oldest there is,
    so the first empty slot goes first.  In particular, after N+1 misses
    on distinct keys at strictly increasing clock readings within the
    refresh interval, from an unallocated cache of capacity N: the first
    N lookups fill the N slots in order, and the lookup number N+1
    overwrites slot 0, which holds the key looked up first and the oldest
    stamp.  (For the account cache an insertion takes a backend result
    of 0.) *)
Theorem eviction_selects_oldest_slot :
  (forall CharacterName g first rest Result Character c,
      CharacterCacheOf cfg g = first :: rest ->
      character_stamps_ok (first :: rest) ->
      Forall (fun e => chr_hit CharacterName e = false)
             (chr_swept (Ticks g) (first :: rest)) ->
      Connection.GetCharacterProfile cfg CharacterName (g_QueryManagerConnection g) =
        Done (Result, Character, c) ->
      let slots := chr_swept (Ticks g) (first :: rest) in
      exists idx new g',
        oldest_first _ TCharacterCacheEntry.LastAccess slots idx /\
        (forall j, slots !! j = Some TCharacterCacheEntry.zero -> (idx <= j)%nat) /\
        GetCharacterProfile cfg clock EqualFold CharacterName g =
          Done (Result, Character, g') /\
        g_CharacterCache g' = Some (<[idx := new]> slots) /\
        TCharacterCacheEntry.CharacterName new = CharacterName) /\
  (forall AccountID g first rest Account c,
      AccountCacheOf cfg g = first :: rest ->
      account_stamps_ok (first :: rest) ->
      Forall (fun e => account_hit AccountID e = false)
             (acc_swept (Ticks g) (first :: rest)) ->
      Connection.GetAccountSummary cfg AccountID (g_QueryManagerConnection g) =
        Done (0, Account, c) ->
      let slots := acc_swept (Ticks g) (first :: rest) in
      exists idx new g',
        oldest_first _ TAccountCacheEntry.LastAccess slots idx /\
        (forall j, slots !! j = Some TAccountCacheEntry.zero -> (idx <= j)%nat) /\
        GetAccountSummary cfg clock AccountID g = Done (0, Account, g') /\
        g_AccountCache g' = Some (<[idx := new]> slots) /\
        TAccountCacheEntry.AccountID new = AccountID) /\
  (forall (N : nat) g names name,
      g_CharacterCache g = None ->
      g_MaxCachedCharacters cfg = Z.of_nat N -> (0 < N)%nat ->
      length names = N ->
      distinct_names (names ++ [name]) ->
      window interval clock (Ticks g) (Ticks g + S N * S N) ->
      exists gN slots Result Character new g',
        GetCharacterProfiles names g = Done gN /\
        g_CharacterCache gN = Some slots /\
        TCharacterCacheEntry.CharacterName <$> slots = names /\
        oldest_first _ TCharacterCacheEntry.LastAccess slots 0 /\
        GetCharacterProfile cfg clock EqualFold name gN = Done (Result, Character, g') /\
        g_CharacterCache g' = Some (<[0%nat := new]> slots) /\
        TCharacterCacheEntry.CharacterName new = name) /\
  (forall (N : nat) g ids id Results gN Account g',
      g_AccountCache g = None ->
      g_MaxCachedAccounts cfg = Z.of_nat N -> (0 < N)%nat ->
      length ids = N ->
      distinct_ids (ids ++ [id]) ->
      window interval clock (Ticks g) (Ticks g + S N * S N) ->
      GetAccountSummaries ids g = Done (Results, gN) ->
      Forall (fun r => r = 0) Results ->
      GetAccountSummary cfg clock id gN = Done (0, Account, g') ->
      exists slots new,
        g_AccountCache gN = Some slots /\
        TAccountCacheEntry.AccountID <$> slots = ids /\
        oldest_first _ TAccountCacheEntry.LastAccess slots 0 /\
        g_AccountCache g' = Some (<[0%nat := new]> slots) /\
        TAccountCacheEntry.AccountID new = id).
Proof.
  split; [|split; [|split]].
  - intros CharacterName g first rest Result Character c Hc Hst Hmiss HQ slots.
    destruct (GetCharacterProfile_miss CharacterName g first rest Result Character c
                Hc Hmiss HQ) as (idx & e & He & Hold & HG).
    specialize (Hold Hst). fold slots in Hold, HG.
    eexists idx, _, _. split; [exact Hold|]. split; [|split; [exact HG|split; reflexivity]].
    intros j Hj. apply (oldest_first_zero _ TCharacterCacheEntry.LastAccess
                          TCharacterCacheEntry.zero slots idx j eq_refl); try assumption.
    apply swept_Forall; [exact (Z.le_refl 0)|exact Hst].
  - intros AccountID g first rest Account c Hc Hst Hmiss HQ slots.
    destruct (GetAccountSummary_miss AccountID g first rest 0 Account c
                Hc Hmiss HQ) as (idx & e & He & Hold & HG).
    specialize (Hold Hst). fold slots in Hold, HG.
    change (0 =? 0) with true in HG. cbv iota in HG.
    eexists idx, _, _. split; [exact Hold|]. split; [|split; [exact HG|split; reflexivity]].
    intros j Hj. apply (oldest_first_zero _ TAccountCacheEntry.LastAccess
                          TAccountCacheEntry.zero slots idx j eq_refl); try assumption.
    apply swept_Forall; [exact (Z.le_refl 0)|exact Hst].
  - intros N g names name Hnil Hcap HN Hlen [Hd Hz] Hw.
    pose proof (Nat.mul_succ_l N (S N)) as Hmul.
    assert (Hc0 : CharacterCacheOf cfg g = replicate N TCharacterCacheEntry.zero).
    { unfold CharacterCacheOf. rewrite Hnil, Hcap, Nat2Z.id. reflexivity. }
    assert (Hinv0 : chr_filled N (Ticks g) (Ticks g) [] (CharacterCacheOf cfg g)).
    { exists []. rewrite Hc0. simpl. rewrite Nat.sub_0_r.
      repeat split; try constructor. lia. }
    apply StronglySorted_app in Hd as (Hlast & Hd & _).
    apply Forall_app in Hz as [Hz Hzl].
    destruct (GetCharacterProfiles_fill N (Ticks g) (Ticks g + S N * S N) names [] g Hw
                ltac:(lia) ltac:(lia) Hinv0 ltac:(simpl; lia) (conj Hd Hz))
      as (gN & Hrun & Hinv & Hticks & Hsome).
    simpl app in Hinv.
    destruct (GetCharacterProfile_fill N (Ticks g) (Ticks g + S N * S N) names name gN Hw
                ltac:(lia) ltac:(lia) Hinv HN)
      as (idx & R & Ch & c & Hold & HG).
    { apply Forall_forall. intros k Hk. apply Hlast; [assumption|apply list_elem_of_here]. }
    { now inversion Hzl. }
    destruct (filled_with_full _ _ _ _ _ _ _ _ _ _ _ idx Hinv Hlen HN Hold) as [-> Hkeys].
    exists gN, (CharacterCacheOf cfg gN), R, Ch.
    eexists _, _. split; [exact Hrun|]. split.
    { apply Hsome. intros ->. simpl in Hlen. lia. }
    split; [exact Hkeys|]. split; [exact Hold|].
    split; [exact HG|]. split; reflexivity.
  - intros N g ids id Results gN Account g' Hnil Hcap HN Hlen [Hd Hz] Hw Hrun Hres HG'.
    pose proof (Nat.mul_succ_l N (S N)) as Hmul.
    assert (Hc0 : AccountCacheOf cfg g = replicate N TAccountCacheEntry.zero).
    { unfold AccountCacheOf. rewrite Hnil, Hcap, Nat2Z.id. reflexivity. }
    assert (Hinv0 : acc_filled N (Ticks g) (Ticks g) [] (AccountCacheOf cfg g)).
    { exists []. rewrite Hc0. simpl. rewrite Nat.sub_0_r.
      repeat split; try constructor. lia. }
    apply StronglySorted_app in Hd as (Hlast & Hd & _).
    apply Forall_app in Hz as [Hz Hzl].
    destruct (GetAccountSummaries_fill N (Ticks g) (Ticks g + S N * S N) ids [] g
                Results gN Hw ltac:(lia) ltac:(lia) Hinv0 ltac:(simpl; lia)
                (conj Hd Hz) Hrun Hres)
      as (Hinv & Hticks & Hsome).
    simpl app in Hinv.
    destruct (GetAccountSummary_fill N (Ticks g) (Ticks g + S N * S N) ids id gN Hw
                ltac:(lia) ltac:(lia) Hinv HN)
      as (idx & e & R & A & c & Hold & He & HG).
    { apply Forall_forall. intros k Hk. apply Hlast; [assumption|apply list_elem_of_here]. }
    { now inversion Hzl. }
    destruct (filled_with_full _ _ _ _ _ _ _ _ _ _ _ idx Hinv Hlen HN Hold) as [-> Hkeys].
    rewrite HG in HG'. injection HG' as -> -> <-.
    change (0 =? 0) with true. cbv iota.
    exists (AccountCacheOf cfg gN). eexists. split.
    { apply Hsome. intros ->. simpl in Hlen. lia. }
    split; [exact Hkeys|]. split; [exact Hold|]. split; reflexivity.
Qed.

End BoundedCacheSteps.

(** *** The properties on concrete runs *)

Lemma zero_key_answered_from_empty_slot_witness :
  exists g',
    GetAccountSummary example_cfg example_clock 0 (start (connected [])) =
      Done (0, TAccountSummary.zero, g') /\
    g_QueryManagerConnection g' = connected [].
Proof.
  destruct (zero_key_answered_from_empty_slot example_cfg example_clock ASCII_EqualFold
              ltac:(reflexivity)) as (_ & _ & H & _).
  apply (H (start (connected []))); [reflexivity|vm_compute; reflexivity].
Defined.

(** C9, as stated, fails.  Two account slots: the lookups of 5 and 6 fill
    them, the lookup of 0 then misses, is answered by the backend and
    overwrites slot 0; invalidating 6 empties slot 1.  An empty slot now
    exists, and the lookup of 0 is answered from slot 0 with the stored
    summary, which is not the zero summary.  The same with three
    character slots and the name "": it is looked up on a full cache and
    cached as "not found"; when a slot behind it has expired and was
    emptied by a scan, the lookup of "" still returns result 1. *)
Lemma zero_key_live_entry_precedes_empty_slot :
  (exists g Account g',
      ('(_, _, g) ← GetAccountSummary example_cfg example_clock 5
                      (start (connected (summary_exchange 97 ++ summary_exchange 98
                                           ++ summary_exchange 120)));
       '(_, _, g) ← GetAccountSummary example_cfg example_clock 6 g;
       '(_, _, g) ← GetAccountSummary example_cfg example_clock 0 g;
       Done (InvalidateAccountCachedData 6 g)) = Done g /\
      AccountCacheOf example_cfg g !! 1%nat = Some TAccountCacheEntry.zero /\
      GetAccountSummary example_cfg example_clock 0 g = Done (0, Account, g') /\
      TAccountSummary.Email Account = [120] /\
      g_QueryManagerConnection g' = g_QueryManagerConnection g) /\
  (let clock := fun k : nat =>
                  if (k <? 8)%nat then 5000 + Z.of_nat k
                  else if (k <? 12)%nat then 5500 + Z.of_nat k
                  else if (k <? 16)%nat then 5600 + Z.of_nat k
                  else 6100 + Z.of_nat k in
   exists g Character g',
      ('(_, _, g) ← GetCharacterProfile example_cfg clock ASCII_EqualFold [97]
                      (start (connected (not_found_exchange ++ not_found_exchange
                                           ++ not_found_exchange ++ not_found_exchange)));
       '(_, _, g) ← GetCharacterProfile example_cfg clock ASCII_EqualFold [98] g;
       '(_, _, g) ← GetCharacterProfile example_cfg clock ASCII_EqualFold [99] g;
       '(_, _, g) ← GetCharacterProfile example_cfg clock ASCII_EqualFold [] g;
       '(_, _, g) ← GetCharacterProfile example_cfg clock ASCII_EqualFold [99] g;
       Done g) = Done g /\
      CharacterCacheOf example_cfg g !! 1%nat = Some TCharacterCacheEntry.zero /\
      GetCharacterProfile example_cfg clock ASCII_EqualFold [] g =
        Done (1, Character, g') /\
      g_QueryManagerConnection g' = g_QueryManagerConnection g).
Proof.
  split.
  - do 3 eexists. split; [vm_compute; reflexivity|].
    split; [reflexivity|]. split; [vm_compute; reflexivity|].
    split; reflexivity.
  - intros clock. do 3 eexists. split; [vm_compute; reflexivity|].
    split; [reflexivity|]. split; [vm_compute; reflexivity|]. reflexivity.
Qed.

Lemma negative_lookups_cached_for_characters_only_witness :
  GetAccountSummary example_cfg example_clock 5 (start (disconnected [])) =
  Done (-1, TAccountSummary.zero,
        with_accounts (start (disconnected []))
          {| Handle := false; Net := []; Trace := [OpDial] |}
          [TAccountCacheEntry.zero; TAccountCacheEntry.zero] 2).
Proof.
  destruct (negative_lookups_cached_for_characters_only example_cfg example_clock
              ASCII_EqualFold) as [_ H].
  destruct (H 5 (start (disconnected [])) TAccountCacheEntry.zero [TAccountCacheEntry.zero]
              (-1) TAccountSummary.zero
              {| Handle := false; Net := []; Trace := [OpDial] |}
              ltac:(reflexivity)
              ltac:(repeat constructor)
              ltac:(vm_compute; reflexivity)) as [_ H'].
  exact (proj1 (H' ltac:(discriminate))).
Defined.

(** C4, as stated, fails, in two ways.  A failed account lookup changes
    the account cache when its scan meets an expired slot: the entry of
    account 7, last accessed at 100, is gone after the failed lookup of
    account 9 at 5000.  And after a failed lookup of account 0 the next
    lookup of 0 does not reach the backend once a slot has expired: it
    is answered from the emptied slot. *)
Lemma failed_account_lookup_changes_cache :
  (let entry := TAccountCacheEntry.Build 7 0 TAccountSummary.zero 100 in
   let g := with_accounts (start (disconnected [])) (disconnected [])
                          [entry; TAccountCacheEntry.zero] 0 in
   exists g',
     GetAccountSummary example_cfg example_clock 9 g =
       Done (-1, TAccountSummary.zero, g') /\
     g_AccountCache g = Some [entry; TAccountCacheEntry.zero] /\
     g_AccountCache g' = Some [TAccountCacheEntry.zero; TAccountCacheEntry.zero]) /\
  (let clock := fun k : nat => if (k <? 2)%nat then 5000 + Z.of_nat k
                               else 5600 + Z.of_nat k in
   let g := with_accounts (start (disconnected [])) (disconnected [])
                          [TAccountCacheEntry.Build 7 0 TAccountSummary.zero 4500;
                           TAccountCacheEntry.Build 8 0 TAccountSummary.zero 4600] 0 in
   exists g' g'',
     GetAccountSummary example_cfg clock 0 g = Done (-1, TAccountSummary.zero, g') /\
     g_AccountCache g' = g_AccountCache g /\
     GetAccountSummary example_cfg clock 0 g' = Done (0, TAccountSummary.zero, g'') /\
     g_QueryManagerConnection g'' = g_QueryManagerConnection g').
Proof.
  split.
  - intros entry g. eexists. split; [vm_compute; reflexivity|]. split; reflexivity.
  - intros clock g. do 2 eexists. split; [vm_compute; reflexivity|].
    split; [reflexivity|]. split; [vm_compute; reflexivity|reflexivity].
Qed.

Lemma eviction_selects_oldest_slot_witness :
  exists gN slots Result Character new g',
    GetCharacterProfiles example_cfg example_clock ASCII_EqualFold [[97]; [98]; [99]]
                         (start (connected [])) = Done gN /\
    g_CharacterCache gN = Some slots /\
    TCharacterCacheEntry.CharacterName <$> slots = [[97]; [98]; [99]] /\
    oldest_first _ TCharacterCacheEntry.LastAccess slots 0 /\
    GetCharacterProfile example_cfg example_clock ASCII_EqualFold [100] gN =
      Done (Result, Character, g') /\
    g_CharacterCache g' = Some (<[0%nat := new]> slots) /\
    TCharacterCacheEntry.CharacterName new = [100].
Proof.
  destruct (eviction_selects_oldest_slot example_cfg example_clock ASCII_EqualFold)
    as (_ & _ & H & _).
  apply (H 3%nat (start (connected [])) [[97]; [98]; [99]] [100]).
  - reflexivity.
  - reflexivity.
  - lia.
  - reflexivity.
  - split; repeat constructor.
  - unfold window, example_clock. simpl. repeat split; intros; lia.
Defined.

(** The run of the witness, evaluated: after the lookups of "a", "b" and
    "c" the three slots hold them in this order, and the lookup of "d"
    overwrites slot 0. *)
Example eviction_ex :
  (gN ← GetCharacterProfiles example_cfg example_clock ASCII_EqualFold [[97]; [98]; [99]]
          (start (connected []));
   '(_, _, g') ← GetCharacterProfile example_cfg example_clock ASCII_EqualFold [100] gN;
   Done (fmap (M := list) TCharacterCacheEntry.CharacterName <$> g_CharacterCache gN,
         fmap (M := list) TCharacterCacheEntry.CharacterName <$> g_CharacterCache g')) =
  Done (Some [[97]; [98]; [99]], Some [[100]; [98]; [99]]).
Proof. vm_compute. reflexivity. Qed.

(** An entry stored under the zero key that has expired: the scan
    empties it before the key test, and the lookup of 0 is answered with
    the zero summary; the same entry, still fresh, answers with its
    data. *)
Example GetAccountSummary_ex_zero_key_entry :
  let entry (stamp : Z) :=
    TAccountCacheEntry.Build 0 0 (TAccountSummary.Build 0 [120] 0 0 false []) stamp in
  let g (stamp : Z) :=
    with_accounts (start (connected [])) (connected [])
                  [entry stamp; TAccountCacheEntry.zero] 0 in
  (exists g',
      GetAccountSummary example_cfg example_clock 0 (g 100) =
        Done (0, TAccountSummary.zero, g') /\
      g_QueryManagerConnection g' = connected []) /\
  (exists g',
      GetAccountSummary example_cfg example_clock 0 (g 4500) =
        Done (0, TAccountSummary.Build 0 [120] 0 0 false [], g') /\
      g_QueryManagerConnection g' = connected []).
Proof. split; eexists; split; reflexivity. Qed.
(** ** The byte codec as a whole (common.go) *)

(** [Buffer[:Position]], the bytes written so far, and [Buffer[Position:]],
    the room that is left. *)
Definition written (wb : TWriteBuffer.t) : list Z :=
  take (Z.to_nat (TWriteBuffer.Position wb)) (TWriteBuffer.Buffer wb).

Definition unwritten (wb : TWriteBuffer.t) : list Z :=
  drop (Z.to_nat (TWriteBuffer.Position wb)) (TWriteBuffer.Buffer wb).

(** [wb'] is [wb] with [bytes] appended to what was written. *)
Definition appends (wb wb' : TWriteBuffer.t) (bytes : list Z) : Prop :=
  TWriteBuffer.Position wb' = TWriteBuffer.Position wb + Z.of_nat (length bytes) /\
  written wb' = written wb ++ bytes /\
  unwritten wb' = drop (length bytes) (unwritten wb) /\
  length (TWriteBuffer.Buffer wb') = length (TWriteBuffer.Buffer wb).

(** The calls a caller makes on a [TWriteBuffer], and a sequence of them. *)
Inductive write_op : Type :=
| Op8 (Value : Z)
| OpFlag (Value : bool)
| Op16 (Value : Z)
| Op16BE (Value : Z)
| Op32 (Value : Z)
| Op32BE (Value : Z)
| OpString (String : list Z)
| OpBytes (Bytes : list Z).

Definition apply_write (wb : TWriteBuffer.t) (op : write_op) : TWriteBuffer.t :=
  match op with
  | Op8 Value => TWriteBuffer.Write8 wb Value
  | OpFlag Value => TWriteBuffer.WriteFlag wb Value
  | Op16 Value => TWriteBuffer.Write16 wb Value
  | Op16BE Value => TWriteBuffer.Write16BE wb Value
  | Op32 Value => TWriteBuffer.Write32 wb Value
  | Op32BE Value => TWriteBuffer.Write32BE wb Value
  | OpString String => TWriteBuffer.WriteString wb String
  | OpBytes Bytes => TWriteBuffer.WriteBytes wb Bytes
  end.

(** The length prefix of a string of [Length] Latin-1 bytes. *)
Definition string_header (Length : Z) : list Z :=
  if Length <? 0xFFFF then LittleEndian_bytes16 (uint16 Length)
  else LittleEndian_bytes16 0xFFFF ++ LittleEndian_bytes32 (uint32 Length).

(** The bytes a call stores when they fit. *)
Definition encoding (op : write_op) : list Z :=
  match op with
  | Op8 Value => [Value]
  | OpFlag Value => [if Value then 1 else 0]
  | Op16 Value => LittleEndian_bytes16 Value
  | Op16BE Value => BigEndian_bytes16 Value
  | Op32 Value => LittleEndian_bytes32 Value
  | Op32BE Value => BigEndian_bytes32 Value
  | OpString String =>
    string_header (Z.of_nat (length (UTF8ToLatin1 String))) ++ UTF8ToLatin1 String
  | OpBytes Bytes => Bytes
  end.

Definition encodings (ops : list write_op) : list Z := concat (encoding <$> ops).

Lemma copy_at_fits (buf src : list Z) (off : nat) :
  (off + length src <= length buf)%nat ->
  copy_at buf off src = take off buf ++ src ++ drop (off + length src) buf.
Proof. intros H. unfold copy_at. now rewrite (take_ge src) by lia. Qed.

Lemma appends_nil (wb : TWriteBuffer.t) : appends wb wb [].
Proof.
  unfold appends. simpl. rewrite Z.add_0_r, app_nil_r. auto.
Qed.

Lemma appends_trans (wb wb1 wb2 : TWriteBuffer.t) (b1 b2 : list Z) :
  appends wb wb1 b1 -> appends wb1 wb2 b2 -> appends wb wb2 (b1 ++ b2).
Proof.
  intros (P1 & W1 & U1 & L1) (P2 & W2 & U2 & L2). unfold appends.
  rewrite P2, P1, W2, W1, U2, U1, L2, L1, length_app, drop_drop, <- app_assoc.
  repeat split; lia.
Qed.

Lemma put_appends (wb : TWriteBuffer.t) (bytes : list Z) :
  0 <= TWriteBuffer.Position wb ->
  TWriteBuffer.CanWrite wb (Z.of_nat (length bytes)) = true ->
  appends wb (TWriteBuffer.put wb true bytes (Z.of_nat (length bytes))) bytes.
Proof.
  intros Hpos Hcan. unfold TWriteBuffer.CanWrite in Hcan. apply Z.leb_le in Hcan.
  unfold appends, written, unwritten, TWriteBuffer.put.
  cbn [TWriteBuffer.Buffer TWriteBuffer.Position].
  set (p := TWriteBuffer.Position wb) in *.
  set (B := TWriteBuffer.Buffer wb) in *.
  assert (Hp : (Z.to_nat p + length bytes <= length B)%nat) by lia.
  rewrite copy_at_fits by assumption.
  assert (Hl : length (take (Z.to_nat p) B) = Z.to_nat p)
    by (rewrite length_take; lia).
  replace (Z.to_nat (p + Z.of_nat (length bytes)))
    with (Z.to_nat p + length bytes)%nat by lia.
  split; [reflexivity|]. split; [|split].
  - rewrite app_assoc, take_app_length'; [reflexivity|].
    rewrite length_app; lia.
  - rewrite app_assoc, drop_app_length' by (rewrite length_app; lia).
    now rewrite drop_drop.
  - rewrite !length_app, Hl, length_drop. lia.
Qed.

Lemma Write8_as_put (wb : TWriteBuffer.t) (Value : Z) :
  0 <= TWriteBuffer.Position wb ->
  TWriteBuffer.Write8 wb Value =
  TWriteBuffer.put wb (TWriteBuffer.CanWrite wb 1) [Value] 1.
Proof.
  intros Hpos. unfold TWriteBuffer.Write8, TWriteBuffer.put.
  destruct (TWriteBuffer.CanWrite wb 1) eqn:Hcan; [|reflexivity].
  unfold TWriteBuffer.CanWrite in Hcan. apply Z.leb_le in Hcan.
  f_equal. rewrite insert_take_drop by lia.
  rewrite copy_at_fits by (simpl; lia). simpl.
  now replace (Z.to_nat (TWriteBuffer.Position wb) + 1)%nat
    with (S (Z.to_nat (TWriteBuffer.Position wb))) by lia.
Qed.

Lemma put_length (wb : TWriteBuffer.t) (guard : bool) (bytes : list Z) (n : Z) :
  (guard = true ->
   (Z.to_nat (TWriteBuffer.Position wb) <= length (TWriteBuffer.Buffer wb))%nat) ->
  length (TWriteBuffer.Buffer (TWriteBuffer.put wb guard bytes n)) =
  length (TWriteBuffer.Buffer wb).
Proof.
  intros H. unfold TWriteBuffer.put. cbn [TWriteBuffer.Buffer].
  destruct guard; [|reflexivity]. apply length_copy_at. auto.
Qed.

Lemma CanWrite_in_range (wb : TWriteBuffer.t) (n : Z) :
  0 <= n -> TWriteBuffer.CanWrite wb n = true ->
  (Z.to_nat (TWriteBuffer.Position wb) <= length (TWriteBuffer.Buffer wb))%nat.
Proof.
  intros Hn Hcan. unfold TWriteBuffer.CanWrite in Hcan. apply Z.leb_le in Hcan. lia.
Qed.

Lemma length_string_header (Length : Z) :
  length (string_header Length) = if Length <? 0xFFFF then 2%nat else 6%nat.
Proof. unfold string_header. now destruct (Length <? 0xFFFF). Qed.

Lemma apply_write_Position (wb : TWriteBuffer.t) (op : write_op) :
  TWriteBuffer.Position (apply_write wb op) =
  TWriteBuffer.Position wb + Z.of_nat (length (encoding op)).
Proof.
  destruct op as [v|b|v|v|v|v|s|bs]; cbn [apply_write encoding]; try reflexivity.
  - unfold TWriteBuffer.WriteString. cbv zeta.
    rewrite put_Position, length_app, length_string_header.
    destruct (_ <? 0xFFFF); simpl; lia.
Qed.

Lemma apply_write_length (wb : TWriteBuffer.t) (op : write_op) :
  0 <= TWriteBuffer.Position wb ->
  length (TWriteBuffer.Buffer (apply_write wb op)) = length (TWriteBuffer.Buffer wb).
Proof.
  intros Hpos.
  assert (Hput : forall (wb : TWriteBuffer.t) (n : Z) (bytes : list Z) (m : Z),
             0 <= n ->
             length (TWriteBuffer.Buffer
                       (TWriteBuffer.put wb (TWriteBuffer.CanWrite wb n) bytes m)) =
             length (TWriteBuffer.Buffer wb)).
  { intros wb0 n bytes m Hn. apply put_length. now apply CanWrite_in_range. }
  destruct op as [v|b|v|v|v|v|s|bs]; cbn [apply_write];
    rewrite ?Write8_as_put by assumption;
    try (apply Hput; lia).
  - unfold TWriteBuffer.WriteFlag. rewrite Write8_as_put by assumption. apply Hput; lia.
  - unfold TWriteBuffer.WriteString. cbv zeta. rewrite Hput by lia.
    destruct (_ <? 0xFFFF).
    + apply Hput; lia.
    + unfold TWriteBuffer.Write32. rewrite Hput by lia. apply Hput; lia.
Qed.

Lemma CanWrite_put (wb : TWriteBuffer.t) (guard : bool) (bytes : list Z) (n m : Z) :
  (guard = true ->
   (Z.to_nat (TWriteBuffer.Position wb) <= length (TWriteBuffer.Buffer wb))%nat) ->
  TWriteBuffer.CanWrite (TWriteBuffer.put wb guard bytes n) m =
  TWriteBuffer.CanWrite wb (n + m).
Proof.
  intros H. unfold TWriteBuffer.CanWrite. rewrite put_length, put_Position by assumption.
  f_equal. lia.
Qed.

Lemma CanWrite_less (wb : TWriteBuffer.t) (n m : Z) :
  n <= m -> TWriteBuffer.CanWrite wb m = true -> TWriteBuffer.CanWrite wb n = true.
Proof.
  unfold TWriteBuffer.CanWrite. intros Hle Hm.
  apply Z.leb_le in Hm. apply Z.leb_le. lia.
Qed.

Lemma put_fits (wb : TWriteBuffer.t) (bytes : list Z) (n : Z) :
  0 <= TWriteBuffer.Position wb ->
  n = Z.of_nat (length bytes) ->
  TWriteBuffer.CanWrite wb n = true ->
  appends wb (TWriteBuffer.put wb (TWriteBuffer.CanWrite wb n) bytes n) bytes.
Proof. intros Hpos -> Hcan. rewrite Hcan. now apply put_appends. Qed.

Lemma apply_write_fits (wb : TWriteBuffer.t) (op : write_op) :
  0 <= TWriteBuffer.Position wb ->
  TWriteBuffer.CanWrite wb (Z.of_nat (length (encoding op))) = true ->
  appends wb (apply_write wb op) (encoding op).
Proof.
  intros Hpos Hcan.
  destruct op as [v|b|v|v|v|v|s|bs]; cbn [apply_write encoding] in *;
    rewrite ?Write8_as_put by assumption;
    try (now apply put_fits).
  - unfold TWriteBuffer.WriteFlag. rewrite Write8_as_put by assumption.
    now apply put_fits.
  - unfold TWriteBuffer.WriteString, string_header in *. cbv zeta.
    set (Output := UTF8ToLatin1 s) in *.
    rewrite length_app in Hcan.
    destruct (Z.of_nat (length Output) <? 0xFFFF) eqn:Hsmall.
    + assert (H2 : TWriteBuffer.CanWrite wb 2 = true)
        by (eapply CanWrite_less; [|exact Hcan]; simpl; lia).
      eapply appends_trans.
      * apply (put_fits wb (LittleEndian_bytes16 _) 2); auto.
      * apply put_fits.
        -- unfold TWriteBuffer.Write16. rewrite put_Position. lia.
        -- reflexivity.
        -- unfold TWriteBuffer.Write16. rewrite CanWrite_put
             by (intros _; eapply CanWrite_in_range; [|exact H2]; lia).
           eapply CanWrite_less; [|exact Hcan]. simpl. lia.
    + assert (H2 : TWriteBuffer.CanWrite wb 2 = true)
        by (eapply CanWrite_less; [|exact Hcan]; simpl; lia).
      assert (H6 : TWriteBuffer.CanWrite wb (2 + 4) = true)
        by (eapply CanWrite_less; [|exact Hcan]; simpl; lia).
      assert (H4 : TWriteBuffer.CanWrite (TWriteBuffer.Write16 wb 65535) 4 = true).
      { unfold TWriteBuffer.Write16. rewrite CanWrite_put; [exact H6|].
        intros _; eapply CanWrite_in_range; [|exact H2]; lia. }
      eapply appends_trans; [eapply appends_trans|].
      * apply (put_fits wb (LittleEndian_bytes16 _) 2); auto.
      * apply (put_fits _ (LittleEndian_bytes32 _) 4); auto.
        unfold TWriteBuffer.Write16. rewrite put_Position. lia.
      * apply put_fits.
        -- unfold TWriteBuffer.Write32, TWriteBuffer.Write16.
           rewrite !put_Position. lia.
        -- reflexivity.
        -- unfold TWriteBuffer.Write32. rewrite CanWrite_put
             by (intros _; eapply CanWrite_in_range; [|exact H4]; lia).
           unfold TWriteBuffer.Write16. rewrite CanWrite_put
             by (intros _; eapply CanWrite_in_range; [|exact H2]; lia).
           eapply CanWrite_less; [|exact Hcan]. simpl. lia.
Qed.

Lemma apply_write_overflows (wb : TWriteBuffer.t) (op : write_op) :
  0 <= TWriteBuffer.Position wb ->
  TWriteBuffer.CanWrite wb (Z.of_nat (length (encoding op))) = false ->
  TWriteBuffer.Overflowed (apply_write wb op) = true.
Proof.
  intros Hpos Hcan. unfold TWriteBuffer.Overflowed.
  rewrite apply_write_Position, apply_write_length by assumption.
  unfold TWriteBuffer.CanWrite in Hcan. apply Z.leb_gt in Hcan.
  apply Z.ltb_lt. lia.
Qed.

Lemma put_overflowed (wb : TWriteBuffer.t) (bytes : list Z) (n m : Z) :
  0 <= n -> TWriteBuffer.Overflowed wb = true ->
  TWriteBuffer.put wb (TWriteBuffer.CanWrite wb n) bytes m =
  {| TWriteBuffer.Buffer := TWriteBuffer.Buffer wb;
     TWriteBuffer.Position := TWriteBuffer.Position wb + m |}.
Proof.
  intros Hn Ho. unfold TWriteBuffer.Overflowed in Ho. apply Z.ltb_lt in Ho.
  assert (TWriteBuffer.CanWrite wb n = false) as ->
      by (unfold TWriteBuffer.CanWrite; apply Z.leb_gt; lia).
  reflexivity.
Qed.

Lemma apply_write_overflowed (wb : TWriteBuffer.t) (op : write_op) :
  0 <= TWriteBuffer.Position wb ->
  TWriteBuffer.Overflowed wb = true ->
  TWriteBuffer.Buffer (apply_write wb op) = TWriteBuffer.Buffer wb /\
  TWriteBuffer.Overflowed (apply_write wb op) = true.
Proof.
  intros Hpos Ho. split.
  - destruct op as [v|b|v|v|v|v|s|bs]; cbn [apply_write];
      unfold TWriteBuffer.WriteFlag; rewrite ?Write8_as_put by assumption;
      unfold TWriteBuffer.Write16, TWriteBuffer.Write16BE, TWriteBuffer.Write32,
             TWriteBuffer.Write32BE, TWriteBuffer.WriteBytes;
      try (now rewrite put_overflowed by (assumption || lia)).
    unfold TWriteBuffer.WriteString, TWriteBuffer.Write32, TWriteBuffer.Write16.
    cbv zeta. rewrite !(put_overflowed wb) by (assumption || lia).
    assert (Ho' : forall m, 0 <= m ->
               TWriteBuffer.Overflowed
                 {| TWriteBuffer.Buffer := TWriteBuffer.Buffer wb;
                    TWriteBuffer.Position := TWriteBuffer.Position wb + m |} = true).
    { intros m Hm. unfold TWriteBuffer.Overflowed in *. simpl.
      apply Z.ltb_lt in Ho. apply Z.ltb_lt. lia. }
    destruct (_ <? 0xFFFF).
    + rewrite put_overflowed by (try apply Ho'; lia). reflexivity.
    + rewrite (put_overflowed _ _ 4) by (try apply Ho'; lia).
      rewrite put_overflowed; [reflexivity|lia|].
      unfold TWriteBuffer.Overflowed in *. simpl.
      apply Z.ltb_lt in Ho. apply Z.ltb_lt. lia.
  - apply apply_write_overflows; [assumption|].
    unfold TWriteBuffer.Overflowed in Ho. apply Z.ltb_lt in Ho.
    unfold TWriteBuffer.CanWrite. apply Z.leb_gt. lia.
Qed.

Lemma apply_write_nonneg (wb : TWriteBuffer.t) (op : write_op) :
  0 <= TWriteBuffer.Position wb -> 0 <= TWriteBuffer.Position (apply_write wb op).
Proof. intros H. rewrite apply_write_Position. lia. Qed.

Lemma encodings_cons (op : write_op) (ops : list write_op) :
  encodings (op :: ops) = encoding op ++ encodings ops.
Proof. reflexivity. Qed.

Lemma Overflowed_CanWrite (wb wb' : TWriteBuffer.t) (n : Z) :
  TWriteBuffer.Position wb' = TWriteBuffer.Position wb + n ->
  length (TWriteBuffer.Buffer wb') = length (TWriteBuffer.Buffer wb) ->
  TWriteBuffer.Overflowed wb' = negb (TWriteBuffer.CanWrite wb n).
Proof.
  intros HP HL. unfold TWriteBuffer.Overflowed, TWriteBuffer.CanWrite.
  rewrite HP, HL. apply Z.ltb_antisym.
Qed.

(** The effect of a sequence of writes. *)
Lemma fold_apply_write (ops : list write_op) :
  forall wb : TWriteBuffer.t,
    0 <= TWriteBuffer.Position wb ->
    let wb' := fold_left apply_write ops wb in
    TWriteBuffer.Position wb' =
      TWriteBuffer.Position wb + Z.of_nat (length (encodings ops)) /\
    length (TWriteBuffer.Buffer wb') = length (TWriteBuffer.Buffer wb) /\
    TWriteBuffer.Overflowed wb' =
      negb (TWriteBuffer.CanWrite wb (Z.of_nat (length (encodings ops)))) /\
    (TWriteBuffer.Overflowed wb' = false -> appends wb wb' (encodings ops)).
Proof.
  induction ops as [|op ops IH]; intros wb Hpos wb'.
  - subst wb'. simpl. rewrite Z.add_0_r.
    split; [reflexivity|]. split; [reflexivity|]. split.
    + apply Overflowed_CanWrite; [lia|reflexivity].
    + intros _. apply appends_nil.
  - subst wb'. cbn [fold_left].
    destruct (IH (apply_write wb op) (apply_write_nonneg wb op Hpos))
      as (HP & HL & HO & HA).
    rewrite apply_write_Position in HP. rewrite apply_write_length in HL by assumption.
    assert (HP' : TWriteBuffer.Position (fold_left apply_write ops (apply_write wb op)) =
                  TWriteBuffer.Position wb + Z.of_nat (length (encodings (op :: ops)))).
    { rewrite HP, encodings_cons, length_app. lia. }
    split; [exact HP'|]. split; [exact HL|]. split.
    + now apply Overflowed_CanWrite.
    + intros Hno. rewrite encodings_cons. eapply appends_trans; [|now apply HA].
      apply apply_write_fits; [assumption|].
      rewrite (Overflowed_CanWrite wb _ _ HP' HL) in Hno.
      apply negb_false_iff in Hno.
      eapply CanWrite_less; [|exact Hno]. rewrite encodings_cons, length_app. lia.
Qed.


(** X1.  Any sequence of writes, started at a position that is not
    negative, moves [Position] by the total size of the encodings and
    never changes the length of the buffer; [Overflowed] holds afterwards
    exactly when that total did not fit; and when it did fit, the bytes
    written so far are the old ones followed by the encodings in order,
    the room behind them being what it was. *)
Theorem TWriteBuffer_writes_append (ops : list write_op) :
  forall wb : TWriteBuffer.t,
    0 <= TWriteBuffer.Position wb ->
    let wb' := fold_left apply_write ops wb in
    TWriteBuffer.Position wb' =
      TWriteBuffer.Position wb + Z.of_nat (length (encodings ops)) /\
    length (TWriteBuffer.Buffer wb') = length (TWriteBuffer.Buffer wb) /\
    TWriteBuffer.Overflowed wb' =
      negb (TWriteBuffer.CanWrite wb (Z.of_nat (length (encodings ops)))) /\
    (TWriteBuffer.Overflowed wb' = false -> appends wb wb' (encodings ops)).
Proof. exact (fold_apply_write ops). Qed.

Lemma TWriteBuffer_writes_append_witness :
  let wb := {| TWriteBuffer.Buffer := byte_array 12; TWriteBuffer.Position := 0 |} in
  let wb' := fold_left apply_write [Op16 0; Op8 10; Op32 258; OpString [72; 195; 169]] wb in
  TWriteBuffer.Overflowed wb' = false /\
  written wb' = [0; 0; 10; 2; 1; 0; 0; 2; 0; 72; 233] /\
  unwritten wb' = [0].
Proof.
  pose proof (TWriteBuffer_writes_append
                [Op16 0; Op8 10; Op32 258; OpString [72; 195; 169]]
                {| TWriteBuffer.Buffer := byte_array 12; TWriteBuffer.Position := 0 |}
                ltac:(simpl; lia)) as (_ & _ & HO & HA).
  split; [exact HO|].
  destruct (HA HO) as (_ & HW & HU & _).
  split; [exact HW|exact HU].
Defined.

(** X2.  A write that does not fit leaves the buffer [Overflowed], and
    from then on no write stores anything: the contents stay as they are
    and the buffer stays [Overflowed], whatever is written. *)
Theorem TWriteBuffer_overflow_sticky (wb : TWriteBuffer.t) :
  0 <= TWriteBuffer.Position wb ->
  (forall op : write_op,
      TWriteBuffer.CanWrite wb (Z.of_nat (length (encoding op))) = false ->
      TWriteBuffer.Overflowed (apply_write wb op) = true) /\
  (TWriteBuffer.Overflowed wb = true ->
   forall ops : list write_op,
     TWriteBuffer.Buffer (fold_left apply_write ops wb) = TWriteBuffer.Buffer wb /\
     TWriteBuffer.Overflowed (fold_left apply_write ops wb) = true).
Proof.
  intros Hpos. split.
  - intros op. now apply apply_write_overflows.
  - intros Ho ops. revert wb Hpos Ho.
    induction ops as [|op ops IH]; intros wb Hpos Ho; [now split|].
    cbn [fold_left].
    destruct (apply_write_overflowed wb op Hpos Ho) as [HB HO].
    destruct (IH (apply_write wb op) (apply_write_nonneg wb op Hpos) HO) as [HB' HO'].
    split; [congruence|assumption].
Qed.

Lemma TWriteBuffer_overflow_sticky_witness :
  let wb := {| TWriteBuffer.Buffer := [7; 7; 7]; TWriteBuffer.Position := 2 |} in
  TWriteBuffer.Overflowed (apply_write wb (Op16 258)) = true /\
  TWriteBuffer.Buffer (fold_left apply_write [Op16 258; Op8 1; OpString [65]] wb) =
    [7; 7; 7].
Proof.
  pose proof (TWriteBuffer_overflow_sticky
                {| TWriteBuffer.Buffer := [7; 7; 7]; TWriteBuffer.Position := 2 |}
                ltac:(simpl; lia)) as [H1 _].
  split; [apply H1; reflexivity|].
  pose proof (TWriteBuffer_overflow_sticky
                (apply_write {| TWriteBuffer.Buffer := [7; 7; 7];
                                TWriteBuffer.Position := 2 |} (Op16 258))
                ltac:(simpl; lia)) as [_ H2].
  exact (proj1 (H2 (H1 (Op16 258) eq_refl) [Op8 1; OpString [65]])).
Defined.

(** A reader placed on a written buffer at [Position]. *)
Definition reader (wb : TWriteBuffer.t) (Position : Z) : TReadBuffer.t :=
  {| TReadBuffer.Buffer := TWriteBuffer.Buffer wb; TReadBuffer.Position := Position |}.

Lemma tail_advance (rb : TReadBuffer.t) (n : Z) :
  0 <= TReadBuffer.Position rb -> 0 <= n ->
  TReadBuffer.tail (TReadBuffer.advance rb n) = drop (Z.to_nat n) (TReadBuffer.tail rb).
Proof.
  intros Hp Hn. unfold TReadBuffer.tail, TReadBuffer.advance. simpl.
  rewrite drop_drop. f_equal. lia.
Qed.

Lemma CanRead_advance (rb : TReadBuffer.t) (n m : Z) :
  TReadBuffer.CanRead (TReadBuffer.advance rb n) m = TReadBuffer.CanRead rb (n + m).
Proof. unfold TReadBuffer.CanRead, TReadBuffer.advance. simpl. f_equal. lia. Qed.

Lemma CanRead_less (rb : TReadBuffer.t) (n m : Z) :
  n <= m -> TReadBuffer.CanRead rb m = true -> TReadBuffer.CanRead rb n = true.
Proof.
  unfold TReadBuffer.CanRead. intros Hle Hm.
  apply Z.leb_le in Hm. apply Z.leb_le. lia.
Qed.

Lemma advance_advance (rb : TReadBuffer.t) (n m : Z) :
  TReadBuffer.advance (TReadBuffer.advance rb n) m = TReadBuffer.advance rb (n + m).
Proof. unfold TReadBuffer.advance. simpl. f_equal. lia. Qed.

Lemma Read8_at (rb : TReadBuffer.t) (v : Z) (rest : list Z) :
  0 <= TReadBuffer.Position rb ->
  TReadBuffer.tail rb = v :: rest ->
  TReadBuffer.Read8 rb = (v, TReadBuffer.advance rb 1).
Proof.
  intros Hp Ht. unfold TReadBuffer.Read8.
  assert (Hl : TReadBuffer.Buffer rb !! Z.to_nat (TReadBuffer.Position rb) = Some v).
  { pose proof (lookup_drop (TReadBuffer.Buffer rb)
                            (Z.to_nat (TReadBuffer.Position rb)) 0) as H.
    unfold TReadBuffer.tail in Ht. rewrite Ht, Nat.add_0_r in H. now rewrite <- H. }
  assert (TReadBuffer.CanRead rb 1 = true) as ->.
  { apply lookup_lt_Some in Hl. unfold TReadBuffer.CanRead. apply Z.leb_le. lia. }
  unfold at_index. now rewrite Hl.
Qed.

Lemma BigEndian_Uint16_take (b : list Z) :
  BigEndian_Uint16 b = BigEndian_Uint16 (take 2 b).
Proof. do 3 (destruct b as [|? b]; try reflexivity). Qed.

Lemma BigEndian_Uint32_take (b : list Z) :
  BigEndian_Uint32 b = BigEndian_Uint32 (take 4 b).
Proof. do 5 (destruct b as [|? b]; try reflexivity). Qed.

Lemma BigEndian_bytes16_value (v : Z) :
  0 <= v < 65536 -> BigEndian_Uint16 (BigEndian_bytes16 v) = v.
Proof. exact (LittleEndian_bytes16_value v). Qed.

Lemma BigEndian_bytes32_value (v : Z) :
  0 <= v < 4294967296 -> BigEndian_Uint32 (BigEndian_bytes32 v) = v.
Proof. exact (LittleEndian_bytes32_value v). Qed.

(** Reading a fixed-size integer whose bytes are at the cursor. *)
Lemma read_fixed_at (decode : list Z -> Z) (bytes : list Z) (n : nat) (v : Z)
      (rb : TReadBuffer.t) (rest : list Z) :
  (forall b, decode b = decode (take n b)) ->
  decode bytes = v -> length bytes = n -> (0 < n)%nat ->
  0 <= TReadBuffer.Position rb ->
  TReadBuffer.tail rb = bytes ++ rest ->
  TReadBuffer.CanRead rb (Z.of_nat n) = true /\ decode (TReadBuffer.tail rb) = v.
Proof.
  intros Htake Hv Hn Hn0 Hp Ht. split.
  - unfold TReadBuffer.CanRead. apply Z.leb_le.
    apply (f_equal length) in Ht. unfold TReadBuffer.tail in Ht.
    rewrite length_drop, length_app in Ht. lia.
  - rewrite Htake, Ht, <- Hn, take_app_length. exact Hv.
Qed.

Lemma Read16_at (rb : TReadBuffer.t) (v : Z) (rest : list Z) :
  0 <= TReadBuffer.Position rb -> 0 <= v < 65536 ->
  TReadBuffer.tail rb = LittleEndian_bytes16 v ++ rest ->
  TReadBuffer.Read16 rb = (v, TReadBuffer.advance rb 2).
Proof.
  intros Hp Hv Ht. unfold TReadBuffer.Read16.
  destruct (read_fixed_at LittleEndian_Uint16 (LittleEndian_bytes16 v) 2 v rb rest
              LittleEndian_Uint16_take (LittleEndian_bytes16_value v Hv)
              eq_refl ltac:(lia) Hp Ht) as [Hc Hd].
  change (TReadBuffer.CanRead rb 2 = true) in Hc || change (TReadBuffer.CanRead rb 4 = true) in Hc.
  now rewrite Hc, Hd.
Qed.

Lemma Read16BE_at (rb : TReadBuffer.t) (v : Z) (rest : list Z) :
  0 <= TReadBuffer.Position rb -> 0 <= v < 65536 ->
  TReadBuffer.tail rb = BigEndian_bytes16 v ++ rest ->
  TReadBuffer.Read16BE rb = (v, TReadBuffer.advance rb 2).
Proof.
  intros Hp Hv Ht. unfold TReadBuffer.Read16BE.
  destruct (read_fixed_at BigEndian_Uint16 (BigEndian_bytes16 v) 2 v rb rest
              BigEndian_Uint16_take (BigEndian_bytes16_value v Hv)
              eq_refl ltac:(lia) Hp Ht) as [Hc Hd].
  change (TReadBuffer.CanRead rb 2 = true) in Hc || change (TReadBuffer.CanRead rb 4 = true) in Hc.
  now rewrite Hc, Hd.
Qed.

Lemma Read32_at (rb : TReadBuffer.t) (v : Z) (rest : list Z) :
  0 <= TReadBuffer.Position rb -> 0 <= v < 4294967296 ->
  TReadBuffer.tail rb = LittleEndian_bytes32 v ++ rest ->
  TReadBuffer.Read32 rb = (v, TReadBuffer.advance rb 4).
Proof.
  intros Hp Hv Ht. unfold TReadBuffer.Read32.
  destruct (read_fixed_at LittleEndian_Uint32 (LittleEndian_bytes32 v) 4 v rb rest
              LittleEndian_Uint32_take (LittleEndian_bytes32_value v Hv)
              eq_refl ltac:(lia) Hp Ht) as [Hc Hd].
  change (TReadBuffer.CanRead rb 2 = true) in Hc || change (TReadBuffer.CanRead rb 4 = true) in Hc.
  now rewrite Hc, Hd.
Qed.

Lemma Read32BE_at (rb : TReadBuffer.t) (v : Z) (rest : list Z) :
  0 <= TReadBuffer.Position rb -> 0 <= v < 4294967296 ->
  TReadBuffer.tail rb = BigEndian_bytes32 v ++ rest ->
  TReadBuffer.Read32BE rb = (v, TReadBuffer.advance rb 4).
Proof.
  intros Hp Hv Ht. unfold TReadBuffer.Read32BE.
  destruct (read_fixed_at BigEndian_Uint32 (BigEndian_bytes32 v) 4 v rb rest
              BigEndian_Uint32_take (BigEndian_bytes32_value v Hv)
              eq_refl ltac:(lia) Hp Ht) as [Hc Hd].
  change (TReadBuffer.CanRead rb 2 = true) in Hc || change (TReadBuffer.CanRead rb 4 = true) in Hc.
  now rewrite Hc, Hd.
Qed.

Lemma ReadBytes_at (rb : TReadBuffer.t) (bytes rest : list Z) :
  0 <= TReadBuffer.Position rb ->
  TReadBuffer.CanRead rb (Z.of_nat (length bytes)) = true ->
  TReadBuffer.tail rb = bytes ++ rest ->
  TReadBuffer.ReadBytes rb (Z.of_nat (length bytes)) =
  (bytes, TReadBuffer.advance rb (Z.of_nat (length bytes))).
Proof.
  intros Hp Hc Ht. unfold TReadBuffer.ReadBytes.
  now rewrite Hc, Ht, Nat2Z.id, take_app_length.
Qed.

(** A string on the wire: its length prefix, then its Latin-1 bytes.
    [ReadString] gives these bytes back as UTF-8. *)
Lemma ReadString_at (rb : TReadBuffer.t) (Output rest : list Z) :
  0 <= TReadBuffer.Position rb ->
  Z.of_nat (length Output) < 4294967296 ->
  TReadBuffer.tail rb = string_header (Z.of_nat (length Output)) ++ Output ++ rest ->
  TReadBuffer.ReadString rb =
  (Latin1ToUTF8 Output,
   TReadBuffer.advance rb
     (Z.of_nat (length (string_header (Z.of_nat (length Output)) ++ Output)))).
Proof.
  intros Hp Hlen Ht. unfold TReadBuffer.ReadString.
  assert (Hcan : TReadBuffer.CanRead rb
                   (Z.of_nat (length (string_header (Z.of_nat (length Output)) ++ Output)))
                 = true).
  { unfold TReadBuffer.CanRead. apply Z.leb_le.
    pose proof (f_equal length Ht) as Hl. unfold TReadBuffer.tail in Hl.
    rewrite length_drop, !length_app in Hl. rewrite length_app.
    rewrite length_string_header in *. destruct (_ <? 0xFFFF); lia. }
  rewrite length_app, length_string_header in *.
  unfold string_header in Ht.
  destruct (Z.of_nat (length Output) <? 0xFFFF) eqn:Hsmall.
  - apply Z.ltb_lt in Hsmall.
    assert (Hu : uint16 (Z.of_nat (length Output)) = Z.of_nat (length Output))
      by (unfold uint16; apply Z.mod_small; lia).
    rewrite Hu in Ht.
    rewrite (Read16_at rb (Z.of_nat (length Output)) _ Hp ltac:(lia) Ht).
    assert ((Z.of_nat (length Output) =? 0xFFFF) = false) as ->
        by (apply Z.eqb_neq; lia).
    rewrite CanRead_advance.
    replace (2 + Z.of_nat (length Output))
      with (Z.of_nat (2 + length Output)) by lia.
    rewrite Hcan, tail_advance, Ht, advance_advance by lia.
    change (Z.to_nat 2) with (length (LittleEndian_bytes16 (Z.of_nat (length Output)))).
    rewrite drop_app_length, Nat2Z.id, take_app_length.
    do 2 f_equal. lia.
  - apply Z.ltb_ge in Hsmall.
    assert (Hu : uint32 (Z.of_nat (length Output)) = Z.of_nat (length Output))
      by (unfold uint32; apply Z.mod_small; lia).
    rewrite Hu, <- app_assoc in Ht.
    rewrite (Read16_at rb 0xFFFF _ Hp ltac:(lia) Ht).
    change (0xFFFF =? 0xFFFF) with true. cbv iota.
    assert (Ht4 : TReadBuffer.tail (TReadBuffer.advance rb 2) =
                  LittleEndian_bytes32 (Z.of_nat (length Output)) ++ Output ++ rest).
    { rewrite tail_advance, Ht by lia.
      change (Z.to_nat 2) with (length (LittleEndian_bytes16 0xFFFF)).
      now rewrite drop_app_length. }
    rewrite (Read32_at (TReadBuffer.advance rb 2) (Z.of_nat (length Output)) _
               ltac:(simpl; lia) ltac:(lia) Ht4).
    rewrite !CanRead_advance.
    replace (2 + (4 + Z.of_nat (length Output)))
      with (Z.of_nat (6 + length Output)) by lia.
    rewrite Hcan, tail_advance, Ht4, !advance_advance by (simpl; lia).
    change (Z.to_nat 4)
      with (length (LittleEndian_bytes32 (Z.of_nat (length Output)))).
    rewrite drop_app_length, Nat2Z.id, take_app_length.
    do 2 f_equal. lia.
Qed.

Lemma appends_tail (wb wb' : TWriteBuffer.t) (bytes : list Z) :
  0 <= TWriteBuffer.Position wb ->
  (Z.to_nat (TWriteBuffer.Position wb) <= length (TWriteBuffer.Buffer wb))%nat ->
  appends wb wb' bytes ->
  TReadBuffer.tail (reader wb' (TWriteBuffer.Position wb)) = bytes ++ unwritten wb'.
Proof.
  intros Hp Hle (HP & HW & HU & HL).
  unfold TReadBuffer.tail, reader. simpl.
  rewrite <- (take_drop (Z.to_nat (TWriteBuffer.Position wb'))
                        (TWriteBuffer.Buffer wb')) at 1.
  fold (written wb') (unwritten wb'). rewrite HW, <- app_assoc.
  apply drop_app_length'. unfold written. rewrite length_take. lia.
Qed.

(** A reader placed where a write started reads the value back. *)
Lemma apply_write_read_back (wb : TWriteBuffer.t) (op : write_op) :
  0 <= TWriteBuffer.Position wb ->
  TWriteBuffer.CanWrite wb (Z.of_nat (length (encoding op))) = true ->
  let wb' := apply_write wb op in
  let rb := reader wb' (TWriteBuffer.Position wb) in
  let rb' := reader wb' (TWriteBuffer.Position wb') in
  match op with
  | Op8 Value => TReadBuffer.Read8 rb = (Value, rb')
  | OpFlag Value => TReadBuffer.ReadFlag rb = (Value, rb')
  | Op16 Value => 0 <= Value < 65536 -> TReadBuffer.Read16 rb = (Value, rb')
  | Op16BE Value => 0 <= Value < 65536 -> TReadBuffer.Read16BE rb = (Value, rb')
  | Op32 Value => 0 <= Value < 4294967296 -> TReadBuffer.Read32 rb = (Value, rb')
  | Op32BE Value => 0 <= Value < 4294967296 -> TReadBuffer.Read32BE rb = (Value, rb')
  | OpString String =>
    Z.of_nat (length (UTF8ToLatin1 String)) < 4294967296 ->
    TReadBuffer.ReadString rb = (Latin1ToUTF8 (UTF8ToLatin1 String), rb')
  | OpBytes Bytes =>
    TReadBuffer.ReadBytes rb (Z.of_nat (length Bytes)) = (Bytes, rb')
  end.
Proof.
  intros Hpos Hcan wb' rb rb'.
  pose proof (apply_write_fits wb op Hpos Hcan) as Happ.
  pose proof (appends_tail wb wb' (encoding op) Hpos
                (CanWrite_in_range wb (Z.of_nat (length (encoding op)))
                                   ltac:(lia) Hcan) Happ) as Ht.
  fold rb in Ht.
  assert (Hrb : 0 <= TReadBuffer.Position rb) by exact Hpos.
  assert (Hadv : forall n, n = Z.of_nat (length (encoding op)) ->
                           TReadBuffer.advance rb n = rb').
  { intros n ->. unfold rb', rb, reader, TReadBuffer.advance. simpl.
    f_equal. symmetry. apply apply_write_Position. }
  assert (Hcr : TReadBuffer.CanRead rb (Z.of_nat (length (encoding op))) = true).
  { destruct Happ as (_ & _ & _ & HL).
    unfold TReadBuffer.CanRead, rb, reader, wb'.
    cbn [TReadBuffer.Buffer TReadBuffer.Position]. rewrite HL. exact Hcan. }
  destruct op as [v|b|v|v|v|v|s|bs]; cbn [encoding] in *.
  - rewrite (Read8_at rb v _ Hrb Ht). f_equal; now apply Hadv.
  - unfold TReadBuffer.ReadFlag. rewrite (Read8_at rb _ _ Hrb Ht).
    rewrite (Hadv 1 eq_refl). now destruct b.
  - intros Hv. rewrite (Read16_at rb v _ Hrb Hv Ht). f_equal; now apply Hadv.
  - intros Hv. rewrite (Read16BE_at rb v _ Hrb Hv Ht). f_equal; now apply Hadv.
  - intros Hv. rewrite (Read32_at rb v _ Hrb Hv Ht). f_equal; now apply Hadv.
  - intros Hv. rewrite (Read32BE_at rb v _ Hrb Hv Ht). f_equal; now apply Hadv.
  - intros Hlen. rewrite <- app_assoc in Ht.
    rewrite (ReadString_at rb _ _ Hrb Hlen Ht). f_equal; now apply Hadv.
  - rewrite (ReadBytes_at rb bs _ Hrb Hcr Ht). f_equal; now apply Hadv.
Qed.

(** X3.  What a write stored is what the matching read returns: a
    reader placed where the write started gets the value back and ends
    where the writer ended.  Integers come back when they are in the
    range of their width, a flag and a byte slice always, and a string
    comes back as [Latin1ToUTF8 (UTF8ToLatin1 String)], the text as its
    Latin-1 rendering allows. *)
Theorem codec_round_trip (wb : TWriteBuffer.t) (op : write_op) :
  0 <= TWriteBuffer.Position wb ->
  TWriteBuffer.CanWrite wb (Z.of_nat (length (encoding op))) = true ->
  let wb' := apply_write wb op in
  let rb := reader wb' (TWriteBuffer.Position wb) in
  let rb' := reader wb' (TWriteBuffer.Position wb') in
  match op with
  | Op8 Value => TReadBuffer.Read8 rb = (Value, rb')
  | OpFlag Value => TReadBuffer.ReadFlag rb = (Value, rb')
  | Op16 Value => 0 <= Value < 65536 -> TReadBuffer.Read16 rb = (Value, rb')
  | Op16BE Value => 0 <= Value < 65536 -> TReadBuffer.Read16BE rb = (Value, rb')
  | Op32 Value => 0 <= Value < 4294967296 -> TReadBuffer.Read32 rb = (Value, rb')
  | Op32BE Value => 0 <= Value < 4294967296 -> TReadBuffer.Read32BE rb = (Value, rb')
  | OpString String =>
    Z.of_nat (length (UTF8ToLatin1 String)) < 4294967296 ->
    TReadBuffer.ReadString rb = (Latin1ToUTF8 (UTF8ToLatin1 String), rb')
  | OpBytes Bytes =>
    TReadBuffer.ReadBytes rb (Z.of_nat (length Bytes)) = (Bytes, rb')
  end.
Proof. exact (apply_write_read_back wb op). Qed.

Lemma codec_round_trip_witness :
  let wb := {| TWriteBuffer.Buffer := byte_array 8; TWriteBuffer.Position := 1 |} in
  TReadBuffer.ReadString (reader (TWriteBuffer.WriteString wb [72; 195; 169]) 1) =
  ([72; 195; 169], reader (TWriteBuffer.WriteString wb [72; 195; 169]) 5).
Proof.
  exact (codec_round_trip
           {| TWriteBuffer.Buffer := byte_array 8; TWriteBuffer.Position := 1 |}
           (OpString [72; 195; 169]) ltac:(simpl; lia) eq_refl
           ltac:(vm_compute; reflexivity)).
Defined.

(** *** Reading past the end *)

Lemma Overflowed_CanRead (rb : TReadBuffer.t) (n : Z) :
  0 <= n -> TReadBuffer.Overflowed rb = true -> TReadBuffer.CanRead rb n = false.
Proof.
  unfold TReadBuffer.Overflowed, TReadBuffer.CanRead. intros Hn Ho.
  apply Z.ltb_lt in Ho. apply Z.leb_gt. lia.
Qed.

Lemma Overflowed_advance (rb : TReadBuffer.t) (n : Z) :
  0 <= n -> TReadBuffer.Overflowed rb = true ->
  TReadBuffer.Overflowed (TReadBuffer.advance rb n) = true.
Proof.
  unfold TReadBuffer.Overflowed, TReadBuffer.advance. simpl. intros Hn Ho.
  apply Z.ltb_lt in Ho. apply Z.ltb_lt. lia.
Qed.

Lemma Read8_overflowed (rb : TReadBuffer.t) :
  TReadBuffer.Overflowed rb = true ->
  TReadBuffer.Read8 rb = (0, TReadBuffer.advance rb 1).
Proof.
  intros Ho. unfold TReadBuffer.Read8. now rewrite Overflowed_CanRead by (lia || assumption).
Qed.

Lemma ReadFlag_overflowed (rb : TReadBuffer.t) :
  TReadBuffer.Overflowed rb = true ->
  TReadBuffer.ReadFlag rb = (false, TReadBuffer.advance rb 1).
Proof.
  intros Ho. unfold TReadBuffer.ReadFlag. now rewrite Read8_overflowed.
Qed.

Lemma Read16_overflowed (rb : TReadBuffer.t) :
  TReadBuffer.Overflowed rb = true ->
  TReadBuffer.Read16 rb = (0, TReadBuffer.advance rb 2).
Proof.
  intros Ho. unfold TReadBuffer.Read16. now rewrite Overflowed_CanRead by (lia || assumption).
Qed.

Lemma Read32_overflowed (rb : TReadBuffer.t) :
  TReadBuffer.Overflowed rb = true ->
  TReadBuffer.Read32 rb = (0, TReadBuffer.advance rb 4).
Proof.
  intros Ho. unfold TReadBuffer.Read32. now rewrite Overflowed_CanRead by (lia || assumption).
Qed.

Lemma ReadString_overflowed (rb : TReadBuffer.t) :
  TReadBuffer.Overflowed rb = true ->
  TReadBuffer.ReadString rb = ([], TReadBuffer.advance rb 2).
Proof.
  intros Ho. unfold TReadBuffer.ReadString. rewrite Read16_overflowed by assumption.
  change (0 =? 0xFFFF) with false. cbv iota.
  rewrite Overflowed_CanRead by (try apply Overflowed_advance; (lia || assumption)).
  rewrite advance_advance. reflexivity.
Qed.

(** The records a truncated response decodes to. *)
Definition blank_world : TWorld.t :=
  TWorld.Build [] (WorldTypeString 0) 0 0 0 0 0 0.

Definition blank_character_summary : TCharacterSummary.t :=
  TCharacterSummary.Build [] [] 0 [] false false.

Ltac overflowed_step :=
  first [ rewrite ReadString_overflowed | rewrite Read8_overflowed
        | rewrite Read16_overflowed | rewrite Read32_overflowed
        | rewrite ReadFlag_overflowed ];
  [|repeat (apply Overflowed_advance; [lia|]); assumption].

Lemma read_worlds_overflowed (n : nat) :
  forall rb : TReadBuffer.t,
    TReadBuffer.Overflowed rb = true ->
    read_worlds n rb =
    (replicate n blank_world, TReadBuffer.advance rb (21 * Z.of_nat n)).
Proof.
  induction n as [|n IH]; intros rb Ho.
  - simpl. unfold TReadBuffer.advance. rewrite Z.add_0_r. now destruct rb.
  - cbn [read_worlds]. repeat overflowed_step.
    rewrite IH by (repeat (apply Overflowed_advance; [lia|]); assumption).
    rewrite !advance_advance. cbn [replicate]. unfold blank_world.
    do 2 f_equal. lia.
Qed.

Lemma read_character_summaries_overflowed (n : nat) :
  forall rb : TReadBuffer.t,
    TReadBuffer.Overflowed rb = true ->
    read_character_summaries n rb =
    (replicate n blank_character_summary, TReadBuffer.advance rb (10 * Z.of_nat n)).
Proof.
  induction n as [|n IH]; intros rb Ho.
  - simpl. unfold TReadBuffer.advance. rewrite Z.add_0_r. now destruct rb.
  - cbn [read_character_summaries]. repeat overflowed_step.
    rewrite IH by (repeat (apply Overflowed_advance; [lia|]); assumption).
    rewrite !advance_advance. cbn [replicate]. unfold blank_character_summary.
    do 2 f_equal. lia.
Qed.

(** X4.  A read for which too few bytes are left leaves the buffer
    [Overflowed]; from then on every read returns the zero value of its
    type (0, false, the empty string, no bytes) and the buffer stays
    [Overflowed], so the records of a truncated response are decoded as
    blank records, a world as an unnamed world of type "Normal". *)
Theorem TReadBuffer_truncated (rb : TReadBuffer.t) :
  (forall n : Z,
      TReadBuffer.CanRead rb n = false ->
      TReadBuffer.Overflowed (TReadBuffer.advance rb n) = true) /\
  (TReadBuffer.Overflowed rb = true ->
   TReadBuffer.Read8 rb = (0, TReadBuffer.advance rb 1) /\
   TReadBuffer.ReadFlag rb = (false, TReadBuffer.advance rb 1) /\
   TReadBuffer.Read16 rb = (0, TReadBuffer.advance rb 2) /\
   TReadBuffer.Read16BE rb = (0, TReadBuffer.advance rb 2) /\
   TReadBuffer.Read32 rb = (0, TReadBuffer.advance rb 4) /\
   TReadBuffer.Read32BE rb = (0, TReadBuffer.advance rb 4) /\
   TReadBuffer.ReadString rb = ([], TReadBuffer.advance rb 2) /\
   (forall n : Z, 0 <= n ->
      TReadBuffer.ReadBytes rb n = ([], TReadBuffer.advance rb n) /\
      TReadBuffer.Overflowed (TReadBuffer.advance rb n) = true) /\
   (forall n : nat,
      read_worlds n rb =
        (replicate n blank_world, TReadBuffer.advance rb (21 * Z.of_nat n)) /\
      read_character_summaries n rb =
        (replicate n blank_character_summary,
         TReadBuffer.advance rb (10 * Z.of_nat n)))).
Proof.
  split.
  - intros n Hn. unfold TReadBuffer.CanRead in Hn. apply Z.leb_gt in Hn.
    unfold TReadBuffer.Overflowed, TReadBuffer.advance. simpl. apply Z.ltb_lt. lia.
  - intros Ho.
    split; [now apply Read8_overflowed|].
    split; [now apply ReadFlag_overflowed|].
    split; [now apply Read16_overflowed|].
    split; [unfold TReadBuffer.Read16BE;
            now rewrite Overflowed_CanRead by (lia || assumption)|].
    split; [now apply Read32_overflowed|].
    split; [unfold TReadBuffer.Read32BE;
            now rewrite Overflowed_CanRead by (lia || assumption)|].
    split; [now apply ReadString_overflowed|].
    split.
    + intros n Hn. split; [|now apply Overflowed_advance].
      unfold TReadBuffer.ReadBytes. now rewrite Overflowed_CanRead by assumption.
    + intros n. split.
      * now apply read_worlds_overflowed.
      * now apply read_character_summaries_overflowed.
Qed.

Lemma TReadBuffer_truncated_witness :
  let rb := {| TReadBuffer.Buffer := [0; 2]; TReadBuffer.Position := 1 |} in
  TReadBuffer.Overflowed (snd (TReadBuffer.Read16 rb)) = true /\
  fst (read_worlds 2 (snd (TReadBuffer.Read16 rb))) = [blank_world; blank_world].
Proof.
  pose proof (TReadBuffer_truncated
                {| TReadBuffer.Buffer := [0; 2]; TReadBuffer.Position := 1 |})
    as [H1 _].
  split; [exact (H1 2 eq_refl)|].
  pose proof (TReadBuffer_truncated
                (TReadBuffer.advance
                   {| TReadBuffer.Buffer := [0; 2]; TReadBuffer.Position := 1 |} 2))
    as [_ H2].
  destruct (H2 (H1 2 eq_refl)) as (_ & _ & _ & _ & _ & _ & _ & _ & H3).
  exact (f_equal fst (proj1 (H3 2%nat))).
Defined.

(** *** The transcoders on arbitrary input *)

Lemma UTF8ToLatin1_step_byte (rest : list Z) :
  0 <= snd (UTF8ToLatin1_step rest) < 256.
Proof.
  unfold UTF8ToLatin1_step. destruct (utf8.DecodeRune rest) as [Codepoint Size].
  simpl. destruct ((0 <=? Codepoint) && (Codepoint <=? 0xFF)); [|lia].
  unfold uint8. apply Z.mod_pos_bound. lia.
Qed.

Lemma UTF8ToLatin1_bounded (n : nat) :
  forall Buffer : list Z,
    (length Buffer <= n)%nat ->
    (length (UTF8ToLatin1 Buffer) <= length Buffer)%nat /\
    Forall (fun b => 0 <= b < 256) (UTF8ToLatin1 Buffer).
Proof.
  induction n as [|n IH]; intros Buffer Hn.
  - destruct Buffer; [|simpl in Hn; lia]. rewrite UTF8ToLatin1_nil. auto.
  - destruct (decide (Buffer = [])) as [->|Hne].
    + rewrite UTF8ToLatin1_nil. auto.
    + rewrite UTF8ToLatin1_cons by assumption.
      pose proof (UTF8ToLatin1_step_pos Buffer Hne) as Hstep.
      destruct (IH (drop (fst (UTF8ToLatin1_step Buffer)) Buffer)) as [Hl Hr].
      { rewrite length_drop. destruct Buffer; [congruence|]. simpl in *. lia. }
      split.
      * simpl. rewrite length_drop in Hl.
        destruct Buffer; [congruence|]. simpl in *. lia.
      * constructor; [apply UTF8ToLatin1_step_byte|assumption].
Qed.

Lemma UTF8ToLatin1_ascii_cons (b : Z) (rest : list Z) :
  0 <= b < 128 -> UTF8ToLatin1 (b :: rest) = b :: UTF8ToLatin1 rest.
Proof.
  intros Hb. rewrite UTF8ToLatin1_cons by discriminate.
  unfold UTF8ToLatin1_step. rewrite DecodeRune_ascii.
  - assert ((b =? utf8.RuneError) = false) as ->
        by (apply Z.eqb_neq; unfold utf8.RuneError; lia).
    assert ((0 <=? b) = true) as -> by (apply Z.leb_le; lia).
    assert ((b <=? 255) = true) as -> by (apply Z.leb_le; lia).
    simpl. unfold uint8. now rewrite Z.mod_small by lia.
  - unfold utf8.first. now assert ((b <? 128) = true) as -> by (apply Z.ltb_lt; lia).
Qed.

Lemma AppendRune_ascii (b : Z) : 0 <= b < 128 -> utf8.AppendRune [] b = [b].
Proof.
  intros Hb. unfold utf8.AppendRune, uint32, uint8.
  rewrite !Z.mod_small by lia.
  now assert ((b <=? 127) = true) as -> by (apply Z.leb_le; lia).
Qed.

Lemma length_AppendRune_latin1 (b : Z) :
  0 <= b < 256 ->
  length (utf8.AppendRune [] b) = if b <? 128 then 1%nat else 2%nat.
Proof.
  intros Hb. unfold utf8.AppendRune, uint32. rewrite Z.mod_small by lia.
  destruct (b <? 128) eqn:Hs.
  - apply Z.ltb_lt in Hs.
    now assert ((b <=? 127) = true) as -> by (apply Z.leb_le; lia).
  - apply Z.ltb_ge in Hs.
    assert ((b <=? 127) = false) as -> by (apply Z.leb_gt; lia).
    now assert ((b <=? 2047) = true) as -> by (apply Z.leb_le; lia).
Qed.

Lemma Latin1ToUTF8_app (a b : list Z) :
  Latin1ToUTF8 (a ++ b) = Latin1ToUTF8 a ++ Latin1ToUTF8 b.
Proof.
  unfold Latin1ToUTF8 at 1. rewrite fold_left_app. apply fold_AppendRune.
Qed.

Lemma UTF8ToLatin1_Latin1ToUTF8_app (Buffer rest : list Z) :
  Forall (fun b => 0 <= b < 256) Buffer ->
  UTF8ToLatin1 (Latin1ToUTF8 Buffer ++ rest) = Buffer ++ UTF8ToLatin1 rest.
Proof.
  induction 1 as [|b Buffer Hb _ IH]; [reflexivity|].
  rewrite Latin1ToUTF8_cons, <- app_assoc, UTF8ToLatin1_cons.
  - rewrite UTF8ToLatin1_step_latin1 by assumption. simpl.
    now rewrite drop_app_length, IH.
  - intros Heq. apply app_eq_nil in Heq as [Heq _].
    now apply AppendRune_nonempty in Heq.
Qed.

(** X5.  [UTF8ToLatin1] never returns more bytes than it was given, and
    every byte it returns is a byte value, whatever the input; text that
    is plain ASCII is returned unchanged. *)
Theorem UTF8ToLatin1_output (Buffer : list Z) :
  (length (UTF8ToLatin1 Buffer) <= length Buffer)%nat /\
  Forall (fun b => 0 <= b < 256) (UTF8ToLatin1 Buffer) /\
  (Forall (fun b => 0 <= b < 128) Buffer -> UTF8ToLatin1 Buffer = Buffer).
Proof.
  destruct (UTF8ToLatin1_bounded (length Buffer) Buffer (le_n _)) as [Hl Hr].
  split; [exact Hl|]. split; [exact Hr|]. clear Hl Hr.
  induction 1 as [|b rest Hb _ IH]; [apply UTF8ToLatin1_nil|].
  now rewrite UTF8ToLatin1_ascii_cons, IH.
Qed.

Lemma UTF8ToLatin1_output_witness :
  UTF8ToLatin1 [84; 105; 98; 105; 97] = [84; 105; 98; 105; 97] /\
  length (UTF8ToLatin1 [226; 130; 172; 255; 65]) = 3%nat.
Proof.
  split.
  - apply (UTF8ToLatin1_output [84; 105; 98; 105; 97]). repeat constructor; lia.
  - pose proof (proj1 (UTF8ToLatin1_output [226; 130; 172; 255; 65])) as _.
    reflexivity.
Defined.

(** X6.  [Latin1ToUTF8] writes one byte for a byte value below 128 and
    two for the others, so ASCII text is returned unchanged and the
    result is at most twice as long as the input; it maps a concatenation
    to the concatenation of the results; and [UTF8ToLatin1] turns its
    result back into the bytes even when other text follows it. *)
Theorem Latin1ToUTF8_output (Buffer : list Z) :
  Forall (fun b => 0 <= b < 256) Buffer ->
  length (Latin1ToUTF8 Buffer) =
    (length Buffer + length (filter (fun b : Z => (128 <= b)%Z) Buffer))%nat /\
  (Forall (fun b => b < 128) Buffer -> Latin1ToUTF8 Buffer = Buffer) /\
  (forall rest : list Z,
      Latin1ToUTF8 (Buffer ++ rest) = Latin1ToUTF8 Buffer ++ Latin1ToUTF8 rest /\
      UTF8ToLatin1 (Latin1ToUTF8 Buffer ++ rest) = Buffer ++ UTF8ToLatin1 rest).
Proof.
  intros Hbytes. split; [|split].
  - induction Hbytes as [|b rest Hb _ IH]; [reflexivity|].
    rewrite Latin1ToUTF8_cons, length_app, IH, length_AppendRune_latin1 by assumption.
    rewrite filter_cons. destruct (decide (128 <= b)) as [Hge|Hlt].
    + assert ((b <? 128) = false) as -> by (apply Z.ltb_ge; lia). simpl. lia.
    + assert ((b <? 128) = true) as -> by (apply Z.ltb_lt; lia). simpl. lia.
  - intros Hascii. induction Hbytes as [|b rest Hb _ IH]; [reflexivity|].
    inversion Hascii; subst.
    rewrite Latin1ToUTF8_cons, AppendRune_ascii, IH by (assumption || lia).
    reflexivity.
  - intros rest. split; [apply Latin1ToUTF8_app|].
    now apply UTF8ToLatin1_Latin1ToUTF8_app.
Qed.

Lemma Latin1ToUTF8_output_witness :
  length (Latin1ToUTF8 [72; 233; 108; 255]) = 6%nat /\
  UTF8ToLatin1 (Latin1ToUTF8 [72; 233; 108; 255] ++ [226; 130; 172]) =
    [72; 233; 108; 255] ++ UTF8ToLatin1 [226; 130; 172].
Proof.
  pose proof (Latin1ToUTF8_output [72; 233; 108; 255]
                ltac:(repeat constructor; lia)) as (Hl & _ & Happ).
  split; [exact Hl|exact (proj2 (Happ [226; 130; 172]))].
Defined.
(** ** More on the query executor (query.go) *)

(** The dials and the writes among socket operations. *)
Fixpoint dials (ops : list io_op) : nat :=
  match ops with
  | [] => 0
  | OpDial :: ops => S (dials ops)
  | _ :: ops => dials ops
  end.

Fixpoint writes (ops : list io_op) : nat :=
  match ops with
  | [] => 0
  | OpWrite _ :: ops => S (writes ops)
  | _ :: ops => writes ops
  end.

Lemma dials_app (a b : list io_op) : dials (a ++ b) = (dials a + dials b)%nat.
Proof. induction a as [|[] a IH]; simpl; lia. Qed.

Lemma writes_app (a b : list io_op) : writes (a ++ b) = (writes a + writes b)%nat.
Proof. induction a as [|[] a IH]; simpl; lia. Qed.

(** [r] is a return of [ExecuteQuery] that added to the trace [pre] at
    most [d] dials and [w] writes. *)
Definition effort_after (d w : nat) (pre : list io_op) (r : outcome query_result)
  : Prop :=
  exists Status ReadBuffer c ops,
    r = Done (Status, ReadBuffer, c) /\
    Trace c = pre ++ ops /\ (dials ops <= d)%nat /\ (writes ops <= w)%nat.

(** A [Connect] that dials and writes at most once. *)
Definition connect_effort
           (K : TQueryManagerConnection -> outcome (bool * TQueryManagerConnection))
  : Prop :=
  forall c, exists up c' ops,
      K c = Done (up, c') /\ (up = true -> Handle c' = true) /\
      Trace c' = Trace c ++ ops /\ (dials ops <= 1)%nat /\ (writes ops <= 1)%nat.

Lemma effort_after_from (d w d' w' : nat) (pre pre' ops : list io_op)
      (r : outcome query_result) :
  effort_after d w pre' r ->
  pre' = pre ++ ops ->
  (dials ops + d <= d')%nat -> (writes ops + w <= w')%nat ->
  effort_after d' w' pre r.
Proof.
  intros (St & rb & c & ops' & -> & Ht & Hd & Hw) -> Hd' Hw'.
  exists St, rb, c, (ops ++ ops'). rewrite Ht, app_assoc, dials_app, writes_app.
  repeat split; lia.
Qed.

Ltac trace_eq :=
  simpl; rewrite <- ?app_assoc; simpl;
  first [reflexivity | symmetry; apply app_nil_r].

Ltac leaf_effort :=
  unfold effort_after, failed; do 4 eexists;
  split; [reflexivity|]; split; [trace_eq|split; simpl; lia].

Section ExecutorEffort.

Variable K : TQueryManagerConnection -> outcome (bool * TQueryManagerConnection).
Variable AutoReconnect : bool.
Variable Buffer : list Z.
Variable WriteSize : Z.

Local Abbreviation loop := (ExecuteQuery_loop K AutoReconnect Buffer WriteSize).

Lemma effort_start (Attempt : Z) (c : TQueryManagerConnection) :
  connect_effort K \/ AutoReconnect = false ->
  exists c' ops,
    Trace c' = Trace c ++ ops /\ (dials ops <= 1)%nat /\ (writes ops <= 1)%nat /\
    (Handle c = true \/ AutoReconnect = false -> ops = []) /\
    ((Handle c' = true /\
      forall fuel, loop (S fuel) Attempt c = loop (S fuel) Attempt c') \/
     (forall fuel, loop (S fuel) Attempt c = failed c')).
Proof.
  intros HK. destruct (Handle c) eqn:Hc.
  - exists c, []. rewrite app_nil_r. simpl. repeat split; auto.
  - destruct (Bool.bool_dec AutoReconnect true) as [Har|Har];
      [|apply Bool.not_true_is_false in Har].
    + destruct HK as [HK|HK]; [|congruence].
      destruct (HK c) as (up & c' & ops & HKc & Hh & Hops & Hd & Hw).
      exists c', ops. repeat split; try assumption.
      * intros [?|?]; congruence.
      * destruct up.
        -- left. split; [auto|]. intros fuel.
           now apply ExecuteQuery_loop_reconnected; auto.
        -- right. intros fuel. now apply ExecuteQuery_loop_connect_failed.
    + exists c, []. rewrite app_nil_r. simpl. repeat split; auto.
      right. intros fuel. now apply ExecuteQuery_loop_down.
Qed.

Lemma effort_last_up (fuel : nat) (Attempt : Z) (c : TQueryManagerConnection) :
  MaxAttempts <= Attempt ->
  Handle c = true ->
  effort_after 0 1 (Trace c) (loop (S fuel) Attempt c).
Proof.
  intros HA Hc. apply Z.leb_le in HA.
  simpl. rewrite HA, Hc. rewrite !bind_Done. simpl negb. cbv iota.
  unfold Handle_Write, Handle_Read, io. rewrite Hc. simpl.
  exec_cases; leaf_effort.
Qed.

Lemma effort_last (fuel : nat) (Attempt : Z) (c : TQueryManagerConnection) :
  connect_effort K \/ AutoReconnect = false ->
  MaxAttempts <= Attempt ->
  effort_after 1 2 (Trace c) (loop (S fuel) Attempt c) /\
  (AutoReconnect = false -> effort_after 0 1 (Trace c) (loop (S fuel) Attempt c)).
Proof.
  intros HK HA.
  destruct (effort_start Attempt c HK)
    as (c' & ops & Ht & Hd & Hw & Hnil & [[Hc' E]|E]).
  - rewrite !E. pose proof (effort_last_up fuel Attempt c' HA Hc') as Hr. split.
    + eapply (effort_after_from _ _ _ _ _ _ _ _ Hr); [exact Ht|lia|lia].
    + intros Har. rewrite (Hnil (or_intror Har)), app_nil_r in Ht.
      eapply (effort_after_from _ _ _ _ _ _ [] _ Hr);
        [now rewrite app_nil_r|simpl; lia|simpl; lia].
  - rewrite !E. split.
    + exists QUERY_STATUS_FAILED, TReadBuffer.zero, c', ops. repeat split; auto; lia.
    + intros Har. rewrite (Hnil (or_intror Har)) in *.
      exists QUERY_STATUS_FAILED, TReadBuffer.zero, c', []. repeat split; auto.
Qed.

Lemma effort_first_up (fuel : nat) (c : TQueryManagerConnection) :
  connect_effort K \/ AutoReconnect = false ->
  Handle c = true ->
  effort_after 1 3 (Trace c) (loop (S (S fuel)) 1 c) /\
  (AutoReconnect = false -> effort_after 0 1 (Trace c) (loop (S (S fuel)) 1 c)).
Proof.
  intros HK Hc.
  assert (Hlast : forall c',
             effort_after 1 2 (Trace c') (loop (S fuel) 2 c') /\
             (AutoReconnect = false -> Handle c' = false ->
              effort_after 0 0 (Trace c') (loop (S fuel) 2 c'))).
  { intros c'. split.
    - apply effort_last; [assumption|unfold MaxAttempts; lia].
    - intros Har Hc'. rewrite ExecuteQuery_loop_down by assumption.
      exists QUERY_STATUS_FAILED, TReadBuffer.zero, c', [].
      rewrite app_nil_r. repeat split; auto. }
  change 2%nat with (S 1).
  remember (S fuel) as f eqn:Hf. remember 1%nat as one eqn:Hone.
  simpl. rewrite Hc. rewrite !bind_Done. simpl negb. cbv iota.
  unfold Handle_Write, Handle_Read, io. rewrite Hc. simpl.
  exec_cases;
    try (split; [leaf_effort|intros _; leaf_effort]);
    match goal with
    | |- effort_after _ _ _ (ExecuteQuery_loop _ _ _ _ _ _ ?c') /\ _ =>
      destruct (Hlast c') as [Hr Hdown]; split;
      [ eapply (effort_after_from _ _ _ _ _ _ _ _ Hr); [trace_eq|simpl; lia|simpl; lia]
      | intros Har;
        eapply (effort_after_from _ _ _ _ _ _ _ _ (Hdown Har eq_refl));
        [trace_eq|simpl; lia|simpl; lia] ]
    end.
Qed.

Lemma effort_total (fuel : nat) (c : TQueryManagerConnection) :
  connect_effort K \/ AutoReconnect = false ->
  effort_after 2 4 (Trace c) (loop (S (S fuel)) 1 c) /\
  (Handle c = true -> effort_after 1 3 (Trace c) (loop (S (S fuel)) 1 c)) /\
  (AutoReconnect = false -> effort_after 0 1 (Trace c) (loop (S (S fuel)) 1 c)).
Proof.
  intros HK.
  destruct (effort_start 1 c HK)
    as (c' & ops & Ht & Hd & Hw & Hnil & [[Hc' E]|E]).
  - rewrite !E. destruct (effort_first_up fuel c' HK Hc') as [Hr Hr0].
    split; [|split].
    + eapply (effort_after_from _ _ _ _ _ _ _ _ Hr); [exact Ht|lia|lia].
    + intros Hc. rewrite (Hnil (or_introl Hc)), app_nil_r in Ht.
      eapply (effort_after_from _ _ _ _ _ _ [] _ Hr);
        [now rewrite app_nil_r|simpl; lia|simpl; lia].
    + intros Har. rewrite (Hnil (or_intror Har)), app_nil_r in Ht.
      eapply (effort_after_from _ _ _ _ _ _ [] _ (Hr0 Har));
        [now rewrite app_nil_r|simpl; lia|simpl; lia].
  - rewrite !E. split; [|split].
    + exists QUERY_STATUS_FAILED, TReadBuffer.zero, c', ops. repeat split; auto; lia.
    + intros Hc. rewrite (Hnil (or_introl Hc)) in *.
      exists QUERY_STATUS_FAILED, TReadBuffer.zero, c', []. repeat split; auto; lia.
    + intros Har. rewrite (Hnil (or_intror Har)) in *.
      exists QUERY_STATUS_FAILED, TReadBuffer.zero, c', []. repeat split; auto; lia.
Qed.

End ExecutorEffort.

Lemma ExecuteQuery_with_effort
      (K : TQueryManagerConnection -> outcome (bool * TQueryManagerConnection))
      (AutoReconnect : bool) (wb : TWriteBuffer.t) (c : TQueryManagerConnection) :
  connect_effort K \/ AutoReconnect = false ->
  2 < TWriteBuffer.Position wb ->
  effort_after 2 4 (Trace c) (ExecuteQuery_with K AutoReconnect (Some wb) c) /\
  (Handle c = true ->
   effort_after 1 3 (Trace c) (ExecuteQuery_with K AutoReconnect (Some wb) c)) /\
  (AutoReconnect = false ->
   effort_after 0 1 (Trace c) (ExecuteQuery_with K AutoReconnect (Some wb) c)).
Proof.
  intros HK Hpos. unfold ExecuteQuery_with.
  assert ((TWriteBuffer.Position wb <=? 2) = false) as -> by (apply Z.leb_gt; lia).
  destruct (ExecuteQuery_frame_done wb) as [wb' ->]. rewrite bind_Done.
  destruct (TWriteBuffer.Overflowed wb').
  - assert (H : forall d w, effort_after d w (Trace c) (failed c)).
    { intros d w. exists QUERY_STATUS_FAILED, TReadBuffer.zero, c, [].
      rewrite app_nil_r. repeat split; simpl; lia. }
    auto.
  - change (Z.to_nat MaxAttempts) with 2%nat. now apply effort_total.
Qed.

(** [Connect] dials once and writes its login request at most once. *)
Lemma Connect_effort (cfg : Config) : connect_effort (Connect cfg).
Proof.
  intros c. unfold Connect. destruct (Handle c) eqn:Hc.
  - exists false, c, []. rewrite app_nil_r. repeat split; simpl; (discriminate || lia).
  - assert (Hd : Trace (net_Dial c) = Trace c ++ [OpDial])
      by (unfold net_Dial, io; reflexivity).
    cbv zeta. destruct (Handle (net_Dial c)) eqn:Hh; cbn [negb].
    + set (wb := TWriteBuffer.WriteString _ _).
      assert (Hpos : 2 < TWriteBuffer.Position wb).
      { subst wb. pose proof (WriteString_Position
          (TWriteBuffer.Write8 (PrepareQuery QUERY_LOGIN (byte_array 1024))
                               APPLICATION_TYPE_WEB)
          (g_QueryManagerPassword cfg)) as H.
        assert (E : TWriteBuffer.Position
                      (TWriteBuffer.Write8 (PrepareQuery QUERY_LOGIN (byte_array 1024))
                                           APPLICATION_TYPE_WEB) = 4) by reflexivity.
        rewrite E in H. lia. }
      destruct (ExecuteQuery_with_returned Connect_unreachable false wb (net_Dial c)
                  (or_intror eq_refl) Hpos)
        as (St & rb & c' & HE & Hc' & _).
      destruct (ExecuteQuery_with_effort Connect_unreachable false wb (net_Dial c)
                  (or_intror eq_refl) Hpos)
        as (_ & _ & Heff).
      destruct (Heff eq_refl) as (St' & rb' & c'' & ops & HE' & Hops & Hds & Hws).
      rewrite HE in HE'. injection HE' as <- <- <-.
      rewrite HE, bind_Done. rewrite Hd, <- app_assoc in Hops.
      destruct (St =? QUERY_STATUS_OK) eqn:HSt; simpl.
      * exists true, c', ([OpDial] ++ ops). split; [reflexivity|]. split.
        -- intros _. destruct Hc' as [Hc'|[Hf _]]; [assumption|].
           apply Z.eqb_eq in HSt. subst St. discriminate.
        -- rewrite dials_app, writes_app. simpl. repeat split; (assumption || lia).
      * unfold Disconnect. destruct (Handle c').
        -- exists false, {| Handle := false; Net := Net c';
                            Trace := Trace c' ++ [OpClose] |},
                  ([OpDial] ++ ops ++ [OpClose]).
           split; [reflexivity|]. split; [discriminate|]. simpl.
           rewrite Hops, <- !app_assoc, !dials_app, !writes_app. simpl.
           repeat split; lia.
        -- exists false, c', ([OpDial] ++ ops). split; [reflexivity|].
           split; [discriminate|].
           rewrite dials_app, writes_app. simpl. repeat split; (assumption || lia).
    + exists false, (net_Dial c), [OpDial]. split; [reflexivity|].
      split; [discriminate|]. simpl. repeat split; (assumption || lia).
Qed.

(** X7.  One call of [ExecuteQuery] dials at most twice and writes at
    most four times (its request at most twice, and a login request with
    each dial); on a connection that is up it dials at most once, and
    without [AutoReconnect] it never dials and writes at most once. *)
Theorem ExecuteQuery_bounded_effort
        (cfg : Config) (AutoReconnect : bool) (wb : TWriteBuffer.t)
        (c : TQueryManagerConnection) :
  2 < TWriteBuffer.Position wb ->
  effort_after 2 4 (Trace c) (ExecuteQuery cfg AutoReconnect (Some wb) c) /\
  (Handle c = true ->
   effort_after 1 3 (Trace c) (ExecuteQuery cfg AutoReconnect (Some wb) c)) /\
  (AutoReconnect = false ->
   effort_after 0 1 (Trace c) (ExecuteQuery cfg AutoReconnect (Some wb) c)).
Proof.
  intros Hpos. apply ExecuteQuery_with_effort; [|assumption].
  left. apply Connect_effort.
Qed.

Lemma ExecuteQuery_bounded_effort_witness :
  effort_after 2 4 []
    (ExecuteQuery example_cfg true (Some example_request)
       (disconnected [IoOk []; IoOk []; IoOk [1; 0]; IoOk [0]; IoErr;
                      IoOk []; IoOk []; IoOk [1; 0]; IoOk [0];
                      IoOk []; IoOk [2; 0]; IoOk [0; 7]])) /\
  (exists ReadBuffer c,
      ExecuteQuery example_cfg true (Some example_request)
        (disconnected [IoOk []; IoOk []; IoOk [1; 0]; IoOk [0]; IoErr;
                       IoOk []; IoOk []; IoOk [1; 0]; IoOk [0];
                       IoOk []; IoOk [2; 0]; IoOk [0; 7]]) =
      Done (QUERY_STATUS_OK, ReadBuffer, c) /\
      dials (Trace c) = 2%nat /\ writes (Trace c) = 4%nat).
Proof.
  split.
  - exact (proj1 (ExecuteQuery_bounded_effort example_cfg true example_request
                    (disconnected [IoOk []; IoOk []; IoOk [1; 0]; IoOk [0]; IoErr;
                                   IoOk []; IoOk []; IoOk [1; 0]; IoOk [0];
                                   IoOk []; IoOk [2; 0]; IoOk [0; 7]])
                    ltac:(simpl; lia))).
  - do 2 eexists. split; [vm_compute; reflexivity|].
    split; vm_compute; reflexivity.
Defined.



(** *** Requests *)

(** A request: the buffer after [PrepareQuery] and the writes [ops]. *)
Definition request (QueryType : Z) (Buffer : list Z) (ops : list write_op)
  : TWriteBuffer.t :=
  fold_left apply_write ops (PrepareQuery QueryType Buffer).

Lemma request_layout (QueryType : Z) (Buffer : list Z) (ops : list write_op) :
  let wb := request QueryType Buffer ops in
  let size := 3 + Z.of_nat (length (encodings ops)) in
  TWriteBuffer.Position wb = size /\
  length (TWriteBuffer.Buffer wb) = length Buffer /\
  TWriteBuffer.Overflowed wb = negb (size <=? Z.of_nat (length Buffer)) /\
  (size <= Z.of_nat (length Buffer) ->
   written wb = [0; 0; uint8 QueryType] ++ encodings ops).
Proof.
  intros wb size.
  pose (wb0 := {| TWriteBuffer.Buffer := Buffer; TWriteBuffer.Position := 0 |}).
  assert (Hwb : wb = fold_left apply_write
                       ([Op16 0; Op8 (uint8 QueryType)] ++ ops) wb0)
    by (rewrite fold_left_app; reflexivity).
  destruct (fold_apply_write ([Op16 0; Op8 (uint8 QueryType)] ++ ops) wb0
              ltac:(simpl; lia)) as (HP & HL & HO & HA).
  rewrite <- Hwb in *. cbv zeta in *.
  assert (Henc : encodings ([Op16 0; Op8 (uint8 QueryType)] ++ ops) =
                 [0; 0; uint8 QueryType] ++ encodings ops).
  { unfold encodings. rewrite fmap_app, concat_app. reflexivity. }
  rewrite Henc, length_app in *. simpl length in *. simpl in HP, HL.
  unfold TWriteBuffer.CanWrite in HO. simpl in HO.
  assert (Hs : 0 + Z.of_nat (S (S (S (length (encodings ops))))) = size)
    by (unfold size; lia).
  rewrite Hs in *.
  split; [exact HP|]. split; [exact HL|]. split; [exact HO|].
  intros Hfit. assert (Hno : TWriteBuffer.Overflowed wb = false).
  { rewrite HO. apply negb_false_iff, Z.leb_le. exact Hfit. }
  destruct (HA Hno) as (_ & HW & _). exact HW.
Qed.

(** X9.  [ExecuteQuery] sends nothing and leaves the connection as it is,
    returning the failure status with an empty [ReadBuffer], when the
    request has overflowed its buffer, and when the connection is down
    and [AutoReconnect] is off. *)
Theorem ExecuteQuery_sends_nothing
        (cfg : Config) (wb : TWriteBuffer.t) (c : TQueryManagerConnection) :
  2 < TWriteBuffer.Position wb ->
  (TWriteBuffer.Overflowed wb = true ->
   forall AutoReconnect : bool,
     ExecuteQuery cfg AutoReconnect (Some wb) c =
     Done (QUERY_STATUS_FAILED, TReadBuffer.zero, c)) /\
  (Handle c = false ->
   ExecuteQuery cfg false (Some wb) c =
   Done (QUERY_STATUS_FAILED, TReadBuffer.zero, c)).
Proof.
  intros Hpos. split.
  - intros Ho AutoReconnect. now apply ExecuteQuery_overflowed.
  - intros Hc. now apply ExecuteQuery_down.
Qed.

Lemma ExecuteQuery_sends_nothing_witness :
  let wb := request QUERY_GET_CHARACTER_PROFILE (byte_array 8)
                    [OpString [72; 101; 108; 108; 111]] in
  ExecuteQuery example_cfg true (Some wb) (connected [IoOk []; IoOk [1; 0]; IoOk [0]]) =
  Done (QUERY_STATUS_FAILED, TReadBuffer.zero,
        connected [IoOk []; IoOk [1; 0]; IoOk [0]]).
Proof.
  exact (proj1 (ExecuteQuery_sends_nothing example_cfg
                  (request QUERY_GET_CHARACTER_PROFILE (byte_array 8)
                           [OpString [72; 101; 108; 108; 111]])
                  (connected [IoOk []; IoOk [1; 0]; IoOk [0]])
                  ltac:(vm_compute; reflexivity))
               ltac:(vm_compute; reflexivity) true).
Defined.

(** A request that fits is written, framed, as the first thing on a
    connection that is up. *)
Lemma request_sent
        (cfg : Config) (AutoReconnect : bool) (QueryType : Z) (Buffer : list Z)
        (ops : list write_op) (c : TQueryManagerConnection) :
  let payload := uint8 QueryType :: encodings ops in
  Z.of_nat (length payload) + 2 <= Z.of_nat (length Buffer) ->
  Z.of_nat (length payload) < 0xFFFF ->
  Handle c = true ->
  returned_after
    (Trace c ++ [OpWrite (LittleEndian_bytes16 (Z.of_nat (length payload)) ++ payload)])
    (ExecuteQuery cfg AutoReconnect (Some (request QueryType Buffer ops)) c).
Proof.
  intros payload Hfit Hsmall Hc.
  destruct (request_layout QueryType Buffer ops) as (HP & HL & _ & HW).
  set (wb := request QueryType Buffer ops) in *. cbv zeta in *.
  assert (Hlen : Z.of_nat (length payload) = 1 + Z.of_nat (length (encodings ops)))
    by (unfold payload; simpl length; lia).
  specialize (HW ltac:(lia)).
  rewrite (ExecuteQuery_small_is_loop cfg AutoReconnect wb c) by lia.
  destruct (ExecuteQuery_loop_first_up (Connect cfg) AutoReconnect
              (LittleEndian_bytes16 (TWriteBuffer.Position wb - 2)
                 ++ drop 2 (TWriteBuffer.Buffer wb))
              (TWriteBuffer.Position wb) 0 c (or_introl (Connect_ok cfg)) Hc)
    as [Hr _].
  replace (LittleEndian_bytes16 (Z.of_nat (length payload)) ++ payload)
    with (take (Z.to_nat (TWriteBuffer.Position wb))
               (LittleEndian_bytes16 (TWriteBuffer.Position wb - 2)
                  ++ drop 2 (TWriteBuffer.Buffer wb))); [exact Hr|].
  replace (TWriteBuffer.Position wb - 2) with (Z.of_nat (length payload)) by lia.
  replace (Z.to_nat (TWriteBuffer.Position wb))
    with (2 + length payload)%nat by lia.
  change 2%nat with (length (LittleEndian_bytes16 (Z.of_nat (length payload)))) at 1.
  rewrite take_app_add. f_equal.
  rewrite take_drop_commute.
  replace (2 + length payload)%nat with (Z.to_nat (TWriteBuffer.Position wb)) by lia.
  fold (written wb). rewrite HW. reflexivity.
Qed.

(** X10.  The request on the wire.  For a request whose writes fit its
    buffer and whose payload is shorter than 0xFFFF bytes, the first
    thing [ExecuteQuery] does on a connection that is up is to write the
    payload length as two bytes, least significant first, then the query
    type and the encodings of the values written, in order; the length
    counts the type byte and the encodings, not itself. *)
Theorem request_on_the_wire
        (cfg : Config) (AutoReconnect : bool) (QueryType : Z) (Buffer : list Z)
        (ops : list write_op) (c : TQueryManagerConnection) :
  let payload := uint8 QueryType :: encodings ops in
  Z.of_nat (length payload) + 2 <= Z.of_nat (length Buffer) ->
  Z.of_nat (length payload) < 0xFFFF ->
  Handle c = true ->
  returned_after
    (Trace c ++ [OpWrite (LittleEndian_bytes16 (Z.of_nat (length payload)) ++ payload)])
    (ExecuteQuery cfg AutoReconnect (Some (request QueryType Buffer ops)) c).
Proof. exact (request_sent cfg AutoReconnect QueryType Buffer ops c). Qed.

Lemma request_on_the_wire_witness :
  returned_after
    ([] ++ [OpWrite ([12; 0] ++ [10; 7; 0; 0; 0; 2; 0; 112; 119; 1; 0; 49])])
    (ExecuteQuery example_cfg true
       (Some (request QUERY_CHECK_ACCOUNT_PASSWORD (byte_array 1024)
                      [Op32 7; OpString [112; 119]; OpString [49]]))
       (connected [])).
Proof.
  exact (request_on_the_wire example_cfg true QUERY_CHECK_ACCOUNT_PASSWORD
           (byte_array 1024) [Op32 7; OpString [112; 119]; OpString [49]]
           (connected []) ltac:(vm_compute; discriminate)
           ltac:(vm_compute; reflexivity) eq_refl).
Defined.

(** *** The commands *)

Lemma request_Position (QueryType : Z) (Buffer : list Z) (ops : list write_op) :
  2 < TWriteBuffer.Position (request QueryType Buffer ops).
Proof. destruct (request_layout QueryType Buffer ops) as (-> & _). lia. Qed.


Section Commands.

Variable cfg : Config.







Lemma length_encoding_string (String : list Z) :
  (2 + length (UTF8ToLatin1 String) <= length (encoding (OpString String)))%nat.
Proof.
  cbn [encoding]. rewrite length_app, length_string_header.
  destruct (_ <? 0xFFFF); lia.
Qed.

Lemma command_oversize (Max : Z) (QueryType : Z) (ops : list write_op)
      (c : TQueryManagerConnection) :
  1024 < 3 + Z.of_nat (length (encodings ops)) ->
  ('(Status, ReadBuffer, c) ←
     ExecuteQuery cfg true (Some (request QueryType (byte_array 1024) ops)) c;
   if Status =? QUERY_STATUS_OK then Done (0, c)
   else if Status =? QUERY_STATUS_ERROR then
     let '(ErrorCode, ReadBuffer) := TReadBuffer.Read8 ReadBuffer in
     if (1 <=? ErrorCode) && (ErrorCode <=? Max)
     then Done (ErrorCode, c) else Done (-1, c)
   else Done (-1, c)) = Done (-1, c).
Proof.
  intros Hbig.
  destruct (request_layout QueryType (byte_array 1024) ops) as (HP & _ & HO & _).
  cbv zeta in *.
  rewrite ExecuteQuery_overflowed.
  - reflexivity.
  - rewrite HP. lia.
  - rewrite HO. apply negb_true_iff, Z.leb_gt.
    unfold byte_array. rewrite length_replicate. lia.
Qed.

(** X12.  A command whose strings do not fit the 1024 bytes of its
    request buffer is not sent: the call returns -1 and the connection is
    as it was, not even dialled.  The strings count in their Latin-1
    rendering; the limit is 1013 bytes for the two strings of
    [CheckAccountPassword] and of [CreateAccount], 1012 for those of
    [CreateCharacter]. *)
Theorem oversize_command_not_sent (c : TQueryManagerConnection) :
  (forall (AccountID : Z) (Password IPAddress : list Z),
      (1013 < length (UTF8ToLatin1 Password) + length (UTF8ToLatin1 IPAddress))%nat ->
      Connection.CheckAccountPassword cfg AccountID Password IPAddress c =
      Done (-1, c)) /\
  (forall (AccountID : Z) (Email Password : list Z),
      (1013 < length (UTF8ToLatin1 Email) + length (UTF8ToLatin1 Password))%nat ->
      Connection.CreateAccount cfg AccountID Email Password c = Done (-1, c)) /\
  (forall (World : list Z) (AccountID : Z) (Name : list Z) (Sex : Z),
      (1012 < length (UTF8ToLatin1 World) + length (UTF8ToLatin1 Name))%nat ->
      Connection.CreateCharacter cfg World AccountID Name Sex c = Done (-1, c)).
Proof.
  split; [|split].
  - intros AccountID Password IPAddress Hbig.
    apply (command_oversize 4 QUERY_CHECK_ACCOUNT_PASSWORD
             [Op32 (uint32 AccountID); OpString Password; OpString IPAddress]).
    pose proof (length_encoding_string Password).
    pose proof (length_encoding_string IPAddress).
    assert (length (LittleEndian_bytes32 (uint32 AccountID)) = 4%nat) by reflexivity.
    unfold encodings. cbn [fmap list_fmap concat]. rewrite !length_app.
    cbn [encoding length] in *. lia.
  - intros AccountID Email Password Hbig.
    apply (command_oversize 2 QUERY_CREATE_ACCOUNT
             [Op32 (uint32 AccountID); OpString Email; OpString Password]).
    pose proof (length_encoding_string Email).
    pose proof (length_encoding_string Password).
    assert (length (LittleEndian_bytes32 (uint32 AccountID)) = 4%nat) by reflexivity.
    unfold encodings. cbn [fmap list_fmap concat]. rewrite !length_app.
    cbn [encoding length] in *. lia.
  - intros World AccountID Name Sex Hbig.
    apply (command_oversize 3 QUERY_CREATE_CHARACTER
             [OpString World; Op32 (uint32 AccountID); OpString Name; Op8 (uint8 Sex)]).
    pose proof (length_encoding_string World).
    pose proof (length_encoding_string Name).
    assert (length (LittleEndian_bytes32 (uint32 AccountID)) = 4%nat) by reflexivity.
    unfold encodings. cbn [fmap list_fmap concat]. rewrite !length_app.
    cbn [encoding length] in *. lia.
Qed.

End Commands.

Lemma oversize_command_not_sent_witness :
  Connection.CheckAccountPassword example_cfg 7 (replicate 1000 97) (replicate 14 49)
    (connected [IoOk []; IoOk [1; 0]; IoOk [0]]) =
  Done (-1, connected [IoOk []; IoOk [1; 0]; IoOk [0]]).
Proof.
  exact (proj1 (oversize_command_not_sent example_cfg
                  (connected [IoOk []; IoOk [1; 0]; IoOk [0]]))
               7 (replicate 1000 97) (replicate 14 49)
               ltac:(vm_compute; lia)).
Defined.

(** ** The integers of the protocol (C2) *)

(** The bytes of a 16-bit and of a 32-bit value, least significant
    first. *)
Definition le16 (v : Z) : list Z := [v mod 256; v / 256 mod 256].

Definition le32 (v : Z) : list Z :=
  [v mod 256; v / 256 mod 256; v / 65536 mod 256; v / 16777216 mod 256].

Lemma LittleEndian_bytes16_le16 (v : Z) : LittleEndian_bytes16 v = le16 v.
Proof.
  unfold LittleEndian_bytes16, le16, uint8.
  now rewrite Z.shiftr_div_pow2 by lia.
Qed.

Lemma LittleEndian_bytes32_le32 (v : Z) : LittleEndian_bytes32 v = le32 v.
Proof.
  unfold LittleEndian_bytes32, le32, uint8.
  now rewrite !Z.shiftr_div_pow2 by lia.
Qed.

Lemma LittleEndian_Uint16_value (b0 b1 : Z) (rest : list Z) :
  0 <= b0 < 256 ->
  LittleEndian_Uint16 (b0 :: b1 :: rest) = b0 + 256 * b1.
Proof.
  intros H0. unfold LittleEndian_Uint16, at_index. simpl.
  rewrite (lor_shiftl_add b0 b1 8) by lia. lia.
Qed.

Lemma le16_value (v : Z) : 0 <= v < 65536 -> v mod 256 + 256 * (v / 256 mod 256) = v.
Proof. intros H. Z.div_mod_to_equations. lia. Qed.

Lemma le32_value (v : Z) :
  0 <= v < 4294967296 ->
  v mod 256 + 256 * (v / 256 mod 256) + 65536 * (v / 65536 mod 256)
    + 16777216 * (v / 16777216 mod 256) = v.
Proof. intros H. Z.div_mod_to_equations. lia. Qed.

(** The length prefix of a string of [Length] bytes on the wire. *)
Definition length_prefix (Length : Z) : list Z :=
  if Length <? 0xFFFF then le16 Length else [0xFF; 0xFF] ++ le32 Length.

Lemma string_header_length_prefix (Length : Z) :
  0 <= Length < 4294967296 -> string_header Length = length_prefix Length.
Proof.
  intros H. unfold string_header, length_prefix.
  destruct (Length <? 0xFFFF) eqn:E.
  - apply Z.ltb_lt in E. unfold uint16. rewrite Z.mod_small by lia.
    apply LittleEndian_bytes16_le16.
  - unfold uint32. rewrite Z.mod_small by lia.
    now rewrite LittleEndian_bytes32_le32.
Qed.

(** A field of a response, as the backend puts it on the wire; a string
    is given by its Latin-1 bytes. *)
Inductive field : Type :=
| F8 (Value : Z)
| FFlag (Value : bool)
| F16 (Value : Z)
| F32 (Value : Z)
| FString (Latin1 : list Z).

Definition wire (f : field) : list Z :=
  match f with
  | F8 Value => [Value]
  | FFlag Value => [if Value then 1 else 0]
  | F16 Value => le16 Value
  | F32 Value => le32 Value
  | FString Latin1 => length_prefix (Z.of_nat (length Latin1)) ++ Latin1
  end.

Definition wires (fs : list field) : list Z := concat (wire <$> fs).

(** The values a field can hold. *)
Definition field_ok (f : field) : Prop :=
  match f with
  | F8 Value => 0 <= Value < 256
  | FFlag _ => True
  | F16 Value => 0 <= Value < 65536
  | F32 Value => 0 <= Value < 4294967296
  | FString Latin1 => Z.of_nat (length Latin1) < 4294967296
  end.

Lemma wires_cons (f : field) (fs : list field) (rest : list Z) :
  wires (f :: fs) ++ rest = wire f ++ (wires fs ++ rest).
Proof. unfold wires. simpl. now rewrite app_assoc. Qed.

Lemma wires_app (fs gs : list field) : wires (fs ++ gs) = wires fs ++ wires gs.
Proof. unfold wires. now rewrite fmap_app, concat_app. Qed.

(** Reading the field that is at the cursor. *)
Lemma read_wire (f : field) (rb : TReadBuffer.t) (rest : list Z) :
  0 <= TReadBuffer.Position rb ->
  field_ok f ->
  TReadBuffer.tail rb = wire f ++ rest ->
  let rb' := TReadBuffer.advance rb (Z.of_nat (length (wire f))) in
  TReadBuffer.tail rb' = rest /\
  0 <= TReadBuffer.Position rb' /\
  match f with
  | F8 Value => TReadBuffer.Read8 rb = (Value, rb')
  | FFlag Value => TReadBuffer.ReadFlag rb = (Value, rb')
  | F16 Value => TReadBuffer.Read16 rb = (Value, rb')
  | F32 Value => TReadBuffer.Read32 rb = (Value, rb')
  | FString Latin1 => TReadBuffer.ReadString rb = (Latin1ToUTF8 Latin1, rb')
  end.
Proof.
  intros Hp Hok Ht rb'. split; [|split].
  - unfold rb'. rewrite tail_advance, Ht by lia. rewrite Nat2Z.id.
    apply drop_app_length.
  - unfold rb', TReadBuffer.advance. simpl. lia.
  - destruct f as [v|b|v|v|o]; cbn [wire field_ok] in *.
    + apply (Read8_at rb v rest Hp Ht).
    + unfold TReadBuffer.ReadFlag. rewrite (Read8_at rb _ rest Hp Ht).
      now destruct b.
    + rewrite <- LittleEndian_bytes16_le16 in Ht.
      apply (Read16_at rb v rest Hp Hok Ht).
    + rewrite <- LittleEndian_bytes32_le32 in Ht.
      apply (Read32_at rb v rest Hp Hok Ht).
    + unfold rb'. rewrite <- string_header_length_prefix in * by lia.
      rewrite <- app_assoc in Ht.
      apply (ReadString_at rb o rest Hp Hok Ht).
Qed.

(** One step of a decoder: the next field of the response is read. *)
Ltac read_field :=
  match goal with
  | Ht : TReadBuffer.tail ?rb = wires (?f :: ?fs) ++ ?rest,
    Hp : 0 <= TReadBuffer.Position ?rb,
    Hok : Forall field_ok (?f :: ?fs) |- _ =>
    let Ht' := fresh "Ht" in
    let Hp' := fresh "Hp" in
    let E := fresh "E" in
    let Hf := fresh "Hf" in
    let Hok' := fresh "Hok" in
    let rb' := fresh "rb" in
    rewrite wires_cons in Ht;
    apply Forall_cons in Hok as [Hf Hok'];
    destruct (read_wire f rb _ Hp Hf Ht) as (Ht' & Hp' & E);
    set (rb' := TReadBuffer.advance rb _) in *;
    cbv iota beta in E; rewrite E; clear E Ht Hp Hf;
    cbv iota beta
  end.

Section TypedResponses.

Variable cfg : Config.

(** The response of "get character profile", decoded. *)
Lemma GetCharacterProfile_decodes
      (CharacterName : list Z) (c c' : TQueryManagerConnection)
      (rb : TReadBuffer.t) (rest : list Z)
      (Name World : list Z) (Sex : Z) (Guild Rank Title : list Z) (Level : Z)
      (Profession Residence : list Z) (LastLogin PremiumDays : Z)
      (Online Deleted : bool) :
  ExecuteQuery cfg true
    (Some (request QUERY_GET_CHARACTER_PROFILE (byte_array 16384)
                   [OpString CharacterName])) c =
    Done (QUERY_STATUS_OK, rb, c') ->
  0 <= TReadBuffer.Position rb ->
  Forall field_ok
         [FString Name; FString World; F8 Sex; FString Guild; FString Rank;
          FString Title; F16 Level; FString Profession; FString Residence;
          F32 LastLogin; F16 PremiumDays; FFlag Online; FFlag Deleted] ->
  TReadBuffer.tail rb =
    wires [FString Name; FString World; F8 Sex; FString Guild; FString Rank;
           FString Title; F16 Level; FString Profession; FString Residence;
           F32 LastLogin; F16 PremiumDays; FFlag Online; FFlag Deleted] ++ rest ->
  Connection.GetCharacterProfile cfg CharacterName c =
  Done (0,
        TCharacterProfile.Build
          (Latin1ToUTF8 Name) (Latin1ToUTF8 World) Sex (Latin1ToUTF8 Guild)
          (Latin1ToUTF8 Rank) (Latin1ToUTF8 Title) Level (Latin1ToUTF8 Profession)
          (Latin1ToUTF8 Residence) LastLogin PremiumDays Online Deleted,
        c').
Proof.
  intros HE Hp Hok Ht. unfold Connection.GetCharacterProfile.
  unfold request in HE. cbn [fold_left apply_write] in HE.
  cbv zeta. rewrite HE, bind_Done.
  change (QUERY_STATUS_OK =? QUERY_STATUS_OK) with true. cbv iota.
  do 13 read_field. reflexivity.
Qed.

(** The records of the list responses, as they are on the wire
    (strings in Latin-1) and as they are decoded. *)
Definition character_summary_fields (r : TCharacterSummary.t) : list field :=
  [FString (TCharacterSummary.Name r); FString (TCharacterSummary.World r);
   F16 (TCharacterSummary.Level r); FString (TCharacterSummary.Profession r);
   FFlag (TCharacterSummary.Online r); FFlag (TCharacterSummary.Deleted r)].

Definition character_summary_decoded (r : TCharacterSummary.t) : TCharacterSummary.t :=
  TCharacterSummary.Build
    (Latin1ToUTF8 (TCharacterSummary.Name r)) (Latin1ToUTF8 (TCharacterSummary.World r))
    (TCharacterSummary.Level r) (Latin1ToUTF8 (TCharacterSummary.Profession r))
    (TCharacterSummary.Online r) (TCharacterSummary.Deleted r).

Definition online_character_fields (r : TOnlineCharacter.t) : list field :=
  [FString (TOnlineCharacter.Name r); F16 (TOnlineCharacter.Level r);
   FString (TOnlineCharacter.Profession r)].

Definition online_character_decoded (r : TOnlineCharacter.t) : TOnlineCharacter.t :=
  TOnlineCharacter.Build
    (Latin1ToUTF8 (TOnlineCharacter.Name r)) (TOnlineCharacter.Level r)
    (Latin1ToUTF8 (TOnlineCharacter.Profession r)).

Definition kill_statistics_fields (r : TKillStatistics.t) : list field :=
  [FString (TKillStatistics.RaceName r); F32 (TKillStatistics.PlayersKilled r);
   F32 (TKillStatistics.TimesKilled r)].

Definition kill_statistics_decoded (r : TKillStatistics.t) : TKillStatistics.t :=
  TKillStatistics.Build
    (Latin1ToUTF8 (TKillStatistics.RaceName r)) (TKillStatistics.TimesKilled r)
    (TKillStatistics.PlayersKilled r).

(** A world in the response: its type is a byte there. *)
Record world_record : Type := {
  world_Name : list Z;
  world_Type : Z;
  world_NumPlayers : Z;
  world_MaxPlayers : Z;
  world_OnlinePeak : Z;
  world_OnlinePeakTimestamp : Z;
  world_LastStartup : Z;
  world_LastShutdown : Z
}.

Definition world_fields (r : world_record) : list field :=
  [FString (world_Name r); F8 (world_Type r); F16 (world_NumPlayers r);
   F16 (world_MaxPlayers r); F16 (world_OnlinePeak r);
   F32 (world_OnlinePeakTimestamp r); F32 (world_LastStartup r);
   F32 (world_LastShutdown r)].

Definition world_decoded (r : world_record) : TWorld.t :=
  TWorld.Build (Latin1ToUTF8 (world_Name r)) (WorldTypeString (world_Type r))
               (world_NumPlayers r) (world_MaxPlayers r) (world_OnlinePeak r)
               (world_OnlinePeakTimestamp r) (world_LastStartup r)
               (world_LastShutdown r).

(** The hypotheses on the cursor that the decoders thread. *)
Ltac read_rest IH :=
  match goal with
  | Ht : TReadBuffer.tail ?rb = wires _ ++ ?rest,
    Hp : 0 <= TReadBuffer.Position ?rb,
    Hok : Forall field_ok _ |- _ =>
    let rb' := fresh "rb" in
    let E := fresh "E" in
    destruct (IH rb rest Hp Hok Ht) as (rb' & E & ? & ?);
    rewrite E; cbv iota beta
  end.

Lemma read_character_summaries_wire (rs : list TCharacterSummary.t) :
  forall (rb : TReadBuffer.t) (rest : list Z),
    0 <= TReadBuffer.Position rb ->
    Forall field_ok (concat (character_summary_fields <$> rs)) ->
    TReadBuffer.tail rb = wires (concat (character_summary_fields <$> rs)) ++ rest ->
    exists rb',
      read_character_summaries (length rs) rb = (character_summary_decoded <$> rs, rb') /\
      TReadBuffer.tail rb' = rest /\ 0 <= TReadBuffer.Position rb'.
Proof.
  induction rs as [|r rs IH]; intros rb rest Hp Hok Ht.
  - exists rb. auto.
  - cbn [fmap list_fmap concat character_summary_fields app length
              read_character_summaries] in *.
    do 6 read_field. read_rest IH. eauto.
Qed.

Lemma read_online_characters_wire (rs : list TOnlineCharacter.t) :
  forall (rb : TReadBuffer.t) (rest : list Z),
    0 <= TReadBuffer.Position rb ->
    Forall field_ok (concat (online_character_fields <$> rs)) ->
    TReadBuffer.tail rb = wires (concat (online_character_fields <$> rs)) ++ rest ->
    exists rb',
      read_online_characters (length rs) rb = (online_character_decoded <$> rs, rb') /\
      TReadBuffer.tail rb' = rest /\ 0 <= TReadBuffer.Position rb'.
Proof.
  induction rs as [|r rs IH]; intros rb rest Hp Hok Ht.
  - exists rb. auto.
  - cbn [fmap list_fmap concat online_character_fields app length
              read_online_characters] in *.
    do 3 read_field. read_rest IH. eauto.
Qed.

Lemma read_kill_statistics_wire (rs : list TKillStatistics.t) :
  forall (rb : TReadBuffer.t) (rest : list Z),
    0 <= TReadBuffer.Position rb ->
    Forall field_ok (concat (kill_statistics_fields <$> rs)) ->
    TReadBuffer.tail rb = wires (concat (kill_statistics_fields <$> rs)) ++ rest ->
    exists rb',
      read_kill_statistics (length rs) rb = (kill_statistics_decoded <$> rs, rb') /\
      TReadBuffer.tail rb' = rest /\ 0 <= TReadBuffer.Position rb'.
Proof.
  induction rs as [|r rs IH]; intros rb rest Hp Hok Ht.
  - exists rb. auto.
  - cbn [fmap list_fmap concat kill_statistics_fields app length
              read_kill_statistics] in *.
    do 3 read_field. read_rest IH. eauto.
Qed.

Lemma read_worlds_wire (rs : list world_record) :
  forall (rb : TReadBuffer.t) (rest : list Z),
    0 <= TReadBuffer.Position rb ->
    Forall field_ok (concat (world_fields <$> rs)) ->
    TReadBuffer.tail rb = wires (concat (world_fields <$> rs)) ++ rest ->
    exists rb',
      read_worlds (length rs) rb = (world_decoded <$> rs, rb') /\
      TReadBuffer.tail rb' = rest /\ 0 <= TReadBuffer.Position rb'.
Proof.
  induction rs as [|r rs IH]; intros rb rest Hp Hok Ht.
  - exists rb. auto.
  - cbn [fmap list_fmap concat world_fields app length read_worlds] in *.
    do 8 read_field. read_rest IH. eauto.
Qed.

(** The loop guard [if NumRecords > 0] around a record loop. *)
Lemma guarded_loop {A : Type} (read : nat -> TReadBuffer.t -> list A * TReadBuffer.t)
      (n : nat) (rb : TReadBuffer.t) :
  read 0%nat rb = ([], rb) ->
  (if 0 <? Z.of_nat n then read (Z.to_nat (Z.of_nat n)) rb else ([], rb)) = read n rb.
Proof.
  intros H0. rewrite Nat2Z.id. destruct n; [now rewrite H0|reflexivity].
Qed.

(** The response of "get account summary", decoded. *)
Lemma GetAccountSummary_decodes
      (AccountID : Z) (c c' : TQueryManagerConnection)
      (rb : TReadBuffer.t) (rest : list Z)
      (Email : list Z) (PremiumDays PendingPremiumDays : Z) (Deleted : bool)
      (Characters : list TCharacterSummary.t) :
  ExecuteQuery cfg true
    (Some (request QUERY_GET_ACCOUNT_SUMMARY (byte_array 16384)
                   [Op32 (uint32 AccountID)])) c =
    Done (QUERY_STATUS_OK, rb, c') ->
  0 <= TReadBuffer.Position rb ->
  let fields :=
    [FString Email; F16 PremiumDays; F16 PendingPremiumDays; FFlag Deleted;
     F8 (Z.of_nat (length Characters))]
      ++ concat (character_summary_fields <$> Characters) in
  Forall field_ok fields ->
  TReadBuffer.tail rb = wires fields ++ rest ->
  Connection.GetAccountSummary cfg AccountID c =
  Done (0,
        TAccountSummary.Build AccountID (Latin1ToUTF8 Email) PremiumDays
          PendingPremiumDays Deleted (character_summary_decoded <$> Characters),
        c').
Proof.
  intros HE Hp fields Hok Ht. unfold Connection.GetAccountSummary.
  unfold request in HE. cbn [fold_left apply_write] in HE.
  cbv zeta. rewrite HE, bind_Done.
  change (QUERY_STATUS_OK =? QUERY_STATUS_OK) with true. cbv iota.
  unfold fields in *. cbn [app] in *.
  do 5 read_field.
  rewrite (guarded_loop read_character_summaries) by reflexivity.
  read_rest (read_character_summaries_wire Characters). reflexivity.
Qed.

(** The response of "get worlds", decoded. *)
Lemma GetWorlds_decodes
      (c c' : TQueryManagerConnection) (rb : TReadBuffer.t) (rest : list Z)
      (Worlds : list world_record) :
  ExecuteQuery cfg true
    (Some (request QUERY_GET_WORLDS (byte_array 16384) [])) c =
    Done (QUERY_STATUS_OK, rb, c') ->
  0 <= TReadBuffer.Position rb ->
  let fields := F8 (Z.of_nat (length Worlds)) :: concat (world_fields <$> Worlds) in
  Forall field_ok fields ->
  TReadBuffer.tail rb = wires fields ++ rest ->
  Connection.GetWorlds cfg c = Done (0, world_decoded <$> Worlds, c').
Proof.
  intros HE Hp fields Hok Ht. unfold Connection.GetWorlds.
  unfold request in HE. cbn [fold_left apply_write] in HE.
  cbv zeta. rewrite HE, bind_Done.
  change (QUERY_STATUS_OK =? QUERY_STATUS_OK) with true. cbv iota.
  unfold fields in *.
  read_field.
  rewrite (guarded_loop read_worlds) by reflexivity.
  read_rest (read_worlds_wire Worlds). reflexivity.
Qed.

(** The response of "get online characters", decoded. *)
Lemma GetOnlineCharacters_decodes
      (World : list Z) (c c' : TQueryManagerConnection) (rb : TReadBuffer.t)
      (rest : list Z) (Characters : list TOnlineCharacter.t) :
  ExecuteQuery cfg true
    (Some (request QUERY_GET_ONLINE_CHARACTERS (byte_array 65536) [OpString World])) c =
    Done (QUERY_STATUS_OK, rb, c') ->
  0 <= TReadBuffer.Position rb ->
  let fields :=
    F16 (Z.of_nat (length Characters))
        :: concat (online_character_fields <$> Characters) in
  Forall field_ok fields ->
  TReadBuffer.tail rb = wires fields ++ rest ->
  Connection.GetOnlineCharacters cfg World c =
  Done (0, online_character_decoded <$> Characters, c').
Proof.
  intros HE Hp fields Hok Ht. unfold Connection.GetOnlineCharacters.
  unfold request in HE. cbn [fold_left apply_write] in HE.
  cbv zeta. rewrite HE, bind_Done.
  change (QUERY_STATUS_OK =? QUERY_STATUS_OK) with true. cbv iota.
  unfold fields in *.
  read_field.
  rewrite (guarded_loop read_online_characters) by reflexivity.
  read_rest (read_online_characters_wire Characters). reflexivity.
Qed.

(** The response of "get kill statistics", decoded. *)
Lemma GetKillStatistics_decodes
      (World : list Z) (c c' : TQueryManagerConnection) (rb : TReadBuffer.t)
      (rest : list Z) (Stats : list TKillStatistics.t) :
  ExecuteQuery cfg true
    (Some (request QUERY_GET_KILL_STATISTICS (byte_array 65536) [OpString World])) c =
    Done (QUERY_STATUS_OK, rb, c') ->
  0 <= TReadBuffer.Position rb ->
  let fields :=
    F16 (Z.of_nat (length Stats)) :: concat (kill_statistics_fields <$> Stats) in
  Forall field_ok fields ->
  TReadBuffer.tail rb = wires fields ++ rest ->
  Connection.GetKillStatistics cfg World c =
  Done (0, kill_statistics_decoded <$> Stats, c').
Proof.
  intros HE Hp fields Hok Ht. unfold Connection.GetKillStatistics.
  unfold request in HE. cbn [fold_left apply_write] in HE.
  cbv zeta. rewrite HE, bind_Done.
  change (QUERY_STATUS_OK =? QUERY_STATUS_OK) with true. cbv iota.
  unfold fields in *.
  read_field.
  rewrite (guarded_loop read_kill_statistics) by reflexivity.
  read_rest (read_kill_statistics_wire Stats). reflexivity.
Qed.

End TypedResponses.

Section TypedRequests.

Variable cfg : Config.

(** The call [r] of a typed query is one run of the executor on the
    request [wb]: it returns, on the connection the executor left. *)
Definition runs {A : Type} (wb : TWriteBuffer.t) (c : TQueryManagerConnection)
           (r : outcome (A * TQueryManagerConnection)) : Prop :=
  exists Status ReadBuffer c' (a : A),
    ExecuteQuery cfg true (Some wb) c = Done (Status, ReadBuffer, c') /\
    r = Done (a, c').

Ltac typed_query_runs :=
  match goal with
  | |- runs (request ?Q ?buf ?ops) ?c _ =>
    let HE := fresh "HE" in
    destruct (ExecuteQuery_returned cfg true (request Q buf ops) c
                                    (request_Position Q buf ops))
      as (St & rb & c' & HE & _);
    unfold runs; rewrite HE; exists St, rb, c';
    unfold request in HE; cbn [fold_left apply_write] in HE;
    cbv zeta; rewrite HE, bind_Done;
    repeat exec_case; eauto
  end.

(** The request of each typed query: the query type and the values
    written after it, in order. *)
Lemma typed_queries_run (c : TQueryManagerConnection) :
  (forall AccountID Password IPAddress,
      runs (request QUERY_CHECK_ACCOUNT_PASSWORD (byte_array 1024)
                    [Op32 (uint32 AccountID); OpString Password; OpString IPAddress]) c
           (Connection.CheckAccountPassword cfg AccountID Password IPAddress c)) /\
  (forall AccountID Email Password,
      runs (request QUERY_CREATE_ACCOUNT (byte_array 1024)
                    [Op32 (uint32 AccountID); OpString Email; OpString Password]) c
           (Connection.CreateAccount cfg AccountID Email Password c)) /\
  (forall World AccountID Name Sex,
      runs (request QUERY_CREATE_CHARACTER (byte_array 1024)
                    [OpString World; Op32 (uint32 AccountID); OpString Name;
                     Op8 (uint8 Sex)]) c
           (Connection.CreateCharacter cfg World AccountID Name Sex c)) /\
  (forall AccountID,
      runs (request QUERY_GET_ACCOUNT_SUMMARY (byte_array 16384)
                    [Op32 (uint32 AccountID)]) c
           (Connection.GetAccountSummary cfg AccountID c)) /\
  (forall CharacterName,
      runs (request QUERY_GET_CHARACTER_PROFILE (byte_array 16384)
                    [OpString CharacterName]) c
           (Connection.GetCharacterProfile cfg CharacterName c)) /\
  runs (request QUERY_GET_WORLDS (byte_array 16384) []) c
       (Connection.GetWorlds cfg c) /\
  (forall World,
      runs (request QUERY_GET_ONLINE_CHARACTERS (byte_array 65536) [OpString World]) c
           (Connection.GetOnlineCharacters cfg World c)) /\
  (forall World,
      runs (request QUERY_GET_KILL_STATISTICS (byte_array 65536) [OpString World]) c
           (Connection.GetKillStatistics cfg World c)).
Proof.
  repeat apply conj; intros.
  - unfold Connection.CheckAccountPassword. typed_query_runs.
  - unfold Connection.CreateAccount. typed_query_runs.
  - unfold Connection.CreateCharacter. typed_query_runs.
  - unfold Connection.GetAccountSummary. typed_query_runs.
  - unfold Connection.GetCharacterProfile. typed_query_runs.
  - unfold Connection.GetWorlds. typed_query_runs.
  - unfold Connection.GetOnlineCharacters. typed_query_runs.
  - unfold Connection.GetKillStatistics. typed_query_runs.
Qed.

End TypedRequests.

(** *** The length of a response *)

Section ResponseLength.

Variable K : TQueryManagerConnection -> outcome (bool * TQueryManagerConnection).
Variable AutoReconnect : bool.
Variable Buffer : list Z.
Variable WriteSize : Z.

Local Abbreviation loop := (ExecuteQuery_loop K AutoReconnect Buffer WriteSize).
Local Abbreviation request_bytes := (take (Z.to_nat WriteSize) Buffer).

(** A round whose exchange succeeds, the response length being given by
    the two bytes [s0], [s1]: it is [s0 + 256 * s1], and that many bytes
    are read as the body. *)
Lemma round_short_response
      (fuel : nat) (Attempt : Z) (c : TQueryManagerConnection)
      (w body : list Z) (s0 s1 : Z) :
  Handle c = true ->
  answer c 0 = IoOk w -> answer c 1 = IoOk [s0; s1] -> answer c 2 = IoOk body ->
  0 <= s0 < 256 -> 0 <= s1 < 256 ->
  let ResponseSize := s0 + 256 * s1 in
  ResponseSize <> 0xFFFF ->
  0 < ResponseSize <= Z.of_nat (length Buffer) ->
  exists Status ReadBuffer,
    loop (S fuel) Attempt c =
    Done (Status, ReadBuffer,
          {| Handle := true; Net := drop 3 (Net c);
             Trace := Trace c ++ [OpWrite request_bytes; OpRead 2;
                                  OpRead (Z.to_nat ResponseSize)] |}).
Proof.
  intros Hc H0 H1 H2 Hs0 Hs1 ResponseSize Hx Hr.
  assert (Hsz : LittleEndian_Uint16 [s0; s1] = ResponseSize)
    by (apply (LittleEndian_Uint16_value s0 s1 []); lia).
  apply Z.eqb_neq in Hx.
  assert (Hlo : (ResponseSize <=? 0) = false) by (apply Z.leb_gt; lia).
  assert (Hhi : (Z.of_nat (length Buffer) <? ResponseSize) = false)
    by (apply Z.ltb_ge; lia).
  cbn [ExecuteQuery_loop]. rewrite Hc, !bind_Done. cbn [negb].
  unfold Handle_Write, Handle_Read, io. rewrite Hc. unfold answer in *.
  destruct (Net c) as [|e0 [|e1 [|e2 net]]]; simpl in H0, H1, H2; subst;
    try discriminate.
  simpl. rewrite Hsz, Hx. simpl.
  rewrite Hlo, Hhi. simpl.
  eexists _, _. rewrite <- !app_assoc. reflexivity.
Qed.

(** The same after the sentinel 0xFFFF: the length is given by the four
    bytes that follow, least significant first. *)
Lemma round_extended_response
      (fuel : nat) (Attempt : Z) (c : TQueryManagerConnection)
      (w body : list Z) (b0 b1 b2 b3 : Z) :
  Handle c = true ->
  answer c 0 = IoOk w -> answer c 1 = IoOk [0xFF; 0xFF] ->
  answer c 2 = IoOk [b0; b1; b2; b3] -> answer c 3 = IoOk body ->
  0 <= b0 < 256 -> 0 <= b1 < 256 -> 0 <= b2 < 256 -> 0 <= b3 < 256 ->
  let ResponseSize := b0 + 256 * b1 + 65536 * b2 + 16777216 * b3 in
  0 < ResponseSize <= Z.of_nat (length Buffer) ->
  exists Status ReadBuffer,
    loop (S fuel) Attempt c =
    Done (Status, ReadBuffer,
          {| Handle := true; Net := drop 4 (Net c);
             Trace := Trace c ++ [OpWrite request_bytes; OpRead 2; OpRead 4;
                                  OpRead (Z.to_nat ResponseSize)] |}).
Proof.
  intros Hc H0 H1 H2 H3 Hb0 Hb1 Hb2 Hb3 ResponseSize Hr.
  unfold answer in *.
  destruct (Net c) as [|e0 [|e1 [|e2 [|e3 net]]]] eqn:Hn; simpl in H0, H1, H2, H3;
    subst; try discriminate.
  destruct (ExecuteQuery_loop_extended_size K AutoReconnect Buffer WriteSize fuel
              Attempt c w body b0 b1 b2 b3 net Hc Hn) as (Status & ReadBuffer & E).
  { rewrite LittleEndian_Uint32_value by assumption. exact Hr. }
  exists Status, ReadBuffer. rewrite E.
  now rewrite LittleEndian_Uint32_value by assumption.
Qed.

End ResponseLength.

Lemma WriteString_layout (wb : TWriteBuffer.t) (String : list Z) :
  0 <= TWriteBuffer.Position wb ->
  let Output := UTF8ToLatin1 String in
  let Length := Z.of_nat (length Output) in
  Length < 4294967296 ->
  TWriteBuffer.CanWrite wb (Z.of_nat (length (length_prefix Length ++ Output))) = true ->
  let wb' := TWriteBuffer.WriteString wb String in
  written wb' = written wb ++ length_prefix Length ++ Output /\
  TReadBuffer.ReadString (reader wb' (TWriteBuffer.Position wb)) =
    (Latin1ToUTF8 Output, reader wb' (TWriteBuffer.Position wb')).
Proof.
  intros Hpos Output Length Hlen Hcan wb'.
  rewrite <- string_header_length_prefix in * by lia.
  split.
  - destruct (apply_write_fits wb (OpString String) Hpos Hcan) as (_ & HW & _).
    exact HW.
  - exact (apply_write_read_back wb (OpString String) Hpos Hcan Hlen).
Qed.

Lemma encoding_little_endian :
  (forall Value, encoding (Op16 Value) = le16 Value) /\
  (forall Value, encoding (Op32 Value) = le32 Value) /\
  (forall String,
      Z.of_nat (length (UTF8ToLatin1 String)) < 4294967296 ->
      encoding (OpString String) =
      length_prefix (Z.of_nat (length (UTF8ToLatin1 String))) ++ UTF8ToLatin1 String).
Proof.
  split; [|split].
  - intros v. apply LittleEndian_bytes16_le16.
  - intros v. apply LittleEndian_bytes32_le32.
  - intros s Hs. cbn [encoding]. now rewrite string_header_length_prefix by lia.
Qed.

(** C2, as the code has it.  Every integer of the protocol is
    little-endian, the extended 32-bit lengths included; the big-endian
    variants of the codec are not used.
    - [Write16] and [Write32] store least significant byte first and
      [Read16] and [Read32] read them back;
    - [Insert32] splices its value least significant byte first;
    - a request whose payload length is at least 0xFFFF is framed as the
      sentinel 0xFFFF followed by that length, least significant byte
      first, and reading these four bytes little-endian gives the length
      back;
    - after the sentinel 0xFFFF the executor reads the response length
      little-endian, [b0 + 2^8 b1 + 2^16 b2 + 2^24 b3], before it reads
      that many bytes;
    - the bytes that [PutUint16] and [PutUint32] store are those of the
      value from the least significant up;
    - [WriteString] puts the length of the Latin-1 text before it, in
      two bytes, or as the sentinel 0xFFFF and four bytes, least
      significant first, and [ReadString] reads it back;
    - [Read8], [ReadFlag], [Read16], [Read32] and [ReadString] return the
      value of the field whose little-endian bytes are at the cursor;
    - a request with a payload shorter than 0xFFFF is framed by its
      length in two bytes, least significant first;
    - on whichever attempt, the two bytes [s0], [s1] of a response
      length are read as [s0 + 2^8 s1], and the four bytes after the
      sentinel as above;
    - each typed query runs the executor on the request made of its
      query type and of the values it writes with [Write8], [Write32]
      and [WriteString], which is sent as these little-endian bytes;
    - the typed queries decode the fields of a response, its 16- and
      32-bit integers being on the wire least significant byte first. *)
Theorem extended_lengths_little_endian :
  (forall (wb : TWriteBuffer.t) (Value : Z),
      0 <= TWriteBuffer.Position wb ->
      (TWriteBuffer.CanWrite wb 2 = true -> 0 <= Value < 65536 ->
       let written := TWriteBuffer.Buffer (TWriteBuffer.Write16 wb Value) in
       take 2 (drop (Z.to_nat (TWriteBuffer.Position wb)) written) =
         LittleEndian_bytes16 Value /\
       fst (TReadBuffer.Read16
              {| TReadBuffer.Buffer := written;
                 TReadBuffer.Position := TWriteBuffer.Position wb |}) = Value) /\
      (TWriteBuffer.CanWrite wb 4 = true -> 0 <= Value < 4294967296 ->
       let written := TWriteBuffer.Buffer (TWriteBuffer.Write32 wb Value) in
       take 4 (drop (Z.to_nat (TWriteBuffer.Position wb)) written) =
         LittleEndian_bytes32 Value /\
       fst (TReadBuffer.Read32
              {| TReadBuffer.Buffer := written;
                 TReadBuffer.Position := TWriteBuffer.Position wb |}) = Value)) /\
  (forall (wb : TWriteBuffer.t) (Position Value : Z),
      0 <= Position <= TWriteBuffer.Position wb ->
      TWriteBuffer.CanWrite wb 4 = true ->
      TWriteBuffer.Insert32 wb Position Value =
      Done {| TWriteBuffer.Buffer :=
                take (Z.to_nat Position) (TWriteBuffer.Buffer wb)
                  ++ LittleEndian_bytes32 Value
                  ++ take (length (TWriteBuffer.Buffer wb) - Z.to_nat Position - 4)
                          (drop (Z.to_nat Position) (TWriteBuffer.Buffer wb));
              TWriteBuffer.Position := TWriteBuffer.Position wb + 4 |}) /\
  (forall wb : TWriteBuffer.t,
      0xFFFF <= TWriteBuffer.Position wb - 2 < 4294967296 ->
      TWriteBuffer.Position wb + 4 <= Z.of_nat (length (TWriteBuffer.Buffer wb)) ->
      exists length_field payload,
        ExecuteQuery_frame wb =
        Done {| TWriteBuffer.Buffer := [0xFF; 0xFF] ++ length_field ++ payload;
                TWriteBuffer.Position := TWriteBuffer.Position wb + 4 |} /\
        length_field = LittleEndian_bytes32 (TWriteBuffer.Position wb - 2) /\
        LittleEndian_Uint32 length_field = TWriteBuffer.Position wb - 2 /\
        payload = take (length (TWriteBuffer.Buffer wb) - 6)
                       (drop 2 (TWriteBuffer.Buffer wb))) /\
  (forall (cfg : Config) (AutoReconnect : bool) (wb framed : TWriteBuffer.t)
          (c : TQueryManagerConnection) (w body : list Z) (b0 b1 b2 b3 : Z)
          (net : list io_event),
      2 < TWriteBuffer.Position wb ->
      ExecuteQuery_frame wb = Done framed ->
      TWriteBuffer.Overflowed framed = false ->
      Handle c = true ->
      Net c = IoOk w :: IoOk [0xFF; 0xFF] :: IoOk [b0; b1; b2; b3] :: IoOk body :: net ->
      0 <= b0 < 256 -> 0 <= b1 < 256 -> 0 <= b2 < 256 -> 0 <= b3 < 256 ->
      let ResponseSize := b0 + 256 * b1 + 65536 * b2 + 16777216 * b3 in
      0 < ResponseSize <= Z.of_nat (length (TWriteBuffer.Buffer framed)) ->
      exists Status ReadBuffer,
        ExecuteQuery cfg AutoReconnect (Some wb) c =
        Done (Status, ReadBuffer,
              {| Handle := true; Net := net;
                 Trace := Trace c ++
                   [OpWrite (take (Z.to_nat (TWriteBuffer.Position framed))
                                  (TWriteBuffer.Buffer framed));
                    OpRead 2; OpRead 4; OpRead (Z.to_nat ResponseSize)] |})) /\
  (forall Value : Z,
      LittleEndian_bytes16 Value = [Value mod 256; Value / 256 mod 256] /\
      LittleEndian_bytes32 Value =
        [Value mod 256; Value / 256 mod 256; Value / 65536 mod 256;
         Value / 16777216 mod 256]) /\
  (forall (wb : TWriteBuffer.t) (String : list Z),
      0 <= TWriteBuffer.Position wb ->
      let Output := UTF8ToLatin1 String in
      let Length := Z.of_nat (length Output) in
      Length < 4294967296 ->
      TWriteBuffer.CanWrite wb (Z.of_nat (length (length_prefix Length ++ Output))) = true ->
      let wb' := TWriteBuffer.WriteString wb String in
      written wb' = written wb ++ length_prefix Length ++ Output /\
      TReadBuffer.ReadString (reader wb' (TWriteBuffer.Position wb)) =
        (Latin1ToUTF8 Output, reader wb' (TWriteBuffer.Position wb'))) /\
  (forall (f : field) (rb : TReadBuffer.t) (rest : list Z),
      0 <= TReadBuffer.Position rb ->
      field_ok f ->
      TReadBuffer.tail rb = wire f ++ rest ->
      let rb' := TReadBuffer.advance rb (Z.of_nat (length (wire f))) in
      TReadBuffer.tail rb' = rest /\
      0 <= TReadBuffer.Position rb' /\
      match f with
      | F8 Value => TReadBuffer.Read8 rb = (Value, rb')
      | FFlag Value => TReadBuffer.ReadFlag rb = (Value, rb')
      | F16 Value => TReadBuffer.Read16 rb = (Value, rb')
      | F32 Value => TReadBuffer.Read32 rb = (Value, rb')
      | FString Latin1 => TReadBuffer.ReadString rb = (Latin1ToUTF8 Latin1, rb')
      end) /\
  (forall wb : TWriteBuffer.t,
      2 < TWriteBuffer.Position wb ->
      TWriteBuffer.Position wb - 2 < 0xFFFF ->
      TWriteBuffer.Position wb <= Z.of_nat (length (TWriteBuffer.Buffer wb)) ->
      ExecuteQuery_frame wb =
      Done {| TWriteBuffer.Buffer :=
                le16 (TWriteBuffer.Position wb - 2) ++ drop 2 (TWriteBuffer.Buffer wb);
              TWriteBuffer.Position := TWriteBuffer.Position wb |}) /\
  (forall (cfg : Config) (AutoReconnect : bool) (wb framed : TWriteBuffer.t)
          (c : TQueryManagerConnection),
      2 < TWriteBuffer.Position wb ->
      ExecuteQuery_frame wb = Done framed ->
      TWriteBuffer.Overflowed framed = false ->
      ExecuteQuery cfg AutoReconnect (Some wb) c =
      ExecuteQuery_loop (Connect cfg) AutoReconnect (TWriteBuffer.Buffer framed)
                        (TWriteBuffer.Position framed) 2 1 c) /\
  (forall (K : TQueryManagerConnection -> outcome (bool * TQueryManagerConnection))
          (AutoReconnect : bool) (Buffer : list Z) (WriteSize : Z)
          (fuel : nat) (Attempt : Z) (c : TQueryManagerConnection)
          (w body : list Z) (s0 s1 : Z),
      Handle c = true ->
      answer c 0 = IoOk w -> answer c 1 = IoOk [s0; s1] -> answer c 2 = IoOk body ->
      0 <= s0 < 256 -> 0 <= s1 < 256 ->
      let ResponseSize := s0 + 256 * s1 in
      ResponseSize <> 0xFFFF ->
      0 < ResponseSize <= Z.of_nat (length Buffer) ->
      exists Status ReadBuffer,
        ExecuteQuery_loop K AutoReconnect Buffer WriteSize (S fuel) Attempt c =
        Done (Status, ReadBuffer,
              {| Handle := true; Net := drop 3 (Net c);
                 Trace := Trace c ++ [OpWrite (take (Z.to_nat WriteSize) Buffer);
                                      OpRead 2; OpRead (Z.to_nat ResponseSize)] |})) /\
  (forall (K : TQueryManagerConnection -> outcome (bool * TQueryManagerConnection))
          (AutoReconnect : bool) (Buffer : list Z) (WriteSize : Z)
          (fuel : nat) (Attempt : Z) (c : TQueryManagerConnection)
          (w body : list Z) (b0 b1 b2 b3 : Z),
      Handle c = true ->
      answer c 0 = IoOk w -> answer c 1 = IoOk [0xFF; 0xFF] ->
      answer c 2 = IoOk [b0; b1; b2; b3] -> answer c 3 = IoOk body ->
      0 <= b0 < 256 -> 0 <= b1 < 256 -> 0 <= b2 < 256 -> 0 <= b3 < 256 ->
      let ResponseSize := b0 + 256 * b1 + 65536 * b2 + 16777216 * b3 in
      0 < ResponseSize <= Z.of_nat (length Buffer) ->
      exists Status ReadBuffer,
        ExecuteQuery_loop K AutoReconnect Buffer WriteSize (S fuel) Attempt c =
        Done (Status, ReadBuffer,
              {| Handle := true; Net := drop 4 (Net c);
                 Trace := Trace c ++ [OpWrite (take (Z.to_nat WriteSize) Buffer);
                                      OpRead 2; OpRead 4;
                                      OpRead (Z.to_nat ResponseSize)] |})) /\
  (forall (cfg : Config) (c : TQueryManagerConnection),
      (forall AccountID Password IPAddress,
          runs cfg (request QUERY_CHECK_ACCOUNT_PASSWORD (byte_array 1024)
                            [Op32 (uint32 AccountID); OpString Password;
                             OpString IPAddress]) c
               (Connection.CheckAccountPassword cfg AccountID Password IPAddress c)) /\
      (forall AccountID Email Password,
          runs cfg (request QUERY_CREATE_ACCOUNT (byte_array 1024)
                            [Op32 (uint32 AccountID); OpString Email; OpString Password]) c
               (Connection.CreateAccount cfg AccountID Email Password c)) /\
      (forall World AccountID Name Sex,
          runs cfg (request QUERY_CREATE_CHARACTER (byte_array 1024)
                            [OpString World; Op32 (uint32 AccountID); OpString Name;
                             Op8 (uint8 Sex)]) c
               (Connection.CreateCharacter cfg World AccountID Name Sex c)) /\
      (forall AccountID,
          runs cfg (request QUERY_GET_ACCOUNT_SUMMARY (byte_array 16384)
                            [Op32 (uint32 AccountID)]) c
               (Connection.GetAccountSummary cfg AccountID c)) /\
      (forall CharacterName,
          runs cfg (request QUERY_GET_CHARACTER_PROFILE (byte_array 16384)
                            [OpString CharacterName]) c
               (Connection.GetCharacterProfile cfg CharacterName c)) /\
      runs cfg (request QUERY_GET_WORLDS (byte_array 16384) []) c
           (Connection.GetWorlds cfg c) /\
      (forall World,
          runs cfg (request QUERY_GET_ONLINE_CHARACTERS (byte_array 65536)
                            [OpString World]) c
               (Connection.GetOnlineCharacters cfg World c)) /\
      (forall World,
          runs cfg (request QUERY_GET_KILL_STATISTICS (byte_array 65536)
                            [OpString World]) c
               (Connection.GetKillStatistics cfg World c))) /\
  (forall (cfg : Config) (AutoReconnect : bool) (QueryType : Z) (Buffer : list Z)
          (ops : list write_op) (c : TQueryManagerConnection),
      let payload := uint8 QueryType :: encodings ops in
      Z.of_nat (length payload) + 2 <= Z.of_nat (length Buffer) ->
      Z.of_nat (length payload) < 0xFFFF ->
      Handle c = true ->
      returned_after
        (Trace c ++ [OpWrite (le16 (Z.of_nat (length payload)) ++ payload)])
        (ExecuteQuery cfg AutoReconnect (Some (request QueryType Buffer ops)) c)) /\
  ((forall Value, encoding (Op16 Value) = le16 Value) /\
   (forall Value, encoding (Op32 Value) = le32 Value) /\
   (forall String,
       Z.of_nat (length (UTF8ToLatin1 String)) < 4294967296 ->
       encoding (OpString String) =
       length_prefix (Z.of_nat (length (UTF8ToLatin1 String))) ++ UTF8ToLatin1 String)) /\
  (forall (cfg : Config) (c c' : TQueryManagerConnection) (rb : TReadBuffer.t)
          (rest : list Z),
      0 <= TReadBuffer.Position rb ->
      (forall AccountID Email PremiumDays PendingPremiumDays Deleted Characters,
          ExecuteQuery cfg true
            (Some (request QUERY_GET_ACCOUNT_SUMMARY (byte_array 16384)
                           [Op32 (uint32 AccountID)])) c =
            Done (QUERY_STATUS_OK, rb, c') ->
          let fields :=
            [FString Email; F16 PremiumDays; F16 PendingPremiumDays; FFlag Deleted;
             F8 (Z.of_nat (length Characters))]
              ++ concat (character_summary_fields <$> Characters) in
          Forall field_ok fields ->
          TReadBuffer.tail rb = wires fields ++ rest ->
          Connection.GetAccountSummary cfg AccountID c =
          Done (0,
                TAccountSummary.Build AccountID (Latin1ToUTF8 Email) PremiumDays
                  PendingPremiumDays Deleted (character_summary_decoded <$> Characters),
                c')) /\
      (forall CharacterName Name World Sex Guild Rank Title Level Profession
              Residence LastLogin PremiumDays Online Deleted,
          ExecuteQuery cfg true
            (Some (request QUERY_GET_CHARACTER_PROFILE (byte_array 16384)
                           [OpString CharacterName])) c =
            Done (QUERY_STATUS_OK, rb, c') ->
          let fields :=
            [FString Name; FString World; F8 Sex; FString Guild; FString Rank;
             FString Title; F16 Level; FString Profession; FString Residence;
             F32 LastLogin; F16 PremiumDays; FFlag Online; FFlag Deleted] in
          Forall field_ok fields ->
          TReadBuffer.tail rb = wires fields ++ rest ->
          Connection.GetCharacterProfile cfg CharacterName c =
          Done (0,
                TCharacterProfile.Build
                  (Latin1ToUTF8 Name) (Latin1ToUTF8 World) Sex (Latin1ToUTF8 Guild)
                  (Latin1ToUTF8 Rank) (Latin1ToUTF8 Title) Level
                  (Latin1ToUTF8 Profession) (Latin1ToUTF8 Residence) LastLogin
                  PremiumDays Online Deleted,
                c')) /\
      (forall Worlds : list world_record,
          ExecuteQuery cfg true
            (Some (request QUERY_GET_WORLDS (byte_array 16384) [])) c =
            Done (QUERY_STATUS_OK, rb, c') ->
          let fields := F8 (Z.of_nat (length Worlds)) :: concat (world_fields <$> Worlds) in
          Forall field_ok fields ->
          TReadBuffer.tail rb = wires fields ++ rest ->
          Connection.GetWorlds cfg c = Done (0, world_decoded <$> Worlds, c')) /\
      (forall World (Characters : list TOnlineCharacter.t),
          ExecuteQuery cfg true
            (Some (request QUERY_GET_ONLINE_CHARACTERS (byte_array 65536)
                           [OpString World])) c =
            Done (QUERY_STATUS_OK, rb, c') ->
          let fields :=
            F16 (Z.of_nat (length Characters))
                :: concat (online_character_fields <$> Characters) in
          Forall field_ok fields ->
          TReadBuffer.tail rb = wires fields ++ rest ->
          Connection.GetOnlineCharacters cfg World c =
          Done (0, online_character_decoded <$> Characters, c')) /\
      (forall World (Stats : list TKillStatistics.t),
          ExecuteQuery cfg true
            (Some (request QUERY_GET_KILL_STATISTICS (byte_array 65536)
                           [OpString World])) c =
            Done (QUERY_STATUS_OK, rb, c') ->
          let fields :=
            F16 (Z.of_nat (length Stats)) :: concat (kill_statistics_fields <$> Stats) in
          Forall field_ok fields ->
          TReadBuffer.tail rb = wires fields ++ rest ->
          Connection.GetKillStatistics cfg World c =
          Done (0, kill_statistics_decoded <$> Stats, c'))).
Proof.
  split.
  { intros wb Value Hpos. split; intros Hcan Hv.
    - now apply Write16_Read16.
    - now apply Write32_Read32. }
  split; [exact Insert32_layout|]. split.
  { intros wb Hbig Hlen. do 2 eexists. split; [|split; [|split]].
    + rewrite ExecuteQuery_frame_large by lia.
      unfold uint32. rewrite Z.mod_small by lia. reflexivity.
    + reflexivity.
    + apply LittleEndian_bytes32_value. lia.
    + reflexivity. }
  split.
  { intros cfg AutoReconnect wb framed c w body b0 b1 b2 b3 net
           Hpos Hf Ho Hc Hn H0 H1 H2 H3 ResponseSize Hr.
    rewrite (ExecuteQuery_is_loop cfg AutoReconnect wb framed c Hpos Hf Ho).
    unfold ResponseSize in *.
    rewrite <- LittleEndian_Uint32_value in * by assumption.
    now apply (ExecuteQuery_loop_extended_size _ _ _ _ _ _ c w body b0 b1 b2 b3 net). }
  split.
  { intros Value. split;
      [apply LittleEndian_bytes16_le16|apply LittleEndian_bytes32_le32]. }
  split; [exact WriteString_layout|].
  split; [exact read_wire|].
  split.
  { intros wb Hpos Hs Hfit. rewrite <- LittleEndian_bytes16_le16.
    now apply ExecuteQuery_frame_small. }
  split; [exact ExecuteQuery_is_loop|].
  split; [exact round_short_response|].
  split; [exact round_extended_response|].
  split; [exact typed_queries_run|].
  split.
  { intros cfg AutoReconnect QueryType Buffer ops c payload.
    rewrite <- LittleEndian_bytes16_le16.
    exact (request_sent cfg AutoReconnect QueryType Buffer ops c). }
  split; [exact encoding_little_endian|].
  intros cfg c c' rb rest Hp. repeat apply conj; intros.
  - eapply GetAccountSummary_decodes; eassumption.
  - eapply GetCharacterProfile_decodes; eassumption.
  - eapply GetWorlds_decodes; eassumption.
  - eapply GetOnlineCharacters_decodes; eassumption.
  - eapply GetKillStatistics_decodes; eassumption.
Qed.
Lemma extended_lengths_little_endian_witness :
  TWriteBuffer.Insert32
    {| TWriteBuffer.Buffer := [9; 9; 150; 7; 0; 0; 0; 0];
       TWriteBuffer.Position := 4 |} 2 65536 =
  Done {| TWriteBuffer.Buffer := [9; 9; 0; 0; 1; 0; 150; 7];
          TWriteBuffer.Position := 8 |}.
Proof.
  exact (proj1 (proj2 extended_lengths_little_endian)
               {| TWriteBuffer.Buffer := [9; 9; 150; 7; 0; 0; 0; 0];
                  TWriteBuffer.Position := 4 |} 2 65536
               ltac:(simpl; lia) ltac:(reflexivity)).
Defined.

(** C2, as stated, fails: the spliced length 0x00010000 is stored as
    00 00 01 00, its big-endian form being 00 01 00 00; and after the
    sentinel the bytes 02 00 00 00 announce a response of 2 bytes, which
    the executor reads, where the big-endian reading 0x02000000 would
    exceed the buffer. *)
Lemma extended_lengths_not_big_endian :
  TWriteBuffer.Insert32
    {| TWriteBuffer.Buffer := [9; 9; 150; 7; 0; 0; 0; 0];
       TWriteBuffer.Position := 4 |} 2 65536 =
  Done {| TWriteBuffer.Buffer := [9; 9; 0; 0; 1; 0; 150; 7];
          TWriteBuffer.Position := 8 |} /\
  BigEndian_bytes32 65536 = [0; 1; 0; 0] /\
  ExecuteQuery example_cfg true (Some example_request)
    (connected [IoOk []; IoOk [255; 255]; IoOk [2; 0; 0; 0]; IoOk [0; 7]]) =
  Done (0,
        {| TReadBuffer.Buffer := [0; 7; 150; 0; 0; 0; 0; 0; 0; 0; 0; 0; 0; 0; 0; 0];
           TReadBuffer.Position := 1 |},
        {| Handle := true; Net := [];
           Trace := [OpWrite [1; 0; 150]; OpRead 2; OpRead 4; OpRead 2] |}) /\
  BigEndian_Uint32 [2; 0; 0; 0] = 33554432.
Proof. repeat split. Qed.


(** A whole exchange of "get worlds": the request carries its length in
    two bytes, least significant first, and the 16- and 32-bit fields of
    the world in the response are decoded from their bytes in the same
    order (258 players from 02 01, the peak time 0x01020304 from
    04 03 02 01). *)
Example GetWorlds_ex_little_endian :
  Connection.GetWorlds example_cfg
    (connected [IoOk []; IoOk [24; 0];
                IoOk [0; 1; 1; 0; 65; 0; 2; 1; 232; 3; 3; 0;
                      4; 3; 2; 1; 1; 0; 0; 0; 0; 0; 0; 0]]) =
  Done (0,
        [TWorld.Build [65] [78; 111; 114; 109; 97; 108] 258 1000 3 16909060 1 0],
        {| Handle := true; Net := [];
           Trace := [OpWrite [1; 0; 150]; OpRead 2; OpRead 24] |}).
Proof. vm_compute. reflexivity. Qed.
(** ** More on the bounded caches (query.go) *)


(** *** One slot per account *)

(** No two slots hold the same account; empty slots (id 0) aside. *)
Definition account_ids_unique (slots : list TAccountCacheEntry.t) : Prop :=
  forall (i j : nat) (e e' : TAccountCacheEntry.t),
    slots !! i = Some e -> slots !! j = Some e' ->
    TAccountCacheEntry.AccountID e = TAccountCacheEntry.AccountID e' ->
    TAccountCacheEntry.AccountID e <> 0 -> i = j.

(** Every slot of [slots'] is the slot of [slots] at its place, or empty. *)
Definition slots_kept (slots slots' : list TAccountCacheEntry.t) : Prop :=
  length slots' = length slots /\
  forall (i : nat) (x : TAccountCacheEntry.t),
    slots' !! i = Some x ->
    exists e, slots !! i = Some e /\ (x = TAccountCacheEntry.zero \/ x = e).

Lemma slots_kept_refl (slots : list TAccountCacheEntry.t) : slots_kept slots slots.
Proof. split; [reflexivity|]. intros i x H. eauto. Qed.

Lemma unique_kept (slots slots' : list TAccountCacheEntry.t) :
  slots_kept slots slots' -> account_ids_unique slots -> account_ids_unique slots'.
Proof.
  intros [_ Hk] Hu i j x x' Hi Hj Heq Hnz.
  destruct (Hk i x Hi) as (e & Hei & [-> | ->]); [now contradiction Hnz|].
  destruct (Hk j x' Hj) as (e' & Hej & [-> | ->]).
  - rewrite Heq in Hnz. now contradiction Hnz.
  - eapply Hu; eauto.
Qed.

Lemma unique_touch (f : TAccountCacheEntry.t -> TAccountCacheEntry.t) (idx : nat)
      (slots : list TAccountCacheEntry.t) :
  (forall e, TAccountCacheEntry.AccountID (f e) = TAccountCacheEntry.AccountID e) ->
  account_ids_unique slots -> account_ids_unique (alter f idx slots).
Proof.
  intros Hf Hu i j x x' Hi Hj Heq Hnz.
  assert (Hlook : forall k y, alter f idx slots !! k = Some y ->
                    exists e, slots !! k = Some e /\
                              TAccountCacheEntry.AccountID y = TAccountCacheEntry.AccountID e).
  { intros k y Hy. rewrite list_lookup_alter in Hy.
    destruct (decide (idx = k)) as [<-|_]; [|eauto].
    destruct (slots !! idx) as [e|]; simpl in Hy; [|discriminate].
    injection Hy as <-. eauto. }
  destruct (Hlook i x Hi) as (e & Hei & Ei). destruct (Hlook j x' Hj) as (e' & Hej & Ej).
  apply (Hu i j e e' Hei Hej); congruence.
Qed.

Lemma unique_store (idx : nat) (x : TAccountCacheEntry.t)
      (slots : list TAccountCacheEntry.t) :
  Forall (fun e => TAccountCacheEntry.AccountID e <> TAccountCacheEntry.AccountID x) slots ->
  account_ids_unique slots -> account_ids_unique (<[idx := x]> slots).
Proof.
  intros Hall Hu i j y y' Hi Hj Heq Hnz.
  rewrite Forall_lookup in Hall.
  apply list_lookup_insert_Some in Hi. apply list_lookup_insert_Some in Hj.
  destruct Hi as [(-> & <- & _)|(Hni & Hi)]; destruct Hj as [(-> & <- & _)|(Hnj & Hj)].
  - reflexivity.
  - exfalso. apply (Hall j y' Hj). congruence.
  - exfalso. apply (Hall i y Hi). congruence.
  - eapply Hu; eauto.
Qed.

Lemma unique_replicate (n : nat) :
  account_ids_unique (replicate n TAccountCacheEntry.zero).
Proof.
  intros i j e e' Hi _ _ Hnz. apply lookup_replicate in Hi as [-> _].
  now contradiction Hnz.
Qed.

Lemma InvalidateAccount_loop_kept (AccountID : Z) (slots : list TAccountCacheEntry.t) :
  slots_kept slots (InvalidateAccount_loop AccountID slots).
Proof.
  induction slots as [|e slots [IHl IH]]; cbn [InvalidateAccount_loop].
  - apply slots_kept_refl.
  - destruct (_ =? _).
    + split; [reflexivity|]. intros [|i] x Hx; simpl in *; eauto.
      injection Hx as <-. eauto.
    + split; [cbn [length]; now rewrite IHl|].
      intros [|i] x Hx; simpl in *; eauto.
Qed.

(** Where no two slots hold the same account, the loop leaves none that
    holds [AccountID]. *)
Lemma InvalidateAccount_loop_clears (AccountID : Z) (slots : list TAccountCacheEntry.t) :
  AccountID <> 0 -> account_ids_unique slots ->
  Forall (fun e => TAccountCacheEntry.AccountID e <> AccountID)
         (InvalidateAccount_loop AccountID slots).
Proof.
  intros Hnz. induction slots as [|e slots IH]; intros Hu; cbn [InvalidateAccount_loop].
  - constructor.
  - destruct (_ =? _) eqn:He.
    + apply Z.eqb_eq in He. constructor; [simpl; lia|].
      apply Forall_lookup. intros j e' Hj Heq.
      specialize (Hu 0%nat (S j) e e' eq_refl Hj). lia.
    + apply Z.eqb_neq in He. constructor; [assumption|]. apply IH.
      intros i j x x' Hi Hj Heq Hx.
      specialize (Hu (S i) (S j) x x' Hi Hj Heq Hx). lia.
Qed.

Section AccountCache.

Variable cfg : Config.
Variable clock : nat -> Z.

Local Abbreviation interval := (g_CharacterRefreshInterval cfg).
Local Abbreviation acc_swept := (account_swept cfg clock).
Local Abbreviation acc_sweep :=
  (sweep _ TAccountCacheEntry.LastAccess TAccountCacheEntry.zero interval clock).

Lemma GetAccountSummary_empty (AccountID : Z) (g : Globals) :
  AccountCacheOf cfg g = [] -> GetAccountSummary cfg clock AccountID g = Panic.
Proof.
  unfold AccountCacheOf, GetAccountSummary, make. intros H.
  destruct (g_AccountCache g); [now rewrite H|].
  destruct (_ <? 0); [reflexivity|]. now rewrite H.
Qed.

Lemma GetAccountSummary_nonempty (AccountID : Z) (g : Globals) :
  GetAccountSummary cfg clock AccountID g <> Panic ->
  exists first rest, AccountCacheOf cfg g = first :: rest.
Proof.
  intros H. destruct (AccountCacheOf cfg g) as [|first rest] eqn:E; [|eauto].
  contradiction H. now apply GetAccountSummary_empty.
Qed.

Lemma acc_swept_kept (ticks : nat) (slots : list TAccountCacheEntry.t) :
  slots_kept slots (acc_swept ticks slots).
Proof.
  split; [apply length_swept|]. intros i x Hx.
  unfold account_swept in Hx. rewrite lookup_swept in Hx.
  destruct (slots !! i) as [e|]; [|discriminate]. injection Hx as <-.
  exists e. split; [reflexivity|]. apply sweep_cases.
Qed.

(** What a call that returns leaves in the cache. *)
Lemma GetAccountSummary_after (AccountID : Z) (g g' : Globals)
      (Result : Z) (Account : TAccountSummary.t) :
  GetAccountSummary cfg clock AccountID g = Done (Result, Account, g') ->
  exists cache',
    g_AccountCache g' = Some cache' /\
    length cache' = length (AccountCacheOf cfg g) /\
    (account_ids_unique (AccountCacheOf cfg g) -> account_ids_unique cache') /\
    (Ticks g < Ticks g')%nat /\
    (Result = 0 ->
     exists (i : nat) (e : TAccountCacheEntry.t),
       cache' !! i = Some e /\
       TAccountCacheEntry.AccountID e = AccountID /\
       TAccountCacheEntry.Data e = Account /\
       TAccountCacheEntry.LastAccess e = clock (pred (Ticks g'))).
Proof.
  intros H.
  destruct (GetAccountSummary_nonempty AccountID g) as (first & rest & Hc);
    [now rewrite H|].
  rewrite (GetAccountSummary_scan cfg clock AccountID g first rest Hc) in H.
  cbv zeta in H. rewrite Hc.
  set (s := account_scan cfg clock AccountID first rest (Ticks g)) in *.
  destruct (Entry s) as [k|] eqn:HE.
  - (* served from the cache *)
    destruct (slot_scan_hit _ _ _ _ _ _ _ _ _ _ _ _ HE)
      as (j & e & -> & Hj & Hhit & Hpre & HS & HT).
    change (0 + j)%nat with j in *.
    change (Slots s = swept _ TAccountCacheEntry.LastAccess TAccountCacheEntry.zero
                            interval clock (Ticks g) (take j (first :: rest)) ++
                      acc_sweep (Ticks g + j) e :: drop (S j) (first :: rest)) in HS.
    change (ScanTicks s = (Ticks g + S j)%nat) in HT.
    destruct (slot_scan_slots _ TAccountCacheEntry.LastAccess TAccountCacheEntry.zero
                (account_hit AccountID) interval clock (first :: rest) 0 0
                (TAccountCacheEntry.LastAccess first) (Ticks g)) as [Hlen Hkept].
    change (length (Slots s) = length (first :: rest)) in Hlen.
    assert (Hat : Slots s !! j = Some (acc_sweep (Ticks g + j) e)).
    { rewrite HS. simpl. apply list_lookup_middle.
      rewrite length_swept, length_take. apply lookup_lt_Some in Hj. lia. }
    rewrite Hat in H. simpl in H. injection H as <- <- <-.
    eexists. split; [reflexivity|]. split; [now rewrite length_alter|].
    split; [|split].
    + intros Hu. apply unique_touch; [reflexivity|].
      apply (unique_kept (first :: rest)); [|assumption]. split; assumption.
    + cbn [Ticks with_accounts]. rewrite HT. lia.
    + intros _. eexists j, _. split.
      * rewrite list_lookup_alter, decide_True by reflexivity. rewrite Hat. reflexivity.
      * cbn [TAccountCacheEntry.AccountID TAccountCacheEntry.Data
               TAccountCacheEntry.LastAccess Ticks with_accounts pred].
        repeat split. unfold account_hit in Hhit. now apply Z.eqb_eq in Hhit.
  - (* asked of the backend *)
    destruct (slot_scan_miss _ _ _ _ _ _ _ _ _ _ _ HE) as (HS & HT & Hmiss).
    change (Slots s = acc_swept (Ticks g) (first :: rest)) in HS.
    change (ScanTicks s = (Ticks g + length (first :: rest))%nat) in HT.
    destruct (Connection_GetAccountSummary_returns cfg AccountID
                (g_QueryManagerConnection g)) as (R & A & c & HQ).
    rewrite HQ, bind_Done in H.
    assert (Hidx : (LeastRecentlyUsedIndex s < length (Slots s))%nat).
    { rewrite HS. unfold account_swept. rewrite length_swept.
      destruct (slot_scan_lru _ _ _ _ _ _ _ _ _ _ _ HE)
        as [(E & _)|(i & x & E & Hi & _)];
        unfold s, account_scan, scan_all; rewrite E.
      - simpl. lia.
      - apply lookup_lt_Some in Hi. rewrite length_swept in Hi. exact Hi. }
    destruct (R =? 0) eqn:HR; injection H as <- <- <-.
    + destruct (lookup_lt_is_Some_2 _ _ Hidx) as [x Hx].
      rewrite (alter_as_insert _ _ _ x Hx).
      eexists. split; [reflexivity|]. split; [|split; [|split]].
      * rewrite length_insert, HS. apply length_swept.
      * intros Hu. apply unique_store.
        -- rewrite HS. eapply Forall_impl; [exact Hmiss|].
           intros y Hy. unfold account_hit in Hy. cbn [TAccountCacheEntry.AccountID].
           now apply Z.eqb_neq in Hy.
        -- rewrite HS. apply (unique_kept (first :: rest)); [|assumption].
           apply acc_swept_kept.
      * cbn [Ticks with_accounts]. rewrite HT. lia.
      * intros _. eexists (LeastRecentlyUsedIndex s), _. split.
        -- apply list_lookup_insert_Some. left. auto.
        -- cbn [TAccountCacheEntry.AccountID TAccountCacheEntry.Data
                  TAccountCacheEntry.LastAccess Ticks with_accounts pred].
           repeat split.
    + eexists. split; [reflexivity|]. split; [|split; [|split]].
      * rewrite HS. apply length_swept.
      * intros Hu. rewrite HS. apply (unique_kept (first :: rest)); [|assumption].
        apply acc_swept_kept.
      * cbn [Ticks with_accounts]. rewrite HT. simpl. lia.
      * intros ->. discriminate HR.
Qed.

Lemma AccountCacheOf_Some (g : Globals) (cache : list TAccountCacheEntry.t) :
  g_AccountCache g = Some cache -> AccountCacheOf cfg g = cache.
Proof. unfold AccountCacheOf. now intros ->. Qed.

(** X13.  An account never occupies two slots.  The slots a first call
    allocates hold no account twice; a call of [GetAccountSummary] that
    returns and a call of [InvalidateAccountCachedData] keep it so, and
    neither changes the number of slots. *)
Theorem account_cache_one_slot_per_account (g : Globals) :
  account_ids_unique (AccountCacheOf cfg g) ->
  (forall AccountID Result Account g',
      GetAccountSummary cfg clock AccountID g = Done (Result, Account, g') ->
      account_ids_unique (AccountCacheOf cfg g') /\
      length (AccountCacheOf cfg g') = length (AccountCacheOf cfg g)) /\
  (forall AccountID,
      account_ids_unique (AccountCacheOf cfg (InvalidateAccountCachedData AccountID g)) /\
      length (AccountCacheOf cfg (InvalidateAccountCachedData AccountID g)) =
      length (AccountCacheOf cfg g)) /\
  (forall g0, g_AccountCache g0 = None -> account_ids_unique (AccountCacheOf cfg g0)).
Proof.
  intros Hu. split; [|split].
  - intros AccountID Result Account g' H.
    destruct (GetAccountSummary_after AccountID g g' Result Account H)
      as (cache' & Hc & Hl & Hu' & _).
    rewrite (AccountCacheOf_Some g' cache' Hc). auto.
  - intros AccountID. unfold AccountCacheOf in *.
    cbn [InvalidateAccountCachedData g_AccountCache].
    destruct (g_AccountCache g) as [cache|]; cbn [fmap option_fmap option_map].
    + destruct (InvalidateAccount_loop_kept AccountID cache) as [Hl Hk].
      split; [|assumption]. apply (unique_kept cache); [split|]; assumption.
    + auto.
  - intros g0 H0. unfold AccountCacheOf. rewrite H0. apply unique_replicate.
Qed.

(** X14.  Invalidation forces a fresh answer.  Where no account occupies
    two slots, the lookup of an account (other than the zero id) that
    follows its invalidation is answered by the backend: its result and
    summary are those of the query on the connection, which the call
    used. *)
Theorem invalidated_account_is_refetched (AccountID : Z) (g : Globals) :
  account_ids_unique (AccountCacheOf cfg g) ->
  AccountID <> 0 ->
  AccountCacheOf cfg g <> [] ->
  exists Result Account g',
    GetAccountSummary cfg clock AccountID (InvalidateAccountCachedData AccountID g) =
      Done (Result, Account, g') /\
    Connection.GetAccountSummary cfg AccountID (g_QueryManagerConnection g) =
      Done (Result, Account, g_QueryManagerConnection g') /\
    exists op ops,
      Trace (g_QueryManagerConnection g') =
      Trace (g_QueryManagerConnection g) ++ op :: ops.
Proof.
  intros Hu Hnz Hne.
  set (g1 := InvalidateAccountCachedData AccountID g).
  assert (Hclear : Forall (fun e => TAccountCacheEntry.AccountID e <> AccountID)
                          (AccountCacheOf cfg g1)).
  { unfold g1, AccountCacheOf in *.
    cbn [InvalidateAccountCachedData g_AccountCache].
    destruct (g_AccountCache g) as [cache|]; cbn [fmap option_fmap option_map].
    - now apply InvalidateAccount_loop_clears.
    - apply Forall_replicate. simpl. lia. }
  assert (Hlen : length (AccountCacheOf cfg g1) = length (AccountCacheOf cfg g)).
  { unfold g1, AccountCacheOf.
    cbn [InvalidateAccountCachedData g_AccountCache].
    destruct (g_AccountCache g) as [cache|]; cbn [fmap option_fmap option_map];
      [|reflexivity].
    apply InvalidateAccount_loop_kept. }
  destruct (AccountCacheOf cfg g1) as [|first rest] eqn:Hc.
  { destruct (AccountCacheOf cfg g); [now contradiction Hne|discriminate]. }
  destruct (Connection_GetAccountSummary_returns cfg AccountID
              (g_QueryManagerConnection g)) as (R & A & c & HQ).
  destruct (GetAccountSummary_miss cfg clock AccountID g1 first rest R A c Hc)
    as (idx & e & _ & _ & HG).
  - apply swept_Forall.
    + unfold account_hit.
      change (TAccountCacheEntry.AccountID TAccountCacheEntry.zero) with 0.
      apply Z.eqb_neq. lia.
    + eapply Forall_impl; [exact Hclear|]. intros y Hy. unfold account_hit.
      now apply Z.eqb_neq.
  - exact HQ.
  - exists R, A. eexists. split; [exact HG|].
    assert (Hconn : forall x y : Globals,
               g_QueryManagerConnection
                 (if R =? 0 then x else y) =
               if R =? 0 then g_QueryManagerConnection x
               else g_QueryManagerConnection y)
      by (intros; now destruct (R =? 0)).
    rewrite Hconn. cbn [g_QueryManagerConnection with_accounts].
    replace (if R =? 0 then c else c) with c by now destruct (R =? 0).
    split; [exact HQ|].
    eapply Connection_GetAccountSummary_contacts. exact HQ.
Qed.

(** The [n] readings of the clock from number [from] on are all less than
    the refresh interval after [stamp]. *)
Definition fresh_during (stamp : Z) (from n : nat) : Prop :=
  forall k : nat, (from <= k < from + n)%nat -> time.Since (clock k) stamp < interval.

Lemma acc_sweep_fresh (k : nat) (e : TAccountCacheEntry.t) :
  time.Since (clock k) (TAccountCacheEntry.LastAccess e) < interval ->
  acc_sweep k e = e.
Proof. intros H. unfold sweep. destruct (interval <=? _) eqn:E; [lia|reflexivity]. Qed.

(** X15.  A cached account is served while it is fresh.  Where no account
    occupies two slots, a lookup that returned result 0 for an account
    (other than the zero id) is repeated by the next lookup, if the clock
    readings of its scan are all less than the refresh interval after the
    first call's last reading: same summary, result 0, and the connection
    is not used. *)
Theorem account_served_while_fresh
        (AccountID : Z) (g g' : Globals) (Account : TAccountSummary.t) :
  account_ids_unique (AccountCacheOf cfg g) ->
  AccountID <> 0 ->
  GetAccountSummary cfg clock AccountID g = Done (0, Account, g') ->
  fresh_during (clock (pred (Ticks g'))) (Ticks g') (length (AccountCacheOf cfg g')) ->
  exists g'',
    GetAccountSummary cfg clock AccountID g' = Done (0, Account, g'') /\
    g_QueryManagerConnection g'' = g_QueryManagerConnection g'.
Proof.
  intros Hu Hnz H Hfresh.
  destruct (GetAccountSummary_after AccountID g g' 0 Account H)
    as (cache' & Hc & _ & Hu' & _ & Hentry).
  destruct (Hentry eq_refl) as (i & e & Hi & Hid & Hdata & Hlast).
  specialize (Hu' Hu). apply AccountCacheOf_Some in Hc. rewrite Hc in Hfresh.
  pose proof (take_drop_middle cache' i e Hi) as Hsplit.
  assert (Hlen : length (take i cache') = i).
  { rewrite length_take. apply lookup_lt_Some in Hi. lia. }
  assert (Hsw : acc_sweep (Ticks g' + length (take i cache')) e = e).
  { apply acc_sweep_fresh. rewrite Hlast, Hlen. apply Hfresh.
    apply lookup_lt_Some in Hi. lia. }
  destruct (GetAccountSummary_hit cfg clock AccountID g' (take i cache') e
                                   (drop (S i) cache'))
    as (g'' & HG & Hconn).
  - now rewrite Hsplit.
  - apply swept_Forall.
    + unfold account_hit.
      change (TAccountCacheEntry.AccountID TAccountCacheEntry.zero) with 0.
      apply Z.eqb_neq. lia.
    + apply Forall_lookup. intros j x Hj. unfold account_hit. apply Z.eqb_neq.
      intros Hx. rewrite lookup_take_Some in Hj. destruct Hj as [Hj Hlt].
      assert (j = i); [|lia].
      apply (Hu' j i x e Hj Hi); congruence.
  - rewrite Hsw. unfold account_hit. now apply Z.eqb_eq.
  - rewrite Hsw, Hdata in HG. eauto.
Qed.

(** X16.  The account cache never serves an expired entry.  Every answer
    of [GetAccountSummary] is either the answer of the backend to this
    very query, or result 0 with the data of a slot that holds the
    account and whose last access is less than the refresh interval
    before the clock reading of its visit; the zero id is also answered,
    with the zero summary, from a slot that the visit emptied. *)
Theorem account_answers_are_fresh
        (AccountID : Z) (g g' : Globals) (Result : Z) (Account : TAccountSummary.t) :
  GetAccountSummary cfg clock AccountID g = Done (Result, Account, g') ->
  Connection.GetAccountSummary cfg AccountID (g_QueryManagerConnection g) =
    Done (Result, Account, g_QueryManagerConnection g') \/
  (Result = 0 /\ g_QueryManagerConnection g' = g_QueryManagerConnection g /\
   exists (j : nat) (e : TAccountCacheEntry.t),
     AccountCacheOf cfg g !! j = Some e /\
     ((TAccountCacheEntry.AccountID e = AccountID /\
       TAccountCacheEntry.Data e = Account /\
       time.Since (clock (Ticks g + j)) (TAccountCacheEntry.LastAccess e) < interval) \/
      (AccountID = 0 /\ Account = TAccountSummary.zero /\
       interval <= time.Since (clock (Ticks g + j)) (TAccountCacheEntry.LastAccess e)))).
Proof.
  intros H.
  destruct (GetAccountSummary_nonempty AccountID g) as (first & rest & Hc);
    [now rewrite H|].
  rewrite (GetAccountSummary_scan cfg clock AccountID g first rest Hc) in H.
  cbv zeta in H. rewrite Hc.
  set (s := account_scan cfg clock AccountID first rest (Ticks g)) in *.
  destruct (Entry s) as [k|] eqn:HE.
  - right.
    destruct (slot_scan_hit _ _ _ _ _ _ _ _ _ _ _ _ HE)
      as (j & e & -> & Hj & Hhit & Hpre & HS & HT).
    change (0 + j)%nat with j in *.
    assert (Hat : Slots s !! j = Some (acc_sweep (Ticks g + j) e)).
    { unfold s, account_scan, scan_all. rewrite HS. apply list_lookup_middle.
      rewrite length_swept, length_take. apply lookup_lt_Some in Hj. lia. }
    rewrite Hat in H. simpl in H. injection H as <- <- <-.
    split; [reflexivity|]. split; [reflexivity|]. exists j, e. split; [assumption|].
    unfold account_hit in Hhit. apply Z.eqb_eq in Hhit. revert Hhit.
    unfold sweep. destruct (interval <=? _) eqn:E.
    + apply Z.leb_le in E. intros <-. right. auto.
    + apply Z.leb_gt in E. intros <-. left. auto.
  - left.
    destruct (Connection_GetAccountSummary_returns cfg AccountID
                (g_QueryManagerConnection g)) as (R & A & c & HQ).
    rewrite HQ, bind_Done in H. rewrite HQ.
    destruct (R =? 0); now injection H as <- <- <-.
Qed.

End AccountCache.

Lemma account_cache_one_slot_per_account_witness :
  exists Result Account g',
    GetAccountSummary example_cfg example_clock 5
                      (start (connected (summary_exchange 97))) =
      Done (Result, Account, g') /\
    account_ids_unique (AccountCacheOf example_cfg g') /\
    length (AccountCacheOf example_cfg g') = 2%nat.
Proof.
  do 3 eexists. split; [vm_compute; reflexivity|].
  apply (proj1 (account_cache_one_slot_per_account example_cfg example_clock
                  (start (connected (summary_exchange 97)))
                  (unique_replicate 2))
               5 0 (TAccountSummary.Build 5 [97] 0 0 false [])).
  vm_compute. reflexivity.
Defined.

Lemma invalidated_account_is_refetched_witness :
  exists Result Account g',
    GetAccountSummary example_cfg example_clock 5
      (InvalidateAccountCachedData 5
         (with_accounts (start (connected (summary_exchange 98)))
            (connected (summary_exchange 98))
            [TAccountCacheEntry.Build 5 0 (TAccountSummary.Build 5 [97] 0 0 false []) 5002;
             TAccountCacheEntry.zero] 3)) =
      Done (Result, Account, g') /\
    Connection.GetAccountSummary example_cfg 5 (connected (summary_exchange 98)) =
      Done (Result, Account, g_QueryManagerConnection g') /\
    exists op ops,
      Trace (g_QueryManagerConnection g') =
      Trace (connected (summary_exchange 98)) ++ op :: ops.
Proof.
  apply (invalidated_account_is_refetched example_cfg example_clock 5
           (with_accounts (start (connected (summary_exchange 98)))
              (connected (summary_exchange 98))
              [TAccountCacheEntry.Build 5 0 (TAccountSummary.Build 5 [97] 0 0 false [])
                                        5002;
               TAccountCacheEntry.zero] 3)).
  - apply (unique_store 0
             (TAccountCacheEntry.Build 5 0 (TAccountSummary.Build 5 [97] 0 0 false [])
                                       5002)
             (replicate 2 TAccountCacheEntry.zero));
      [repeat constructor; simpl; lia|apply unique_replicate].
  - lia.
  - discriminate.
Defined.

Lemma account_served_while_fresh_witness :
  exists Account g',
    GetAccountSummary example_cfg example_clock 5
                      (start (connected (summary_exchange 97))) =
      Done (0, Account, g') /\
    exists g'',
      GetAccountSummary example_cfg example_clock 5 g' = Done (0, Account, g'') /\
      g_QueryManagerConnection g'' = g_QueryManagerConnection g'.
Proof.
  do 2 eexists. split; [vm_compute; reflexivity|].
  apply (account_served_while_fresh example_cfg example_clock 5
           (start (connected (summary_exchange 97)))).
  - apply (unique_replicate 2).
  - lia.
  - vm_compute. reflexivity.
  - intros k Hk. cbn in Hk.
    unfold time.Since, time.Sub, time.minDuration, time.maxDuration, example_clock.
    cbn. lia.
Defined.

Lemma account_answers_are_fresh_witness :
  exists Result Account g',
    GetAccountSummary example_cfg example_clock 5
                      (start (connected (summary_exchange 97))) =
      Done (Result, Account, g') /\
    Connection.GetAccountSummary example_cfg 5 (connected (summary_exchange 97)) =
      Done (Result, Account, g_QueryManagerConnection g').
Proof.
  do 3 eexists. split; [vm_compute; reflexivity|].
  destruct (account_answers_are_fresh example_cfg example_clock 5
              (start (connected (summary_exchange 97)))
              _ 0 (TAccountSummary.Build 5 [97] 0 0 false [])
              ltac:(vm_compute; reflexivity)) as [H|(_ & H & _)].
  - exact H.
  - vm_compute in H. discriminate.
Defined.
